(** * ChatDB: the command-and-document interpretation core

    A shallow embedding of [server/gemini.ts] (type inference, tabular
    extractors, command interpreter, response formatter) together with the
    JavaScript run-time pieces the code relies on: strings, regular
    expressions with backtracking and capture groups, [Number] and
    [Date.parse] on strings, numbers as [String] writes them, and objects
    with the members they hold and the members they inherit from
    [Object.prototype].

    Strings are sequences of 8-bit code units; every code unit above 127 is
    neither white space nor a word character and has no case. *)

From Stdlib Require Import List String Ascii ZArith Lia Bool Arith.
From stdpp Require Import base option list strings gmap pretty.

Local Open Scope list_scope.

(* ===================================================================== *)
(** * Characters and strings, as the JavaScript run time treats them *)
(* ===================================================================== *)

Module Chars.

Definition code (c : ascii) : nat := nat_of_ascii c.

Definition between (lo hi : nat) (c : ascii) : bool :=
  (lo <=? code c) && (code c <=? hi).

(** White space and line terminators: TAB, LF, VT, FF, CR, SP. *)
Definition is_space (c : ascii) : bool :=
  between 9 13 c || (code c =? 32).

Definition is_digit (c : ascii) : bool := between 48 57 c.
Definition is_upper (c : ascii) : bool := between 65 90 c.
Definition is_lower (c : ascii) : bool := between 97 122 c.

(** [\w]: letters, digits and underscore. *)
Definition is_word (c : ascii) : bool :=
  is_upper c || is_lower c || is_digit c || (code c =? 95).

(** Line terminators, which [.] refuses. *)
Definition is_line_terminator (c : ascii) : bool :=
  (code c =? 10) || (code c =? 13).

Definition to_lower (c : ascii) : ascii :=
  if is_upper c then ascii_of_nat (code c + 32) else c.

Definition to_upper (c : ascii) : ascii :=
  if is_lower c then ascii_of_nat (code c - 32) else c.

Definition eqb (a b : ascii) : bool := Ascii.eqb a b.

End Chars.

(** JavaScript strings are handled as lists of code units inside the
    matcher and as [string] in the data model. *)
Abbreviation chars := (list ascii).

Definition chars_of (s : string) : chars := list_ascii_of_string s.
Definition str_of (l : chars) : string := string_of_list_ascii l.

Module Str.

(** [String.prototype.toLowerCase] *)
Definition toLowerCase (s : string) : string :=
  str_of (map Chars.to_lower (chars_of s)).

Fixpoint drop_space (l : chars) : chars :=
  match l with
  | c :: t => if Chars.is_space c then drop_space t else l
  | [] => []
  end.

(** [String.prototype.trim] *)
Definition trim (s : string) : string :=
  str_of (rev (drop_space (rev (drop_space (chars_of s))))).

Fixpoint starts_with (p l : chars) : bool :=
  match p, l with
  | [], _ => true
  | a :: p', b :: l' => Chars.eqb a b && starts_with p' l'
  | _ :: _, [] => false
  end.

Fixpoint find_sub (p l : chars) : bool :=
  starts_with p l ||
  match l with
  | [] => false
  | _ :: t => find_sub p t
  end.

(** [String.prototype.includes] *)
Definition includes (s sub : string) : bool :=
  find_sub (chars_of sub) (chars_of s).

(** [String.prototype.split] with a one-character separator: the pieces
    between the occurrences, always at least one piece. *)
Fixpoint split_on (sep : ascii) (cur : chars) (l : chars) : list string :=
  match l with
  | [] => [str_of (rev cur)]
  | c :: t =>
      if Chars.eqb c sep then str_of (rev cur) :: split_on sep [] t
      else split_on sep (c :: cur) t
  end.

Definition split (s : string) (sep : ascii) : list string :=
  split_on sep [] (chars_of s).

(** [Array.prototype.join] *)
Fixpoint join (sep : string) (l : list string) : string :=
  match l with
  | [] => ""
  | [x] => x
  | x :: t => x +:+ sep +:+ join sep t
  end.

Definition is_empty (s : string) : bool :=
  match s with EmptyString => true | _ => false end.

Definition eqb (a b : string) : bool := String.eqb a b.

Definition LF : string := String (ascii_of_nat 10) EmptyString.
Definition QUOTE : ascii := ascii_of_nat 34.

End Str.

(* ===================================================================== *)
(** * Regular expressions *)
(* ===================================================================== *)

Module Regex.

(** Members of a character class. *)
Inductive citem : Type :=
| CChar (c : ascii)
| CRange (lo hi : ascii)
| CSpace | CNotSpace
| CWord | CNotWord
| CDigit | CNotDigit.

Inductive regex : Type :=
| Eps
| Chr (c : ascii)
| Dot
| Cls (neg : bool) (items : list citem)
| Bol
| Eol
| Seq (r1 r2 : regex)
| Alt (r1 r2 : regex)
| Rep (mn : nat) (mx : option nat) (greedy : bool) (r : regex)
| Grp (n : nat) (r : regex).

(** A pattern that matches nothing, for a source text that does not parse. *)
Definition Never : regex := Cls false [].

(* ------------------------------------------------------------------- *)
(** ** Reading a pattern from its source text *)

Section Parser.

Local Open Scope char_scope.

Definition pres : Type := option (regex * nat * chars).

Definition escape_atom (c : ascii) : regex :=
  match c with
  | "s" => Cls false [CSpace]
  | "S" => Cls false [CNotSpace]
  | "w" => Cls false [CWord]
  | "W" => Cls false [CNotWord]
  | "d" => Cls false [CDigit]
  | "D" => Cls false [CNotDigit]
  | "t" => Chr (ascii_of_nat 9)
  | "n" => Chr (ascii_of_nat 10)
  | "r" => Chr (ascii_of_nat 13)
  | _ => Chr c
  end.

Definition escape_item (c : ascii) : citem :=
  match c with
  | "s" => CSpace
  | "S" => CNotSpace
  | "w" => CWord
  | "W" => CNotWord
  | "d" => CDigit
  | "D" => CNotDigit
  | "t" => CChar (ascii_of_nat 9)
  | "n" => CChar (ascii_of_nat 10)
  | "r" => CChar (ascii_of_nat 13)
  | _ => CChar c
  end.

(** The members of a class, up to the closing bracket. *)
Fixpoint parse_items (fuel : nat) (s : chars) : option (list citem * chars) :=
  match fuel with
  | O => None
  | S f =>
      match s with
      | "]" :: t => Some ([], t)
      | "\" :: c :: t =>
          match parse_items f t with
          | Some (its, t') => Some (escape_item c :: its, t')
          | None => None
          end
      | a :: "-" :: b :: t =>
          if Chars.eqb b "]" then
            match parse_items f ("-" :: b :: t) with
            | Some (its, t') => Some (CChar a :: its, t')
            | None => None
            end
          else
            match parse_items f t with
            | Some (its, t') => Some (CRange a b :: its, t')
            | None => None
            end
      | a :: t =>
          match parse_items f t with
          | Some (its, t') => Some (CChar a :: its, t')
          | None => None
          end
      | [] => None
      end
  end.

Fixpoint parse_nat (acc : nat) (s : chars) : nat * chars :=
  match s with
  | c :: t =>
      if Chars.is_digit c then parse_nat (10 * acc + (Chars.code c - 48)) t
      else (acc, s)
  | [] => (acc, s)
  end.

(** The bounds of a quantifier, when one follows the atom. *)
Definition parse_bounds (s : chars) : option (nat * option nat * chars) :=
  match s with
  | "*" :: t => Some (0, None, t)
  | "+" :: t => Some (1, None, t)
  | "?" :: t => Some (0, Some 1, t)
  | "{" :: t =>
      let '(lo, t1) := parse_nat 0 t in
      match t1 with
      | "}" :: t2 => Some (lo, Some lo, t2)
      | "," :: "}" :: t2 => Some (lo, None, t2)
      | "," :: t2 =>
          let '(hi, t3) := parse_nat 0 t2 in
          match t3 with
          | "}" :: t4 => Some (lo, Some hi, t4)
          | _ => None
          end
      | _ => None
      end
  | _ => None
  end.

Definition quantified (r : regex) (n : nat) (s : chars) : pres :=
  match parse_bounds s with
  | Some (lo, hi, "?" :: t) => Some (Rep lo hi false r, n, t)
  | Some (lo, hi, t) => Some (Rep lo hi true r, n, t)
  | None => Some (r, n, s)
  end.

(** Disjunction, alternative and term of the pattern grammar; [n] is the
    number the next capturing group gets. *)
Fixpoint parse_disj (fuel : nat) (n : nat) (s : chars) {struct fuel} : pres :=
  match fuel with
  | O => None
  | S f =>
      match parse_seq f n s with
      | Some (r1, n1, "|" :: s1) =>
          match parse_disj f n1 s1 with
          | Some (r2, n2, s2) => Some (Alt r1 r2, n2, s2)
          | None => None
          end
      | other => other
      end
  end
with parse_seq (fuel : nat) (n : nat) (s : chars) {struct fuel} : pres :=
  match fuel with
  | O => None
  | S f =>
      match s with
      | [] => Some (Eps, n, s)
      | "|" :: _ => Some (Eps, n, s)
      | ")" :: _ => Some (Eps, n, s)
      | _ =>
          match parse_term f n s with
          | Some (r1, n1, s1) =>
              match parse_seq f n1 s1 with
              | Some (Eps, n2, s2) => Some (r1, n2, s2)
              | Some (r2, n2, s2) => Some (Seq r1 r2, n2, s2)
              | None => None
              end
          | None => None
          end
      end
  end
with parse_term (fuel : nat) (n : nat) (s : chars) {struct fuel} : pres :=
  match fuel with
  | O => None
  | S f =>
      match s with
      | "^" :: t => Some (Bol, n, t)
      | "$" :: t => Some (Eol, n, t)
      | "(" :: "?" :: ":" :: t =>
          match parse_disj f n t with
          | Some (r, n1, ")" :: t1) => quantified r n1 t1
          | _ => None
          end
      | "(" :: t =>
          match parse_disj f (S n) t with
          | Some (r, n1, ")" :: t1) => quantified (Grp n r) n1 t1
          | _ => None
          end
      | "[" :: "^" :: t =>
          match parse_items f t with
          | Some (its, t1) => quantified (Cls true its) n t1
          | None => None
          end
      | "[" :: t =>
          match parse_items f t with
          | Some (its, t1) => quantified (Cls false its) n t1
          | None => None
          end
      | "\" :: c :: t => quantified (escape_atom c) n t
      | "." :: t => quantified Dot n t
      | c :: t => quantified (Chr c) n t
      | [] => None
      end
  end.

Definition parse (src : string) : option regex :=
  match parse_disj (2 * String.length src + 4) 1 (chars_of src) with
  | Some (r, _, []) => Some r
  | _ => None
  end.

End Parser.

(** The pattern written [/src/] in the source. *)
Definition re (src : string) : regex :=
  match parse src with
  | Some r => r
  | None => Never
  end.

(* ------------------------------------------------------------------- *)
(** ** Matching, by backtracking in the order the language standard fixes *)

Record mstate : Type := MState {
  pos : nat;                       (* index of the next code unit *)
  rest : chars;                    (* the input from [pos] on *)
  caps : list (nat * chars)        (* captures, the latest first *)
}.

Definition cont : Type := mstate -> option mstate.

Definition item_has (it : citem) (c : ascii) : bool :=
  match it with
  | CChar a => Chars.eqb a c
  | CRange lo hi => Chars.between (Chars.code lo) (Chars.code hi) c
  | CSpace => Chars.is_space c
  | CNotSpace => negb (Chars.is_space c)
  | CWord => Chars.is_word c
  | CNotWord => negb (Chars.is_word c)
  | CDigit => Chars.is_digit c
  | CNotDigit => negb (Chars.is_digit c)
  end.

Definition set_has (items : list citem) (c : ascii) : bool :=
  existsb (fun it => item_has it c) items.

(** With the flag [i], a code unit is in a class when some member has the
    same canonical (upper-case) form. *)
Definition class_has (ic neg : bool) (items : list citem) (c : ascii) : bool :=
  xorb neg
    (set_has items c ||
     (ic && (set_has items (Chars.to_upper c) || set_has items (Chars.to_lower c)))).

Definition chr_eq (ic : bool) (a c : ascii) : bool :=
  if ic then Chars.eqb (Chars.to_upper a) (Chars.to_upper c) else Chars.eqb a c.

Definition step (ok : ascii -> bool) (k : cont) (s : mstate) : option mstate :=
  match rest s with
  | c :: t => if ok c then k (MState (S (pos s)) t (caps s)) else None
  | [] => None
  end.

Fixpoint groups (r : regex) : list nat :=
  match r with
  | Seq a b | Alt a b => groups a ++ groups b
  | Rep _ _ _ a => groups a
  | Grp n a => n :: groups a
  | _ => []
  end.

Definition clear (gs : list nat) (cs : list (nat * chars)) : list (nat * chars) :=
  List.filter (fun p => negb (existsb (Nat.eqb (fst p)) gs)) cs.

Definition pred_bound (mx : option nat) : option nat :=
  match mx with
  | Some n => Some (Nat.pred n)
  | None => None
  end.

(** The quantifier loop: an iteration that consumes nothing once the
    minimum is reached is refused; the captures of the repeated atom are
    cleared at the start of each iteration. *)
Fixpoint rep_loop (m : cont -> cont) (gs : list nat) (greedy : bool) (k : cont)
    (fuel mn : nat) (mx : option nat) (x : mstate) {struct fuel} : option mstate :=
  match fuel with
  | O => None
  | S fuel' =>
      match mx with
      | Some O => k x
      | _ =>
          let d : cont := fun y =>
            if (mn =? 0) && (pos y =? pos x) then None
            else rep_loop m gs greedy k fuel' (Nat.pred mn) (pred_bound mx) y in
          let xr := MState (pos x) (rest x) (clear gs (caps x)) in
          if negb (mn =? 0) then m d xr
          else if greedy then
            match m d xr with
            | Some z => Some z
            | None => k x
            end
          else
            match k x with
            | Some z => Some z
            | None => m d xr
            end
      end
  end.

Fixpoint rmatch (ic : bool) (r : regex) {struct r} : cont -> cont :=
  match r with
  | Eps => fun k s => k s
  | Chr a => fun k s => step (chr_eq ic a) k s
  | Dot => fun k s => step (fun c => negb (Chars.is_line_terminator c)) k s
  | Cls neg items => fun k s => step (class_has ic neg items) k s
  | Bol => fun k s => if pos s =? 0 then k s else None
  | Eol => fun k s => match rest s with [] => k s | _ :: _ => None end
  | Seq r1 r2 => fun k s => rmatch ic r1 (rmatch ic r2 k) s
  | Alt r1 r2 => fun k s =>
      match rmatch ic r1 k s with
      | Some z => Some z
      | None => rmatch ic r2 k s
      end
  | Rep mn mx g r1 => fun k s =>
      rep_loop (rmatch ic r1) (groups r1) g k (mn + length (rest s) + 1) mn mx s
  | Grp n r1 => fun k s =>
      rmatch ic r1
        (fun s' => k (MState (pos s') (rest s')
                        ((n, take (pos s' - pos s) (rest s)) :: caps s'))) s
  end.

(** One attempt at index [p] of the input, of which [l] is left. *)
Definition match_at (ic : bool) (r : regex) (p : nat) (l : chars) : option mstate :=
  rmatch ic r Some (MState p l []).

(** The leftmost match at or after index [p]. *)
Fixpoint search (ic : bool) (r : regex) (p : nat) (l : chars) {struct l}
    : option (nat * chars * mstate) :=
  match match_at ic r p l with
  | Some z => Some (p, l, z)
  | None =>
      match l with
      | [] => None
      | _ :: t => search ic r (S p) t
      end
  end.

(** What [exec] and [String.prototype.match] (no flag [g]) return. *)
Record result : Type := Result {
  index : nat;
  matched : string;
  captures : list (nat * chars)
}.

Definition exec (ic : bool) (r : regex) (s : string) : option result :=
  match search ic r 0 (chars_of s) with
  | Some (p, l, z) => Some (Result p (str_of (take (pos z - p) l)) (caps z))
  | None => None
  end.

(** [RegExp.prototype.test] *)
Definition test (ic : bool) (r : regex) (s : string) : bool :=
  match exec ic r s with Some _ => true | None => false end.

Fixpoint assoc (n : nat) (cs : list (nat * chars)) : option chars :=
  match cs with
  | [] => None
  | (m, v) :: t => if m =? n then Some v else assoc n t
  end.

(** [m[n]] for a capturing group: [None] is [undefined]. *)
Definition group (m : result) (n : nat) : option string :=
  match assoc n (captures m) with
  | Some v => Some (str_of v)
  | None => None
  end.

(** [String.prototype.replace] with a pattern that has the flag [g] and a
    replacement text without [$]: every match, left to right, an empty
    match moving on by one code unit. *)
Fixpoint replace_from (ic : bool) (r : regex) (by_ : chars) (fuel p : nat) (l : chars)
    {struct fuel} : chars :=
  match fuel with
  | O => l
  | S f =>
      match search ic r p l with
      | None => l
      | Some (q, l', z) =>
          let before := take (q - p) l in
          if pos z =? q then
            match l' with
            | [] => before ++ by_
            | c :: t => before ++ by_ ++ c :: replace_from ic r by_ f (S q) t
            end
          else before ++ by_ ++ replace_from ic r by_ f (pos z) (rest z)
      end
  end.

Definition replace_all (ic : bool) (r : regex) (by_ : string) (s : string) : string :=
  str_of (replace_from ic r (chars_of by_) (S (String.length s)) 0 (chars_of s)).

(** [String.prototype.split] with a pattern without capturing groups: the
    pieces between the matches, each match tried at the current index only;
    a match that ends where the current piece starts is passed over. *)
Fixpoint split_loop (ic : bool) (r : regex) (fuel : nat) (piece : chars) (p q : nat)
    (l : chars) {struct fuel} : list string :=
  match fuel with
  | O => []
  | S f =>
      match l with
      | [] => [str_of (rev piece)]
      | c :: t =>
          match match_at ic r q l with
          | None => split_loop ic r f (c :: piece) p (S q) t
          | Some z =>
              if pos z =? p then split_loop ic r f (c :: piece) p (S q) t
              else str_of (rev piece) :: split_loop ic r f [] (pos z) (pos z) (rest z)
          end
      end
  end.

Definition split (ic : bool) (r : regex) (s : string) : list string :=
  match chars_of s with
  | [] => match match_at ic r 0 [] with Some _ => [] | None => [s] end
  | l => split_loop ic r (2 * length l + 2) [] 0 0 l
  end.

End Regex.

(* ===================================================================== *)
(** * JavaScript values, [Number], [String] and [Date.parse] *)
(* ===================================================================== *)

Module Js.

(** Numbers. [String] tells any two numbers apart but the two zeros, which
    nothing here tells apart, so a number is given by what [String] makes of
    it: [NaN], [0], [-7], [1.5], [1e+21], [Infinity]. *)
Inductive number : Type :=
| Num (numeral : string).

Definition NaN : number := Num "NaN".

(** An integer below [10^21] in absolute value, which [String] writes out in
    full. *)
Definition Int (z : Z) : number := Num (pretty z).

Definition numeral (n : number) : string := let 'Num s := n in s.

Definition is_NaN (n : number) : bool := Str.eqb (numeral n) "NaN".

(** [n === 0] *)
Definition is_zero (n : number) : bool := Str.eqb (numeral n) "0".

(** The values a cell can hold. *)
Inductive value : Type :=
| VUndefined
| VNull
| VBool (b : bool)
| VNum (n : number)
| VStr (s : string).

(** [a === b] *)
Definition value_eqb (a b : value) : bool :=
  match a, b with
  | VUndefined, VUndefined => true
  | VNull, VNull => true
  | VBool x, VBool y => Bool.eqb x y
  | VNum x, VNum y => Str.eqb (numeral x) (numeral y) && negb (is_NaN x)
  | VStr x, VStr y => Str.eqb x y
  | _, _ => false
  end.

(** [!!v] *)
Definition truthy (v : value) : bool :=
  match v with
  | VUndefined => false
  | VNull => false
  | VBool b => b
  | VNum n => negb (is_NaN n || is_zero n)
  | VStr s => negb (Str.is_empty s)
  end.

(** [String(v)] *)
Definition to_string (v : value) : string :=
  match v with
  | VUndefined => "undefined"
  | VNull => "null"
  | VBool true => "true"
  | VBool false => "false"
  | VNum n => numeral n
  | VStr s => s
  end.

(** [a || b] *)
Definition or_else (a b : value) : value := if truthy a then a else b.

(** ** Objects

    An object holds members of its own and inherits the members of its
    prototype. The objects of this program are made by [{}], by an object
    literal or by a spread, so that their prototype is [Object.prototype],
    unless an assignment to [__proto__] has taken it away. *)

Inductive prototype : Type :=
| ObjectPrototype
| NoPrototype.

Record object : Type := Obj {
  own : gmap string value;
  proto : prototype
}.

(** [{}] *)
Definition empty_object : object := Obj ∅ ObjectPrototype.

(** What reading a member gives: a value that an object holds, or what
    [Object.prototype] holds: a built-in function or, under [__proto__],
    [Object.prototype] itself. *)
Inductive any : Type :=
| Val (v : value)
| Builtin (name : string)
| TheObjectPrototype.

(** The functions of [Object.prototype], [constructor] apart. *)
Definition prototypeFunctions : list string :=
  ["__defineGetter__"; "__defineSetter__"; "hasOwnProperty"; "__lookupGetter__";
   "__lookupSetter__"; "isPrototypeOf"; "propertyIsEnumerable"; "toString"; "valueOf";
   "toLocaleString"].

(** The names under which an object with the prototype [Object.prototype]
    reads a member that it does not hold. *)
Definition inheritedNames : list string :=
  "constructor" :: "__proto__" :: prototypeFunctions.

(** [Object.prototype[key]] *)
Definition inherited (key : string) : any :=
  if Str.eqb key "constructor" then Builtin "Object"
  else if Str.eqb key "__proto__" then TheObjectPrototype
  else if existsb (Str.eqb key) prototypeFunctions then Builtin key
  else Val VUndefined.

(** [o[key]] *)
Definition read (o : object) (key : string) : any :=
  match own o !! key with
  | Some v => Val v
  | None =>
      match proto o with
      | ObjectPrototype => inherited key
      | NoPrototype => Val VUndefined
      end
  end.

(** [o[key] = v]. Under the key [__proto__] an object that holds no member
    of that name and has its prototype runs the setter it inherits, which
    takes the prototype away when [v] is [null] and does nothing for another
    value that is no object. *)
Definition write (key : string) (v : value) (o : object) : object :=
  if Str.eqb key "__proto__" then
    match own o !! key, proto o with
    | None, ObjectPrototype =>
        match v with
        | VNull => Obj (own o) NoPrototype
        | _ => o
        end
    | _, _ => Obj (<[key := v]> (own o)) (proto o)
    end
  else Obj (<[key := v]> (own o)) (proto o).

(** [!!x] *)
Definition any_truthy (x : any) : bool :=
  match x with
  | Val v => truthy v
  | _ => true
  end.

(** [String(x)] *)
Definition any_to_string (x : any) : string :=
  match x with
  | Val v => to_string v
  | Builtin name => "function " +:+ name +:+ "() { [native code] }"
  | TheObjectPrototype => "[object Object]"
  end.

(** [a || b] *)
Definition any_or (a b : any) : any := if any_truthy a then a else b.

(** [a === b] *)
Definition any_eqb (a b : any) : bool :=
  match a, b with
  | Val x, Val y => value_eqb x y
  | Builtin x, Builtin y => Str.eqb x y
  | TheObjectPrototype, TheObjectPrototype => true
  | _, _ => false
  end.

(** The numeric literals [Number] reads from a string: optional white
    space around nothing at all, a signed decimal literal, [Infinity], or
    an unsigned hexadecimal, octal or binary integer. *)
Definition numeric_literal : Regex.regex :=
  Regex.re ("^\s*(?:[+-]?(?:Infinity|\d+\.?\d*(?:[eE][+-]?\d+)?|\.\d+(?:[eE][+-]?\d+)?)"
            +:+ "|0[xX][0-9a-fA-F]+|0[oO][0-7]+|0[bB][01]+)?\s*$").

(** [!isNaN(Number(v))] *)
Definition is_numeric (v : value) : bool :=
  match v with
  | VUndefined => false
  | VNull => true
  | VBool _ => true
  | VNum n => negb (is_NaN n)
  | VStr s => Regex.test false numeric_literal s
  end.

(** *** The date-time string format every implementation must read *)

Definition date_time_format : Regex.regex :=
  Regex.re ("^(\d{4})(?:-(\d{2})(?:-(\d{2}))?)?"
            +:+ "(?:T(\d{2}):(\d{2})(?::(\d{2})(?:\.\d{3})?)?(?:Z|[+-](\d{2}):(\d{2}))?)?$").

Fixpoint digits_value (acc : nat) (l : chars) : nat :=
  match l with
  | [] => acc
  | c :: t => digits_value (10 * acc + (Chars.code c - 48)) t
  end.

Definition field (m : Regex.result) (n : nat) : option nat :=
  match Regex.group m n with
  | Some s => Some (digits_value 0 (chars_of s))
  | None => None
  end.

Definition leap_year (y : nat) : bool :=
  ((y mod 4 =? 0) && negb (y mod 100 =? 0)) || (y mod 400 =? 0).

Definition days_in_month (y m : nat) : nat :=
  match m with
  | 2 => if leap_year y then 29 else 28
  | 4 | 6 | 9 | 11 => 30
  | _ => 31
  end.

Definition in_range (lo hi : nat) (f : option nat) : bool :=
  match f with
  | Some n => (lo <=? n) && (n <=? hi)
  | None => true
  end.

(** A string in the date-time format with every field in range. *)
Definition iso_date (s : string) : bool :=
  match Regex.exec false date_time_format s with
  | None => false
  | Some m =>
      let y := default 0 (field m 1) in
      let mo := default 1 (field m 2) in
      in_range 1 12 (field m 2) &&
      in_range 1 (days_in_month y mo) (field m 3) &&
      in_range 0 23 (field m 4) && in_range 0 59 (field m 5) &&
      in_range 0 59 (field m 6) &&
      in_range 0 23 (field m 7) && in_range 0 59 (field m 8)
  end.

Section Host.

(** What the host's own date parser makes of a string that is not in the
    date-time format: the language standard leaves it to the
    implementation. [true] when it yields a date. *)
Variable hostDateParse : string -> bool.

(** [!isNaN(Date.parse(s))] *)
Definition is_date (s : string) : bool := iso_date s || hostDateParse s.

End Host.

End Js.

(* ===================================================================== *)
(** * Type inference *)
(* ===================================================================== *)

Module Infer.

Import Js.

Section Host.

Variable hostDateParse : string -> bool.

(** [v !== null && v !== undefined && v !== ""] *)
Definition nonEmpty (v : value) : bool :=
  match v with
  | VNull => false
  | VUndefined => false
  | VStr EmptyString => false
  | _ => true
  end.

Definition inferColumnType (values : list value) : string :=
  let nonEmptyValues := List.filter nonEmpty values in
  if length nonEmptyValues =? 0 then "text"
  else
    let allNumbers := forallb is_numeric nonEmptyValues in
    if allNumbers then "integer"
    else
      let allDates :=
        forallb (fun v => is_date hostDateParse (to_string v)) nonEmptyValues in
      if allDates then "date" else "text".

End Host.

End Infer.

(* ===================================================================== *)
(** * Extracted data and the effects of the extractors *)
(* ===================================================================== *)

(** [{name, type}] *)
Record column : Type := Column {
  c_name : string;
  c_type : string
}.

(** A parsed JSON text. *)
#[local] Set Warnings "-register-all".
Inductive json : Type :=
| JNull
| JBool (b : bool)
| JNum (n : Js.number)
| JStr (s : string)
| JArr (items : list json)
| JObj (fields : list (string * json)).

Module Extract.

Import Js.

(** [interface ExtractedTable] *)
Record ExtractedTable : Type := Table {
  name : string;
  columns : list column;
  rows : list object
}.

(** The [tables] of a result: built by an extractor, or whatever the
    oracle's JSON held under that key. *)
Inductive tables_field : Type :=
| Tables (ts : list ExtractedTable)
| Parsed (j : json).

(** [interface ExtractedData] *)
Record ExtractedData : Type := Data {
  tables : tables_field;
  textContent : option string
}.

Definition no_tables : ExtractedData := Data (Tables []) None.

(** The prompt and the image sent to the oracle. *)
Record request : Type := Request {
  req_model : string;
  req_prompt : string;
  req_mimeType : string;
  req_data : string
}.

(** A [text] member of the oracle's reply: absent, a method, or a string. *)
Inductive text_member : Type :=
| Absent
| Method (returns : string)
| Text (s : string).

Record oracle_response : Type := Response {
  text : text_member;
  response_text : text_member        (* [response.response?.text] *)
}.

(** What the run of an extractor does besides returning. *)
Inductive event : Type :=
| OracleCall (r : request)
| ErrorLog (label : string).

(** A call either returns or throws. *)
Inductive outcome (A : Type) : Type :=
| Ok (a : A)
| Throw (error : string).
Arguments Ok {A} a.
Arguments Throw {A} error.

(** Computations: the events so far and the outcome. *)
Definition M (A : Type) : Type := (list event * outcome A)%type.

Definition ret {A} (a : A) : M A := ([], Ok a).

Definition bind {A B} (m : M A) (f : A -> M B) : M B :=
  match m with
  | (t, Ok a) => let '(t', r) := f a in (t ++ t', r)
  | (t, Throw e) => (t, Throw e)
  end.

Definition lift {A} (o : outcome A) : M A := ([], o).

(** [try { m } catch (error) { h error }] *)
Definition try_catch {A} (m : M A) (h : string -> M A) : M A :=
  match m with
  | (t, Throw e) => let '(t', r) := h e in (t ++ t', r)
  | done => done
  end.

(** [console.error(label, error)] *)
Definition console_error (label : string) : M unit := ([ErrorLog label], Ok tt).

#[global] Instance M_ret : MRet M := @ret.
#[global] Instance M_bind : MBind M := fun A B f m => bind m f.

(** [s.toLowerCase().replace(/\s+/g, "_")] *)
Definition underscored (s : string) : string :=
  Regex.replace_all false (Regex.re "\s+") "_" (Str.toLowerCase s).

(** [s.replace(Q, E)] for the pattern [Q] made of one double quote and the
    empty replacement [E]. *)
Definition unquoted (s : string) : string :=
  Regex.replace_all false (Regex.Chr Str.QUOTE) "" s.

(** [Object.values(row).some(v => v !== null && v !== "")] *)
Definition has_content (row : object) : bool :=
  existsb (fun kv => negb (value_eqb kv.2 VNull) && negb (value_eqb kv.2 (VStr "")))
    (map_to_list (own row)).

(** [headers.forEach((header, idx) => { rowData[header] = cell idx })],
    starting from the empty object. *)
Definition fill_row (headers : list string) (cell : nat -> string -> value) : object :=
  fold_left (fun rowData ih => write ih.2 (cell ih.1 ih.2) rowData)
    (imap (fun idx header => (idx, header)) headers) empty_object.

Section Host.

Variable hostDateParse : string -> bool.

(** [XLSX.read] followed, for each sheet in the order of
    [workbook.SheetNames], by [XLSX.utils.sheet_to_json] with
    [header: 1]: the rows of each sheet as arrays of cells. The arrays are
    taken as dense, a cell that is not there being [undefined]; a header
    row in which the library leaves a hole for a blank cell is not
    covered. *)
Variable XLSX_read : string -> outcome (list (string * list (list value))).

(** [pdfParse(buffer)]: the text of the document. *)
Variable pdfParse : string -> outcome string.

(** [process.env.GEMINI_API_KEY] *)
Variable GEMINI_API_KEY : option string.

(** [ai.models.generateContent] *)
Variable generateContent : request -> outcome oracle_response.

(** [buffer.toString("base64")] *)
Variable base64 : string -> string.

(** [JSON.parse] *)
Variable JSON_parse : string -> outcome json.

Definition inferColumnType := Infer.inferColumnType hostDateParse.

(** [row[idx]] *)
Definition at_index {A} (row : list A) (idx : nat) : option A := row !! idx.

Definition cell_or_undefined (row : list value) (idx : nat) : value :=
  default VUndefined (at_index row idx).

(** One sheet of the workbook. *)
Definition sheetTable (sheetName : string) (jsonData : list (list value))
    : option ExtractedTable :=
  if length jsonData <? 2 then None
  else
    let headers :=
      map (fun h => underscored (to_string (or_else h (VStr "column"))))
          (default [] (at_index jsonData 0)) in
    let dataRows := drop 1 jsonData in
    let columns :=
      imap (fun idx name =>
              let colValues := map (fun row => cell_or_undefined row idx) dataRows in
              Column name (inferColumnType colValues)) headers in
    let rows :=
      List.filter has_content
        (map (fun row =>
                fill_row headers (fun idx _ =>
                  match cell_or_undefined row idx with
                  | VUndefined => VNull
                  | v => v
                  end)) dataRows) in
    Some (Table (underscored sheetName) columns rows).

Definition extractFromExcel (buffer : string) : M ExtractedData :=
  workbook ← lift (XLSX_read buffer);
  ret (Data (Tables (omap (fun sheet => sheetTable sheet.1 sheet.2) workbook)) None).

Definition csvHeader (h : string) : string :=
  unquoted (Regex.replace_all false (Regex.re "\s+") "_"
              (Str.toLowerCase (Str.trim h))).

Definition extractFromCSV (buffer : string) : ExtractedData :=
  let content := buffer in
  let lines :=
    List.filter (fun line => negb (Str.is_empty (Str.trim line)))
      (Regex.split false (Regex.re "\r?\n") content) in
  if length lines <? 2 then no_tables
  else
    let headers := map csvHeader (Str.split (default "" (at_index lines 0)) ",") in
    let dataRows := drop 1 lines in
    let columns :=
      imap (fun idx name =>
              let colValues :=
                map (fun row =>
                       let cells := Str.split row "," in
                       match at_index cells idx with
                       | Some c => VStr (unquoted (Str.trim c))
                       | None => VUndefined
                       end) dataRows in
              Column name (inferColumnType colValues)) headers in
    let rows :=
      List.filter has_content
        (map (fun line =>
                let cells := map (fun c => unquoted (Str.trim c)) (Str.split line ",") in
                fill_row headers (fun idx _ =>
                  match at_index cells idx with
                  | Some c => or_else (VStr c) VNull
                  | None => VNull
                  end)) dataRows) in
    Data (Tables [Table "imported_csv" columns rows]) None.

(** [name || `col_${idx}`] *)
Definition or_col (name : string) (idx : nat) : string :=
  if Str.is_empty name then "col_" +:+ pretty idx else name.

Definition textHeader (h : string) : string :=
  Regex.replace_all false (Regex.re "[^a-z0-9_]") ""
    (Regex.replace_all false (Regex.re "\s+") "_" (Str.toLowerCase h)).

Definition createTableFromData (data : list (list string)) (tableIndex : nat)
    : option ExtractedTable :=
  if length data <? 2 then None
  else
    let headers := map textHeader (default [] (at_index data 0)) in
    let dataRows := drop 1 data in
    let columns :=
      imap (fun idx name =>
              let colValues :=
                map (fun row => VStr (default "" (at_index row idx))) dataRows in
              Column (or_col name idx) (inferColumnType colValues)) headers in
    let rows :=
      map (fun row =>
             fold_left (fun rowData ih =>
                          write (or_col ih.2 ih.1)
                            (match at_index row ih.1 with
                             | Some c => or_else (VStr c) VNull
                             | None => VNull
                             end) rowData)
               (imap (fun idx header => (idx, header)) headers) empty_object) dataRows in
    Some (Table ("pdf_table_" +:+ pretty (tableIndex + 1)) columns rows).

(** The state of the loop over the lines. *)
Record scan : Type := Scan {
  found : list ExtractedTable;     (* [tables] *)
  tableData : list (list string);
  inTable : bool
}.

(** [if (table) tables.push(table)] *)
Definition push_table (tables : list ExtractedTable) (tableData : list (list string))
    : list ExtractedTable :=
  match createTableFromData tableData (length tables) with
  | Some table => tables ++ [table]
  | None => tables
  end.

(** [line.split(/\s{2,}|\t/).map(c => c.trim()).filter(c => c)] *)
Definition cellsOf (line : string) : list string :=
  List.filter (fun c => negb (Str.is_empty c))
    (map Str.trim (Regex.split false (Regex.re "\s{2,}|\t") line)).

(** The body of the loop, for one line. *)
Definition scanLine (st : scan) (line : string) : scan :=
  let cells := cellsOf line in
  if 2 <=? length cells then
    let st1 := if negb (inTable st) then Scan (found st) [] true else st in
    Scan (found st1) (tableData st1 ++ [cells]) (inTable st1)
  else if inTable st && (2 <=? length (tableData st)) then
    Scan (push_table (found st) (tableData st)) [] false
  else st.

Definition extractTablesFromText (text : string) : list ExtractedTable :=
  let lines :=
    List.filter (fun l => negb (Str.is_empty l))
      (map Str.trim (Str.split text (ascii_of_nat 10))) in
  let st := fold_left scanLine lines (Scan [] [] false) in
  if inTable st && (2 <=? length (tableData st)) then
    push_table (found st) (tableData st)
  else found st.

Definition extractFromPDF (buffer : string) : M ExtractedData :=
  try_catch
    (text ← lift (pdfParse buffer);
     let tables := extractTablesFromText text in
     ret (Data (Tables tables) (Some text)))
    (fun error =>
       _ ← console_error "PDF extraction error:";
       ret no_tables).

(** The text with every backquote replaced by a double quote. *)
Definition with_quotes (s : string) : string :=
  str_of (map (fun c => if Chars.eqb c (ascii_of_nat 96) then Str.QUOTE else c) (chars_of s)).

Definition prompt : string := with_quotes
"Analyze this image and extract any tabular data you can find. 
    Return the data in this exact JSON format:
    {
      `tables`: [
        {
          `name`: `table_name`,
          `columns`: [{`name`: `column1`, `type`: `text`}, {`name`: `column2`, `type`: `integer`}],
          `rows`: [{`column1`: `value1`, `column2`: 123}]
        }
      ]
    }
    
    If no tabular data is found, return: {`tables`: []}
    Only return valid JSON, no other text.".

(** [!!process.env.GEMINI_API_KEY] *)
Definition configured : bool :=
  match GEMINI_API_KEY with
  | Some key => negb (Str.is_empty key)
  | None => false
  end.

(** The text of the oracle's reply, as the three cases of the code read it. *)
Definition responseTextOf (response : oracle_response) : string :=
  match text response with
  | Method returns => returns
  | Text s =>
      if negb (Str.is_empty s) then s
      else
        match response_text response with
        | Method returns => returns
        | Text s' => s'
        | Absent => EmptyString
        end
  | Absent =>
      match response_text response with
      | Method returns => returns
      | Text s' => s'
      | Absent => EmptyString
      end
  end.

(** [!!j] for a parsed JSON value *)
Definition json_truthy (j : json) : bool :=
  match j with
  | JNull => false
  | JBool b => b
  | JNum n => negb (Js.is_NaN n || Js.is_zero n)
  | JStr s => negb (Str.is_empty s)
  | JArr _ => true
  | JObj _ => true
  end.

(** [o[key]] on a parsed object: the last member of that name. *)
Fixpoint member (key : string) (fields : list (string * json)) : option json :=
  match fields with
  | [] => None
  | (k, v) :: rest =>
      match member key rest with
      | Some later => Some later
      | None => if Str.eqb k key then Some v else None
      end
  end.

(** [parsed.tables || []]; reading a member of [null] throws. *)
Definition tablesOf (parsed : json) : outcome tables_field :=
  match parsed with
  | JNull => Throw "TypeError"
  | JObj fields =>
      match member "tables" fields with
      | Some v => if json_truthy v then Ok (Parsed v) else Ok (Tables [])
      | None => Ok (Tables [])
      end
  | _ => Ok (Tables [])
  end.

(** [responseText.match(/\{[\s\S]*\}/)] *)
Definition jsonMatch (responseText : string) : option Regex.result :=
  Regex.exec false (Regex.re "\{[\s\S]*\}") responseText.

Definition extractFromImage (buffer : string) (mimetype : string) : M ExtractedData :=
  try_catch
    (if negb configured then
       ret (Data (Tables []) (Some "Gemini API key not configured for image processing"))
     else
       let base64Image := base64 buffer in
       let req := Request "gemini-2.0-flash" prompt mimetype base64Image in
       response ← ([OracleCall req], generateContent req);
       let responseText := responseTextOf response in
       match jsonMatch responseText with
       | Some m =>
           parsed ← lift (JSON_parse (Regex.matched m));
           tables ← lift (tablesOf parsed);
           ret (Data tables (Some "Extracted from image using AI"))
       | None => ret no_tables
       end)
    (fun error =>
       _ ← console_error "Image extraction error:";
       ret no_tables).

Definition extractDataFromFile (buffer : string) (ext : string) (mimetype : string)
    : M ExtractedData :=
  try_catch
    (if Str.eqb ext ".xlsx" || Str.eqb ext ".xls" then extractFromExcel buffer
     else if Str.eqb ext ".csv" then ret (extractFromCSV buffer)
     else if Str.eqb ext ".pdf" then extractFromPDF buffer
     else if existsb (Str.eqb ext) [".png"; ".jpg"; ".jpeg"] then
       extractFromImage buffer mimetype
     else ret no_tables)
    (fun error =>
       _ ← console_error "Error extracting data:";
       ret no_tables).


End Host.

End Extract.

(* ===================================================================== *)
(** * The command interpreter *)
(* ===================================================================== *)

Module Interpret.

(** The [details] of an action, by shape. *)
Inductive Details : Type :=
| DResponse (response : string)
| DValues (tableName : string) (values : list string)
| DSetWhere (tableName set where_ : string)
| DWhere (tableName where_ : string)
| DName (name : string)
| DTableDef (name : string) (columns : list column) (databaseName : option string)
| DDatabaseName (databaseName : string)
| DEmpty
| DTableName (tableName : string)
| DMessage (message : string).

(** [{ action, details }] *)
Record ActionDescriptor : Type := Act {
  action : string;
  details : Details
}.

Record greeting : Type := Greeting {
  pattern : Regex.regex;      (* always with the flag [i] *)
  response : string
}.

Definition greetingPatterns : list greeting := [
  Greeting (Regex.re "^(hi|hello|hey|hola|howdy)[\s!.,?]*$")
    "Hi there! What can I help you with today? I can help you create and manage database tables.";
  Greeting (Regex.re "^(hi|hello|hey|hola|howdy)\s+(there|everyone|friend)[\s!.,?]*$")
    "Hello! How can I assist you today? I can help you with database operations.";
  Greeting (Regex.re "how\s+(are|r)\s+(you|u)[\s?!]*$")
    "I'm doing great, thank you for asking! I'm here to help you manage your databases. How can I assist you today?";
  Greeting (Regex.re "^(what'?s\s+up|sup|wassup)[\s?!]*$")
    "Not much! Just here to help you with your database needs. What would you like to do?";
  Greeting (Regex.re "^(good\s+morning|morning)[\s!.,?]*$")
    "Good morning! Ready to help you with your database tasks. What can I do for you?";
  Greeting (Regex.re "^(good\s+afternoon|afternoon)[\s!.,?]*$")
    "Good afternoon! How can I help you with your database today?";
  Greeting (Regex.re "^(good\s+evening|evening)[\s!.,?]*$")
    "Good evening! What database operations would you like to perform?";
  Greeting (Regex.re "^(good\s+night|night)[\s!.,?]*$")
    "Good night! Before you go, is there anything you'd like me to help you with?";
  Greeting (Regex.re "^(thank\s*you|thanks|thx|ty)[\s!.,?]*$")
    "You're welcome! Let me know if you need anything else with your database.";
  Greeting (Regex.re "^(bye|goodbye|see\s+you|cya)[\s!.,?]*$")
    "Goodbye! Feel free to come back anytime you need help with your database.";
  Greeting (Regex.re "what\s+can\s+you\s+do[\s?!]*$")
    "I can help you with database operations! You can:
â€¢ Create tables: 'create a table student with id, name, email'
â€¢ Insert data: 'insert into student values 101, John, john@email.com'
â€¢ View tables: 'show student table' or 'show all tables'
â€¢ Delete tables: 'delete table student'
â€¢ And more!";
  Greeting (Regex.re "^help[\s!.,?]*$")
    "I'm here to help! Here are some things you can ask me:
â€¢ 'create a table student with id, name, email'
â€¢ 'insert into student values 101, John, john@email.com'
â€¢ 'show student table'
â€¢ 'show all tables'
â€¢ 'delete table student'
Just type your command in natural language!";
  Greeting (Regex.re "who\s+(are|r)\s+(you|u)[\s?!]*$")
    "I'm ChatDB, your AI database assistant! I help you create and manage database tables using natural language. Just tell me what you need!";
  Greeting (Regex.re "^(nice|cool|awesome|great|perfect)[\s!.,?]*$")
    "Glad you think so! Is there anything else you'd like me to help you with?"
].

(** [m[n]] for a group that takes part in every match of its pattern. *)
Definition capture (m : Regex.result) (n : nat) : string :=
  default EmptyString (Regex.group m n).

(** [userMessage.match(/src/i)] *)
Definition imatch (src : string) (userMessage : string) : option Regex.result :=
  Regex.exec true (Regex.re src) userMessage.

(** The first greeting whose pattern finds a match in the trimmed message. *)
Definition firstGreeting (trimmed : string) : option greeting :=
  List.find (fun g => Regex.test true (pattern g) trimmed) greetingPatterns.

(** The type the keyword heuristic gives a column of [create table]. *)
Definition columnType (col : string) : string :=
  if Str.includes col "email" then "text"
  else if Str.includes col "id" then "integer"
  else if Str.includes col "age" || Str.includes col "count"
          || Str.includes col "number" || Str.includes col "phone" then "integer"
  else "text".

Definition columnsOf (columnsText : string) : list column :=
  map (fun col => Column col (columnType col))
    (List.filter (fun c => negb (Str.is_empty c) && negb (Str.eqb c "in"))
       (map (fun c => Str.toLowerCase (Str.trim c)) (Str.split columnsText ","))).

(** Each step of the chain either returns or falls through to the next. *)
Definition insertStep (msg userMessage : string) : option ActionDescriptor :=
  if Str.includes msg "insert" then
    match imatch "insert\s+(?:into\s+)?(?:table\s+)?(\w+)\s+(?:table\s+)?(?:values?\s+)?(.+)"
            userMessage with
    | Some insertMatch =>
        let tableName := capture insertMatch 1 in
        let valuesStr := capture insertMatch 2 in
        let values := map Str.trim (Str.split valuesStr ",") in
        Some (Act "insert_row" (DValues tableName values))
    | None => None
    end
  else None.

Definition updateStep (msg userMessage : string) : option ActionDescriptor :=
  if Str.includes msg "update" then
    match imatch "update\s+(?:table\s+)?(\w+)\s+(?:table\s+)?set\s+(.+?)\s+where\s+(.+)"
            userMessage with
    | Some updateMatch =>
        Some (Act "update_row"
                (DSetWhere (capture updateMatch 1) (capture updateMatch 2)
                   (capture updateMatch 3)))
    | None => None
    end
  else None.

Definition deleteRowStep (msg userMessage : string) : option ActionDescriptor :=
  if Str.includes msg "delete" then
    match imatch "delete\s+(?:from\s+)?(?:table\s+)?(\w+)\s+(?:table\s+)?where\s+(.+)"
            userMessage with
    | Some deleteMatch =>
        Some (Act "delete_row" (DWhere (capture deleteMatch 1) (capture deleteMatch 2)))
    | None => None
    end
  else None.

Definition createDatabaseStep (msg userMessage : string) : option ActionDescriptor :=
  if Str.includes msg "create" && Str.includes msg "database"
     && negb (Str.includes msg "table") then
    match imatch "create\s+(?:a\s+)?database\s+(?:called\s+|named\s+)?(\w+)" userMessage with
    | Some dbMatch => Some (Act "create_database" (DName (capture dbMatch 1)))
    | None => None
    end
  else None.

Definition createTableStep (msg userMessage : string) : option ActionDescriptor :=
  if Str.includes msg "create" && (Str.includes msg "table" || Str.includes msg "tables") then
    let tableMatch := imatch "(?:create\s+(?:a\s+)?table\s+)(\w+)" userMessage in
    let columnsMatch :=
      imatch "(?:table\s+\w+\s+(?:with\s+)?)(.*?)(?:\s+in\s+database\s+|$)" userMessage in
    let dbMatch := imatch "in\s+(?:database\s+)?(\w+)\s*$" userMessage in
    match tableMatch with
    | Some tm =>
        let tableName := capture tm 1 in
        let columnsText :=
          match columnsMatch with
          | Some cm => capture cm 1
          | None => EmptyString
          end in
        let databaseName :=
          match dbMatch with
          | Some dm => Some (capture dm 1)
          | None => None
          end in
        let columnsList := columnsOf columnsText in
        if 0 <? length columnsList then
          Some (Act "create_table" (DTableDef tableName columnsList databaseName))
        else None
    | None => None
    end
  else None.

Definition deleteDatabaseStep (msg userMessage : string) : option ActionDescriptor :=
  if (Str.includes msg "delete" || Str.includes msg "drop")
     && Str.includes msg "database" && negb (Str.includes msg "table") then
    match imatch "(?:delete|drop)\s+(?:database\s+)?(\w+)" userMessage with
    | Some dbMatch => Some (Act "delete_database" (DDatabaseName (capture dbMatch 1)))
    | None => None
    end
  else None.

Definition showDatabasesStep (msg userMessage : string) : option ActionDescriptor :=
  if Str.includes msg "show"
     && (Str.includes msg "database" || Str.includes msg "databases")
     && negb (Str.includes msg "table") then
    Some (Act "show_databases" DEmpty)
  else None.

Definition deleteTableStep (msg userMessage : string) : option ActionDescriptor :=
  if (Str.includes msg "delete" || Str.includes msg "drop") && Str.includes msg "table" then
    match imatch "(?:delete|drop)\s+(?:table\s+)?(\w+)" userMessage with
    | Some tableMatch => Some (Act "delete_table" (DTableName (capture tableMatch 1)))
    | None => None
    end
  else None.

Definition showTableStep (msg userMessage : string) : option ActionDescriptor :=
  if Str.includes msg "show" then
    match imatch "show\s+(?:(?:all\s+columns\s+of\s+)?)?(?:table\s+)?(\w+)(?:\s+table)?"
            userMessage with
    | Some tableMatch =>
        if negb (Str.includes msg "all table") && negb (Str.includes msg "all tables") then
          Some (Act "show_table" (DTableName (capture tableMatch 1)))
        else None
    | None => None
    end
  else None.

Definition showTablesStep (msg userMessage : string) : option ActionDescriptor :=
  if Str.includes msg "show"
     && (Str.includes msg "all table" || Str.includes msg "all tables") then
    Some (Act "show_tables" (DMessage userMessage))
  else None.

(** The steps after the greetings, in the order of the source. *)
Definition steps : list (string -> string -> option ActionDescriptor) :=
  [insertStep; updateStep; deleteRowStep; createDatabaseStep; createTableStep;
   deleteDatabaseStep; showDatabasesStep; deleteTableStep; showTableStep;
   showTablesStep].

(** The first step that returns, the default otherwise. *)
Fixpoint firstOf (l : list (string -> string -> option ActionDescriptor))
    (msg userMessage : string) : ActionDescriptor :=
  match l with
  | [] => Act "query" (DMessage userMessage)
  | stepFn :: rest =>
      match stepFn msg userMessage with
      | Some r => r
      | None => firstOf rest msg userMessage
      end
  end.

Definition processNaturalLanguageCommand (userMessage : string) : ActionDescriptor :=
  let msg := Str.trim (Str.toLowerCase userMessage) in
  match firstGreeting (Str.trim userMessage) with
  | Some g => Act "conversation" (DResponse (response g))
  | None => firstOf steps msg userMessage
  end.

(** The name the specification uses. *)
Definition interpret := processNaturalLanguageCommand.

End Interpret.

(* ===================================================================== *)
(** * The response formatter *)
(* ===================================================================== *)

Module Format.

Import Js Interpret.

(** The table of an execution result: [{name, columns}]. *)
Record table_info : Type := TableInfo {
  t_name : string;
  t_columns : option (list column)
}.

(** A stored row: [{data}], an object from column names to values. *)
Record row : Type := Row {
  data : option object
}.

(** The result of running [show_table]: [{table, rows}]. *)
Record exec_result : Type := ExecResult {
  table : option table_info;
  rows : option (list row)
}.

(** The members of [details] the templates read; [None] is [undefined]. *)
Definition d_name (d : Details) : option string :=
  match d with
  | DName n => Some n
  | DTableDef n _ _ => Some n
  | _ => None
  end.

Definition d_columns (d : Details) : option (list column) :=
  match d with
  | DTableDef _ cols _ => Some cols
  | _ => None
  end.

Definition d_tableName (d : Details) : option string :=
  match d with
  | DValues t _ => Some t
  | DSetWhere t _ _ => Some t
  | DWhere t _ => Some t
  | DTableName t => Some t
  | _ => None
  end.

Definition d_values (d : Details) : option (list string) :=
  match d with
  | DValues _ vs => Some vs
  | _ => None
  end.

Definition d_message (d : Details) : option string :=
  match d with
  | DMessage m => Some m
  | _ => None
  end.

(** A member placed in a template literal. *)
Definition shown (m : option string) : string := default "undefined" m.

(** [m || fallback] for a string member *)
Definition or_text (m : option string) (fallback : string) : string :=
  match m with
  | Some s => if Str.is_empty s then fallback else s
  | None => fallback
  end.

Definition Q : string := String Str.QUOTE EmptyString.

Definition TABLE_NOT_FOUND : string := "âŒ Table not found".
Definition TABLE_TITLE : string := "ðŸ“‹ TABLE: ".
Definition CHECK : string := "âœ“".
Definition SHOWING_ALL : string := "ðŸ“Š Showing all tables in database".

(** [String(row.data?.[c.name] || "")] *)
Definition cellText (r : row) (c : column) : string :=
  match data r with
  | Some d => any_to_string (any_or (read d (c_name c)) (Val (VStr EmptyString)))
  | None => EmptyString
  end.

Definition rowLine (cols : list column) (r : row) : string :=
  Str.join " | " (map (cellText r) cols).

(** The per-action templates: [responses[action]], the member of the object
    literal or, for another name, what the literal inherits. *)
Definition responses (d : Details) (action : string) : any :=
  if Str.eqb action "create_table" then
    Val (VStr (CHECK +:+ " Created table " +:+ Q +:+ shown (d_name d) +:+ Q
               +:+ " with columns: "
               +:+ shown (option_map
                            (fun cols =>
                               Str.join ", "
                                 (map (fun c => c_name c +:+ "(" +:+ c_type c +:+ ")") cols))
                            (d_columns d))))
  else if Str.eqb action "delete_table" then
    Val (VStr (CHECK +:+ " Deleted table " +:+ Q +:+ shown (d_tableName d) +:+ Q))
  else if Str.eqb action "insert_row" then
    Val (VStr (CHECK +:+ " Inserted row into " +:+ Q +:+ shown (d_tableName d) +:+ Q
               +:+ " with values: " +:+ shown (option_map (Str.join ", ") (d_values d))))
  else if Str.eqb action "update_row" then
    Val (VStr (CHECK +:+ " Updated rows in " +:+ Q +:+ shown (d_tableName d) +:+ Q))
  else if Str.eqb action "delete_row" then
    Val (VStr (CHECK +:+ " Deleted rows from " +:+ Q +:+ shown (d_tableName d) +:+ Q))
  else if Str.eqb action "show_tables" then Val (VStr SHOWING_ALL)
  else if Str.eqb action "query" then
    Val (VStr ("Processing: " +:+ or_text (d_message d) "your request"))
  else inherited action.

Definition generateChatResponse (action : string) (d : Details)
    (result : option exec_result) : string :=
  match (if Str.eqb action "show_table" then result else None) with
  | Some res =>
      let rows_ := default [] (rows res) in
      match table res with
      | None => TABLE_NOT_FOUND
      | Some tbl =>
          let cols := default [] (t_columns tbl) in
          let header := Str.join " | " (map c_name cols) in
          let separator := Str.join "-+-" (map (fun _ => "---") cols) in
          let tableStr :=
            TABLE_TITLE +:+ t_name tbl +:+ Str.LF +:+ Str.LF +:+ header +:+ Str.LF
            +:+ separator +:+ Str.LF in
          if length rows_ =? 0 then tableStr +:+ "(no rows)"
          else tableStr +:+ Str.join Str.LF (map (rowLine cols) rows_)
      end
  | None =>
      any_to_string
        (any_or (responses d action)
           (Val (VStr ("Done: " +:+ or_text (d_message d) "operation complete"))))
  end.

(** The name the specification uses. *)
Definition format := generateChatResponse.

End Format.

(* ===================================================================== *)
(** * The notions the properties are stated with *)
(* ===================================================================== *)

Module RegexSem.

Import Regex.

(** What a pattern can match, whatever the order of the attempts:
    [Matches ic r p w rem] when [r] matches the code units [w] at index [p]
    of the input, [rem] being what follows [w]. An iteration of a quantifier
    that has reached its minimum consumes at least one code unit. *)
Inductive Matches (ic : bool) : regex -> nat -> chars -> chars -> Prop :=
| M_Eps p rem : Matches ic Eps p [] rem
| M_Chr a c p rem :
    chr_eq ic a c = true -> Matches ic (Chr a) p [c] rem
| M_Dot c p rem :
    Chars.is_line_terminator c = false -> Matches ic Dot p [c] rem
| M_Cls neg items c p rem :
    class_has ic neg items c = true -> Matches ic (Cls neg items) p [c] rem
| M_Bol rem : Matches ic Bol 0 [] rem
| M_Eol p : Matches ic Eol p [] []
| M_Seq r1 r2 p w1 w2 rem :
    Matches ic r1 p w1 (w2 ++ rem) ->
    Matches ic r2 (p + length w1) w2 rem ->
    Matches ic (Seq r1 r2) p (w1 ++ w2) rem
| M_AltL r1 r2 p w rem :
    Matches ic r1 p w rem -> Matches ic (Alt r1 r2) p w rem
| M_AltR r1 r2 p w rem :
    Matches ic r2 p w rem -> Matches ic (Alt r1 r2) p w rem
| M_RepStop mn mx g r p rem :
    mn = 0 \/ mx = Some 0 -> Matches ic (Rep mn mx g r) p [] rem
| M_RepStep mn mx g r p w1 w2 rem :
    mx <> Some 0 ->
    (mn = 0 -> w1 <> []) ->
    Matches ic r p w1 (w2 ++ rem) ->
    Matches ic (Rep (Nat.pred mn) (pred_bound mx) g r) (p + length w1) w2 rem ->
    Matches ic (Rep mn mx g r) p (w1 ++ w2) rem
| M_Grp n r p w rem :
    Matches ic r p w rem -> Matches ic (Grp n r) p w rem.

(** What a successful run of a matcher for [r] guarantees. *)
Definition sound_for (ic : bool) (r : regex) (m : cont -> cont) : Prop :=
  forall k s res,
    m k s = Some res ->
    exists w rem cs,
      rest s = w ++ rem /\ Matches ic r (pos s) w rem /\
      k (MState (pos s + length w) rem cs) = Some res.

(** A run that cannot fail; for a quantifier, with any fuel above what the
    matcher gives it. *)
Definition runs (ic : bool) (r : regex) (k : cont) (s : mstate) : Prop :=
  match r with
  | Rep mn mx g r1 =>
      forall fuel, mn + length (rest s) + 1 <= fuel ->
                   rep_loop (rmatch ic r1) (groups r1) g k fuel mn mx s <> None
  | _ => rmatch ic r k s <> None
  end.

(** A pattern that starts with [^]. *)
Definition startAnchored (r : regex) : bool :=
  match r with
  | Seq Bol _ => true
  | _ => false
  end.

(** A pattern that ends with [$]. *)
Fixpoint endAnchored (r : regex) : bool :=
  match r with
  | Eol => true
  | Seq _ r2 => endAnchored r2
  | _ => false
  end.

(** The continuation that accepts at the end of the input only. *)
Definition accept_end : cont :=
  fun s => match rest s with [] => Some s | _ :: _ => None end.

(** After a greedy run over any code units, the continuation is tried from
    the end of the input backwards. *)
Fixpoint from_end (k : cont) (p : nat) (l : chars) (cs : list (nat * chars))
    : option mstate :=
  match l with
  | [] => k (MState p [] cs)
  | c :: t =>
      match from_end k (S p) t cs with
      | Some z => Some z
      | None => k (MState p l cs)
      end
  end.

End RegexSem.

(** [sub] occurs in [s]. *)
Definition Contains (s sub : string) : Prop :=
  exists pre post, chars_of s = pre ++ chars_of sub ++ post.

(** The action each step of the interpreter returns, when it returns. *)
Definition stepActions : list string :=
  ["insert_row"; "update_row"; "delete_row"; "create_database"; "create_table";
   "delete_database"; "show_databases"; "delete_table"; "show_table"; "show_tables"].

(** The words that start a command. *)
Definition triggerWords : list string :=
  ["insert"; "update"; "delete"; "create"; "drop"; "show"].

(** The file extensions with an extractor. *)
Definition knownExtensions : list string :=
  [".xlsx"; ".xls"; ".csv"; ".pdf"; ".png"; ".jpg"; ".jpeg"].

(** The keyword heuristic, as a relation between a column name and its type. *)
Definition typedByKeyword (c : column) : Prop :=
  (Contains (c_name c) "email" -> c_type c = "text") /\
  (~ Contains (c_name c) "email" -> Contains (c_name c) "id" -> c_type c = "integer") /\
  (~ Contains (c_name c) "email" -> ~ Contains (c_name c) "id" ->
   Contains (c_name c) "age" \/ Contains (c_name c) "count" \/
   Contains (c_name c) "number" \/ Contains (c_name c) "phone" ->
   c_type c = "integer") /\
  (~ Contains (c_name c) "email" -> ~ Contains (c_name c) "id" ->
   ~ Contains (c_name c) "age" -> ~ Contains (c_name c) "count" ->
   ~ Contains (c_name c) "number" -> ~ Contains (c_name c) "phone" ->
   c_type c = "text").

(** The column tokens of a columns clause: split on commas, trimmed,
    lower-cased, the empty ones and the word [in] left out. *)
Definition columnTokens (columnsText : string) : list string :=
  List.filter (fun c => negb (Str.is_empty c) && negb (Str.eqb c "in"))
    (map (fun c => Str.toLowerCase (Str.trim c)) (Str.split columnsText ",")).

(** The entries of a column that are neither [null], [undefined] nor the
    empty string. *)
Definition remaining (values : list Js.value) : list Js.value :=
  List.filter Infer.nonEmpty values.

(** An entry that [Number] reads as a number. *)
Definition numeric (v : Js.value) : Prop := Js.is_numeric v = true.

(** An entry whose text [Date.parse] reads as a date. *)
Definition dated (host : string -> bool) (v : Js.value) : Prop :=
  Js.is_date host (Js.to_string v) = true.

(** The actions with a template of their own. *)
Definition templated : list string :=
  ["create_table"; "delete_table"; "insert_row"; "update_row"; "delete_row";
   "show_tables"; "query"].

(** A row with every falsy entry taken out of its data. *)
Definition withoutFalsy (r : Format.row) : Format.row :=
  Format.Row
    (option_map
       (fun o => Js.Obj (filter (fun kv => Js.truthy kv.2 = true) (Js.own o)) (Js.proto o))
       (Format.data r)).

(** The code units of the braces. *)
Definition OPEN : ascii := ascii_of_nat 123.
Definition CLOSE : ascii := ascii_of_nat 125.

(** The longest prefix of the text that ends with a closing brace. *)
Fixpoint toLastClose (l : chars) : option chars :=
  match l with
  | [] => None
  | c :: t =>
      match toLastClose t with
      | Some w => Some (c :: w)
      | None => if Chars.eqb c CLOSE then Some [c] else None
      end
  end.

(** From the first opening brace of the text to its last closing brace. *)
Fixpoint braceSpan (l : chars) : option chars :=
  match l with
  | [] => None
  | c :: t =>
      if Chars.eqb c OPEN then
        match toLastClose t with
        | Some w => Some (c :: w)
        | None => None
        end
      else braceSpan t
  end.

(** The span the specification describes, for comparison with the code:
    from the first opening brace to the closing brace that balances it,
    counting the nesting depth. *)
Fixpoint toBalance (depth : nat) (l : chars) : option chars :=
  match l with
  | [] => None
  | c :: t =>
      if Chars.eqb c OPEN then option_map (cons c) (toBalance (S depth) t)
      else if Chars.eqb c CLOSE then
        match depth with
        | O => Some [c]
        | S d => option_map (cons c) (toBalance d t)
        end
      else option_map (cons c) (toBalance depth t)
  end.

Fixpoint firstBalancedObject (l : chars) : option chars :=
  match l with
  | [] => None
  | c :: t =>
      if Chars.eqb c OPEN then option_map (cons c) (toBalance 0 t)
      else firstBalancedObject t
  end.

(** The pattern of [jsonMatch], parsed. *)
Definition ANY : Regex.regex := Regex.Cls false [Regex.CSpace; Regex.CNotSpace].
Definition BRACES : Regex.regex :=
  Regex.Seq (Regex.Chr OPEN)
    (Regex.Seq (Regex.Rep 0 None true ANY) (Regex.Chr CLOSE)).

(** ** Names and tables of the extractors *)

(** A code unit of a normalized name: a lower-case letter, a digit or the
    underscore. *)
Definition is_ident (c : ascii) : bool :=
  Chars.is_lower c || Chars.is_digit c || Chars.eqb c (ascii_of_nat 95).

(** A name that is not empty and made of such code units only. *)
Definition normalized (s : string) : Prop :=
  s <> EmptyString /\ Forall (fun c => is_ident c = true) (chars_of s).

(** A code unit a lower-cased, underscored name cannot hold. *)
Definition is_upper_or_space (c : ascii) : bool :=
  Chars.is_upper c || Chars.is_space c.

(** A table the text extractor made from a block of rows, as the [i]-th
    table found: every row of the block has two cells or more, and there are
    two rows or more. *)
Definition madeFrom (host : string -> bool) (i : nat) (t : Extract.ExtractedTable) : Prop :=
  exists data,
    Extract.createTableFromData host data i = Some t /\
    2 <= length data /\ Forall (fun cells => 2 <= length cells) data.

(** What the scan of the lines keeps true from line to line. *)
Definition scanInv (host : string -> bool) (st : Extract.scan) : Prop :=
  (forall i t, Extract.found st !! i = Some t -> madeFrom host i t) /\
  Forall (fun cells => 2 <= length cells) (Extract.tableData st).

(** ** The blocks of rows, in the words of the specification

    Modelled from the spec: a line is a row candidate when it has two cells
    or more; consecutive row candidates accumulate into a pending block; a
    block closes when a line that is no candidate is seen and the block has
    two rows or more, or when the input ends. [specBlocks pending ls] lists
    the blocks in the order in which they close, [pending] being the block
    accumulated so far and [ls] the cells of the lines still to come. *)
Definition isRowCandidate (cells : list string) : bool := 2 <=? length cells.

Fixpoint specBlocks (pending : list (list string)) (ls : list (list string))
    : list (list (list string)) :=
  match ls with
  | [] => [pending]
  | cells :: rest =>
      if isRowCandidate cells then specBlocks (pending ++ [cells]) rest
      else if 2 <=? length pending then pending :: specBlocks [] rest
      else specBlocks pending rest
  end.

(** Modelled from the spec: a closed block with two rows or more becomes a
    table, a block with fewer rows is discarded. *)
Definition specKeptBlocks (blocks : list (list (list string))) : list (list (list string)) :=
  List.filter (fun block => 2 <=? length block) blocks.

(** From the source: the lines the text extractor goes through,
    [text.split("\n").map(l => l.trim()).filter(l => l)]. *)
Definition textLines (text : string) : list string :=
  List.filter (fun l => negb (Str.is_empty l))
    (map Str.trim (Str.split text (ascii_of_nat 10))).

(** ** Runs of the matcher, with the captures they leave *)

Module RegexRun.

Import Regex.

(** [Run ic r s s'] when the matcher for [r], started in the state [s], can
    hand the state [s'] to its continuation. *)
Inductive Run (ic : bool) : regex -> mstate -> mstate -> Prop :=
| R_Eps s : Run ic Eps s s
| R_Chr a s c t :
    rest s = c :: t -> chr_eq ic a c = true ->
    Run ic (Chr a) s (MState (S (pos s)) t (caps s))
| R_Dot s c t :
    rest s = c :: t -> Chars.is_line_terminator c = false ->
    Run ic Dot s (MState (S (pos s)) t (caps s))
| R_Cls neg items s c t :
    rest s = c :: t -> class_has ic neg items c = true ->
    Run ic (Cls neg items) s (MState (S (pos s)) t (caps s))
| R_Bol s : pos s = 0 -> Run ic Bol s s
| R_Eol s : rest s = [] -> Run ic Eol s s
| R_Seq r1 r2 s m s' :
    Run ic r1 s m -> Run ic r2 m s' -> Run ic (Seq r1 r2) s s'
| R_AltL r1 r2 s s' : Run ic r1 s s' -> Run ic (Alt r1 r2) s s'
| R_AltR r1 r2 s s' : Run ic r2 s s' -> Run ic (Alt r1 r2) s s'
| R_RepStop mn mx g r s :
    mn = 0 \/ mx = Some 0 -> Run ic (Rep mn mx g r) s s
| R_RepStep mn mx g r s m s' :
    mx <> Some 0 ->
    Run ic r (MState (pos s) (rest s) (clear (groups r) (caps s))) m ->
    (mn = 0 -> pos m <> pos s) ->
    Run ic (Rep (Nat.pred mn) (pred_bound mx) g r) m s' ->
    Run ic (Rep mn mx g r) s s'
| R_Grp n r s s1 :
    Run ic r s s1 ->
    Run ic (Grp n r) s
      (MState (pos s1) (rest s1) ((n, take (pos s1 - pos s) (rest s)) :: caps s1)).

(** What a successful run of a matcher for [r] guarantees. *)
Definition run_sound (ic : bool) (r : regex) (m : cont -> cont) : Prop :=
  forall k s res, m k s = Some res -> exists s', Run ic r s s' /\ k s' = Some res.

(** The bodies of the groups numbered [n]. *)
Fixpoint bodies (n : nat) (r : regex) : list regex :=
  match r with
  | Seq a b | Alt a b => bodies n a ++ bodies n b
  | Rep _ _ _ a => bodies n a
  | Grp m a => (if m =? n then [a] else []) ++ bodies n a
  | _ => []
  end.

(** The group [n] is set by every match of [r]: it lies on the spine of the
    pattern, outside every quantifier, and nothing after it resets it. *)
Fixpoint sets (n : nat) (r : regex) : bool :=
  match r with
  | Seq a b => (sets n a && negb (existsb (Nat.eqb n) (groups b))) || sets n b
  | Alt a b => sets n a && sets n b
  | Grp m a => (m =? n) || sets n a
  | _ => false
  end.

End RegexRun.

(** A name the interpreter can hand on: not empty, word characters only. *)
Definition wordy (s : string) : Prop :=
  s <> EmptyString /\ Forall (fun c => Chars.is_word c = true) (chars_of s).

(** The names a details object carries. *)
Definition namesOf (d : Interpret.Details) : list string :=
  match d with
  | Interpret.DValues t _ | Interpret.DSetWhere t _ _ | Interpret.DWhere t _
  | Interpret.DName t | Interpret.DDatabaseName t | Interpret.DTableName t => [t]
  | Interpret.DTableDef t _ (Some db) => [t; db]
  | Interpret.DTableDef t _ None => [t]
  | _ => []
  end.

(* ===================================================================== *)
(** * Tables of a text document: [extractTablesFromDocument] *)
(* ===================================================================== *)

Module Document.

(** A table under construction or found: rows are objects from normalized
    header names to cells. *)
Record DocTable : Type := Table {
  name : string;
  columns : list column;
  rows : list (gmap string string)
}.

(** The variables of the loop: [tables], [currentTable], [headerRow]. *)
Record state : Type := State {
  tables : list DocTable;
  currentTable : option DocTable;
  headerRow : list string
}.

(** [row[key] = cell] on an object literal: the key [__proto__] names the
    accessor every object inherits, whose setter ignores a string, so no
    member is stored under it. *)
Definition assign (key cell : string) (row : gmap string string) : gmap string string :=
  if Str.eqb key "__proto__" then row else <[key := cell]> row.

(** [cells.forEach((cell, idx) => { if (headerRow[idx]) row[key] = cell })]
    with [key = headerRow[idx].toLowerCase().replace(/\s+/g, "_")] *)
Definition rowOf (headerRow cells : list string) : gmap string string :=
  fold_left
    (fun row ic =>
       match headerRow !! ic.1 with
       | Some h => if Str.is_empty h then row else assign (Extract.underscored h) ic.2 row
       | None => row
       end)
    (imap (fun idx cell => (idx, cell)) cells) ∅.

(** [line.split("|").map(c => c.trim()).filter(c => c)] *)
Definition cellsOf (line : string) : list string :=
  List.filter (fun c => negb (Str.is_empty c)) (map Str.trim (Str.split line "|")).

(** One turn of the loop over the lines. *)
Definition docLine (st : state) (rawLine : string) : state :=
  let line := Str.trim rawLine in
  if Str.includes line "|" && Str.includes line "-" then
    match currentTable st with
    | Some ct =>
        if 0 <? length (headerRow st) then
          State
            (tables st ++
             [Table (name ct)
                (map (fun h => Column (Str.trim h) "text") (headerRow st)) (rows ct)])
            None []
        else st
    | None => st
    end
  else if Str.includes line "|" then
    let cells := cellsOf line in
    if (length (headerRow st) =? 0) && (0 <? length cells) then
      State (tables st)
        (Some (Table ("table_" +:+ pretty (length (tables st) + 1))
                 (map (fun c => Column (Extract.underscored c) "text") cells) []))
        cells
    else
      match currentTable st with
      | Some ct =>
          if 0 <? length cells then
            State (tables st)
              (Some (Table (name ct) (columns ct)
                       (rows ct ++ [rowOf (headerRow st) cells])))
              (headerRow st)
          else st
      | None => st
      end
  else st.

Definition extractTablesFromDocument (text : string) : list DocTable :=
  let lines := Str.split text (ascii_of_nat 10) in
  let st := fold_left docLine lines (State [] None []) in
  match currentTable st with
  | Some ct => tables st ++ [ct]
  | None => tables st
  end.

End Document.

(** A text that holds neither a bar nor a hyphen. *)
Definition plain (s : string) : Prop :=
  Forall (fun c => c <> "|"%char /\ c <> "-"%char) (chars_of s).

(** What the document scan keeps true from line to line. *)
Definition docInv (st : Document.state) : Prop :=
  (forall i t, Document.tables st !! i = Some t ->
     Document.name t = "table_" +:+ pretty (i + 1) /\ Document.columns t <> []) /\
  (forall ct, Document.currentTable st = Some ct ->
     Document.name ct = "table_" +:+ pretty (length (Document.tables st) + 1) /\
     Document.columns ct <> []).

(** The names and the cells of a table hold neither a bar nor a hyphen, and
    no cell is empty. *)
Definition plainTable (t : Document.DocTable) : Prop :=
  Forall (fun c => plain (c_name c)) (Document.columns t) /\
  Forall (map_Forall (fun _ v => v <> EmptyString /\ plain v)) (Document.rows t).

Definition plainInv (st : Document.state) : Prop :=
  Forall plainTable (Document.tables st) /\
  (forall ct, Document.currentTable st = Some ct -> plainTable ct) /\
  Forall plain (Document.headerRow st).

(* ===================================================================== *)
(** * The chat page: reading a rendered table back *)
(* ===================================================================== *)

Module Chat.

(** What [parseTableContent] returns when it is not [null]. *)
Record TableContent : Type := Content {
  title : string;
  headers : list string;
  rows : list (list string)
}.

Definition MARK : string := "ðŸ“‹ TABLE:".

(** [Array.prototype.findIndex]: [None] is [-1]. *)
Fixpoint findIndex {A} (f : A -> bool) (l : list A) : option nat :=
  match l with
  | [] => None
  | x :: t => if f x then Some 0 else option_map S (findIndex f t)
  end.

(** [s.replace(p, E)] for a text [p] and the empty replacement [E]: the
    first occurrence of [p] is taken out. *)
Fixpoint remove_first (p l : chars) : chars :=
  if Str.starts_with p l then drop (length p) l
  else match l with
       | [] => []
       | c :: t => c :: remove_first p t
       end.

Definition replace_first (s p : string) : string :=
  str_of (remove_first (chars_of p) (chars_of s)).

(** [line.trim() && !line.includes("---")] *)
Definition isDataLine (line : string) : bool :=
  negb (Str.is_empty (Str.trim line)) && negb (Str.includes line "---").

Definition cellsOfLine (line : string) : list string :=
  map Str.trim (Str.split line "|").

Definition parseTableContent (content : string) : option TableContent :=
  if Str.includes content MARK then
    let lines := Str.split content (ascii_of_nat 10) in
    match findIndex (fun l => Str.includes l MARK) lines with
    | None => None
    | Some titleIdx =>
        let title := Str.trim (replace_first (default EmptyString (lines !! titleIdx)) MARK) in
        let headerIdx := titleIdx + 2 in
        if length lines <=? headerIdx then None
        else
          let headers := cellsOfLine (default EmptyString (lines !! headerIdx)) in
          let dataStartIdx := headerIdx + 2 in
          if length lines <=? dataStartIdx then Some (Content title headers [])
          else
            let rows :=
              map cellsOfLine (List.filter isDataLine (drop dataStartIdx lines)) in
            Some (Content title headers rows)
    end
  else None.

End Chat.

(** A text that can stand in a cell of a rendered table: no line feed, no
    vertical bar. *)
Definition cellSafe (s : string) : Prop :=
  Forall (fun c => c <> ascii_of_nat 10 /\ c <> "|"%char) (chars_of s).

(** The rendering of [show_table], line by line. *)
Definition renderedLines (tbl : Format.table_info) (rws : list Format.row) : list string :=
  [Format.TABLE_TITLE +:+ Format.t_name tbl;
   EmptyString;
   Str.join " | " (map c_name (default [] (Format.t_columns tbl)));
   Str.join "-+-" (map (fun _ => "---") (default [] (Format.t_columns tbl)))]
  ++ match rws with
     | [] => ["(no rows)"]
     | _ => map (Format.rowLine (default [] (Format.t_columns tbl))) rws
     end.

(* ===================================================================== *)
(** * The server: the file-backed store and the chat route *)
(* ===================================================================== *)

(** [server/file-storage.ts] and the handler of [POST /api/chat/message] in
    [server/routes.ts]. The data of a row is an object: the members it
    holds and the prototype whose members it inherits. The identifiers
    [randomUUID] draws and the dates [new Date()] reads are given by the
    host, one per call. Writing a JSON file is taken to succeed. *)
Module Server.

Import Js.

Abbreviation Ok := Extract.Ok.
Abbreviation Throw := Extract.Throw.

(** ** [Map<string, V>]: the entries in the order of insertion *)

Definition jsmap (V : Type) : Type := list (string * V).

Definition get {V} (m : jsmap V) (k : string) : option V :=
  option_map snd (List.find (fun kv => String.eqb (fst kv) k) m).

Fixpoint set {V} (m : jsmap V) (k : string) (v : V) : jsmap V :=
  match m with
  | [] => [(k, v)]
  | (k', v') :: t => if String.eqb k' k then (k, v) :: t else (k', v') :: set t k v
  end.

Definition delete {V} (m : jsmap V) (k : string) : jsmap V :=
  List.filter (fun kv => negb (String.eqb (fst kv) k)) m.

Definition values {V} (m : jsmap V) : list V := map snd m.

(** ** The records of [shared/schema.ts] *)

(** A member that may be absent, [null] or a string. *)
Inductive nullable : Type :=
| Undefined
| Null
| Given (s : string).

(** [x || null] *)
Definition or_null (x : nullable) : option string :=
  match x with
  | Given s => if Str.is_empty s then None else Some s
  | _ => None
  end.

(** [!!x] *)
Definition given (x : nullable) : option string := or_null x.

Record ChatSession : Type := Session {
  cs_id : string;
  cs_title : string;
  cs_createdAt : Z;
  cs_updatedAt : Z
}.

Record ChatMessage : Type := Message {
  cm_id : string;
  cm_sessionId : option string;
  cm_content : string;
  cm_role : string;
  cm_createdAt : Z
}.

Record Database : Type := Db {
  db_id : string;
  db_name : string;
  db_description : option string;
  db_createdAt : Z
}.

(** A column as stored: [{name, type}] and whether [isPrimaryKey] is truthy. *)
Record StoredColumn : Type := SCol {
  sc_column : column;
  sc_isPrimaryKey : bool
}.

Record DatabaseTable : Type := DbTable {
  tb_id : string;
  tb_databaseId : option string;
  tb_name : string;
  tb_columns : list StoredColumn;
  tb_positions : json;
  tb_createdAt : Z
}.

Record TableRow : Type := TRow {
  tr_id : string;
  tr_tableId : string;
  tr_data : object;
  tr_createdAt : Z
}.

Record InsertChatMessage : Type := NewMessage {
  icm_sessionId : nullable;
  icm_content : string;
  icm_role : string
}.

Record InsertDatabase : Type := NewDatabase {
  idb_name : string;
  idb_description : nullable
}.

Record InsertDatabaseTable : Type := NewTable {
  it_databaseId : nullable;
  it_name : string;
  it_columns : list StoredColumn
}.

Record InsertTableRow : Type := NewRow {
  ir_tableId : string;
  ir_data : object
}.

(** ** The state *)

(** The five maps of the store the chat route works on. *)
Record maps : Type := Maps {
  sessions : jsmap ChatSession;
  messages : jsmap ChatMessage;
  databases : jsmap Database;
  tables : jsmap DatabaseTable;
  rows : jsmap TableRow
}.

(** What [broadcast] sends to the connected clients. *)
Inductive event : Type :=
| Chat (message : ChatMessage)
| DatabaseCreated (database : Database)
| DatabaseDeleted (databaseId : string)
| TableCreated (table : DatabaseTable)
| TableDeleted (tableId : string)
| TableUpdated (table : DatabaseTable)
| RowInserted (row : TableRow)
| RowUpdated
| RowDeleted.

Record world : Type := World {
  mem : maps;                  (* the maps in memory *)
  disk : maps;                 (* what was last written to each JSON file *)
  uuids : nat;                 (* identifiers drawn so far *)
  dates : nat;                 (* dates read so far *)
  sent : list event;           (* broadcasts, the latest last *)
  logged : list string         (* console lines, the latest last *)
}.

Definition with_sessions (f : jsmap ChatSession -> jsmap ChatSession) (m : maps) : maps :=
  Maps (f (sessions m)) (messages m) (databases m) (tables m) (rows m).
Definition with_messages (f : jsmap ChatMessage -> jsmap ChatMessage) (m : maps) : maps :=
  Maps (sessions m) (f (messages m)) (databases m) (tables m) (rows m).
Definition with_databases (f : jsmap Database -> jsmap Database) (m : maps) : maps :=
  Maps (sessions m) (messages m) (f (databases m)) (tables m) (rows m).
Definition with_tables (f : jsmap DatabaseTable -> jsmap DatabaseTable) (m : maps) : maps :=
  Maps (sessions m) (messages m) (databases m) (f (tables m)) (rows m).
Definition with_rows (f : jsmap TableRow -> jsmap TableRow) (m : maps) : maps :=
  Maps (sessions m) (messages m) (databases m) (tables m) (f (rows m)).

(** A computation on the state that returns or throws an [Error] with the
    message given. *)
Definition Rt (A : Type) : Type := world -> Extract.outcome A * world.

Definition ret {A} (a : A) : Rt A := fun w => (Ok a, w).

Definition bind {A B} (m : Rt A) (f : A -> Rt B) : Rt B :=
  fun w =>
    match m w with
    | (Extract.Ok a, w') => f a w'
    | (Extract.Throw e, w') => (Throw e, w')
    end.

Definition throw {A} (message : string) : Rt A := fun w => (Throw message, w).

(** [try { m } catch (error) { h error.message }] *)
Definition try_catch {A} (m : Rt A) (h : string -> Rt A) : Rt A :=
  fun w =>
    match m w with
    | (Extract.Throw e, w') => h e w'
    | r => r
    end.

#[global] Instance Rt_ret : MRet Rt := @ret.
#[global] Instance Rt_bind : MBind Rt := fun A B f m => bind m f.

Definition reads {A} (f : maps -> A) : Rt A := fun w => (Ok (f (mem w)), w).

Definition modify (f : maps -> maps) : Rt unit :=
  fun w => (Ok tt, World (f (mem w)) (disk w) (uuids w) (dates w) (sent w) (logged w)).

(** [saveJson(FILE, Object.fromEntries(map))] for one of the maps. *)
Definition save (copy : maps -> maps -> maps) : Rt unit :=
  fun w => (Ok tt, World (mem w) (copy (mem w) (disk w)) (uuids w) (dates w) (sent w)
                     (logged w)).

Definition saveSessions : Rt unit := save (fun m d => with_sessions (fun _ => sessions m) d).
Definition saveMessages : Rt unit := save (fun m d => with_messages (fun _ => messages m) d).
Definition saveDatabases : Rt unit := save (fun m d => with_databases (fun _ => databases m) d).
Definition saveTables : Rt unit := save (fun m d => with_tables (fun _ => tables m) d).
Definition saveRows : Rt unit := save (fun m d => with_rows (fun _ => rows m) d).

Definition broadcast (e : event) : Rt unit :=
  fun w => (Ok tt, World (mem w) (disk w) (uuids w) (dates w) (sent w ++ [e]) (logged w)).

Definition console (line : string) : Rt unit :=
  fun w => (Ok tt, World (mem w) (disk w) (uuids w) (dates w) (sent w) (logged w ++ [line])).

(** [for (const x of l) { body x }] *)
Fixpoint for_each {A} (l : list A) (body : A -> Rt unit) : Rt unit :=
  match l with
  | [] => ret tt
  | x :: t => bind (body x) (fun _ => for_each t body)
  end.

Definition Q : string := String Str.QUOTE EmptyString.

(** [a.toLowerCase() === b.toLowerCase()] *)
Definition same_name (a b : string) : bool :=
  Str.eqb (Str.toLowerCase a) (Str.toLowerCase b).

(** [stored === given] for a database id that was stored as [given || null] *)
Definition same_database (stored : option string) (x : nullable) : bool :=
  match stored, x with
  | None, Null => true
  | Some a, Given b => Str.eqb a b
  | _, _ => false
  end.

(** [row.data[key]] *)
Definition member (data : object) (key : string) : any := read data key.

Section Host.

Variable uuid : nat -> string.      (* what the n-th [randomUUID()] returns *)
Variable clock : nat -> Z.          (* what the n-th [new Date()] reads *)

Definition randomUUID : Rt string :=
  fun w => (Ok (uuid (uuids w)),
            World (mem w) (disk w) (S (uuids w)) (dates w) (sent w) (logged w)).

Definition newDate : Rt Z :=
  fun w => (Ok (clock (dates w)),
            World (mem w) (disk w) (uuids w) (S (dates w)) (sent w) (logged w)).

(** ** [class FileStorage] *)

Definition createDatabase (database : InsertDatabase) : Rt Database :=
  existingDb ← reads (fun m =>
    List.find (fun d => same_name (db_name d) (idb_name database)) (values (databases m)));
  match existingDb with
  | Some _ => throw ("Database " +:+ Q +:+ idb_name database +:+ Q +:+ " already exists")
  | None =>
      id ← randomUUID;
      createdAt ← newDate;
      let db := Db id (idb_name database) (or_null (idb_description database)) createdAt in
      modify (with_databases (fun m => set m id db));;
      saveDatabases;;
      mret db
  end.

Definition getDatabases : Rt (list Database) := reads (fun m => values (databases m)).

(** The rows of the table [t] go, then the table. *)
Definition dropTable (m : maps) (t : DatabaseTable) : maps :=
  with_tables (fun ts => delete ts (tb_id t))
    (with_rows
       (fun rs =>
          fold_left (fun rs' r => delete rs' (tr_id r))
            (List.filter (fun r => Str.eqb (tr_tableId r) (tb_id t)) (values rs)) rs)
       m).

Definition deleteDatabase (id : string) : Rt unit :=
  modify (with_databases (fun m => delete m id));;
  modify (fun m =>
    fold_left dropTable
      (List.filter (fun t => match tb_databaseId t with
                             | Some d => Str.eqb d id
                             | None => false
                             end) (values (tables m))) m);;
  saveDatabases;;
  saveTables;;
  saveRows.

Definition getOrCreateDefaultDatabase : Rt Database :=
  defaultDb ← reads (fun m =>
    List.find (fun d => Str.eqb (Str.toLowerCase (db_name d)) "default")
      (values (databases m)));
  match defaultDb with
  | Some d => mret d
  | None => createDatabase (NewDatabase "default" (Given "Default database for tables"))
  end.

Definition addChatMessage (message : InsertChatMessage) : Rt ChatMessage :=
  id ← randomUUID;
  createdAt ← newDate;
  let chatMessage :=
    Message id (or_null (icm_sessionId message)) (icm_content message) (icm_role message)
      createdAt in
  modify (with_messages (fun m => set m id chatMessage));;
  saveMessages;;
  match given (icm_sessionId message) with
  | Some sessionId =>
      session ← reads (fun m => get (sessions m) sessionId);
      match session with
      | Some s =>
          updatedAt ← newDate;
          modify (with_sessions (fun m =>
            set m sessionId (Session (cs_id s) (cs_title s) (cs_createdAt s) updatedAt)));;
          saveSessions
      | None => mret tt
      end
  | None => mret tt
  end;;
  mret chatMessage.

Definition createTable (table : InsertDatabaseTable) : Rt DatabaseTable :=
  existingTable ← reads (fun m =>
    List.find (fun t => same_name (tb_name t) (it_name table)
                        && same_database (tb_databaseId t) (it_databaseId table))
      (values (tables m)));
  match existingTable with
  | Some _ =>
      throw ("Table " +:+ Q +:+ it_name table +:+ Q +:+ " already exists in this database")
  | None =>
      id ← randomUUID;
      createdAt ← newDate;
      let dbTable :=
        DbTable id (or_null (it_databaseId table)) (it_name table) (it_columns table)
          (JObj []) createdAt in
      modify (with_tables (fun m => set m id dbTable));;
      saveTables;;
      mret dbTable
  end.

(** [getTableByName(name, databaseId)]; [None] is no second argument. *)
Definition getTableByName (name : string) (databaseId : option string)
    : Rt (option DatabaseTable) :=
  reads (fun m =>
    List.find (fun t =>
                 let nameMatch := same_name (tb_name t) name in
                 match databaseId with
                 | Some d =>
                     if Str.is_empty d then nameMatch
                     else nameMatch && match tb_databaseId t with
                                       | Some d' => Str.eqb d' d
                                       | None => false
                                       end
                 | None => nameMatch
                 end)
      (values (tables m))).

(** [getTables(databaseId)]; [None] is no argument. *)
Definition getTables (databaseId : option string) : Rt (list DatabaseTable) :=
  reads (fun m =>
    let allTables := values (tables m) in
    match databaseId with
    | Some d =>
        if Str.is_empty d then allTables
        else List.filter (fun t => match tb_databaseId t with
                                   | Some d' => Str.eqb d' d
                                   | None => false
                                   end) allTables
    | None => allTables
    end).

Definition updateTable (id : string) (columns : list StoredColumn) : Rt DatabaseTable :=
  found ← reads (fun m => get (tables m) id);
  match found with
  | None => throw "Table not found"
  | Some t =>
      let table :=
        DbTable (tb_id t) (tb_databaseId t) (tb_name t) columns (tb_positions t)
          (tb_createdAt t) in
      modify (with_tables (fun m => set m id table));;
      saveTables;;
      mret table
  end.

Definition deleteTable (id : string) : Rt unit :=
  modify (with_tables (fun m => delete m id));;
  modify (with_rows (fun rs =>
    fold_left (fun rs' r => delete rs' (tr_id r))
      (List.filter (fun r => Str.eqb (tr_tableId r) id) (values rs)) rs));;
  saveTables;;
  saveRows.

Definition getRows (tableId : string) : Rt (list TableRow) :=
  reads (fun m => List.filter (fun r => Str.eqb (tr_tableId r) tableId) (values (rows m))).

Definition insertRow (row : InsertTableRow) : Rt TableRow :=
  table ← reads (fun m => get (tables m) (ir_tableId row));
  match table with
  | Some t =>
      match List.find sc_isPrimaryKey (tb_columns t) with
      | Some primaryKeyCol =>
          let key := c_name (sc_column primaryKeyCol) in
          let pkValue := member (ir_data row) key in
          existingRows ← getRows (ir_tableId row);
          match List.find (fun r => any_eqb (member (tr_data r) key) pkValue)
                  existingRows with
          | Some _ =>
              throw ("Primary key violation: " +:+ key +:+ " value '"
                     +:+ any_to_string pkValue +:+ "' already exists")
          | None => mret tt
          end
      | None => mret tt
      end
  | None => mret tt
  end;;
  id ← randomUUID;
  createdAt ← newDate;
  let tableRow := TRow id (ir_tableId row) (ir_data row) createdAt in
  modify (with_rows (fun m => set m id tableRow));;
  saveRows;;
  mret tableRow.

Definition deleteRow (id : string) : Rt unit :=
  modify (with_rows (fun m => delete m id));;
  saveRows.

(** [row.data = { ...row.data, ...data }], [data] being given by the members
    it holds: the spread makes a new object with the members that the two
    hold, those of [data] first. *)
Definition updateRow (id : string) (data : gmap string value) : Rt TableRow :=
  found ← reads (fun m => get (rows m) id);
  match found with
  | None => throw "Row not found"
  | Some r =>
      let row :=
        TRow (tr_id r) (tr_tableId r) (Obj (data ∪ own (tr_data r)) ObjectPrototype)
          (tr_createdAt r) in
      modify (with_rows (fun m => set m id row));;
      saveRows;;
      mret row
  end.

Definition findRowsByCondition (tableId column : string) (value_ : value)
    : Rt (list TableRow) :=
  rows_ ← getRows tableId;
  mret (List.filter
          (fun r => Str.eqb (any_to_string (member (tr_data r) column)) (to_string value_))
          rows_).

End Host.


(** ** The handler of [POST /api/chat/message], after the request body has
    been validated *)

Inductive reply : Type :=
| Json (body : list ChatMessage)         (* [res.json([userMessage, aiMessage])] *)
| Status400 (error : string).            (* [res.status(400).json({ error })] *)

Definition CHECK : string := "✓".
Definition CROSS : string := "❌".
Definition CHART : string := "📊".
Definition BULLET : string := "•".

(** The members of [details] the handler reads besides those the formatter
    reads; [None] is [undefined] (or [null] for [databaseName]). *)
Definition d_databaseName (d : Interpret.Details) : option string :=
  match d with
  | Interpret.DTableDef _ _ db => db
  | Interpret.DDatabaseName n => Some n
  | _ => None
  end.

Definition d_where (d : Interpret.Details) : option string :=
  match d with
  | Interpret.DSetWhere _ _ w => Some w
  | Interpret.DWhere _ w => Some w
  | _ => None
  end.

Definition d_set (d : Interpret.Details) : option string :=
  match d with
  | Interpret.DSetWhere _ s _ => Some s
  | _ => None
  end.

Definition d_response (d : Interpret.Details) : option string :=
  match d with
  | Interpret.DResponse r => Some r
  | _ => None
  end.

(** No details object of the interpreter has these members. *)
Definition d_columnName (d : Interpret.Details) : option string := None.
Definition d_columnType (d : Interpret.Details) : option string := None.

(** [!!m] for a string member *)
Definition present (m : option string) : bool :=
  match m with
  | Some s => negb (Str.is_empty s)
  | None => false
  end.

Definition text_of (m : option string) : string := default "undefined" m.

(** [l.find(x => x.name.toLowerCase() === name.toLowerCase())] *)
Definition findDatabase (l : list Database) (name : string) : option Database :=
  List.find (fun d => same_name (db_name d) name) l.

Definition findTable (l : list DatabaseTable) (name : string) : option DatabaseTable :=
  List.find (fun t => same_name (tb_name t) name) l.

(** [columns.map(c => `${c.name}(${c.type})`).join(", ")] *)
Definition columnList (cols : list column) : string :=
  Str.join ", " (map (fun c => c_name c +:+ "(" +:+ c_type c +:+ ")") cols).

(** [/(\w+)\s*=\s*[QUOTES]?(\w+)[QUOTES]?/i] and
    [/(\w+)\s*=\s*[QUOTES]?(.+?)[QUOTES]?$/i], [QUOTES] being the single and
    the double quote. *)
Definition wherePattern : string :=
  "(\w+)\s*=\s*['" +:+ Q +:+ "]?(\w+)['" +:+ Q +:+ "]?".

Definition setPattern : string :=
  "(\w+)\s*=\s*['" +:+ Q +:+ "]?(.+?)['" +:+ Q +:+ "]?$".

(** [m?.match(/src/i)] *)
Definition match_member (m : option string) (src : string) : option Regex.result :=
  match m with
  | Some s => Interpret.imatch src s
  | None => None
  end.

(** The table and the rows handed to the formatter. *)
Definition shownTable (t : DatabaseTable) : Format.table_info :=
  Format.TableInfo (tb_name t) (Some (map sc_column (tb_columns t))).

Definition shownRow (r : TableRow) : Format.row := Format.Row (Some (tr_data r)).

(** [const data = {}; table.columns.forEach((col, idx) => { data[col.name] =
    values[idx] || null })] *)
Definition rowData (columns : list StoredColumn) (values_ : list string) : object :=
  fold_left
    (fun data ic =>
       write (c_name (sc_column ic.2))
         (match values_ !! ic.1 with
          | Some v => if Str.is_empty v then VNull else VStr v
          | None => VNull
          end) data)
    (imap (fun idx col => (idx, col)) columns) empty_object.

Section Host.

Variable uuid : nat -> string.
Variable clock : nat -> Z.

(** What a branch leaves: the reply it has sent itself, or the text of the
    reply to send. *)
Definition branch : Type := (reply + string)%type.

Definition say (responseText : string) : Rt branch := mret (inr responseText).

(** [const aiMessage = await storage.addChatMessage(...); broadcast(...);
    return res.json([userMessage, aiMessage])] *)
Definition answer (validated : InsertChatMessage) (userMessage : ChatMessage)
    (responseText : string) : Rt reply :=
  aiMessage ← addChatMessage uuid clock
    (NewMessage (icm_sessionId validated) responseText "assistant");
  broadcast (Chat aiMessage);;
  mret (Json [userMessage; aiMessage]).

Definition createDatabaseBranch (details : Interpret.Details) : Rt branch :=
  let name := text_of (Format.d_name details) in
  try_catch
    (result ← createDatabase uuid clock (NewDatabase name Undefined);
     broadcast (DatabaseCreated result);;
     say (CHECK +:+ " Created database " +:+ Q +:+ name +:+ Q
          +:+ " successfully! You can now add tables to it by saying " +:+ Q
          +:+ "create table student with id, name in database " +:+ name +:+ Q))
    (fun message => say (CROSS +:+ " Error creating database: " +:+ message)).

Definition deleteDatabaseBranch (details : Interpret.Details) : Rt branch :=
  let databaseName := text_of (d_databaseName details) in
  try_catch
    (dbs ← getDatabases;
     match findDatabase dbs databaseName with
     | Some dbToDelete =>
         deleteDatabase (db_id dbToDelete);;
         broadcast (DatabaseDeleted (db_id dbToDelete));;
         say (CHECK +:+ " Deleted database " +:+ Q +:+ databaseName +:+ Q
              +:+ " and all its tables")
     | None => say (CROSS +:+ " Database " +:+ Q +:+ databaseName +:+ Q +:+ " not found")
     end)
    (fun message => say (CROSS +:+ " Error deleting database: " +:+ message)).

(** [Promise.all(databases.map(async db => ...))] *)
Fixpoint databaseLines (dbs : list Database) : Rt (list string) :=
  match dbs with
  | [] => mret []
  | db :: rest =>
      ts ← getTables (Some (db_id db));
      lines ← databaseLines rest;
      mret ((BULLET +:+ " " +:+ db_name db +:+ " (" +:+ pretty (length ts) +:+ " tables)")
            :: lines)
  end.

Definition showDatabasesBranch : Rt branch :=
  dbs ← getDatabases;
  if length dbs =? 0 then
    say (CHART +:+ " No databases found. Create one by saying 'create database school'")
  else
    dbList ← databaseLines dbs;
    say (CHART +:+ " Found " +:+ pretty (length dbs) +:+ " database(s):" +:+ Str.LF
         +:+ Str.join Str.LF dbList).

Definition createTableBranch (validated : InsertChatMessage) (userMessage : ChatMessage)
    (details : Interpret.Details) : Rt branch :=
  let name := text_of (Format.d_name details) in
  let columns := default [] (Format.d_columns details) in
  let early (responseText : string) : Rt branch :=
    r ← answer validated userMessage responseText; mret (inl r) in
  try_catch
    (target ←
       (if present (d_databaseName details) then
          let databaseName := text_of (d_databaseName details) in
          dbs ← getDatabases;
          match findDatabase dbs databaseName with
          | Some db => mret (inr (db_id db, db_name db))
          | None =>
              r ← early (CROSS +:+ " Database " +:+ Q +:+ databaseName +:+ Q
                         +:+ " not found. Create it first by saying " +:+ Q
                         +:+ "create database " +:+ databaseName +:+ Q);
              mret (inl r)
          end
        else
          defaultDb ← getOrCreateDefaultDatabase uuid clock;
          broadcast (DatabaseCreated defaultDb);;
          mret (inr (db_id defaultDb, db_name defaultDb)));
     match target with
     | inl returned => mret returned
     | inr (databaseId, dbName) =>
         existingTable ← getTableByName name (Some databaseId);
         match existingTable with
         | Some _ =>
             early (CROSS +:+ " Table " +:+ Q +:+ name +:+ Q
                    +:+ " already exists in database " +:+ Q +:+ dbName +:+ Q
                    +:+ ". Use a different name or delete the existing table first.")
         | None =>
             result ← createTable uuid clock
               (NewTable (Given databaseId) name (map (fun c => SCol c false) columns));
             broadcast (TableCreated result);;
             say (CHECK +:+ " Created table " +:+ Q +:+ name +:+ Q +:+ " in database "
                  +:+ Q +:+ dbName +:+ Q +:+ " with columns: " +:+ columnList columns)
         end
     end)
    (fun message => say (CROSS +:+ " Error creating table: " +:+ message)).

Definition tableNotFound (details : Interpret.Details) : string :=
  CROSS +:+ " Table " +:+ Q +:+ text_of (Format.d_tableName details) +:+ Q +:+ " not found".

Definition deleteTableBranch (action : string) (details : Interpret.Details) : Rt branch :=
  try_catch
    (ts ← getTables None;
     match findTable ts (text_of (Format.d_tableName details)) with
     | Some tableToDelete =>
         deleteTable (tb_id tableToDelete);;
         broadcast (TableDeleted (tb_id tableToDelete));;
         say (Format.generateChatResponse action details None)
     | None => say (tableNotFound details)
     end)
    (fun message => say (CROSS +:+ " Error deleting table: " +:+ message)).

Definition addColumnBranch (action : string) (details : Interpret.Details) : Rt branch :=
  try_catch
    (ts ← getTables None;
     match findTable ts (text_of (Format.d_tableName details)) with
     | Some t =>
         let newColumns :=
           tb_columns t ++
           [SCol (Column (text_of (d_columnName details))
                    (if present (d_columnType details)
                     then text_of (d_columnType details) else "text")) false] in
         result ← updateTable (tb_id t) newColumns;
         broadcast (TableUpdated result);;
         say (Format.generateChatResponse action details None)
     | None => say (tableNotFound details)
     end)
    (fun message => say (CROSS +:+ " Error adding column: " +:+ message)).

Definition insertRowBranch (action : string) (details : Interpret.Details) : Rt branch :=
  try_catch
    (ts ← getTables None;
     match findTable ts (text_of (Format.d_tableName details)) with
     | Some t =>
         let data := rowData (tb_columns t) (default [] (Format.d_values details)) in
         newRow ← insertRow uuid clock (NewRow (tb_id t) data);
         broadcast (RowInserted newRow);;
         say (Format.generateChatResponse action details None)
     | None => say (tableNotFound details)
     end)
    (fun message => say (CROSS +:+ " Insert failed: " +:+ message)).

Definition updateRowBranch (details : Interpret.Details) : Rt branch :=
  let tableName := text_of (Format.d_tableName details) in
  try_catch
    (ts ← getTables None;
     match findTable ts tableName with
     | Some t =>
         match match_member (d_where details) wherePattern,
               match_member (d_set details) setPattern with
         | Some whereMatch, Some setMatch =>
             let whereCol := Interpret.capture whereMatch 1 in
             let whereVal := Interpret.capture whereMatch 2 in
             let setCol := Interpret.capture setMatch 1 in
             let setVal := Interpret.capture setMatch 2 in
             matchingRows ← findRowsByCondition (tb_id t) whereCol (VStr whereVal);
             if 0 <? length matchingRows then
               for_each matchingRows (fun row =>
                 _ ← updateRow (tr_id row) {[ setCol := VStr setVal ]}; mret tt);;
               broadcast RowUpdated;;
               say (CHECK +:+ " Updated " +:+ pretty (length matchingRows) +:+ " row(s) in "
                    +:+ Q +:+ tableName +:+ Q +:+ " - set " +:+ setCol +:+ " = " +:+ setVal
                    +:+ " where " +:+ whereCol +:+ " = " +:+ whereVal)
             else
               say (CROSS +:+ " No rows found in " +:+ Q +:+ tableName +:+ Q +:+ " where "
                    +:+ whereCol +:+ " = " +:+ whereVal)
         | _, _ =>
             say (CROSS +:+ " Could not parse update command. Use format: " +:+ Q
                  +:+ "update table_name set column = value where id = value" +:+ Q)
         end
     | None => say (tableNotFound details)
     end)
    (fun message => say (CROSS +:+ " Update failed: " +:+ message)).

Definition deleteRowBranch (details : Interpret.Details) : Rt branch :=
  let tableName := text_of (Format.d_tableName details) in
  try_catch
    (ts ← getTables None;
     match findTable ts tableName with
     | Some t =>
         match match_member (d_where details) wherePattern with
         | Some whereMatch =>
             let whereCol := Interpret.capture whereMatch 1 in
             let whereVal := Interpret.capture whereMatch 2 in
             matchingRows ← findRowsByCondition (tb_id t) whereCol (VStr whereVal);
             if 0 <? length matchingRows then
               for_each matchingRows (fun row => deleteRow (tr_id row));;
               broadcast RowDeleted;;
               say (CHECK +:+ " Deleted " +:+ pretty (length matchingRows)
                    +:+ " row(s) from " +:+ Q +:+ tableName +:+ Q +:+ " where "
                    +:+ whereCol +:+ " = " +:+ whereVal)
             else
               say (CROSS +:+ " No rows found in " +:+ Q +:+ tableName +:+ Q +:+ " where "
                    +:+ whereCol +:+ " = " +:+ whereVal)
         | None =>
             say (CROSS +:+ " Could not parse delete command. Use format: " +:+ Q
                  +:+ "delete from table_name where id = value" +:+ Q)
         end
     | None => say (tableNotFound details)
     end)
    (fun message => say (CROSS +:+ " Delete failed: " +:+ message)).

Definition showTableBranch (action : string) (details : Interpret.Details) : Rt branch :=
  try_catch
    (ts ← getTables None;
     match findTable ts (text_of (Format.d_tableName details)) with
     | Some t =>
         rows_ ← getRows (tb_id t);
         say (Format.generateChatResponse action details
                (Some (Format.ExecResult (Some (shownTable t)) (Some (map shownRow rows_)))))
     | None => say (tableNotFound details)
     end)
    (fun message => say (CROSS +:+ " Error: " +:+ message)).

Definition showTablesBranch : Rt branch :=
  ts ← getTables None;
  if length ts =? 0 then
    say (CHART +:+ " No tables found. Create one by saying "
         +:+ "'create a table student with id, name, email'")
  else
    say (CHART +:+ " Found " +:+ pretty (length ts) +:+ " table(s):" +:+ Str.LF
         +:+ Str.join Str.LF
               (map (fun t => BULLET +:+ " " +:+ tb_name t +:+ " ("
                              +:+ pretty (length (tb_columns t)) +:+ " columns)") ts)).

(** The chain of [if (action === ...)] that executes the action. *)
Definition execute (validated : InsertChatMessage) (userMessage : ChatMessage)
    (action : string) (details : Interpret.Details) : Rt branch :=
  if Str.eqb action "create_database" && present (Format.d_name details) then
    createDatabaseBranch details
  else if Str.eqb action "delete_database" && present (d_databaseName details) then
    deleteDatabaseBranch details
  else if Str.eqb action "show_databases" then showDatabasesBranch
  else if Str.eqb action "create_table" && present (Format.d_name details)
          && match Format.d_columns details with Some _ => true | None => false end then
    createTableBranch validated userMessage details
  else if Str.eqb action "delete_table" && present (Format.d_tableName details) then
    deleteTableBranch action details
  else if Str.eqb action "add_column" && present (Format.d_tableName details)
          && present (d_columnName details) then
    addColumnBranch action details
  else if Str.eqb action "insert_row" && present (Format.d_tableName details)
          && match Format.d_values details with Some _ => true | None => false end then
    insertRowBranch action details
  else if Str.eqb action "update_row" && present (Format.d_tableName details) then
    updateRowBranch details
  else if Str.eqb action "delete_row" && present (Format.d_tableName details) then
    deleteRowBranch details
  else if Str.eqb action "show_table" && present (Format.d_tableName details) then
    showTableBranch action details
  else if Str.eqb action "show_tables" then showTablesBranch
  else if Str.eqb action "conversation" then
    say (if present (d_response details) then text_of (d_response details)
         else "I'm here to help!")
  else say (Format.generateChatResponse action details None).

Definition chatMessage (validated : InsertChatMessage) : Rt reply :=
  try_catch
    (userMessage ← addChatMessage uuid clock validated;
     broadcast (Chat userMessage);;
     let command := Interpret.processNaturalLanguageCommand (icm_content validated) in
     console "Action:";;
     executed ← execute validated userMessage (Interpret.action command)
                  (Interpret.details command);
     match executed with
     | inl returned => mret returned
     | inr responseText => answer validated userMessage responseText
     end)
    (fun message =>
       console "Chat error:";;
       mret (Status400 (if Str.is_empty message then "Invalid message" else message))).

End Host.

End Server.

(* ===================================================================== *)
(** * The import of a file *)
(* ===================================================================== *)

(** The part of the handler of [POST /api/upload] in [server/routes.ts]
    that stores the tables of a file, for the tables that the extractors of
    [gemini.ts] build themselves: their columns are objects with a name and
    a type, which [createTable] stores as they are, so that [isPrimaryKey]
    reads [undefined] on each of them, and the array of the columns has no
    hole. Two kinds of tables are outside: those that the oracle returns for
    an image or a document, whose columns may carry other members
    ([isPrimaryKey] among them), and those of a sheet whose header row has a
    blank cell, where the array of the columns has a hole on which
    [insertRow] throws. The properties of the import are stated for the
    tables of a CSV file and of a text, none of which is of these kinds. *)
Module Upload.

Import Js Server.

Section Host.

Variable uuid : nat -> string.
Variable clock : nat -> Z.

(** [Date.now()]: a reading of the clock. *)
Definition dateNow : Rt Z := newDate clock.

(** The body of [for (const tableData of extractedData.tables)]: the table
    pushed to [createdTables], or [None] after [continue]. *)
Definition importTable (defaultDb : Database) (tableData : Extract.ExtractedTable)
    : Rt (option DatabaseTable) :=
  tableName ←
    (if Str.is_empty (Extract.name tableData) then
       now ← dateNow; mret ("imported_" +:+ pretty now)
     else mret (Extract.name tableData));
  existingTable ← getTableByName tableName (Some (db_id defaultDb));
  match existingTable with
  | Some _ => mret None
  | None =>
      table ← createTable uuid clock
        (NewTable (Given (db_id defaultDb)) tableName
           (map (fun c => SCol c false) (Extract.columns tableData)));
      for_each (Extract.rows tableData) (fun row =>
        _ ← insertRow uuid clock (NewRow (tb_id table) row); mret tt);;
      broadcast (TableCreated table);;
      mret (Some table)
  end.

Fixpoint importLoop (defaultDb : Database) (tables : list Extract.ExtractedTable)
    (createdTables : list DatabaseTable) : Rt (list DatabaseTable) :=
  match tables with
  | [] => mret createdTables
  | tableData :: rest =>
      imported ← importTable defaultDb tableData;
      importLoop defaultDb rest
        (match imported with
         | Some table => createdTables ++ [table]
         | None => createdTables
         end)
  end.

(** [if (extractedData.tables && extractedData.tables.length > 0) { ... }]
    up to the end of the loop: the tables created, or [None] when there is
    nothing to import. *)
Definition importTables (tables : list Extract.ExtractedTable)
    : Rt (option (list DatabaseTable)) :=
  if 0 <? length tables then
    defaultDb ← getOrCreateDefaultDatabase uuid clock;
    createdTables ← importLoop defaultDb tables [];
    mret (Some createdTables)
  else mret None.

End Host.

End Upload.

(** ** What the store keeps true *)

(** Every entry of the three maps of the data is stored under its own id. *)
Definition keysAreIds (m : Server.maps) : Prop :=
  (forall k d, In (k, d) (Server.databases m) -> Server.db_id d = k) /\
  (forall k t, In (k, t) (Server.tables m) -> Server.tb_id t = k) /\
  (forall k r, In (k, r) (Server.rows m) -> Server.tr_id r = k).

(** No two databases have the same name, letter case set aside. *)
Definition namesDiffer (m : Server.maps) : Prop :=
  List.NoDup (map (fun d => Str.toLowerCase (Server.db_name d))
           (Server.values (Server.databases m))).

(** A table that names a database names a stored one. *)
Definition tablesBelong (m : Server.maps) : Prop :=
  forall t d,
    In t (Server.values (Server.tables m)) -> Server.tb_databaseId t = Some d ->
    exists db, In db (Server.values (Server.databases m)) /\ Server.db_id db = d.

(** Every row is a row of a stored table. *)
Definition rowsBelong (m : Server.maps) : Prop :=
  forall r,
    In r (Server.values (Server.rows m)) ->
    exists t, In t (Server.values (Server.tables m)) /\ Server.tb_id t = Server.tr_tableId r.

Definition consistent (w : Server.world) : Prop :=
  keysAreIds (Server.mem w) /\ namesDiffer (Server.mem w) /\
  tablesBelong (Server.mem w) /\ rowsBelong (Server.mem w).

(** Every map is saved: what was last written to its file is what it holds. *)
Definition persisted (w : Server.world) : Prop := Server.disk w = Server.mem w.

(** From a state where [P] holds, [m] returns [a] in a state where [Q a]
    holds, or throws in a state where [E] holds. *)
Definition triple {A} (P : Server.world -> Prop) (m : Server.Rt A)
    (Q : A -> Server.world -> Prop) (E : Server.world -> Prop) : Prop :=
  forall w, P w ->
    match m w with
    | (Extract.Ok a, w') => Q a w'
    | (Extract.Throw _, w') => E w'
    end.

(** [m] keeps [I], whether it returns or throws. *)
Definition keeps {A} (I : Server.world -> Prop) (m : Server.Rt A) : Prop :=
  triple I m (fun _ => I) I.

(** The test [insertRow] makes before it stores the row. *)
Definition violation (row : Server.InsertTableRow) (m : Server.maps) : option string :=
  match Server.get (Server.tables m) (Server.ir_tableId row) with
  | Some t =>
      match List.find Server.sc_isPrimaryKey (Server.tb_columns t) with
      | Some primaryKeyCol =>
          let key := c_name (Server.sc_column primaryKeyCol) in
          match List.find
                  (fun r => Js.any_eqb (Server.member (Server.tr_data r) key) (Server.member (Server.ir_data row) key))
                  (List.filter (fun r => Str.eqb (Server.tr_tableId r) (Server.ir_tableId row))
                     (Server.values (Server.rows m))) with
          | Some _ =>
              Some ("Primary key violation: " +:+ key +:+ " value '"
                    +:+ Js.any_to_string (Server.member (Server.ir_data row) key) +:+ "' already exists")
          | None => None
          end
      | None => None
      end
  | None => None
  end.


(** The message [addChatMessage] stores and returns, and the state it
    leaves: the message is saved, and the session it names, when there is
    one, gets a new date of update and is saved. *)
Definition newMessage (uuid : nat -> string) (clock : nat -> Z)
    (message : Server.InsertChatMessage) (w : Server.world) : Server.ChatMessage :=
  Server.Message (uuid (Server.uuids w)) (Server.or_null (Server.icm_sessionId message))
    (Server.icm_content message) (Server.icm_role message) (clock (Server.dates w)).

Definition afterMessage (uuid : nat -> string) (clock : nat -> Z)
    (message : Server.InsertChatMessage) (w : Server.world) : Server.world :=
  let m1 :=
    Server.with_messages
      (fun m => Server.set m (uuid (Server.uuids w)) (newMessage uuid clock message w))
      (Server.mem w) in
  let d1 := Server.with_messages (fun _ => Server.messages m1) (Server.disk w) in
  let plain :=
    Server.World m1 d1 (S (Server.uuids w)) (S (Server.dates w)) (Server.sent w)
      (Server.logged w) in
  match Server.given (Server.icm_sessionId message) with
  | Some sessionId =>
      match Server.get (Server.sessions (Server.mem w)) sessionId with
      | Some s =>
          let m2 :=
            Server.with_sessions
              (fun m =>
                 Server.set m sessionId
                   (Server.Session (Server.cs_id s) (Server.cs_title s)
                      (Server.cs_createdAt s) (clock (S (Server.dates w))))) m1 in
          Server.World m2 (Server.with_sessions (fun _ => Server.sessions m2) d1)
            (S (Server.uuids w)) (S (S (Server.dates w))) (Server.sent w) (Server.logged w)
      | None => plain
      end
  | None => plain
  end.

(** The messages stored are [M]: what everything but [addChatMessage]
    leaves as it is. *)
Definition messagesAre (M : Server.jsmap Server.ChatMessage) (w : Server.world) : Prop :=
  Server.messages (Server.mem w) = M.

(** What a reply that has been sent says about the state: it holds the
    user's message and one message of the assistant in the same session,
    which has been stored. *)
Definition answered (validated : Server.InsertChatMessage) (userMessage : Server.ChatMessage)
    (M : Server.jsmap Server.ChatMessage) (r : Server.reply) (w : Server.world) : Prop :=
  exists a,
    r = Server.Json [userMessage; a] /\ Server.cm_role a = "assistant" /\
    Server.cm_sessionId a = Server.or_null (Server.icm_sessionId validated) /\
    Server.messages (Server.mem w) = Server.set M (Server.cm_id a) a.

(** A host whose identifiers are [id0], [id1], ... and whose clock ticks
    once per reading. *)
Definition uuid0 (n : nat) : string := "id" +:+ pretty n.
Definition clock0 (n : nat) : Z := Z.of_nat n.

(** The empty store. *)
Definition emptyWorld : Server.world :=
  Server.World (Server.Maps [] [] [] [] []) (Server.Maps [] [] [] [] []) 0 0 [] [].

(** A store with one database, [school], that holds one table,
    [student(id, name)] with [id] as primary key, which holds one row. *)
Definition schoolDatabase : Server.Database := Server.Db "d1" "school" None 0.

Definition studentTable : Server.DatabaseTable :=
  Server.DbTable "t1" (Some "d1") "student"
    [Server.SCol (Column "id" "text") true; Server.SCol (Column "name" "text") false]
    (JObj []) 0.

Definition studentRow : Server.TableRow :=
  Server.TRow "r1" "t1"
    (Js.Obj {[ "id" := Js.VStr "1"; "name" := Js.VStr "Asha" ]} Js.ObjectPrototype) 0.

Definition studentWorld : Server.world :=
  let m :=
    Server.Maps [] [] [("d1", schoolDatabase)] [("t1", studentTable)] [("r1", studentRow)] in
  Server.World m m 0 0 [] [].

(** No two tables and no two rows have the same id. *)
Definition idsDiffer (m : Server.maps) : Prop :=
  List.NoDup (map Server.tb_id (Server.values (Server.tables m))) /\
  List.NoDup (map Server.tr_id (Server.values (Server.rows m))).

(** The row [updateRow] stores in the place of [r]: [{ ...r.data, ...data }]. *)
Definition updated (data : gmap string Js.value) (r : Server.TableRow) : Server.TableRow :=
  Server.TRow (Server.tr_id r) (Server.tr_tableId r)
    (Js.Obj (data ∪ Js.own (Server.tr_data r)) Js.ObjectPrototype) (Server.tr_createdAt r).

(** No two tables of one database have the same name, letter case set
    aside. *)
Definition tableNamesDiffer (m : Server.maps) : Prop :=
  List.NoDup
    (map (fun t => (Server.tb_databaseId t, Str.toLowerCase (Server.tb_name t)))
       (List.filter (fun t => match Server.tb_databaseId t with
                              | Some _ => true
                              | None => false
                              end)
          (Server.values (Server.tables m)))).

(** Every entry is stored under its own id, and the ids differ. *)
Definition keyed (w : Server.world) : Prop :=
  keysAreIds (Server.mem w) /\ idsDiffer (Server.mem w).

(** The rows that the import of a table stores, when [u] identifiers have
    been drawn and [d] dates read. *)
Definition importedRows (uuid : nat -> string) (clock : nat -> Z) (u d : nat)
    (tableId : string) (rws : list Js.object) : list Server.TableRow :=
  imap (fun i row => Server.TRow (uuid (u + i)) tableId row (clock (d + i))) rws.

(** A CSV file of marks, and the table that [extractFromCSV] returns for
    it. *)
Definition marksCsv : string :=
  "id,score" +:+ Str.LF +:+ "1,17" +:+ Str.LF +:+ "2,12".

Definition marksTable : Extract.ExtractedTable :=
  Extract.Table "imported_csv" [Column "id" "integer"; Column "score" "integer"]
    [ Js.Obj {[ "id" := Js.VStr "1"; "score" := Js.VStr "17" ]} Js.ObjectPrototype;
      Js.Obj {[ "id" := Js.VStr "2"; "score" := Js.VStr "12" ]} Js.ObjectPrototype ].

(** The tables of a CSV file and the tables found in a text. Both extractors
    build the columns with [map] over the cells of a header line, so that
    the array of the columns has no hole, and give a column a name and a
    type only. *)
Definition ofCsvOrText (host : string -> bool) (t : Extract.ExtractedTable) : Prop :=
  (exists buffer,
     Extract.tables (Extract.extractFromCSV host buffer) = Extract.Tables [t]) \/
  (exists text, In t (Extract.extractTablesFromText host text)).

(* ===================================================================== *)
(** * Strings *)
(* ===================================================================== *)

Section StringFacts.

Lemma chars_of_str_of l : chars_of (str_of l) = l.
Proof. apply list_ascii_of_string_of_list_ascii. Qed.

Lemma str_of_chars_of s : str_of (chars_of s) = s.
Proof. apply string_of_list_ascii_of_string. Qed.

Lemma chars_of_inj s t : chars_of s = chars_of t -> s = t.
Proof. intros H. rewrite <- (str_of_chars_of s), <- (str_of_chars_of t). by rewrite H. Qed.

Lemma chars_of_app s t : chars_of (s +:+ t) = chars_of s ++ chars_of t.
Proof. induction s as [|a s IH]; simpl; [done|]. by rewrite <- IH. Qed.

Lemma append_assoc (a b c : string) : (a +:+ b) +:+ c = a +:+ b +:+ c.
Proof. apply chars_of_inj. by rewrite !chars_of_app, app_assoc. Qed.

Lemma starts_with_spec p l :
  Str.starts_with p l = true <-> exists post, l = p ++ post.
Proof.
  revert l. induction p as [|a p IH]; intros l; simpl.
  - split; eauto.
  - destruct l as [|b l]; simpl.
    + split; [done|]. by intros [post H].
    + rewrite andb_true_iff, IH. unfold Chars.eqb. rewrite Ascii.eqb_eq. split.
      * intros [-> [post ->]]. eauto.
      * intros [post H]. injection H as -> ->. eauto.
Qed.

Lemma find_sub_spec p l :
  Str.find_sub p l = true <-> exists pre post, l = pre ++ p ++ post.
Proof.
  induction l as [|c l IH].
  - simpl. rewrite orb_false_r, starts_with_spec. split.
    + intros [post H]. by exists [], post.
    + intros (pre & post & H). destruct pre; [|done]. eauto.
  - cbn [Str.find_sub]. rewrite orb_true_iff, starts_with_spec, IH. split.
    + intros [[post H] | (pre & post & H)].
      * by exists [], post.
      * exists (c :: pre), post. by rewrite H.
    + intros (pre & post & H). destruct pre as [|d pre].
      * left. eauto.
      * right. injection H as -> ->. eauto.
Qed.

Lemma includes_spec s sub : Str.includes s sub = true <-> Contains s sub.
Proof. unfold Str.includes, Contains. apply find_sub_spec. Qed.

Lemma Contains_trans s a b : Contains s a -> Contains a b -> Contains s b.
Proof.
  intros (p1 & q1 & H1) (p2 & q2 & H2). exists (p1 ++ p2), (q2 ++ q1).
  rewrite H1, H2. by rewrite <- !app_assoc.
Qed.

Lemma Contains_sub s a b : Str.includes a b = true -> Contains s a -> Contains s b.
Proof. rewrite includes_spec. eauto using Contains_trans. Qed.

Lemma forallb_Forall {A} (f : A -> bool) l :
  forallb f l = true <-> Forall (fun x => f x = true) l.
Proof. rewrite forallb_forall, List.Forall_forall. done. Qed.

End StringFacts.

(** Boolean tests on the message, read as facts about what it contains. *)
Ltac bool_hyps :=
  repeat match goal with
         | E : _ && _ = true |- _ => apply andb_true_iff in E as [? ?]
         | E : _ || _ = true |- _ => apply orb_true_iff in E as [? | ?]
         | E : negb _ = true |- _ => apply negb_true_iff in E
         | E : Str.includes _ _ = true |- _ => apply includes_spec in E
         | E : Str.includes _ _ = false |- _ =>
             apply not_true_iff_false in E; rewrite includes_spec in E
         end.

(** Case analysis on the tests a step makes before it returns. *)
Ltac break_step H :=
  repeat match type of H with
         | (if ?e then _ else _) = _ => destruct e eqn:?
         | match ?e with _ => _ end = _ => destruct e eqn:?
         | (let _ := _ in _) = _ => cbv zeta in H
         end;
  try discriminate H; try (injection H as <-).

(* ===================================================================== *)
(** * The matcher against what a pattern can match *)
(* ===================================================================== *)

Section RegexTheory.
Import Regex RegexSem.

Variable ic : bool.

Lemma step_sound ok k s res :
  step ok k s = Some res ->
  exists c rem, rest s = c :: rem /\ ok c = true /\
                k (MState (pos s + 1) rem (caps s)) = Some res.
Proof.
  unfold step. destruct (rest s) as [|c t]; [discriminate|].
  destruct (ok c) eqn:E; [|discriminate].
  intros H. exists c, t. rewrite Nat.add_1_r. auto.
Qed.

Lemma rep_loop_sound r gs g k :
  sound_for ic r (rmatch ic r) ->
  forall fuel mn mx x res,
    rep_loop (rmatch ic r) gs g k fuel mn mx x = Some res ->
    exists w rem cs,
      rest x = w ++ rem /\ Matches ic (Rep mn mx g r) (pos x) w rem /\
      k (MState (pos x + length w) rem cs) = Some res.
Proof.
  intros IHr. induction fuel as [|fuel IH]; intros mn mx x res H; [discriminate|].
  assert (Stop : (mn = 0 \/ mx = Some 0) -> k x = Some res ->
                 exists w rem cs,
                   rest x = w ++ rem /\ Matches ic (Rep mn mx g r) (pos x) w rem /\
                   k (MState (pos x + length w) rem cs) = Some res).
  { intros Hs Hk. exists [], (rest x), (caps x). split; [reflexivity|]. split.
    - by constructor.
    - simpl. rewrite Nat.add_0_r. by destruct x. }
  assert (Iter : mx <> Some 0 ->
            rmatch ic r
              (fun y => if (mn =? 0) && (pos y =? pos x) then None
                        else rep_loop (rmatch ic r) gs g k fuel (Nat.pred mn) (pred_bound mx) y)
              (MState (pos x) (rest x) (clear gs (caps x))) = Some res ->
            exists w rem cs,
              rest x = w ++ rem /\ Matches ic (Rep mn mx g r) (pos x) w rem /\
              k (MState (pos x + length w) rem cs) = Some res).
  { intros Hmx Hm. apply IHr in Hm as (w1 & rem1 & cs1 & Hrest & Hw1 & Hd). simpl in *.
    destruct ((mn =? 0) && (pos x + length w1 =? pos x)) eqn:E; [discriminate|].
    apply IH in Hd as (w2 & rem & cs2 & Hrest2 & Hw2 & Hk). simpl in *. subst rem1.
    exists (w1 ++ w2), rem, cs2. split; [by rewrite <- app_assoc|]. split.
    - apply M_RepStep; auto.
      intros -> ->. simpl in E. rewrite Nat.add_0_r, Nat.eqb_refl in E. discriminate.
    - rewrite length_app, Nat.add_assoc. exact Hk. }
  assert (Hmn0 : (mn =? 0) = true -> mn = 0) by apply Nat.eqb_eq.
  simpl in H.
  destruct mx as [[|mx']|]; [apply Stop; auto| |];
    (destruct (mn =? 0) eqn:Emn; simpl in H;
     [ destruct g;
       [ match type of H with match ?e with _ => _ end = _ => destruct e eqn:Em end;
         [ injection H as <-; apply Iter; [discriminate|exact Em]
         | apply Stop; auto ]
       | destruct (k x) eqn:Ek;
         [ apply Stop; auto | apply Iter; [discriminate|exact H] ] ]
     | apply Iter; [discriminate|exact H] ]).
Qed.

Lemma rmatch_sound r : sound_for ic r (rmatch ic r).
Proof.
  induction r as [| a | | neg items | | | r1 IH1 r2 IH2 | r1 IH1 r2 IH2
                 | mn mx g r IH | n r IH]; intros k s res H; simpl in H.
  - exists [], (rest s), (caps s). simpl. rewrite Nat.add_0_r.
    split; [reflexivity|]. split; [constructor|]. by destruct s.
  - apply step_sound in H as (c & rem & Hr & Hok & Hk).
    exists [c], rem, (caps s). split; [exact Hr|]. split; [by constructor|]. exact Hk.
  - apply step_sound in H as (c & rem & Hr & Hok & Hk).
    exists [c], rem, (caps s). split; [exact Hr|]. split;
      [constructor; by apply negb_true_iff|]. exact Hk.
  - apply step_sound in H as (c & rem & Hr & Hok & Hk).
    exists [c], rem, (caps s). split; [exact Hr|]. split; [by constructor|]. exact Hk.
  - destruct (pos s =? 0) eqn:E; [|discriminate]. apply Nat.eqb_eq in E.
    exists [], (rest s), (caps s). simpl. rewrite Nat.add_0_r.
    split; [reflexivity|]. split; [rewrite E; constructor|]. by destruct s.
  - destruct (rest s) eqn:E; [|discriminate].
    exists [], [], (caps s). simpl. rewrite Nat.add_0_r.
    split; [reflexivity|]. split; [constructor|]. destruct s; simpl in *; by subst.
  - apply IH1 in H as (w1 & rem1 & cs1 & Hr1 & Hm1 & Hk1).
    apply IH2 in Hk1 as (w2 & rem & cs2 & Hr2 & Hm2 & Hk). simpl in *. subst rem1.
    exists (w1 ++ w2), rem, cs2. split; [by rewrite <- app_assoc|]. split.
    + by constructor.
    + by rewrite length_app, Nat.add_assoc.
  - destruct (rmatch ic r1 k s) eqn:E1.
    + inversion H; subst. apply IH1 in E1 as (w & rem & cs & ? & ? & ?).
      exists w, rem, cs. split; [done|]. split; [by apply M_AltL|done].
    + apply IH2 in H as (w & rem & cs & ? & ? & ?).
      exists w, rem, cs. split; [done|]. split; [by apply M_AltR|done].
  - eapply rep_loop_sound; eauto.
  - apply IH in H as (w & rem & cs & Hr & Hm & Hk). simpl in Hk.
    exists w, rem, ((n, take (pos s + length w - pos s) (rest s)) :: cs).
    split; [done|]. split; [by constructor|done].
Qed.

Lemma runs_rmatch r k s : runs ic r k s -> rmatch ic r k s <> None.
Proof. destruct r; simpl; auto. Qed.

Lemma rmatch_complete_runs r p w rem :
  Matches ic r p w rem ->
  forall k, (forall cs, k (MState (p + length w) rem cs) <> None) ->
  forall cs, runs ic r k (MState p (w ++ rem) cs).
Proof.
  induction 1 as [p rem | a c p rem Hc | c p rem Hc | neg items c p rem Hc | rem | p
                 | r1 r2 p w1 w2 rem _ IH1 _ IH2 | r1 r2 p w rem _ IH | r1 r2 p w rem _ IH
                 | mn mx g r p rem Hstop
                 | mn mx g r p w1 w2 rem Hmx Hne _ IH1 _ IH2
                 | n r p w rem _ IH]; intros k Hk cs; simpl in *.
  - specialize (Hk cs). by rewrite Nat.add_0_r in Hk.
  - unfold step; simpl. rewrite Hc. specialize (Hk cs). by rewrite Nat.add_1_r in Hk.
  - unfold step; simpl. rewrite Hc. simpl. specialize (Hk cs). by rewrite Nat.add_1_r in Hk.
  - unfold step; simpl. rewrite Hc. specialize (Hk cs). by rewrite Nat.add_1_r in Hk.
  - apply Hk.
  - specialize (Hk cs). by rewrite Nat.add_0_r in Hk.
  - rewrite <- app_assoc. apply runs_rmatch, IH1. intros cs'.
    apply runs_rmatch, IH2. intros cs''. specialize (Hk cs'').
    by rewrite length_app, Nat.add_assoc in Hk.
  - pose proof (runs_rmatch _ _ _ (IH k Hk cs)) as Hr.
    by destruct (rmatch ic r1 k _).
  - destruct (rmatch ic r1 k _); [done|]. by apply runs_rmatch, IH.
  - intros [|fuel] Hf; [lia|]. simpl.
    assert (Hkx : k (MState p rem cs) <> None).
    { specialize (Hk cs). by rewrite Nat.add_0_r in Hk. }
    destruct mx as [[|mx']|]; [done| |];
      (destruct Hstop as [-> | ?]; [|done]; simpl; destruct g;
       [ by destruct (rmatch ic r _ _) | by destruct (k _) ]).
  - intros [|fuel] Hf; [lia|]. rewrite <- app_assoc in *.
    assert (Hbody :
      rmatch ic r
        (fun y => if (mn =? 0) && (pos y =? p) then None
                  else rep_loop (rmatch ic r) (groups r) g k fuel (Nat.pred mn)
                         (pred_bound mx) y)
        (MState p (w1 ++ w2 ++ rem) (clear (groups r) cs)) <> None).
    { apply runs_rmatch, IH1. intros cs'. simpl.
      assert (E : (mn =? 0) && (p + length w1 =? p) = false).
      { destruct (mn =? 0) eqn:Emn; [|done]. simpl. apply Nat.eqb_neq.
        apply Nat.eqb_eq in Emn. specialize (Hne Emn). destruct w1; [done|simpl; lia]. }
      rewrite E. apply IH2.
      - intros cs''. specialize (Hk cs''). by rewrite length_app, Nat.add_assoc in Hk.
      - simpl. rewrite !length_app in Hf. rewrite length_app.
        destruct mn; simpl in *; [|lia].
        destruct w1; [by specialize (Hne eq_refl)|simpl in *; lia]. }
    simpl. destruct mx as [[|mx']|]; [done| |];
      (destruct (mn =? 0); simpl;
       [ destruct g; [ by destruct (rmatch ic r _ _) | by destruct (k _) ]
       | exact Hbody ]).
  - apply runs_rmatch, IH. intros cs'. apply Hk.
Qed.

Theorem rmatch_complete r p w rem k :
  Matches ic r p w rem ->
  (forall cs, k (MState (p + length w) rem cs) <> None) ->
  forall cs, rmatch ic r k (MState p (w ++ rem) cs) <> None.
Proof. intros Hm Hk cs. by apply runs_rmatch, rmatch_complete_runs. Qed.

End RegexTheory.


Section SearchFacts.
Import Regex RegexSem.
Variable ic : bool.

Lemma search_found r p l q l' z :
  search ic r p l = Some (q, l', z) ->
  exists pre, l = pre ++ l' /\ q = p + length pre /\ match_at ic r q l' = Some z.
Proof.
  revert p. induction l as [|c l IH]; intros p; simpl.
  - destruct (match_at ic r p []) eqn:E; [|done]. intros [= <- <- <-].
    exists []. simpl. by rewrite Nat.add_0_r.
  - destruct (match_at ic r p (c :: l)) eqn:E.
    + intros [= <- <- <-]. exists []. simpl. by rewrite Nat.add_0_r.
    + intros H. apply IH in H as (pre & -> & -> & H). exists (c :: pre).
      simpl. split; [done|]. split; [lia|].
      by replace (p + S (length pre)) with (S p + length pre) by lia.
Qed.

Lemma search_none r p l pre l' :
  search ic r p l = None -> l = pre ++ l' -> match_at ic r (p + length pre) l' = None.
Proof.
  revert p pre. induction l as [|c l IH]; intros p pre; simpl.
  - destruct (match_at ic r p []) eqn:E; [done|]. intros _ H.
    symmetry in H. apply app_eq_nil in H as [-> ->]. simpl. by rewrite Nat.add_0_r.
  - destruct (match_at ic r p (c :: l)) eqn:E; [done|]. intros H Hl.
    destruct pre as [|d pre]; simpl in *.
    + subst l'. by rewrite Nat.add_0_r.
    + injection Hl as -> ->.
      replace (p + S (length pre)) with (S p + length pre) by lia. by apply IH.
Qed.

(** [test] finds a match exactly when some span of the text is matched. *)
Theorem test_spec r s :
  test ic r s = true <->
  exists pre w rem, chars_of s = pre ++ w ++ rem /\ Matches ic r (length pre) w rem.
Proof.
  unfold test, exec. split.
  - destruct (search ic r 0 (chars_of s)) as [[[q l'] z]|] eqn:E; [|done]. intros _.
    apply search_found in E as (pre & Hs & -> & Hm). unfold match_at in Hm.
    apply rmatch_sound in Hm as (w & rem & cs & Hr & Hw & _). simpl in *.
    exists pre, w, rem. by subst l'.
  - intros (pre & w & rem & Hs & Hm).
    destruct (search ic r 0 (chars_of s)) as [[[q l'] z]|] eqn:E; [done|].
    eapply search_none in E; [|exact Hs]. exfalso. revert E. simpl.
    by apply rmatch_complete.
Qed.

End SearchFacts.

(* ===================================================================== *)
(** * The chain of the interpreter *)
(* ===================================================================== *)

Section GreetingFacts.
Import Regex RegexSem Interpret.

Lemma startAnchored_spec ic r p w rem :
  startAnchored r = true -> Matches ic r p w rem -> p = 0.
Proof.
  destruct r as [| | | | | |r1 r2| | |]; try done. destruct r1; try done. intros _ H.
  inversion H as [| | | | | |? ? ? ? ? ? H1 H2| | | | |]; subst. by inversion H1.
Qed.

Lemma endAnchored_spec ic r p w rem :
  endAnchored r = true -> Matches ic r p w rem -> rem = [].
Proof.
  revert p w rem. induction r as [| | | | | |r1 _ r2 IH| | |]; try done; intros p w rem E H.
  - by inversion H.
  - inversion H; subst. eauto.
Qed.

Lemma not_whole ic r l :
  rmatch ic r accept_end (MState 0 l []) = None -> ~ Matches ic r 0 l [].
Proof.
  intros E H. eapply (rmatch_complete ic r 0 l [] accept_end) in H.
  - rewrite app_nil_r in H. by apply H.
  - by intros cs.
Qed.

Lemma steps_actions msg u :
  Forall2 (fun stepFn name => forall a, stepFn msg u = Some a -> action a = name)
    steps stepActions.
Proof.
  repeat constructor; intros a H.
  - unfold insertStep in H. by break_step H.
  - unfold updateStep in H. by break_step H.
  - unfold deleteRowStep in H. by break_step H.
  - unfold createDatabaseStep in H. by break_step H.
  - unfold createTableStep in H. by break_step H.
  - unfold deleteDatabaseStep in H. by break_step H.
  - unfold showDatabasesStep in H. by break_step H.
  - unfold deleteTableStep in H. by break_step H.
  - unfold showTableStep in H. by break_step H.
  - unfold showTablesStep in H. by break_step H.
Qed.

(** The chain returns what its first returning step returns, and the
    default when no step returns. *)
Lemma firstOf_spec (l : list (string -> string -> option ActionDescriptor))
    (msg u : string) :
  (exists before f after,
     l = before ++ f :: after /\ Forall (fun g => g msg u = None) before /\
     f msg u = Some (firstOf l msg u)) \/
  (Forall (fun g => g msg u = None) l /\ firstOf l msg u = Act "query" (DMessage u)).
Proof.
  induction l as [|f l IH]; simpl.
  - right. by split.
  - destruct (f msg u) as [a|] eqn:E.
    + left. exists [], f, l. by repeat split.
    + destruct IH as [(before & g & after & -> & Hb & Hg) | [Hall Hq]].
      * left. exists (f :: before), g, after. repeat split; [|done]. by constructor.
      * right. split; [by constructor|done].
Qed.

Lemma firstOf_action msg u :
  In (action (firstOf steps msg u)) ("query" :: stepActions).
Proof.
  destruct (firstOf_spec steps msg u) as [(before & f & after & Hl & _ & Hf) | [_ ->]];
    [|by left].
  right. pose proof (steps_actions msg u) as HA. rewrite Hl in HA.
  apply Forall2_app_inv_l in HA as (n1 & n2 & _ & HA & ->).
  inversion HA as [|? name ? rest Hname _]; subst.
  rewrite (Hname _ Hf). apply in_or_app. right. by left.
Qed.

Lemma firstOf_not_conversation msg u :
  action (firstOf steps msg u) <> "conversation".
Proof.
  intros E. pose proof (firstOf_action msg u) as H. rewrite E in H.
  simpl in H. intuition discriminate.
Qed.

Lemma greetings_end_anchored :
  Forall (fun g => endAnchored (pattern g) = true) greetingPatterns.
Proof. repeat constructor. Qed.

End GreetingFacts.

Section ChainFacts.
Import Regex Interpret.

Variables msg u : string.

Lemma showDatabasesStep_inv a :
  showDatabasesStep msg u = Some a ->
  a = Act "show_databases" DEmpty /\
  Contains msg "show" /\ Contains msg "database" /\ ~ Contains msg "table".
Proof.
  unfold showDatabasesStep. intros H. break_step H. bool_hyps; repeat split; try done.
  by apply (Contains_sub _ "databases").
Qed.

Lemma showDatabasesStep_none :
  showDatabasesStep msg u = None ->
  ~ (Contains msg "show" /\ Contains msg "database" /\ ~ Contains msg "table").
Proof.
  unfold showDatabasesStep. rewrite <- !includes_spec. intros H (H1 & H2 & H3).
  apply not_true_iff_false in H3. rewrite H1, H2, H3 in H. done.
Qed.

Lemma showTableStep_inv a :
  showTableStep msg u = Some a ->
  action a = "show_table" /\ Contains msg "show" /\ ~ Contains msg "all table".
Proof.
  unfold showTableStep. intros H. break_step H. by bool_hyps.
Qed.

Lemma showTablesStep_inv a :
  showTablesStep msg u = Some a ->
  a = Act "show_tables" (DMessage u) /\ Contains msg "show" /\ Contains msg "all table".
Proof.
  unfold showTablesStep. intros H. break_step H. bool_hyps; repeat split; try done.
  by apply (Contains_sub _ "all tables").
Qed.

Lemma deleteTableStep_inv a :
  deleteTableStep msg u = Some a ->
  action a = "delete_table" /\ Contains msg "table" /\
  (Contains msg "delete" \/ Contains msg "drop").
Proof.
  unfold deleteTableStep. intros H. break_step H. bool_hyps; auto.
Qed.

(** The step that returned, read off the action of the result. *)
Lemma firstOf_returned i stepFn name :
  steps !! i = Some stepFn -> stepActions !! i = Some name ->
  action (firstOf steps msg u) = name ->
  stepFn msg u = Some (firstOf steps msg u) /\
  Forall (fun g => g msg u = None) (take i steps).
Proof.
  intros Hs Hn Ha.
  destruct (firstOf_spec steps msg u) as [(before & f & after & Hl & Hb & Hf) | [_ Hq]].
  - pose proof (steps_actions msg u) as HA.
    assert (Hj : steps !! length before = Some f) by (rewrite Hl; apply list_lookup_middle; done).
    assert (Hnj : stepActions !! length before = Some name).
    { destruct (Forall2_lookup_l _ _ _ _ _ HA Hj) as (name' & Hn' & Hname).
      rewrite Hn'. f_equal. rewrite <- Ha. symmetry. by apply Hname. }
    assert (i = length before).
    { assert (ND : NoDup stepActions) by compute_done.
      eapply NoDup_lookup; eauto. }
    subst i. rewrite Hs in Hj. injection Hj as ->. split; [done|].
    rewrite Hl, take_app_length. done.
  - exfalso. rewrite Hq in Ha. simpl in Ha. subst name.
    assert (Hnot : "query" ∉ stepActions) by compute_done.
    apply Hnot. by eapply list_elem_of_lookup_2.
Qed.

End ChainFacts.

Section CreateTableFacts.
Import Interpret.

Lemma columnType_typed col : typedByKeyword (Column col (columnType col)).
Proof.
  unfold typedByKeyword, columnType. simpl. rewrite <- !includes_spec.
  destruct (Str.includes col "email"), (Str.includes col "id"),
    (Str.includes col "age"), (Str.includes col "count"),
    (Str.includes col "number"), (Str.includes col "phone"); simpl;
    repeat split; intros; try done; intuition.
Qed.

Lemma columnsOf_typed columnsText : Forall typedByKeyword (columnsOf columnsText).
Proof.
  unfold columnsOf. apply List.Forall_forall. intros c Hc.
  apply in_map_iff in Hc as (col & <- & _). apply columnType_typed.
Qed.

Lemma columnsOf_names columnsText :
  map c_name (columnsOf columnsText) = columnTokens columnsText.
Proof. unfold columnsOf, columnTokens. rewrite map_map. simpl. apply map_id. Qed.

Lemma createTableStep_inv msg u a :
  createTableStep msg u = Some a ->
  exists tableName columnsText databaseName,
    a = Act "create_table" (DTableDef tableName (columnsOf columnsText) databaseName) /\
    columnsOf columnsText <> [].
Proof.
  unfold createTableStep. intros H. break_step H;
    (eexists _, _, _; split; [reflexivity|]);
    match goal with
    | E : (0 <? length ?l) = true |- ?l <> [] => intros E'; rewrite E' in E; done
    end.
Qed.

End CreateTableFacts.

(* ===================================================================== *)
(** * The extractors never throw *)
(* ===================================================================== *)

Section Totality.
Import Js Extract Interpret.

Variable hostDateParse : string -> bool.
Variable XLSX_read : string -> outcome (list (string * list (list value))).
Variable pdfParse : string -> outcome string.
Variable GEMINI_API_KEY : option string.
Variable generateContent : request -> outcome oracle_response.
Variable base64 : string -> string.
Variable JSON_parse : string -> outcome json.

Lemma extractFromImage_returns buffer mimetype :
  exists log data,
    extractFromImage GEMINI_API_KEY generateContent base64 JSON_parse buffer mimetype
    = (log, Ok data).
Proof.
  unfold extractFromImage. destruct (configured GEMINI_API_KEY); simpl; [|eauto].
  destruct (generateContent _) as [resp|e]; simpl; [|eauto].
  destruct (jsonMatch _) as [m|]; simpl; [|eauto].
  destruct (JSON_parse _) as [parsed|e]; simpl; [|eauto].
  destruct (tablesOf parsed) as [t|e]; simpl; eauto.
Qed.

Lemma extractFromPDF_returns buffer :
  exists log data, extractFromPDF hostDateParse pdfParse buffer = (log, Ok data).
Proof. unfold extractFromPDF. destruct (pdfParse buffer); simpl; eauto. Qed.

Lemma try_catch_returns {A} (m : M A) h :
  (forall e, exists log a, h e = (log, Ok a)) ->
  exists log a, try_catch m h = (log, Ok a).
Proof.
  intros Hh. destruct m as [t [a|e]]; simpl; [eauto|].
  destruct (Hh e) as (log & a & ->). eauto.
Qed.

Lemma extractDataFromFile_returns buffer ext mimetype :
  exists log data,
    extractDataFromFile hostDateParse XLSX_read pdfParse GEMINI_API_KEY generateContent
      base64 JSON_parse buffer ext mimetype = (log, Ok data).
Proof. unfold extractDataFromFile. apply try_catch_returns. intros e. simpl. eauto. Qed.

Lemma no_trigger_no_step msg u :
  Forall (fun word => ~ Contains msg word) triggerWords ->
  Forall (fun stepFn => stepFn msg u = None) steps.
Proof.
  unfold triggerWords, steps. intros H.
  repeat match goal with
         | H : Forall _ (_ :: _) |- _ => inversion H; subst; clear H
         end.
  repeat match goal with
         | H : ~ Contains _ _ |- _ =>
             rewrite <- includes_spec in H; apply not_true_iff_false in H
         end.
  repeat constructor;
    cbv [insertStep updateStep deleteRowStep createDatabaseStep createTableStep
         deleteDatabaseStep showDatabasesStep deleteTableStep showTableStep
         showTablesStep];
    repeat match goal with
           | E : Str.includes msg _ = false |- _ => rewrite E; clear E
           end; reflexivity.
Qed.

Lemma firstOf_default (l : list (string -> string -> option ActionDescriptor)) msg u :
  Forall (fun stepFn => stepFn msg u = None) l ->
  firstOf l msg u = Act "query" (DMessage u).
Proof. induction 1 as [|f l Hf _ IH]; simpl; [done|]. by rewrite Hf. Qed.

End Totality.

(* ===================================================================== *)
(** * Type inference *)
(* ===================================================================== *)

Section InferFacts.
Import Js.

Variable host : string -> bool.

Lemma nonEmpty_spec v :
  Infer.nonEmpty v = true <-> v <> VNull /\ v <> VUndefined /\ v <> VStr "".
Proof.
  destruct v as [| | b | n | [|a s]]; simpl; split; try done; intuition congruence.
Qed.

Lemma remaining_spec values v :
  In v (remaining values) <->
  In v values /\ v <> VNull /\ v <> VUndefined /\ v <> VStr "".
Proof. unfold remaining. by rewrite filter_In, nonEmpty_spec. Qed.

End InferFacts.

(* ===================================================================== *)
(** * The formatter *)
(* ===================================================================== *)

Section FormatFacts.
Import Js Interpret Format.

Lemma join_cons sep x y l :
  Str.join sep (x :: y :: l) = x +:+ sep +:+ Str.join sep (y :: l).
Proof. reflexivity. Qed.

Lemma inherited_none key : ~ In key inheritedNames -> inherited key = Val VUndefined.
Proof.
  intros H. unfold inherited, prototypeFunctions.
  assert (Hk : forall known, In known inheritedNames -> Str.eqb key known = false).
  { intros known Hin. apply String.eqb_neq. by intros ->. }
  unfold inheritedNames, prototypeFunctions in Hk. simpl in Hk. cbn [existsb].
  by rewrite !Hk by tauto.
Qed.

Lemma inherited_truthy key : In key inheritedNames -> any_truthy (inherited key) = true.
Proof.
  unfold inheritedNames, prototypeFunctions. simpl.
  intros H. repeat (destruct H as [<- | H]; [reflexivity|]). done.
Qed.

(** A member that is neither held nor inherited reads as [undefined]. *)
Lemma read_absent o key :
  own o !! key = None -> proto o = NoPrototype \/ ~ In key inheritedNames ->
  read o key = Val VUndefined.
Proof.
  unfold read. intros -> [-> | H]; [done|]. destruct (proto o); [|done].
  by apply inherited_none.
Qed.

Lemma cellText_absent r c :
  (data r = None \/
   exists o, data r = Some o /\ own o !! c_name c = None /\
             (proto o = NoPrototype \/ ~ In (c_name c) inheritedNames)) ->
  cellText r c = "".
Proof.
  unfold cellText. intros [-> | (o & -> & Ho & Hp)]; [reflexivity|].
  by rewrite (read_absent o _ Ho Hp).
Qed.

Lemma cellText_inherited r c o :
  data r = Some o -> own o !! c_name c = None -> proto o = ObjectPrototype ->
  In (c_name c) inheritedNames ->
  cellText r c = any_to_string (inherited (c_name c)).
Proof.
  unfold cellText, read. intros -> -> -> H. unfold any_or.
  by rewrite (inherited_truthy _ H).
Qed.

Lemma cellText_falsy r c o v :
  data r = Some o -> own o !! c_name c = Some v -> truthy v = false -> cellText r c = "".
Proof.
  unfold cellText, read, any_or. intros -> -> Hv. simpl. by rewrite Hv.
Qed.

Lemma cellText_withoutFalsy r c :
  ~ In (c_name c) inheritedNames -> cellText (withoutFalsy r) c = cellText r c.
Proof.
  intros Hc. unfold cellText, withoutFalsy. destruct (data r) as [o|]; simpl; [|done].
  unfold read. cbn [own proto].
  destruct (own o !! c_name c) as [v|] eqn:E.
  - destruct (truthy v) eqn:Ev.
    + erewrite (proj2 (map_lookup_filter_Some _ (own o) (c_name c) v)); [done|]. by split.
    + erewrite (proj2 (map_lookup_filter_None _ (own o) (c_name c))).
      * rewrite (inherited_none _ Hc). unfold any_or. simpl. rewrite Ev.
        by destruct (proto o).
      * right. intros v' Hv'. rewrite E in Hv'. injection Hv' as <-. simpl.
        by rewrite Ev.
  - erewrite (proj2 (map_lookup_filter_None _ (own o) (c_name c))); [done|]. by left.
Qed.

Lemma cellText_delete_falsy o k v c :
  own o !! k = Some v -> truthy v = false ->
  proto o = NoPrototype \/ ~ In k inheritedNames ->
  cellText (Row (Some (Obj (delete k (own o)) (proto o)))) c = cellText (Row (Some o)) c.
Proof.
  intros Hk Hv Hp. unfold cellText, read. cbn [data own proto].
  destruct (decide (c_name c = k)) as [->|Hne].
  - rewrite lookup_delete_eq, Hk. unfold any_or. simpl. rewrite Hv.
    destruct Hp as [-> | Hp]; [done|]. rewrite (inherited_none _ Hp). by destruct (proto o).
  - by rewrite lookup_delete_ne.
Qed.

(** An inherited member is never shown as the empty string. *)
Lemma inherited_shown key : In key inheritedNames -> any_to_string (inherited key) <> "".
Proof.
  unfold inheritedNames, prototypeFunctions. simpl.
  intros H. repeat (destruct H as [<- | H]; [by vm_compute|]). done.
Qed.

Lemma responses_none d action :
  ~ In action templated -> responses d action = inherited action.
Proof.
  intros H. unfold responses.
  assert (Hk : forall known, In known templated -> Str.eqb action known = false).
  { intros known Hin. apply String.eqb_neq. by intros ->. }
  unfold templated in Hk. simpl in Hk. by rewrite !Hk by tauto.
Qed.

End FormatFacts.

(* ===================================================================== *)
(** * The span the image extractor parses *)
(* ===================================================================== *)

Section BraceFacts.
Import Regex RegexSem.

Lemma braces_parsed : re "\{[\s\S]*\}" = BRACES.
Proof. reflexivity. Qed.

Lemma clear_nil cs : clear [] cs = cs.
Proof. unfold clear. induction cs as [|c cs IH]; [done|]. cbn. by f_equal. Qed.

Lemma any_has c : class_has false false [CSpace; CNotSpace] c = true.
Proof. unfold class_has. simpl. by destruct (Chars.is_space c). Qed.

Lemma rep_any k fuel l p cs :
  length l < fuel ->
  rep_loop (rmatch false ANY) [] true k fuel 0 None (MState p l cs) = from_end k p l cs.
Proof.
  revert l p. induction fuel as [|fuel IH]; intros l p Hf; [lia|].
  cbn [rep_loop]. cbn [pos rest caps Nat.eqb negb andb]. rewrite clear_nil.
  unfold ANY at 1. cbn [rmatch]. unfold step. cbn [rest pos caps].
  destruct l as [|c t]; [done|]. rewrite any_has.
  replace (S p =? p) with false by (symmetry; apply Nat.eqb_neq; lia).
  cbn [from_end]. rewrite IH by (simpl in Hf; lia). done.
Qed.

Lemma chr_step a k p c t cs :
  rmatch false (Chr a) k (MState p (c :: t) cs) =
  if Chars.eqb c a then k (MState (S p) t cs) else None.
Proof.
  cbn [rmatch]. unfold step, chr_eq, Chars.eqb. cbn [rest pos caps].
  by rewrite (Ascii.eqb_sym a c).
Qed.

Lemma from_end_close p l cs :
  from_end (rmatch false (Chr CLOSE) Some) p l cs =
  option_map (fun w => MState (p + length w) (drop (length w) l) cs) (toLastClose l).
Proof.
  revert p. induction l as [|c t IH]; intros p; [done|].
  cbn [from_end toLastClose]. rewrite IH.
  destruct (toLastClose t) as [w|]; cbn [option_map].
  - cbn [length drop]. by rewrite Nat.add_succ_r.
  - rewrite chr_step. destruct (Chars.eqb c CLOSE); cbn [option_map]; [|done].
    cbn [length drop]. by rewrite Nat.add_1_r.
Qed.

Lemma toLastClose_prefix l w :
  toLastClose l = Some w -> take (length w) l = w.
Proof.
  revert w. induction l as [|c t IH]; intros w; simpl; [done|].
  destruct (toLastClose t) as [w'|].
  - intros [= <-]. simpl. by rewrite IH.
  - destruct (Chars.eqb c CLOSE); [|done]. intros [= <-]. simpl. by rewrite take_0.
Qed.

Lemma match_at_braces p l :
  match_at false BRACES p l =
  match l with
  | c :: t =>
      if Chars.eqb c OPEN then
        option_map (fun w => MState (S p + length w) (drop (length w) t) [])
          (toLastClose t)
      else None
  | [] => None
  end.
Proof.
  unfold match_at, BRACES. destruct l as [|c t]; [done|].
  change (rmatch false (Seq (Chr OPEN) (Seq (Rep 0 None true ANY) (Chr CLOSE))) Some)
    with (rmatch false (Chr OPEN)
            (fun s => rep_loop (rmatch false ANY) [] true (rmatch false (Chr CLOSE) Some)
                        (0 + length (rest s) + 1) 0 None s)).
  rewrite chr_step. destruct (Chars.eqb c OPEN); [|done].
  cbn [rest]. rewrite rep_any by lia. apply from_end_close.
Qed.

Lemma toLastClose_none_braceSpan l : toLastClose l = None -> braceSpan l = None.
Proof.
  induction l as [|c t IH]; simpl; [done|].
  destruct (toLastClose t) as [w|]; [done|]. intros _.
  rewrite IH by done. by destruct (Chars.eqb c OPEN).
Qed.

Lemma search_braces p l :
  option_map (fun f => take (pos f.2 - f.1.1) f.1.2) (search false BRACES p l)
  = braceSpan l.
Proof.
  revert p. induction l as [|c t IH]; intros p.
  - cbn [search]. by rewrite match_at_braces.
  - cbn [search]. rewrite match_at_braces. cbn [braceSpan].
    destruct (Chars.eqb c OPEN); [|apply IH].
    destruct (toLastClose t) as [w|] eqn:E; simpl.
    + replace (S (p + length w) - p) with (S (length w)) by lia. simpl.
      by rewrite (toLastClose_prefix _ _ E).
    + rewrite IH. by apply toLastClose_none_braceSpan.
Qed.

Theorem jsonMatch_span (reply : string) :
  option_map (fun m => chars_of (matched m)) (Extract.jsonMatch reply)
  = braceSpan (chars_of reply).
Proof.
  unfold Extract.jsonMatch, exec. rewrite braces_parsed, <- (search_braces 0).
  destruct (search false BRACES 0 (chars_of reply)) as [[[q l'] z]|]; simpl; [|done].
  by rewrite chars_of_str_of.
Qed.

Lemma toLastClose_none l : toLastClose l = None <-> ~ In CLOSE l.
Proof.
  induction l as [|c t IH]; simpl; [tauto|].
  destruct (toLastClose t) as [w|].
  - split; [done|]. intros H. assert (Some w = None) by (apply IH; tauto). done.
  - unfold Chars.eqb. destruct (Ascii.eqb c CLOSE) eqn:Ec.
    + apply Ascii.eqb_eq in Ec as ->. split; [done|]. intros H. exfalso. apply H. by left.
    + split; [|done]. intros _ [-> | H].
      * by rewrite Ascii.eqb_refl in Ec.
      * by apply (proj1 IH).
Qed.

Lemma toLastClose_some l w :
  toLastClose l = Some w ->
  exists mid post, w = mid ++ [CLOSE] /\ l = w ++ post /\ ~ In CLOSE post.
Proof.
  revert w. induction l as [|c t IH]; intros w; simpl; [done|].
  destruct (toLastClose t) as [w'|] eqn:E.
  - intros [= <-]. destruct (IH w' eq_refl) as (mid & post & -> & -> & Hn).
    by exists (c :: mid), post.
  - unfold Chars.eqb. destruct (Ascii.eqb c CLOSE) eqn:Ec; [|done].
    apply Ascii.eqb_eq in Ec as ->. intros [= <-]. exists [], t.
    repeat split. by apply toLastClose_none.
Qed.

Lemma toLastClose_found mid post :
  ~ In CLOSE post -> toLastClose (mid ++ CLOSE :: post) = Some (mid ++ [CLOSE]).
Proof.
  intros Hn. induction mid as [|d mid IH]; simpl.
  - by rewrite (proj2 (toLastClose_none post) Hn).
  - by rewrite IH.
Qed.

Lemma toLastClose_spec l w :
  toLastClose l = Some w <->
  exists mid post, w = mid ++ [CLOSE] /\ l = w ++ post /\ ~ In CLOSE post.
Proof.
  split; [apply toLastClose_some|].
  intros (mid & post & -> & -> & Hn). rewrite <- app_assoc. by apply toLastClose_found.
Qed.

Theorem braceSpan_spec l w :
  braceSpan l = Some w <->
  exists pre mid post,
    l = pre ++ w ++ post /\ w = OPEN :: mid ++ [CLOSE] /\
    ~ In OPEN pre /\ ~ In CLOSE post.
Proof.
  revert w. induction l as [|c t IH]; intros w; simpl.
  - split; [done|]. intros (pre & mid & post & H & -> & _). by destruct pre.
  - unfold Chars.eqb. destruct (Ascii.eqb c OPEN) eqn:Ec.
    + apply Ascii.eqb_eq in Ec as ->. split.
      * destruct (toLastClose t) as [w'|] eqn:E; [|done]. intros [= <-].
        apply toLastClose_spec in E as (mid & post & -> & -> & Hn).
        exists [], mid, post. split; [done|]. split; [done|]. split; [by intros []|done].
      * intros (pre & mid & post & H & -> & Hpre & Hpost).
        destruct pre as [|d pre]; cbn [app] in H.
        -- injection H as ->.
           assert (E : toLastClose ((mid ++ [CLOSE]) ++ post) = Some (mid ++ [CLOSE])).
           { apply toLastClose_spec. by exists mid, post. }
           by rewrite E.
        -- injection H as <- _. exfalso. apply Hpre. by left.
    + apply Ascii.eqb_neq in Ec. rewrite IH. split.
      * intros (pre & mid & post & -> & -> & Hpre & Hpost).
        exists (c :: pre), mid, post. repeat split; try done.
        by intros [? | ?].
      * intros (pre & mid & post & H & -> & Hpre & Hpost).
        destruct pre as [|d pre]; cbn [app] in H; injection H as Hc Ht;
          [by destruct Ec|]. subst d t.
        exists pre, mid, post. repeat split; try done.
        intros Hin. apply Hpre. by right.
Qed.

End BraceFacts.

(* ===================================================================== *)
(** * Replacement, and the names the extractors make *)
(* ===================================================================== *)

Section ReplaceFacts.
Import Regex RegexSem.

Variable ic : bool.
Variable r : regex.

Lemma search_leftmost p l q l' z :
  search ic r p l = Some (q, l', z) ->
  forall pre1 l1, l = pre1 ++ l1 -> p + length pre1 < q ->
                  match_at ic r (p + length pre1) l1 = None.
Proof.
  revert p. induction l as [|c t IH]; intros p; simpl.
  - destruct (match_at ic r p []) eqn:E; [|done]. intros [= <- <- <-] pre1 l1 _ ?. lia.
  - destruct (match_at ic r p (c :: t)) eqn:E.
    + intros [= <- <- <-] pre1 l1 _ ?. lia.
    + intros H pre1 l1 Hl Hlt. destruct pre1 as [|d pre1]; simpl in *.
      * subst l1. by rewrite Nat.add_0_r.
      * injection Hl as -> ->.
        replace (p + S (length pre1)) with (S p + length pre1) in * by lia.
        by eapply IH.
Qed.

Lemma match_at_rest p l z :
  match_at ic r p l = Some z ->
  exists w, l = w ++ rest z /\ pos z = p + length w /\ Matches ic r p w (rest z).
Proof.
  unfold match_at. intros H.
  apply rmatch_sound in H as (w & rem & cs & Hl & Hm & [= <-]). simpl in *. eauto.
Qed.

Lemma match_at_hit p w rem :
  Matches ic r p w rem -> match_at ic r p (w ++ rem) <> None.
Proof. intros H. unfold match_at. by apply rmatch_complete. Qed.

(** What is in the output of a replacement comes from the input or from the
    replacement text. *)
Lemma replace_from_Forall (P : ascii -> Prop) by_ fuel p l :
  Forall P by_ -> Forall P l -> Forall P (replace_from ic r by_ fuel p l).
Proof.
  intros Hby. revert p l. induction fuel as [|fuel IH]; intros p l Hl; [done|].
  simpl. destruct (search ic r p l) as [[[q l'] z]|] eqn:E; [|done].
  apply search_found in E as (pre & -> & -> & Hm).
  apply match_at_rest in Hm as (w & -> & Hz & _).
  replace (p + length pre - p) with (length pre) by lia.
  rewrite take_app_length. apply Forall_app in Hl as [Hpre Hl].
  destruct (pos z =? p + length pre).
  - destruct (w ++ rest z) as [|c t] eqn:Ew.
    + by apply Forall_app.
    + inversion Hl; subst. apply Forall_app. split; [done|].
      apply Forall_app. split; [done|]. constructor; [done|]. by apply IH.
  - apply Forall_app. split; [done|]. apply Forall_app. split; [done|].
    apply IH. by apply Forall_app in Hl as [_ ?].
Qed.

Variable bad : ascii -> bool.
Hypothesis hits : forall c p rem, bad c = true -> Matches ic r p [c] rem.
Hypothesis never_empty : forall p rem, ~ Matches ic r p [] rem.

Lemma no_match_no_bad p l :
  (forall pre1 l1, l = pre1 ++ l1 -> match_at ic r (p + length pre1) l1 = None) ->
  Forall (fun c => bad c = false) l.
Proof.
  intros H. apply List.Forall_forall. intros c Hin.
  apply in_split in Hin as (pre1 & t & ->).
  destruct (bad c) eqn:Ec; [|done]. exfalso.
  apply (match_at_hit (p + length pre1) [c] t); [by apply hits|]. by apply H.
Qed.

(** After a replacement of every match, no code unit the pattern matches
    is left, when the replacement text holds none. *)
Lemma replace_from_clean by_ fuel p l :
  Forall (fun c => bad c = false) by_ -> length l < fuel ->
  Forall (fun c => bad c = false) (replace_from ic r by_ fuel p l).
Proof.
  intros Hby. revert p l. induction fuel as [|fuel IH]; intros p l Hf; [lia|].
  simpl. destruct (search ic r p l) as [[[q l'] z]|] eqn:E.
  - pose proof (search_leftmost _ _ _ _ _ E) as Hleft.
    apply search_found in E as (pre & -> & -> & Hm).
    apply match_at_rest in Hm as (w & Hw & Hz & HM).
    assert (Hne : w <> []) by (intros ->; by apply never_empty in HM).
    replace (p + length pre - p) with (length pre) by lia.
    rewrite take_app_length.
    assert (Hpre : Forall (fun c => bad c = false) pre).
    { apply List.Forall_forall. intros c Hin.
      apply in_split in Hin as (pre1 & t & ->).
      destruct (bad c) eqn:Ec; [|done]. exfalso.
      apply (match_at_hit (p + length pre1) [c] (t ++ l')); [by apply hits|].
      apply Hleft; [by rewrite <- app_assoc|]. rewrite length_app. simpl. lia. }
    assert (Hpos : (pos z =? p + length pre) = false).
    { apply Nat.eqb_neq. rewrite Hz. destruct w; [done|]. simpl. lia. }
    rewrite Hpos. apply Forall_app. split; [done|]. apply Forall_app. split; [done|].
    apply IH. rewrite Hw, !length_app in Hf. destruct w; [done|]. simpl in Hf. lia.
  - apply (no_match_no_bad p). intros pre1 l1 Hl. by eapply search_none.
Qed.

End ReplaceFacts.

Section NameFacts.
Import Regex RegexSem Js Extract.

Lemma length_chars_of s : length (chars_of s) = String.length s.
Proof. induction s as [|a s IH]; simpl; [done|]. by rewrite IH. Qed.

Lemma replace_all_Forall ic r by_ s (P : ascii -> Prop) :
  Forall P (chars_of by_) -> Forall P (chars_of s) ->
  Forall P (chars_of (replace_all ic r by_ s)).
Proof.
  intros Hby Hs. unfold replace_all. rewrite chars_of_str_of.
  by apply replace_from_Forall.
Qed.

Lemma replace_all_clean ic r by_ s (bad : ascii -> bool) :
  (forall c p rem, bad c = true -> Matches ic r p [c] rem) ->
  (forall p rem, ~ Matches ic r p [] rem) ->
  Forall (fun c => bad c = false) (chars_of by_) ->
  Forall (fun c => bad c = false) (chars_of (replace_all ic r by_ s)).
Proof.
  intros Hhit Hne Hby. unfold replace_all. rewrite chars_of_str_of.
  apply replace_from_clean; try done. rewrite length_chars_of. lia.
Qed.

(** The three patterns of the normalizations. *)
Lemma spaces_parsed : re "\s+" = Rep 1 None true (Cls false [CSpace]).
Proof. reflexivity. Qed.

Lemma others_parsed :
  re "[^a-z0-9_]" = Cls true [CRange "a" "z"; CRange "0" "9"; CChar "_"].
Proof. reflexivity. Qed.

Lemma spaces_hit c p rem :
  Chars.is_space c = true -> Matches false (re "\s+") p [c] rem.
Proof.
  intros Hc. rewrite spaces_parsed.
  apply (M_RepStep false 1 None true _ p [c] [] rem); try done.
  - constructor. unfold class_has. simpl. by rewrite Hc.
  - constructor. by left.
Qed.

Lemma spaces_never_empty p rem : ~ Matches false (re "\s+") p [] rem.
Proof.
  rewrite spaces_parsed. intros H. inversion H; subst.
  - by match goal with Hs : _ \/ _ |- _ => destruct Hs end.
  - match goal with Hw : _ ++ _ = [] |- _ => apply app_eq_nil in Hw as [-> ->] end.
    match goal with H1 : Matches _ (Cls _ _) _ [] _ |- _ => inversion H1 end.
Qed.

Lemma ident_class c :
  class_has false true [CRange "a" "z"; CRange "0" "9"; CChar "_"] c = negb (is_ident c).
Proof. by destruct c as [[] [] [] [] [] [] [] []]. Qed.

Lemma others_hit c p rem :
  is_ident c = false -> Matches false (re "[^a-z0-9_]") p [c] rem.
Proof.
  intros Hc. rewrite others_parsed. constructor. by rewrite ident_class, Hc.
Qed.

Lemma class_never_empty ic neg items p rem : ~ Matches ic (Cls neg items) p [] rem.
Proof. intros H. inversion H. Qed.

Lemma chr_never_empty ic a p rem : ~ Matches ic (Chr a) p [] rem.
Proof. intros H. inversion H. Qed.

Lemma quote_hit c p rem :
  Chars.eqb c Str.QUOTE = true -> Matches false (Chr Str.QUOTE) p [c] rem.
Proof.
  intros Hc. constructor. unfold chr_eq. unfold Chars.eqb in *.
  by rewrite Ascii.eqb_sym.
Qed.

Lemma to_lower_not_upper c : Chars.is_upper (Chars.to_lower c) = false.
Proof. by destruct c as [[] [] [] [] [] [] [] []]. Qed.

Lemma toLowerCase_not_upper s :
  Forall (fun c => Chars.is_upper c = false) (chars_of (Str.toLowerCase s)).
Proof.
  unfold Str.toLowerCase. rewrite chars_of_str_of. apply List.Forall_forall.
  intros c Hc. apply in_map_iff in Hc as (d & <- & _). apply to_lower_not_upper.
Qed.

Lemma underscored_clean s :
  Forall (fun c => is_upper_or_space c = false) (chars_of (underscored s)).
Proof.
  unfold underscored, is_upper_or_space.
  pose proof (replace_all_clean false (re "\s+") "_" (Str.toLowerCase s) Chars.is_space
                spaces_hit spaces_never_empty) as Hspace.
  pose proof (replace_all_Forall false (re "\s+") "_" (Str.toLowerCase s)
                (fun c => Chars.is_upper c = false)) as Hupper.
  specialize (Hspace ltac:(by repeat constructor)).
  specialize (Hupper ltac:(by repeat constructor) (toLowerCase_not_upper s)).
  revert Hspace Hupper. rewrite !List.Forall_forall. intros Hs Hu c Hc.
  by rewrite (Hs c Hc), (Hu c Hc).
Qed.

Lemma textHeader_ident h :
  Forall (fun c => is_ident c = true) (chars_of (textHeader h)).
Proof.
  unfold textHeader.
  pose proof (replace_all_clean false (re "[^a-z0-9_]") ""
                (replace_all false (re "\s+") "_" (Str.toLowerCase h))
                (fun c => negb (is_ident c))) as H.
  eapply Forall_impl; [apply H|].
  - intros c p rem Hc. apply others_hit. by apply negb_true_iff.
  - rewrite others_parsed. apply class_never_empty.
  - constructor.
  - intros c Hc. by apply negb_false_iff.
Qed.

Lemma pretty_N_char_digit x : Chars.is_digit (pretty_N_char x) = true.
Proof. unfold pretty_N_char. by repeat case_match. Qed.

Lemma pretty_N_go_digits (x : N) s :
  Forall (fun c => Chars.is_digit c = true) (chars_of s) ->
  Forall (fun c => Chars.is_digit c = true) (chars_of (pretty_N_go x s)).
Proof.
  revert s. induction (N.lt_wf_0 x) as [x _ IH]; intros s Hs.
  assert (x = 0 \/ 0 < x)%N as [-> | Hx] by lia; [by rewrite pretty_N_go_0|].
  rewrite pretty_N_go_step by done. apply IH; [by apply N.div_lt|].
  simpl. constructor; [apply pretty_N_char_digit|done].
Qed.

Lemma pretty_nat_digits (n : nat) :
  Forall (fun c => Chars.is_digit c = true) (chars_of (pretty n)).
Proof.
  unfold pretty, pretty_nat, pretty, pretty_N. case_decide.
  - by repeat constructor.
  - apply pretty_N_go_digits. constructor.
Qed.

Lemma or_col_normalized name idx :
  Forall (fun c => is_ident c = true) (chars_of name) -> normalized (or_col name idx).
Proof.
  intros Hn. unfold or_col, normalized. destruct name as [|a name]; simpl Str.is_empty;
    cbv iota.
  - split; [done|]. rewrite chars_of_app. apply Forall_app. split.
    + by repeat constructor.
    + eapply Forall_impl; [apply pretty_nat_digits|].
      intros c Hc. unfold is_ident. by rewrite Hc, orb_true_r.
  - by split.
Qed.

End NameFacts.

Section TextFacts.
Import Js Extract.

Variable host : string -> bool.

Lemma lookup_map_inv {A B} (f : A -> B) (l : list A) (i : nat) (y : B) :
  map f l !! i = Some y -> exists x, l !! i = Some x /\ y = f x.
Proof.
  change (map f l) with (f <$> l). intros H.
  apply list_lookup_fmap_Some in H as (x & Hx & ->). by exists x.
Qed.

Lemma createTableFromData_columns data idx t :
  createTableFromData host data idx = Some t ->
  columns t =
    imap (fun i name =>
            Column (or_col name i)
              (inferColumnType host
                 (map (fun row => VStr (default "" (at_index row i))) (drop 1 data))))
      (map textHeader (default [] (at_index data 0))) /\
  name t = "pdf_table_" +:+ pretty (idx + 1) /\
  length (rows t) = length data - 1.
Proof.
  unfold createTableFromData. destruct (length data <? 2); [done|].
  intros [= <-]. simpl. split; [done|]. split; [done|].
  rewrite length_map, length_drop. done.
Qed.

Lemma createTableFromData_normalized data idx t :
  createTableFromData host data idx = Some t ->
  Forall (fun c => normalized (c_name c)) (columns t).
Proof.
  intros H. apply createTableFromData_columns in H as (-> & _ & _).
  apply Forall_lookup. intros i c Hc.
  apply list_lookup_imap_Some in Hc as (h & Hh & ->). simpl.
  apply lookup_map_inv in Hh as (h0 & _ & ->).
  apply or_col_normalized, textHeader_ident.
Qed.

Lemma push_table_inv tables data :
  (forall i t, tables !! i = Some t -> madeFrom host i t) ->
  2 <= length data -> Forall (fun cells => 2 <= length cells) data ->
  forall i t, push_table host tables data !! i = Some t -> madeFrom host i t.
Proof.
  intros Ht Hd Hc i t. unfold push_table.
  destruct (createTableFromData host data (length tables)) as [t'|] eqn:E; [|apply Ht].
  intros Hi. apply lookup_app_Some in Hi as [Hi | [Hlen Hi]]; [by apply Ht|].
  apply list_lookup_singleton_Some in Hi as [Hi <-].
  assert (i = length tables) as -> by lia. by exists data.
Qed.

Lemma scanLine_inv st line : scanInv host st -> scanInv host (scanLine host st line).
Proof.
  intros [Hf Hd]. unfold scanLine.
  destruct (2 <=? length (cellsOf line)) eqn:Ec.
  - apply Nat.leb_le in Ec. destruct (inTable st); simpl; split; try done.
    + apply Forall_app. split; [done|]. by constructor.
    + by repeat constructor.
  - destruct (inTable st && (2 <=? length (tableData st))) eqn:E; [|done].
    apply andb_true_iff in E as [_ E]. apply Nat.leb_le in E.
    split; simpl; [|done]. by apply push_table_inv.
Qed.

Lemma scan_inv lines st : scanInv host st -> scanInv host (fold_left (scanLine host) lines st).
Proof.
  revert st. induction lines as [|line lines IH]; intros st H; [done|].
  simpl. by apply IH, scanLine_inv.
Qed.

Lemma extractTablesFromText_made text i t :
  extractTablesFromText host text !! i = Some t -> madeFrom host i t.
Proof.
  unfold extractTablesFromText.
  match goal with |- context [fold_left _ ?ls ?st0] =>
    pose proof (scan_inv ls st0) as [Hf Hd]; [by split|];
    destruct (fold_left (scanLine host) ls st0) as [fnd td it] end.
  cbn [found tableData inTable] in *.
  destruct it; cbn [andb]; [|apply Hf].
  destruct (2 <=? length td) eqn:E; [|apply Hf].
  apply Nat.leb_le in E. by apply push_table_inv.
Qed.

Lemma specBlocks_candidates pending ls :
  Forall (fun cells => isRowCandidate cells = true) pending ->
  Forall (Forall (fun cells => isRowCandidate cells = true)) (specBlocks pending ls).
Proof.
  revert pending. induction ls as [|cells rest IH]; intros pending Hp;
    cbn [specBlocks].
  - by repeat constructor.
  - destruct (isRowCandidate cells) eqn:Ec.
    + apply IH, Forall_app. split; [done|]. by constructor.
    + destruct (2 <=? length pending).
      * constructor; [done|]. apply IH. constructor.
      * by apply IH.
Qed.

(** The loop over the lines, with the test after it, emits the tables of the
    blocks of the specification that have two rows or more. *)
Lemma scan_blocks lines st :
  inTable st = (0 <? length (tableData st)) ->
  (let st' := fold_left (scanLine host) lines st in
   if inTable st' && (2 <=? length (tableData st'))
   then push_table host (found st') (tableData st')
   else found st')
  = fold_left (push_table host)
      (specKeptBlocks (specBlocks (tableData st) (map cellsOf lines))) (found st).
Proof.
  revert st. induction lines as [|line lines IH]; intros [fnd td it] Hi;
    cbn [found tableData inTable] in *.
  - cbn [fold_left map specBlocks specKeptBlocks List.filter found tableData inTable].
    subst it. destruct (2 <=? length td) eqn:E.
    + apply Nat.leb_le in E. by replace (0 <? length td) with true by (symmetry; apply Nat.ltb_lt; lia).
    + by rewrite andb_false_r.
  - cbn [fold_left map].
    assert (Hstep : forall rest,
      let st1 := scanLine host (Scan fnd td it) line in
      inTable st1 = (0 <? length (tableData st1)) /\
      fold_left (push_table host) (specKeptBlocks (specBlocks (tableData st1) rest)) (found st1)
      = fold_left (push_table host)
          (specKeptBlocks (specBlocks td (cellsOf line :: rest))) fnd).
    { intros rest. unfold scanLine. cbn [found tableData inTable specBlocks].
      unfold isRowCandidate.
      destruct (2 <=? length (cellsOf line)) eqn:Ec.
      - assert (td = [] \/ it = true) as [-> | ->].
        { destruct it; [by right|left]. symmetry in Hi. apply Nat.ltb_ge in Hi.
          destruct td; [done|simpl in Hi; lia]. }
        + destruct it; cbn [negb found tableData inTable]; split; try done.
        + cbn [negb found tableData inTable]. split; [|done].
          rewrite length_app. simpl. symmetry. apply Nat.ltb_lt. lia.
      - destruct (2 <=? length td) eqn:E.
        + apply Nat.leb_le in E.
          assert (it = true) as -> by (rewrite Hi; apply Nat.ltb_lt; lia).
          cbn [andb found tableData inTable]. split; [done|].
          unfold specKeptBlocks at 2. cbn [List.filter].
          by replace (2 <=? length td) with true by (symmetry; by apply Nat.leb_le).
        + rewrite andb_false_r. by cbn [found tableData inTable]. }
    destruct (Hstep (map cellsOf lines)) as [H1 H2].
    etrans; [by apply IH|]. exact H2.
Qed.

(** Pushing the tables of blocks of two rows or more adds one table per
    block, each made from its block with its index in the list. *)
Lemma pushed_blocks blocks fnd :
  (forall block, In block blocks -> 2 <= length block) ->
  length (fold_left (push_table host) blocks fnd) = length fnd + length blocks /\
  (forall i block, blocks !! i = Some block ->
     exists t, fold_left (push_table host) blocks fnd !! (length fnd + i) = Some t /\
               createTableFromData host block (length fnd + i) = Some t) /\
  (forall i, i < length fnd -> fold_left (push_table host) blocks fnd !! i = fnd !! i).
Proof.
  revert fnd. induction blocks as [|b blocks IH]; intros fnd Hb.
  - simpl. split; [lia|]. split; [done|done].
  - assert (H2 : 2 <= length b) by (apply Hb; by left).
    assert (Hmk : exists t, createTableFromData host b (length fnd) = Some t).
    { unfold createTableFromData. destruct (length b <? 2) eqn:E; [|by eexists].
      apply Nat.ltb_lt in E. lia. }
    destruct Hmk as [t Hmk].
    assert (Hp : push_table host fnd b = fnd ++ [t]) by (unfold push_table; by rewrite Hmk).
    cbn [fold_left]. rewrite Hp.
    destruct (IH (fnd ++ [t])) as (Hlen & Hat & Hpre).
    { intros b' Hb'. apply Hb. by right. }
    rewrite length_app in Hlen, Hat, Hpre. simpl in Hlen, Hat, Hpre.
    split; [simpl; lia|]. split.
    + intros [|i] block Hi.
      * simpl in Hi. injection Hi as <-. exists t. rewrite Nat.add_0_r. split; [|done].
        rewrite Hpre; [|lia]. rewrite lookup_app_r; [|lia].
        by rewrite Nat.sub_diag.
      * simpl in Hi. destruct (Hat i block Hi) as (t' & H1 & H2').
        exists t'. by replace (length fnd + S i) with (length fnd + 1 + i) by lia.
    + intros i Hi. rewrite Hpre; [|lia]. by rewrite lookup_app_l.
Qed.

End TextFacts.

(* ===================================================================== *)
(** * The properties of the specification *)
(* ===================================================================== *)

Import Regex RegexSem Js Extract Interpret Format.

(** C1. The core is total. For every parser, oracle and input,
    [extractDataFromFile] returns a value and throws nothing; for an
    extension without an extractor it returns [{tables: []}] and does nothing
    else; when the spreadsheet or the document parser throws on the input, it
    logs the error and returns [{tables: []}]; on the image route, whenever
    the image extractor logs an error it returns [{tables: []}]; a CSV buffer
    is read without any call that can throw. [interpret] returns an action
    descriptor for every utterance, and an utterance that no greeting pattern
    matches and for which no step of the chain returns (in particular one
    that holds none of the words insert, update, delete, create, drop, show)
    resolves to [{action: "query", details: {message: utterance}}]. *)
Theorem core_total
    (hostDateParse : string -> bool)
    (XLSX_read : string -> outcome (list (string * list (list value))))
    (pdfParse : string -> outcome string)
    (GEMINI_API_KEY : option string)
    (generateContent : request -> outcome oracle_response)
    (base64 : string -> string)
    (JSON_parse : string -> outcome json)
    (buffer ext mimetype utterance : string) :
  (exists log data,
     extractDataFromFile hostDateParse XLSX_read pdfParse GEMINI_API_KEY generateContent
       base64 JSON_parse buffer ext mimetype = (log, Ok data)) /\
  (~ In ext knownExtensions ->
   extractDataFromFile hostDateParse XLSX_read pdfParse GEMINI_API_KEY generateContent
     base64 JSON_parse buffer ext mimetype = ([], Ok (Data (Tables []) None))) /\
  (In ext [".xlsx"; ".xls"] -> (exists e, XLSX_read buffer = Throw e) ->
   extractDataFromFile hostDateParse XLSX_read pdfParse GEMINI_API_KEY generateContent
     base64 JSON_parse buffer ext mimetype
   = ([ErrorLog "Error extracting data:"], Ok (Data (Tables []) None))) /\
  (ext = ".pdf" -> (exists e, pdfParse buffer = Throw e) ->
   extractDataFromFile hostDateParse XLSX_read pdfParse GEMINI_API_KEY generateContent
     base64 JSON_parse buffer ext mimetype
   = ([ErrorLog "PDF extraction error:"], Ok (Data (Tables []) None))) /\
  (In ext [".png"; ".jpg"; ".jpeg"] ->
   forall log data,
     extractDataFromFile hostDateParse XLSX_read pdfParse GEMINI_API_KEY generateContent
       base64 JSON_parse buffer ext mimetype = (log, Ok data) ->
     In (ErrorLog "Image extraction error:") log -> data = Data (Tables []) None) /\
  (ext = ".csv" ->
   extractDataFromFile hostDateParse XLSX_read pdfParse GEMINI_API_KEY generateContent
     base64 JSON_parse buffer ext mimetype
   = ([], Ok (extractFromCSV hostDateParse buffer))) /\
  (exists a d, interpret utterance = Act a d) /\
  (firstGreeting (Str.trim utterance) = None ->
   Forall (fun stepFn => stepFn (Str.trim (Str.toLowerCase utterance)) utterance = None)
     steps ->
   interpret utterance = Act "query" (DMessage utterance)) /\
  (firstGreeting (Str.trim utterance) = None ->
   Forall (fun word => ~ Contains (Str.trim (Str.toLowerCase utterance)) word)
     triggerWords ->
   interpret utterance = Act "query" (DMessage utterance)).
Proof.
  split; [apply extractDataFromFile_returns|].
  split.
  { intros Hext. unfold extractDataFromFile.
    assert (Hk : forall known, In known knownExtensions -> Str.eqb ext known = false).
    { intros known Hin. apply String.eqb_neq. by intros ->. }
    unfold knownExtensions in Hk. simpl in Hk.
    rewrite !Hk by tauto. by simpl; rewrite !Hk by tauto. }
  split.
  { intros Hext [e He]. unfold extractDataFromFile, extractFromExcel.
    assert (E : Str.eqb ext ".xlsx" || Str.eqb ext ".xls" = true).
    { destruct Hext as [<- | [<- | []]]; by vm_compute. }
    rewrite E, He. reflexivity. }
  split.
  { intros -> [e He]. unfold extractDataFromFile, extractFromPDF. simpl.
    rewrite He. reflexivity. }
  split.
  { intros Hext log data. unfold extractDataFromFile.
    assert (E1 : Str.eqb ext ".xlsx" || Str.eqb ext ".xls" = false)
      by (destruct Hext as [<- | [<- | [<- | []]]]; by vm_compute).
    assert (E2 : Str.eqb ext ".csv" = false)
      by (destruct Hext as [<- | [<- | [<- | []]]]; by vm_compute).
    assert (E3 : Str.eqb ext ".pdf" = false)
      by (destruct Hext as [<- | [<- | [<- | []]]]; by vm_compute).
    assert (E4 : existsb (Str.eqb ext) [".png"; ".jpg"; ".jpeg"] = true)
      by (destruct Hext as [<- | [<- | [<- | []]]]; by vm_compute).
    rewrite E1, E2, E3, E4. unfold extractFromImage.
    destruct (configured GEMINI_API_KEY); simpl; [|by intros [= <- <-] []].
    destruct (generateContent _) as [resp|e]; simpl; [|by intros [= <- <-]].
    destruct (jsonMatch _) as [m|]; simpl;
      [|intros [= <- <-] [|[]]; done].
    destruct (JSON_parse _) as [parsed|e]; simpl; [|by intros [= <- <-]].
    destruct (tablesOf parsed) as [t|e]; simpl; [|by intros [= <- <-]].
    intros [= <- <-] [|[]]; done. }
  split; [by intros ->|].
  split; [by destruct (interpret utterance) as [a d]; eauto|].
  split.
  { intros Hg Hs. unfold interpret, processNaturalLanguageCommand. rewrite Hg.
    by apply firstOf_default. }
  intros Hg Hw. unfold interpret, processNaturalLanguageCommand. rewrite Hg.
  by apply firstOf_default, no_trigger_no_step.
Qed.

(** C1 at a spreadsheet that does not parse and at an utterance without a
    trigger word. *)
Lemma core_total_witness :
  extractDataFromFile (fun _ => false) (fun _ => Throw "not a workbook")
    (fun _ => Throw "not a document") None (fun _ => Throw "unreachable")
    (fun b => b) (fun _ => Throw "not JSON") "garbage" ".xlsx" "application/octet-stream"
  = ([ErrorLog "Error extracting data:"], Ok (Data (Tables []) None)) /\
  interpret "how many rows are there" = Act "query" (DMessage "how many rows are there").
Proof.
  destruct (core_total (fun _ => false) (fun _ => Throw "not a workbook")
              (fun _ => Throw "not a document") None (fun _ => Throw "unreachable")
              (fun b => b) (fun _ => Throw "not JSON") "garbage" ".xlsx"
              "application/octet-stream" "how many rows are there")
    as (_ & _ & Hxlsx & _ & _ & _ & _ & _ & Hquery).
  split.
  - apply Hxlsx; [by left|by eexists].
  - apply Hquery; [by vm_compute|].
    repeat constructor; rewrite <- includes_spec; by vm_compute.
Defined.

(** C2. The type inferencer first discards the entries that are [null],
    [undefined] or the empty string, and returns [text] when none remains;
    otherwise it returns [integer] when [Number] reads every remaining entry
    as a number, else [date] when [Date.parse] reads the text of every
    remaining entry as a date, else [text]: the numeric test comes first.
    [infer(["1","2","3"])] is [integer], [infer(["2024-01-01","2024-02-02"])]
    is [date], [infer([])] is [text], and [infer(["1","x"])] is [text] on any
    host whose date parser rejects the text [x]. *)
Theorem infer_rule (host : string -> bool) (values : list value) :
  (forall v, In v (remaining values) <->
             In v values /\ v <> VNull /\ v <> VUndefined /\ v <> VStr "") /\
  (remaining values = [] -> Infer.inferColumnType host values = "text") /\
  (remaining values <> [] -> Forall numeric (remaining values) ->
   Infer.inferColumnType host values = "integer") /\
  (remaining values <> [] -> ~ Forall numeric (remaining values) ->
   Forall (dated host) (remaining values) ->
   Infer.inferColumnType host values = "date") /\
  (remaining values <> [] -> ~ Forall numeric (remaining values) ->
   ~ Forall (dated host) (remaining values) ->
   Infer.inferColumnType host values = "text") /\
  Infer.inferColumnType host [VStr "1"; VStr "2"; VStr "3"] = "integer" /\
  Infer.inferColumnType host [VStr "2024-01-01"; VStr "2024-02-02"] = "date" /\
  (host "x" = false -> Infer.inferColumnType host [VStr "1"; VStr "x"] = "text") /\
  Infer.inferColumnType host [] = "text".
Proof.
  split; [apply remaining_spec|].
  assert (Hrule :
    (remaining values = [] -> Infer.inferColumnType host values = "text") /\
    (remaining values <> [] -> Forall numeric (remaining values) ->
     Infer.inferColumnType host values = "integer") /\
    (remaining values <> [] -> ~ Forall numeric (remaining values) ->
     Forall (dated host) (remaining values) ->
     Infer.inferColumnType host values = "date") /\
    (remaining values <> [] -> ~ Forall numeric (remaining values) ->
     ~ Forall (dated host) (remaining values) ->
     Infer.inferColumnType host values = "text")).
  { unfold Infer.inferColumnType, numeric, dated. fold (remaining values).
    rewrite <- !forallb_Forall.
    destruct (remaining values) as [|v l] eqn:E; simpl length; simpl Nat.eqb.
    - by repeat split.
    - set (vs := v :: l) in *.
      destruct (forallb is_numeric vs); destruct (forallb _ vs); by repeat split. }
  destruct Hrule as (H1 & H2 & H3 & H4).
  split; [exact H1|]. split; [exact H2|]. split; [exact H3|]. split; [exact H4|].
  split; [by vm_compute|]. split; [by vm_compute|]. split; [|by vm_compute].
  intros Hx. unfold Infer.inferColumnType.
  change (List.filter Infer.nonEmpty [VStr "1"; VStr "x"]) with [VStr "1"; VStr "x"].
  replace (forallb is_numeric [VStr "1"; VStr "x"]) with false by (by vm_compute).
  cbn [length Nat.eqb forallb to_string]. unfold is_date at 2. rewrite Hx.
  replace (iso_date "x") with false by (by vm_compute).
  by rewrite andb_false_r.
Qed.

(** C2 on a host whose own date parser accepts nothing. *)
Lemma infer_rule_witness :
  Infer.inferColumnType (fun _ => false) [VStr "1"; VStr "x"] = "text".
Proof.
  destruct (infer_rule (fun _ => false) []) as (_ & _ & _ & _ & _ & _ & _ & H & _).
  exact (H eq_refl).
Defined.

(** C3. [interpret("create a table student with id, name, email")] is exactly
    [create_table] of [student] with the columns [id: integer], [name: text],
    [email: text] and no database; [interpret("create table student with id,
    name in database school")] has the columns [id] and [name] only and the
    database [school]. In every [create_table] result the columns are the
    comma-split tokens of a columns clause, there is at least one, and each
    is typed by the keyword heuristic: a name containing [email] is [text];
    otherwise one containing [id] is [integer]; otherwise one containing
    [age], [count], [number] or [phone] is [integer]; otherwise [text]. *)
Theorem create_table_columns :
  interpret "create a table student with id, name, email" =
    Act "create_table"
      (DTableDef "student"
         [Column "id" "integer"; Column "name" "text"; Column "email" "text"] None) /\
  interpret "create table student with id, name in database school" =
    Act "create_table"
      (DTableDef "student" [Column "id" "integer"; Column "name" "text"] (Some "school")) /\
  forall (u name : string) (cols : list column) (db : option string),
    interpret u = Act "create_table" (DTableDef name cols db) ->
    cols <> [] /\ Forall typedByKeyword cols /\
    exists columnsText, map c_name cols = columnTokens columnsText.
Proof.
  split; [by vm_compute|]. split; [by vm_compute|].
  intros u name cols db H. unfold interpret, processNaturalLanguageCommand in H.
  destruct (firstGreeting (Str.trim u)); [done|].
  assert (Ha : action (firstOf steps (Str.trim (Str.toLowerCase u)) u) = "create_table")
    by (by rewrite H).
  eapply (firstOf_returned _ _ 4) in Ha as [Hf _]; [|done..].
  apply createTableStep_inv in Hf as (t & columnsText & d & Hf & Hne).
  rewrite H in Hf. injection Hf as -> -> ->.
  split; [done|]. split; [apply columnsOf_typed|].
  exists columnsText. apply columnsOf_names.
Qed.

(** C3 at the first utterance. *)
Lemma create_table_columns_witness :
  [Column "id" "integer"; Column "name" "text"; Column "email" "text"] <> [] /\
  Forall typedByKeyword [Column "id" "integer"; Column "name" "text"; Column "email" "text"] /\
  exists columnsText,
    map c_name [Column "id" "integer"; Column "name" "text"; Column "email" "text"] =
    columnTokens columnsText.
Proof.
  apply (proj2 (proj2 create_table_columns)
           "create a table student with id, name, email" "student" _ None).
  by vm_compute.
Defined.

(** C4. The order of the triggers settles the utterances several of them
    match. [interpret("delete database school")] is [delete_database] of
    [school], not [delete_table]; [interpret("show all tables")] is
    [show_tables] and [interpret("show student")] is [show_table] of
    [student]; [interpret("show databases")] is [show_databases], although
    the pattern of [show_table] matches it too, because that step comes
    first. For every utterance: [delete_table] is returned only when the
    message contains [table]; [show_databases] only when it contains
    [database] and not [table]; [show_table] only when it does not contain
    [all table] and the test of [show_databases] fails; [show_tables] only
    when it contains [all table]. So the conditions under which the three
    [show] actions are returned exclude one another. *)
Theorem trigger_precedence :
  interpret "delete database school" = Act "delete_database" (DDatabaseName "school") /\
  interpret "show all tables" = Act "show_tables" (DMessage "show all tables") /\
  interpret "show student" = Act "show_table" (DTableName "student") /\
  interpret "show databases" = Act "show_databases" DEmpty /\
  forall u : string,
    (action (interpret u) = "delete_table" ->
       Contains (Str.trim (Str.toLowerCase u)) "table") /\
    (action (interpret u) = "show_databases" ->
       Contains (Str.trim (Str.toLowerCase u)) "database" /\
       ~ Contains (Str.trim (Str.toLowerCase u)) "table") /\
    (action (interpret u) = "show_table" ->
       ~ Contains (Str.trim (Str.toLowerCase u)) "all table" /\
       ~ (Contains (Str.trim (Str.toLowerCase u)) "database" /\
          ~ Contains (Str.trim (Str.toLowerCase u)) "table")) /\
    (action (interpret u) = "show_tables" ->
       Contains (Str.trim (Str.toLowerCase u)) "all table" /\
       Contains (Str.trim (Str.toLowerCase u)) "table").
Proof.
  split; [by vm_compute|]. split; [by vm_compute|]. split; [by vm_compute|].
  split; [by vm_compute|].
  intros u. unfold interpret, processNaturalLanguageCommand.
  destruct (firstGreeting (Str.trim u)) as [g|]; [by repeat split|].
  set (msg := Str.trim (Str.toLowerCase u)).
  repeat split.
  - intros Ha. eapply (firstOf_returned msg u 7) in Ha as [Hf _]; [|done..].
    by apply deleteTableStep_inv in Hf as (_ & ? & _).
  - eapply (firstOf_returned msg u 6) in H as [Hf _]; [|done..].
    by apply showDatabasesStep_inv in Hf as (_ & _ & ? & _).
  - eapply (firstOf_returned msg u 6) in H as [Hf _]; [|done..].
    by apply showDatabasesStep_inv in Hf as (_ & _ & _ & ?).
  - eapply (firstOf_returned msg u 8) in H as [Hf _]; [|done..].
    by apply showTableStep_inv in Hf as (_ & _ & ?).
  - intros [Hd Ht]. eapply (firstOf_returned msg u 8) in H as [Hf Hb]; [|done..].
    apply showTableStep_inv in Hf as (_ & Hshow & _).
    assert (Hn : showDatabasesStep msg u = None).
    { by eapply (proj1 (Forall_lookup _ _) Hb 6). }
    apply showDatabasesStep_none in Hn. apply Hn. by repeat split.
  - eapply (firstOf_returned msg u 9) in H as [Hf _]; [|done..].
    by apply showTablesStep_inv in Hf as (_ & _ & ?).
  - eapply (firstOf_returned msg u 9) in H as [Hf _]; [|done..].
    apply showTablesStep_inv in Hf as (_ & _ & ?).
    eapply Contains_trans; [done|]. by apply includes_spec.
Qed.

(** C5, as stated, fails: [interpret("show table x, how are you?")] is the
    conversation action, and no greeting pattern matches the whole trimmed
    utterance. *)
Lemma greeting_not_whole_utterance :
  action (interpret "show table x, how are you?") = "conversation" /\
  Forall (fun g => ~ Matches true (pattern g) 0
                      (chars_of (Str.trim "show table x, how are you?")) [])
    greetingPatterns.
Proof.
  split; [by vm_compute|].
  repeat (constructor; [apply not_whole; by vm_compute|]). constructor.
Qed.

(** C5, amended. [interpret] returns the conversation action exactly when
    some greeting pattern matches a span of the trimmed utterance that ends
    where the utterance ends (every pattern ends with [$]); the reply is that
    of the first pattern of the table that finds a match. For the eleven
    patterns that start with [^] the span is the whole trimmed utterance; the
    three without it (how are you, what can you do, who are you) match after
    any prefix. So a greeting followed by other text is answered as
    conversation exactly when the whole ends with one of these three phrases:
    [interpret("hi, how are you")] and [interpret("hello, who are you?")] are
    the conversation action, while [interpret("hi, can you show table x")]
    is [show_table] of [x]. *)
Theorem greeting_branch (u : string) :
  (action (interpret u) = "conversation" ->
   exists g pre w before after,
     greetingPatterns = before ++ g :: after /\
     Forall (fun g' => Regex.test true (pattern g') (Str.trim u) = false) before /\
     interpret u = Act "conversation" (DResponse (response g)) /\
     chars_of (Str.trim u) = pre ++ w /\
     Matches true (pattern g) (length pre) w [] /\
     (startAnchored (pattern g) = true -> pre = [])) /\
  (forall g pre w,
     In g greetingPatterns -> chars_of (Str.trim u) = pre ++ w ->
     Matches true (pattern g) (length pre) w [] ->
     action (interpret u) = "conversation") /\
  map (fun g => startAnchored (pattern g)) greetingPatterns =
    [true; true; false; true; true; true; true; true; true; true; false; true; false; true] /\
  Forall (fun g => endAnchored (pattern g) = true) greetingPatterns /\
  interpret "hi, can you show table x" = Act "show_table" (DTableName "x") /\
  action (interpret "hi, how are you") = "conversation" /\
  action (interpret "hello, who are you?") = "conversation".
Proof.
  assert (Hfind : forall g, firstGreeting (Str.trim u) = Some g ->
            exists pre w before after,
              greetingPatterns = before ++ g :: after /\
              Forall (fun g' => Regex.test true (pattern g') (Str.trim u) = false) before /\
              chars_of (Str.trim u) = pre ++ w /\
              Matches true (pattern g) (length pre) w [] /\
              (startAnchored (pattern g) = true -> pre = [])).
  { unfold firstGreeting. generalize greetings_end_anchored.
    generalize greetingPatterns as l. induction l as [|g0 l IH]; intros Hend g; [done|].
    inversion Hend as [|? ? Hg0 Hl]; subst. simpl.
    destruct (Regex.test true (pattern g0) (Str.trim u)) eqn:E.
    - intros [= <-]. apply test_spec in E as (pre & w & rem & Ht & Hm).
      pose proof (endAnchored_spec _ _ _ _ _ Hg0 Hm) as ->. rewrite app_nil_r in Ht.
      exists pre, w, [], l. repeat split; try done.
      intros Hs. pose proof (startAnchored_spec _ _ _ _ _ Hs Hm) as Hp.
      by destruct pre.
    - intros Hg. destruct (IH Hl g Hg) as (pre & w & before & after & -> & Hb & Hrest).
      exists pre, w, (g0 :: before), after. split; [done|]. split; [by constructor|done]. }
  split; [|split; [|split; [|split; [|split; [|split]]]]].
  - intros Ha. unfold interpret, processNaturalLanguageCommand in *.
    destruct (firstGreeting (Str.trim u)) as [g|] eqn:Eg.
    + destruct (Hfind g eq_refl) as (pre & w & before & after & ? & ? & ? & ? & ?).
      by exists g, pre, w, before, after.
    + by apply firstOf_not_conversation in Ha.
  - intros g pre w Hin Ht Hm.
    unfold interpret, processNaturalLanguageCommand.
    destruct (firstGreeting (Str.trim u)) as [g'|] eqn:Eg; [done|]. exfalso.
    unfold firstGreeting in Eg. eapply find_none in Eg; [|exact Hin].
    apply not_true_iff_false in Eg. apply Eg, test_spec.
    exists pre, w, []. by rewrite app_nil_r.
  - by vm_compute.
  - apply greetings_end_anchored.
  - by vm_compute.
  - by vm_compute.
  - by vm_compute.
Qed.

(** C5 at a greeting that spans the whole utterance. *)
Lemma greeting_branch_witness :
  exists g pre w before after,
    greetingPatterns = before ++ g :: after /\
    Forall (fun g' => Regex.test true (pattern g') (Str.trim "  Hello!  ") = false) before /\
    interpret "  Hello!  " = Act "conversation" (DResponse (response g)) /\
    chars_of (Str.trim "  Hello!  ") = pre ++ w /\
    Matches true (pattern g) (length pre) w [] /\
    (startAnchored (pattern g) = true -> pre = []).
Proof.
  destruct (greeting_branch "  Hello!  ") as (H & _).
  apply H. by vm_compute.
Defined.


(** C7, at the inputs the code gets wrong. The header [E-mail] of a CSV file
    and of a sheet becomes the column name [e-mail]: the hyphen, which is not
    alphanumeric, is kept. The same header in extracted text becomes
    [email]. *)
Theorem csv_and_sheet_keep_punctuation (host : string -> bool) :
  match tables (extractFromCSV host ("E-mail,Name" +:+ Str.LF +:+ "1,2")) with
  | Tables ts => map (fun t => map c_name (columns t)) ts
  | Parsed _ => []
  end = [["e-mail"; "name"]] /\
  option_map (fun t => map c_name (columns t))
    (sheetTable host "Sheet1" [[VStr "E-mail"; VStr "Name"]; [VNum (Int 1); VNum (Int 2)]])
  = Some ["e-mail"; "name"] /\
  option_map (fun t => map c_name (columns t))
    (createTableFromData host [["E-mail"; "Name"]; ["1"; "2"]] 0)
  = Some ["email"; "name"].
Proof. repeat split; by vm_compute. Qed.

(** C8, as stated, fails: in a reply that holds two objects the code takes
    the text from the first opening brace to the last closing brace, which
    is not the first balanced object. *)
Lemma greedy_span_not_first_object :
  option_map Regex.matched
    (jsonMatch (with_quotes "Here: {`tables`: []} Note: {} means none."))
  = Some (with_quotes "{`tables`: []} Note: {}") /\
  option_map str_of
    (firstBalancedObject (chars_of (with_quotes "Here: {`tables`: []} Note: {} means none.")))
  = Some (with_quotes "{`tables`: []}") /\
  with_quotes "{`tables`: []} Note: {}" <> with_quotes "{`tables`: []}".
Proof. repeat split; by vm_compute. Qed.

(** C8, amended. Without an API credential the image extractor returns
    [{tables: [], textContent: reason}] and makes no call. With one it calls
    the oracle once; it takes the text from the first opening brace of the
    reply to its last closing brace (no brace is matched against another),
    parses that text and returns [{tables: parsed.tables || [], textContent}];
    it returns [{tables: []}] when the reply holds no such text, when
    parsing it or reading its [tables] throws, and when the call throws, the
    last three after logging the error. *)
Theorem image_extraction
    (GEMINI_API_KEY : option string)
    (generateContent : request -> outcome oracle_response)
    (base64 : string -> string)
    (JSON_parse : string -> outcome json)
    (buffer mimetype : string) :
  (configured GEMINI_API_KEY = false ->
   extractFromImage GEMINI_API_KEY generateContent base64 JSON_parse buffer mimetype
   = ([], Ok (Data (Tables [])
                (Some "Gemini API key not configured for image processing")))) /\
  (configured GEMINI_API_KEY = true ->
   forall req, req = Request "gemini-2.0-flash" prompt mimetype (base64 buffer) ->
     (forall e, generateContent req = Throw e ->
        extractFromImage GEMINI_API_KEY generateContent base64 JSON_parse buffer mimetype
        = ([OracleCall req; ErrorLog "Image extraction error:"],
           Ok (Data (Tables []) None))) /\
     (forall reply, generateContent req = Ok reply ->
        extractFromImage GEMINI_API_KEY generateContent base64 JSON_parse buffer mimetype
        = match braceSpan (chars_of (responseTextOf reply)) with
          | None => ([OracleCall req], Ok (Data (Tables []) None))
          | Some span =>
              match JSON_parse (str_of span) with
              | Throw _ =>
                  ([OracleCall req; ErrorLog "Image extraction error:"],
                   Ok (Data (Tables []) None))
              | Ok parsed =>
                  match tablesOf parsed with
                  | Throw _ =>
                      ([OracleCall req; ErrorLog "Image extraction error:"],
                       Ok (Data (Tables []) None))
                  | Ok found =>
                      ([OracleCall req],
                       Ok (Data found (Some "Extracted from image using AI")))
                  end
              end
          end)) /\
  (forall l span,
     braceSpan l = Some span <->
     exists pre mid post,
       l = pre ++ span ++ post /\ span = OPEN :: mid ++ [CLOSE] /\
       ~ In OPEN pre /\ ~ In CLOSE post).
Proof.
  split.
  { intros Hc. unfold extractFromImage. by rewrite Hc. }
  split; [|apply braceSpan_spec].
  intros Hc req ->. unfold extractFromImage. rewrite Hc. cbn [negb]. split.
  - intros e He. simpl. by rewrite He.
  - intros reply He. simpl. rewrite He. simpl.
    pose proof (jsonMatch_span (responseTextOf reply)) as Hspan.
    destruct (jsonMatch (responseTextOf reply)) as [m|];
      destruct (braceSpan _) as [span|]; simpl in Hspan; try done.
    injection Hspan as <-. rewrite str_of_chars_of.
    destruct (JSON_parse _) as [parsed|e]; simpl; [|done].
    by destruct (tablesOf parsed).
Qed.

(** C8 without a credential, and with one on a reply that wraps its JSON in
    prose. *)
Lemma image_extraction_witness :
  extractFromImage None (fun _ => Throw "unreachable") (fun b => b)
    (fun _ => Throw "unreachable") "bytes" "image/png"
  = ([], Ok (Data (Tables [])
               (Some "Gemini API key not configured for image processing"))) /\
  (exists pre mid post,
     chars_of "Sure: {x} and {y}." = pre ++ chars_of "{x} and {y}" ++ post /\
     chars_of "{x} and {y}" = OPEN :: mid ++ [CLOSE] /\
     ~ In OPEN pre /\ ~ In CLOSE post).
Proof.
  destruct (image_extraction None (fun _ => Throw "unreachable") (fun b => b)
              (fun _ => Throw "unreachable") "bytes" "image/png") as (Hnone & _ & Hspan).
  split; [by apply Hnone|]. apply Hspan. by vm_compute.
Defined.







(** C4 at an utterance that asks for all tables. *)
Lemma trigger_precedence_witness :
  Contains (Str.trim (Str.toLowerCase "Show ALL tables")) "all table" /\
  Contains (Str.trim (Str.toLowerCase "Show ALL tables")) "table".
Proof.
  destruct trigger_precedence as (_ & _ & _ & _ & H).
  destruct (H "Show ALL tables") as (_ & _ & _ & Hall).
  apply Hall. by vm_compute.
Defined.

(* ===================================================================== *)
(** * What the extractors do guarantee *)
(* ===================================================================== *)

(** X1. Every column name of every table the text extractor emits is
    normalized: not empty, and made of lower-case letters, digits and
    underscores only. *)
Theorem text_column_names_normalized
    (host : string -> bool) (text : string) (i : nat) (t : ExtractedTable) :
  extractTablesFromText host text !! i = Some t ->
  Forall (fun c => normalized (c_name c)) (Extract.columns t).
Proof.
  intros H. apply extractTablesFromText_made in H as (data & H & _).
  by eapply createTableFromData_normalized.
Qed.

(** X1 at a text with one block of three rows. *)
Lemma text_column_names_normalized_witness :
  Forall (fun c => normalized (c_name c))
    [Column "first_name" "text"; Column "age_y" "integer"].
Proof.
  apply (text_column_names_normalized (fun _ => false)
           ("First Name   Age (y)" +:+ Str.LF +:+ "Bob   12" +:+ Str.LF +:+ "Al   13") 0
           (Table "pdf_table_1" [Column "first_name" "text"; Column "age_y" "integer"]
              [Js.Obj (<["first_name" := VStr "Bob"]> (<["age_y" := VStr "12"]> ∅)) Js.ObjectPrototype;
               Js.Obj (<["first_name" := VStr "Al"]> (<["age_y" := VStr "13"]> ∅)) Js.ObjectPrototype])).
  by vm_compute.
Defined.

(** X2. The tables the text extractor emits are named [pdf_table_1],
    [pdf_table_2], ... in the order they are found; each has as many columns
    as its header row has cells, two or more, and one data row or more: the
    rows of its block but the first. The block has two rows or more, each of
    two cells or more. *)
Theorem text_tables_shape
    (host : string -> bool) (text : string) (i : nat) (t : ExtractedTable) :
  extractTablesFromText host text !! i = Some t ->
  Extract.name t = "pdf_table_" +:+ pretty (i + 1) /\
  2 <= length (Extract.columns t) /\ 1 <= length (Extract.rows t) /\
  exists data,
    createTableFromData host data i = Some t /\
    length (Extract.columns t) = length (default [] (data !! 0)) /\
    length (Extract.rows t) = length data - 1 /\
    2 <= length data /\ Forall (fun cells => 2 <= length cells) data.
Proof.
  intros H. apply extractTablesFromText_made in H as (data & H & Hd & Hc).
  pose proof (createTableFromData_columns host _ _ _ H) as (Hcols & Hname & Hrows).
  assert (Hlen : length (Extract.columns t) = length (default [] (data !! 0))).
  { rewrite Hcols, length_imap, length_map. done. }
  split; [done|]. split.
  - rewrite Hlen. destruct data as [|row data]; [simpl in Hd; lia|]. simpl.
    by inversion Hc.
  - split; [lia|]. by exists data.
Qed.

(** X2 at the same text. *)
Lemma text_tables_shape_witness :
  "pdf_table_1" = "pdf_table_" +:+ pretty (0 + 1) /\ 2 <= 2 /\ 1 <= 2.
Proof.
  destruct (text_tables_shape (fun _ => false)
              ("First Name   Age (y)" +:+ Str.LF +:+ "Bob   12" +:+ Str.LF +:+ "Al   13") 0
              (Table "pdf_table_1" [Column "first_name" "text"; Column "age_y" "integer"]
                 [Js.Obj (<["first_name" := VStr "Bob"]> (<["age_y" := VStr "12"]> ∅)) Js.ObjectPrototype;
                  Js.Obj (<["first_name" := VStr "Al"]> (<["age_y" := VStr "13"]> ∅)) Js.ObjectPrototype]))
    as (Hn & Hc & Hr & _); [by vm_compute|].
  by repeat split.
Defined.

(** X3. Every column name the CSV extractor and the spreadsheet extractor
    emit is lower-cased with its white space replaced: it holds no upper-case
    letter and no white space. *)
Theorem csv_and_sheet_names_lowered (host : string -> bool) :
  (forall buffer ts t,
     tables (extractFromCSV host buffer) = Tables ts -> In t ts ->
     Forall (fun c => Forall (fun a => is_upper_or_space a = false) (chars_of (c_name c)))
       (Extract.columns t)) /\
  (forall sheetName jsonData t,
     sheetTable host sheetName jsonData = Some t ->
     Forall (fun a => is_upper_or_space a = false) (chars_of (Extract.name t)) /\
     Forall (fun c => Forall (fun a => is_upper_or_space a = false) (chars_of (c_name c)))
       (Extract.columns t)).
Proof.
  split.
  - intros buffer ts t. unfold extractFromCSV.
    destruct (length _ <? 2); simpl; [by intros [= <-]|].
    intros [= <-] [<- | []]. simpl. apply Forall_lookup. intros i c Hc.
    apply list_lookup_imap_Some in Hc as (h & Hh & ->). simpl.
    apply lookup_map_inv in Hh as (h0 & _ & ->).
    unfold csvHeader, unquoted. apply replace_all_Forall; [constructor|].
    apply (underscored_clean (Str.trim h0)).
  - intros sheetName jsonData t. unfold sheetTable.
    destruct (length jsonData <? 2); [done|]. intros [= <-]. simpl.
    split; [apply underscored_clean|].
    apply Forall_lookup. intros i c Hc.
    apply list_lookup_imap_Some in Hc as (h & Hh & ->). simpl.
    apply lookup_map_inv in Hh as (h0 & _ & ->). apply underscored_clean.
Qed.

(** X3 at a CSV file with a header in capitals. *)
Lemma csv_and_sheet_names_lowered_witness :
  Forall (fun c => Forall (fun a => is_upper_or_space a = false) (chars_of (c_name c)))
    [Column "first_name" "text"; Column "e-mail" "text"].
Proof.
  destruct (csv_and_sheet_names_lowered (fun _ => false)) as [Hcsv _].
  apply (Hcsv ("First Name,E-Mail" +:+ Str.LF +:+ "Bob,b@x.y")
           [Table "imported_csv" [Column "first_name" "text"; Column "e-mail" "text"]
              [Js.Obj (<["first_name" := VStr "Bob"]> (<["e-mail" := VStr "b@x.y"]> ∅)) Js.ObjectPrototype]]
           (Table "imported_csv" [Column "first_name" "text"; Column "e-mail" "text"]
              [Js.Obj (<["first_name" := VStr "Bob"]> (<["e-mail" := VStr "b@x.y"]> ∅)) Js.ObjectPrototype]));
    [by vm_compute|by left].
Defined.

(* ===================================================================== *)
(** * The captures of a match *)
(* ===================================================================== *)

Section RunTheory.
Import Regex RegexSem RegexRun.

Variable ic : bool.

Lemma step_run ok k s res :
  step ok k s = Some res ->
  exists c t, rest s = c :: t /\ ok c = true /\
              k (MState (S (pos s)) t (caps s)) = Some res.
Proof.
  unfold step. destruct (rest s) as [|c t]; [discriminate|].
  destruct (ok c) eqn:E; [|discriminate]. intros H. by exists c, t.
Qed.

Lemma rep_loop_run r g k :
  run_sound ic r (rmatch ic r) ->
  forall fuel mn mx x res,
    rep_loop (rmatch ic r) (groups r) g k fuel mn mx x = Some res ->
    exists s', Run ic (Rep mn mx g r) x s' /\ k s' = Some res.
Proof.
  intros IHr. induction fuel as [|fuel IH]; intros mn mx x res H; [discriminate|].
  assert (Stop : (mn = 0 \/ mx = Some 0) -> k x = Some res ->
                 exists s', Run ic (Rep mn mx g r) x s' /\ k s' = Some res).
  { intros Hs Hk. exists x. split; [by constructor|done]. }
  assert (Iter : mx <> Some 0 ->
            rmatch ic r
              (fun y => if (mn =? 0) && (pos y =? pos x) then None
                        else rep_loop (rmatch ic r) (groups r) g k fuel (Nat.pred mn)
                               (pred_bound mx) y)
              (MState (pos x) (rest x) (clear (groups r) (caps x))) = Some res ->
            exists s', Run ic (Rep mn mx g r) x s' /\ k s' = Some res).
  { intros Hmx Hm. apply IHr in Hm as (m & Hrun & Hd).
    destruct ((mn =? 0) && (pos m =? pos x)) eqn:E; [discriminate|].
    apply IH in Hd as (s' & Hrun' & Hk). exists s'. split; [|done].
    eapply R_RepStep; eauto.
    intros -> Hp. rewrite Hp, !Nat.eqb_refl in E. discriminate. }
  simpl in H.
  destruct mx as [[|mx']|]; [apply Stop; auto| |];
    (destruct (mn =? 0) eqn:Emn; simpl in H;
     [ apply Nat.eqb_eq in Emn; destruct g;
       [ match type of H with match ?e with _ => _ end = _ => destruct e eqn:Em end;
         [ injection H as <-; apply Iter; [discriminate|exact Em]
         | apply Stop; auto ]
       | destruct (k x) eqn:Ek;
         [ apply Stop; auto | apply Iter; [discriminate|exact H] ] ]
     | apply Iter; [discriminate|exact H] ]).
Qed.

(** Every successful run of the matcher is a [Run]. *)
Lemma rmatch_run r : run_sound ic r (rmatch ic r).
Proof.
  induction r as [| a | | neg items | | | r1 IH1 r2 IH2 | r1 IH1 r2 IH2
                 | mn mx g r IH | n r IH]; intros k s res H; simpl in H.
  - exists s. split; [constructor|done].
  - apply step_run in H as (c & t & Hr & Hok & Hk). eexists. split; [|exact Hk].
    by econstructor.
  - apply step_run in H as (c & t & Hr & Hok & Hk). eexists. split; [|exact Hk].
    econstructor; [done|]. by apply negb_true_iff.
  - apply step_run in H as (c & t & Hr & Hok & Hk). eexists. split; [|exact Hk].
    by econstructor.
  - destruct (pos s =? 0) eqn:E; [|discriminate]. apply Nat.eqb_eq in E.
    exists s. split; [by constructor|done].
  - destruct (rest s) eqn:E; [|discriminate]. exists s. split; [by constructor|done].
  - apply IH1 in H as (m & Hm & Hk1). apply IH2 in Hk1 as (s' & Hs' & Hk).
    exists s'. split; [by econstructor|done].
  - destruct (rmatch ic r1 k s) eqn:E1.
    + inversion H; subst. apply IH1 in E1 as (s' & ? & ?).
      exists s'. split; [by apply R_AltL|done].
    + apply IH2 in H as (s' & ? & ?). exists s'. split; [by apply R_AltR|done].
  - eapply rep_loop_run; eauto.
  - apply IH in H as (s1 & Hrun & Hk). eexists. split; [|exact Hk]. by constructor.
Qed.

(** A run consumes a prefix of what is left, which the pattern matches. *)
Lemma Run_Matches r s s' :
  Run ic r s s' ->
  exists w, rest s = w ++ rest s' /\ pos s' = pos s + length w /\
            Matches ic r (pos s) w (rest s').
Proof.
  induction 1 as [s | a s c t Hr Hc | s c t Hr Hc | neg items s c t Hr Hc | s Hp | s Hr
                 | r1 r2 s m s' _ IH1 _ IH2 | r1 r2 s s' _ IH | r1 r2 s s' _ IH
                 | mn mx g r s Hstop
                 | mn mx g r s m s' Hmx _ IH1 Hne _ IH2
                 | n r s s1 _ IH]; simpl in *.
  - exists []. simpl. split; [done|]. split; [lia|constructor].
  - exists [c]. simpl. split; [done|]. split; [lia|by constructor].
  - exists [c]. simpl. split; [done|]. split; [lia|by constructor].
  - exists [c]. simpl. split; [done|]. split; [lia|by constructor].
  - exists []. simpl. split; [done|]. split; [lia|]. rewrite Hp. constructor.
  - exists []. simpl. split; [done|]. split; [lia|]. rewrite Hr. constructor.
  - destruct IH1 as (w1 & Hr1 & Hp1 & Hm1). destruct IH2 as (w2 & Hr2 & Hp2 & Hm2).
    exists (w1 ++ w2). rewrite <- app_assoc, length_app.
    split; [by rewrite Hr1, Hr2|]. split; [lia|].
    constructor; [by rewrite <- Hr2|by rewrite <- Hp1].
  - destruct IH as (w & ? & ? & ?). exists w. repeat split; [done..|by apply M_AltL].
  - destruct IH as (w & ? & ? & ?). exists w. repeat split; [done..|by apply M_AltR].
  - exists []. simpl. split; [done|]. split; [lia|by constructor].
  - destruct IH1 as (w1 & Hr1 & Hp1 & Hm1). destruct IH2 as (w2 & Hr2 & Hp2 & Hm2).
    exists (w1 ++ w2). rewrite <- app_assoc, length_app.
    split; [by rewrite Hr1, Hr2|]. split; [lia|].
    apply M_RepStep; [done| |by rewrite <- Hr2|by rewrite <- Hp1].
    intros Hmn ->. apply (Hne Hmn). simpl in Hp1. lia.
  - destruct IH as (w & ? & ? & ?). exists w. repeat split; [done..|by constructor].
Qed.

Lemma assoc_clear n gs cs :
  existsb (Nat.eqb n) gs = false -> assoc n (clear gs cs) = assoc n cs.
Proof.
  intros Hn. induction cs as [|[m v] cs IH]; [done|]. unfold clear in *. simpl.
  destruct (m =? n) eqn:E.
  - apply Nat.eqb_eq in E as ->. rewrite Hn. simpl. by rewrite Nat.eqb_refl.
  - destruct (negb _); simpl; [by rewrite E|done].
Qed.

(** A run leaves alone the groups its pattern does not hold. *)
Lemma Run_keeps n r s s' :
  Run ic r s s' -> existsb (Nat.eqb n) (groups r) = false ->
  assoc n (caps s') = assoc n (caps s).
Proof.
  induction 1 as [s | a s c t Hr Hc | s c t Hr Hc | neg items s c t Hr Hc | s Hp | s Hr
                 | r1 r2 s m s' _ IH1 _ IH2 | r1 r2 s s' _ IH | r1 r2 s s' _ IH
                 | mn mx g r s Hstop
                 | mn mx g r s m s' Hmx _ IH1 Hne _ IH2
                 | m r s s1 _ IH]; simpl; intros Hn; try done.
  - rewrite existsb_app in Hn. apply orb_false_iff in Hn as [H1 H2].
    by rewrite IH2, IH1.
  - rewrite existsb_app in Hn. apply orb_false_iff in Hn as [H1 H2]. by apply IH.
  - rewrite existsb_app in Hn. apply orb_false_iff in Hn as [H1 H2]. by apply IH.
  - rewrite IH2, IH1 by done. simpl. by apply assoc_clear.
  - apply orb_false_iff in Hn as [H1 H2]. rewrite (Nat.eqb_sym m n), H1. by apply IH.
Qed.

Lemma In_bodies_l n a b x : In x (bodies n a) -> In x (bodies n a ++ bodies n b).
Proof. intros. apply in_or_app. by left. Qed.

(** A group that every match sets holds, after a run, a part of the input
    that its body matches. *)
Lemma Run_sets n (P : chars -> Prop) r s s' :
  Run ic r s s' -> sets n r = true ->
  (forall b p w rem, In b (bodies n r) -> Matches ic b p w rem -> P w) ->
  exists w pre post,
    assoc n (caps s') = Some w /\ P w /\ rest s = pre ++ w ++ post.
Proof.
  induction 1 as [s | a s c t Hr Hc | s c t Hr Hc | neg items s c t Hr Hc | s Hp | s Hr
                 | r1 r2 s m s' H1 IH1 H2 IH2 | r1 r2 s s' _ IH | r1 r2 s s' _ IH
                 | mn mx g r s Hstop
                 | mn mx g r s m s' Hmx _ IH1 Hne _ IH2
                 | m r s s1 H1 IH]; simpl; intros Hs HP; try done.
  - apply orb_true_iff in Hs as [Hs | Hs].
    + apply andb_true_iff in Hs as [Hs Hb]. apply negb_true_iff in Hb.
      destruct IH1 as (w & pre & post & Ha & Hw & Hrest); [done| |].
      { intros b p w rem Hin. apply HP, in_or_app. by left. }
      exists w, pre, post. split; [|done]. by rewrite (Run_keeps _ _ _ _ H2 Hb).
    + destruct IH2 as (w & pre & post & Ha & Hw & Hrest); [done| |].
      { intros b p w rem Hin. apply HP, in_or_app. by right. }
      apply Run_Matches in H1 as (w1 & Hr1 & _ & _).
      exists w, (w1 ++ pre), post. split; [done|]. split; [done|].
      by rewrite Hr1, Hrest, <- app_assoc.
  - apply andb_true_iff in Hs as [Hs _]. apply IH; [done|].
    intros b p w rem Hin. apply HP, in_or_app. by left.
  - apply andb_true_iff in Hs as [_ Hs]. apply IH; [done|].
    intros b p w rem Hin. apply HP, in_or_app. by right.
  - destruct (m =? n) eqn:E.
    + apply Run_Matches in H1 as (w & Hr & Hp & Hm).
      exists w, [], (rest s1). simpl.
      replace (pos s1 - pos s) with (length w) by lia.
      rewrite Hr, take_app_length. split; [done|]. split; [|done].
      eapply HP; [|exact Hm]. by left.
    + simpl in Hs. destruct IH as (w & pre & post & Ha & Hw & Hrest); [done| |].
      { intros b p w rem Hin. by apply HP. }
      by exists w, pre, post.
Qed.

End RunTheory.

Section CaptureFacts.
Import Regex RegexSem RegexRun Interpret.

(** What [exec] returns for a group that every match sets. *)
Lemma exec_sets ic r u m n (P : chars -> Prop) :
  exec ic r u = Some m -> sets n r = true ->
  (forall b p w rem, In b (bodies n r) -> Matches ic b p w rem -> P w) ->
  exists w, group m n = Some (str_of w) /\ P w /\ Contains u (str_of w).
Proof.
  unfold exec. destruct (search ic r 0 (chars_of u)) as [[[q l'] z]|] eqn:E; [|done].
  intros [= <-] Hs HP.
  apply search_found in E as (pre0 & Hu & _ & Hm). unfold match_at in Hm.
  apply rmatch_run in Hm as (s' & Hrun & [= <-]).
  destruct (Run_sets ic n P _ _ _ Hrun Hs HP) as (w & pre & post & Ha & Hw & Hrest).
  simpl in Hrest. exists w. unfold group. simpl. rewrite Ha.
  split; [done|]. split; [done|].
  exists (pre0 ++ pre), post. rewrite chars_of_str_of, Hu, Hrest. by rewrite <- app_assoc.
Qed.

Lemma word_class ic c : class_has ic false [CWord] c = true -> Chars.is_word c = true.
Proof.
  destruct ic; [|by unfold class_has; simpl; rewrite !orb_false_r].
  destruct c as [[] [] [] [] [] [] [] []]; by vm_compute.
Qed.

(** [\w+] matches word characters only, and at least one. *)
Lemma word_run ic g mn p w rem :
  Matches ic (Rep mn None g (Cls false [CWord])) p w rem ->
  Forall (fun c => Chars.is_word c = true) w /\ (0 < mn -> w <> []).
Proof.
  remember (Rep mn None g (Cls false [CWord])) as r eqn:Er. intros H. revert mn Er.
  induction H as [ | | | | | | | | | mn' mx g' r p rem Hstop
                 | mn' mx g' r p w1 w2 rem Hmx Hne H1 _ H2 IH2 | ];
    intros mn [= -> -> -> ->].
  - split; [constructor|]. intros Hmn. destruct Hstop; [lia|done].
  - inversion H1; subst. destruct (IH2 _ eq_refl) as [Hw _]. split.
    + constructor; [by eapply word_class|done].
    + done.
Qed.

(** [.+], [.+?] and [.*?] match no line terminator. *)
Lemma dot_run ic g mn p w rem :
  Matches ic (Rep mn None g Dot) p w rem ->
  Forall (fun c => Chars.is_line_terminator c = false) w /\ (0 < mn -> w <> []).
Proof.
  remember (Rep mn None g Dot) as r eqn:Er. intros H. revert mn Er.
  induction H as [ | | | | | | | | | mn' mx g' r p rem Hstop
                 | mn' mx g' r p w1 w2 rem Hmx Hne H1 _ H2 IH2 | ];
    intros mn [= -> -> -> ->].
  - split; [constructor|]. intros Hmn. destruct Hstop; [lia|done].
  - inversion H1; subst. destruct (IH2 _ eq_refl) as [Hw _]. split.
    + by constructor.
    + done.
Qed.

Lemma wordy_str_of w :
  Forall (fun c => Chars.is_word c = true) w -> w <> [] -> wordy (str_of w).
Proof.
  intros Hw Hne. split; [|by rewrite chars_of_str_of].
  intros E. apply Hne. by rewrite <- (chars_of_str_of w), E.
Qed.

(** A pattern whose group [n] is [(\w+)] on its spine captures a name. *)
Lemma imatch_word src u m n :
  imatch src u = Some m -> sets n (re src) = true ->
  bodies n (re src) = [Rep 1 None true (Cls false [CWord])] ->
  wordy (capture m n) /\ Contains u (capture m n).
Proof.
  intros Hm Hs Hb.
  destruct (exec_sets true (re src) u m n
              (fun w => Forall (fun c => Chars.is_word c = true) w /\ w <> []) Hm Hs)
    as (w & Hg & [Hw Hne] & Hc).
  { intros b p w rem Hin HM. rewrite Hb in Hin. destruct Hin as [<- | []].
    apply word_run in HM as [? Hn]. split; [done|]. apply Hn. lia. }
  unfold capture. rewrite Hg. simpl. split; [by apply wordy_str_of|done].
Qed.

Ltac name_of H n :=
  let Hw := fresh "Hw" in
  pose proof (imatch_word _ _ _ n H eq_refl eq_refl) as Hw.

Lemma step_names msg u stepFn a :
  In stepFn steps -> stepFn msg u = Some a ->
  Forall (fun t => wordy t /\ Contains u t) (namesOf (details a)).
Proof.
  intros Hin H. simpl in Hin.
  destruct Hin as [<- | [<- | [<- | [<- | [<- | [<- | [<- | [<- | [<- | [<- | []]]]]]]]]]].
  - unfold insertStep in H. break_step H. simpl. constructor; [|done].
    eapply imatch_word; [done|by vm_compute..].
  - unfold updateStep in H. break_step H. simpl. constructor; [|done].
    eapply imatch_word; [done|by vm_compute..].
  - unfold deleteRowStep in H. break_step H. simpl. constructor; [|done].
    eapply imatch_word; [done|by vm_compute..].
  - unfold createDatabaseStep in H. break_step H. simpl. constructor; [|done].
    eapply imatch_word; [done|by vm_compute..].
  - unfold createTableStep in H. break_step H. simpl.
    destruct (imatch "in\s+(?:database\s+)?(\w+)\s*$" u) as [dm|] eqn:Edb.
    + constructor; [eapply imatch_word; [done|by vm_compute..]|].
      constructor; [|done]. eapply imatch_word; [done|by vm_compute..].
    + constructor; [|done]. eapply imatch_word; [done|by vm_compute..].
  - unfold deleteDatabaseStep in H. break_step H. simpl. constructor; [|done].
    eapply imatch_word; [done|by vm_compute..].
  - unfold showDatabasesStep in H. break_step H. simpl. constructor.
  - unfold deleteTableStep in H. break_step H. simpl. constructor; [|done].
    eapply imatch_word; [done|by vm_compute..].
  - unfold showTableStep in H. break_step H. simpl. constructor; [|done].
    eapply imatch_word; [done|by vm_compute..].
  - unfold showTablesStep in H. break_step H. simpl. constructor.
Qed.

End CaptureFacts.

(** X4. Every table name and database name the interpreter hands on is a
    non-empty run of word characters (letters, digits, underscore) that occurs
    in the utterance. *)
Theorem interpreted_names_are_words (u : string) :
  Forall (fun t => wordy t /\ Contains u t) (namesOf (details (interpret u))).
Proof.
  unfold interpret, processNaturalLanguageCommand.
  destruct (firstGreeting (Str.trim u)); [constructor|].
  destruct (firstOf_spec steps (Str.trim (Str.toLowerCase u)) u)
    as [(before & f & after & Hl & _ & Hf) | [_ ->]]; [|constructor].
  eapply step_names; [|exact Hf]. rewrite Hl. apply in_or_app. right. by left.
Qed.

(* ===================================================================== *)
(** * Splitting and trimming *)
(* ===================================================================== *)

Section SplitTrimFacts.

Lemma drop_space_split l :
  exists sp, l = sp ++ Str.drop_space l /\ Forall (fun c => Chars.is_space c = true) sp.
Proof.
  induction l as [|c l (sp & Hl & Hsp)]; simpl; [by exists []|].
  destruct (Chars.is_space c) eqn:E.
  - exists (c :: sp). simpl. split; [by f_equal|by constructor].
  - by exists [].
Qed.

Lemma drop_space_head l c t : Str.drop_space l = c :: t -> Chars.is_space c = false.
Proof.
  induction l as [|d l IH]; simpl; [done|].
  destruct (Chars.is_space d) eqn:E; [done|]. by intros [= <- <-].
Qed.

Lemma drop_space_fixed c t : Chars.is_space c = false -> Str.drop_space (c :: t) = c :: t.
Proof. intros E. simpl. by rewrite E. Qed.

Lemma drop_space_idem l : Str.drop_space (Str.drop_space l) = Str.drop_space l.
Proof.
  destruct (Str.drop_space l) as [|c t] eqn:E; [done|].
  apply drop_space_fixed. by eapply drop_space_head.
Qed.

Lemma Forall_drop_space (P : ascii -> Prop) l : Forall P l -> Forall P (Str.drop_space l).
Proof.
  intros H. destruct (drop_space_split l) as (sp & Hl & _). rewrite Hl in H.
  by apply Forall_app in H as [_ H].
Qed.

(** Trimming keeps a part of the text. *)
Lemma trim_Forall (P : ascii -> Prop) s :
  Forall P (chars_of s) -> Forall P (chars_of (Str.trim s)).
Proof.
  intros H. unfold Str.trim. rewrite chars_of_str_of.
  apply Forall_rev, Forall_drop_space, Forall_rev. by apply Forall_drop_space.
Qed.

Lemma trim_chars s :
  exists a b, chars_of s = a ++ chars_of (Str.trim s) ++ b.
Proof.
  unfold Str.trim. rewrite chars_of_str_of.
  destruct (drop_space_split (chars_of s)) as (sp & Hl & _).
  destruct (drop_space_split (rev (Str.drop_space (chars_of s)))) as (sp' & Hl' & _).
  exists sp, (rev sp'). rewrite Hl at 1. f_equal.
  rewrite <- (rev_involutive (Str.drop_space (chars_of s))) at 1.
  rewrite Hl' at 1. by rewrite rev_app_distr.
Qed.

(** What is trimmed has no white space at either end: trimming it again
    changes nothing. *)
Lemma trim_idem s : Str.trim (Str.trim s) = Str.trim s.
Proof.
  unfold Str.trim. rewrite chars_of_str_of. f_equal.
  set (a := Str.drop_space (chars_of s)).
  set (d := Str.drop_space (rev a)).
  assert (Hb : Str.drop_space (rev d) = rev d).
  { destruct (drop_space_split (rev a)) as (sp & Hl & _). fold d in Hl.
    destruct (rev d) as [|c t] eqn:E; [done|]. apply drop_space_fixed.
    assert (Ha : a = rev d ++ rev sp).
    { rewrite <- (rev_involutive a), Hl. by rewrite rev_app_distr. }
    rewrite E in Ha. simpl in Ha.
    unfold a in Ha. by eapply drop_space_head. }
  rewrite Hb, rev_involutive. unfold d. by rewrite drop_space_idem.
Qed.

Lemma split_on_pieces sep cur l :
  ~ In sep cur ->
  Forall (fun piece => ~ In sep (chars_of piece)) (Str.split_on sep cur l).
Proof.
  revert cur. induction l as [|c l IH]; intros cur Hc; simpl.
  - constructor; [|done]. rewrite chars_of_str_of. by rewrite <- in_rev.
  - destruct (Chars.eqb c sep) eqn:E.
    + constructor; [|apply IH; by intros []]. rewrite chars_of_str_of. by rewrite <- in_rev.
    + apply IH. intros [<- | H]; [|done]. unfold Chars.eqb in E.
      by rewrite Ascii.eqb_refl in E.
Qed.

(** No piece of a split holds the separator, and there is always a piece. *)
Lemma split_pieces s sep :
  Str.split s sep <> [] /\
  Forall (fun piece => ~ In sep (chars_of piece)) (Str.split s sep).
Proof.
  split; [|apply split_on_pieces; by intros []].
  unfold Str.split. generalize (@nil ascii). induction (chars_of s) as [|c l IH];
    intros cur; simpl; [done|]. destruct (Chars.eqb c sep); [done|apply IH].
Qed.

Lemma split_on_Forall (P : ascii -> Prop) sep cur l :
  Forall P cur -> Forall P l ->
  Forall (fun piece => Forall P (chars_of piece)) (Str.split_on sep cur l).
Proof.
  revert cur. induction l as [|c l IH]; intros cur Hc Hl; simpl.
  - constructor; [|done]. rewrite chars_of_str_of. by apply Forall_rev.
  - inversion Hl; subst. destruct (Chars.eqb c sep).
    + constructor; [|by apply IH]. rewrite chars_of_str_of. by apply Forall_rev.
    + apply IH; [by constructor|done].
Qed.

End SplitTrimFacts.

Section ValuesFacts.
Import Regex RegexSem RegexRun Interpret.

Lemma insertStep_inv msg u a :
  insertStep msg u = Some a ->
  exists t tail,
    a = Act "insert_row" (DValues t (map Str.trim (Str.split tail ","))) /\
    tail <> EmptyString /\ Contains u tail /\
    Forall (fun c => Chars.is_line_terminator c = false) (chars_of tail).
Proof.
  unfold insertStep. intros H. break_step H.
  match goal with E : imatch ?src u = Some ?m |- _ =>
    destruct (exec_sets true (re src) u m 2
                (fun w => Forall (fun c => Chars.is_line_terminator c = false) w /\ w <> [])
                E) as (w & Hg & [Hw Hne] & Hc)
  end; [by vm_compute| |].
  { intros b p w rem Hin HM. vm_compute in Hin. destruct Hin as [<- | []].
    apply dot_run in HM as [? Hn]. split; [done|]. apply Hn. lia. }
  eexists _, (str_of w). split; [|split; [|split]].
  - unfold capture at 2. by rewrite Hg.
  - intros E. apply Hne. by rewrite <- (chars_of_str_of w), E.
  - done.
  - by rewrite chars_of_str_of.
Qed.

End ValuesFacts.

(** X5. The values of an [insert_row] are the comma-separated pieces of the
    rest of the command line, each trimmed: there is at least one, none holds
    a comma or a line terminator, and none starts or ends with white space
    (trimming it again changes nothing). *)
Theorem insert_values_are_trimmed_pieces (u t : string) (vs : list string) :
  interpret u = Act "insert_row" (DValues t vs) ->
  vs <> [] /\
  (exists tail, tail <> EmptyString /\ Contains u tail /\
                vs = map Str.trim (Str.split tail ",")) /\
  Forall (fun v => Str.trim v = v /\
                   Forall (fun c => c <> ","%char /\ Chars.is_line_terminator c = false)
                     (chars_of v)) vs.
Proof.
  intros H. unfold interpret, processNaturalLanguageCommand in H.
  destruct (firstGreeting (Str.trim u)); [done|].
  assert (Ha : action (firstOf steps (Str.trim (Str.toLowerCase u)) u) = "insert_row")
    by (by rewrite H).
  eapply (firstOf_returned _ _ 0) in Ha as [Hf _]; [|done..].
  apply insertStep_inv in Hf as (t' & tail & Hf & Hne & Hc & Hlt).
  rewrite H in Hf. injection Hf as -> ->.
  destruct (split_pieces tail ","%char) as [Hp1 Hp2].
  split; [by destruct (Str.split tail ",")|].
  split; [by exists tail|].
  apply Forall_map.
  pose proof (split_on_Forall (fun c => Chars.is_line_terminator c = false) ","%char []
                (chars_of tail) (List.Forall_nil _) Hlt) as Hp3.
  fold (Str.split tail ",") in Hp3.
  rewrite List.Forall_forall in Hp2, Hp3. apply List.Forall_forall. intros piece Hin.
  split; [apply trim_idem|].
  apply trim_Forall. apply List.Forall_forall. intros c Hc'. split.
  - intros ->. by apply (Hp2 piece Hin).
  - specialize (Hp3 piece Hin). rewrite List.Forall_forall in Hp3. by apply Hp3.
Qed.

(** X5 at an utterance with three values. *)
Lemma insert_values_are_trimmed_pieces_witness :
  ["101"; "Asha"; "asha@gmail.com"] <> [] /\
  Forall (fun v => Str.trim v = v /\
                   Forall (fun c => c <> ","%char /\ Chars.is_line_terminator c = false)
                     (chars_of v)) ["101"; "Asha"; "asha@gmail.com"].
Proof.
  destruct (insert_values_are_trimmed_pieces
              "insert into student values 101, Asha , asha@gmail.com" "student"
              ["101"; "Asha"; "asha@gmail.com"]) as (H1 & _ & H2); [by vm_compute|].
  by split.
Defined.

(* ===================================================================== *)
(** * Tables of a text document *)
(* ===================================================================== *)

Section DocumentFacts.
Import Document.

Lemma includes_char s c :
  Str.includes s (String c EmptyString) = true <-> In c (chars_of s).
Proof.
  rewrite includes_spec. unfold Contains. simpl. split.
  - intros (pre & post & ->). apply in_or_app. right. by left.
  - intros H. apply in_split in H as (pre & post & ->). by exists pre, post.
Qed.

Lemma not_includes_char s c :
  Str.includes s (String c EmptyString) = false <-> ~ In c (chars_of s).
Proof. rewrite <- includes_char. by destruct (Str.includes _ _). Qed.

Lemma tables_docLine st line :
  exists more, tables (docLine st line) = tables st ++ more.
Proof.
  unfold docLine.
  repeat match goal with
         | |- context [if ?e then _ else _] => destruct e
         | |- context [match ?e with _ => _ end] => destruct e
         end; simpl; try (by exists []; rewrite app_nil_r); by eexists.
Qed.

Lemma tables_fold lines st :
  exists more, tables (fold_left docLine lines st) = tables st ++ more.
Proof.
  revert st. induction lines as [|l lines IH]; intros st; simpl.
  - exists []. by rewrite app_nil_r.
  - destruct (IH (docLine st l)) as (m2 & ->).
    destruct (tables_docLine st l) as (m1 & ->). exists (m1 ++ m2). by rewrite app_assoc.
Qed.

Lemma docLine_inv st line : docInv st -> docInv (docLine st line).
Proof.
  intros H. pose proof H as [Ht Hc]. unfold docLine.
  destruct (Str.includes (Str.trim line) "|" && Str.includes (Str.trim line) "-").
  - destruct (currentTable st) as [ct|] eqn:Ect; [|exact H].
    destruct (0 <? length (headerRow st)) eqn:Eh; [|exact H].
    destruct (Hc ct eq_refl) as [Hn _]. split; simpl; [|done].
    intros i t Hi. apply lookup_app_Some in Hi as [Hi | [Hlen Hi]]; [by apply Ht|].
    apply list_lookup_singleton_Some in Hi as [Hi <-]. simpl.
    assert (i = length (tables st)) as -> by lia. split; [done|].
    apply Nat.ltb_lt in Eh. destruct (headerRow st); [simpl in Eh; lia|done].
  - destruct (Str.includes (Str.trim line) "|"); [|exact H].
    destruct ((length (headerRow st) =? 0) && (0 <? length (cellsOf (Str.trim line)))) eqn:E.
    + apply andb_true_iff in E as [_ E]. apply Nat.ltb_lt in E.
      split; simpl; [done|]. intros ct [= <-]. simpl. split; [done|].
      destruct (cellsOf (Str.trim line)); [simpl in E; lia|done].
    + destruct (currentTable st) as [ct|] eqn:Ect; [|exact H].
      destruct (0 <? length (cellsOf (Str.trim line))); [|exact H].
      split; simpl; [done|]. intros ct' [= <-]. simpl. by apply Hc.
Qed.

Lemma docFold_inv lines st : docInv st -> docInv (fold_left docLine lines st).
Proof.
  revert st. induction lines as [|l lines IH]; intros st H; [done|].
  simpl. by apply IH, docLine_inv.
Qed.

(** A line without a bar changes nothing. *)
Lemma docLine_no_bar st line :
  ~ In "|"%char (chars_of line) -> docLine st line = st.
Proof.
  intros H. unfold docLine.
  assert (E : Str.includes (Str.trim line) "|" = false).
  { apply not_includes_char. intros Hin. apply H.
    destruct (trim_chars line) as (a & b & ->). apply in_or_app. right.
    apply in_or_app. by left. }
  by rewrite E.
Qed.

Lemma cellsOf_plain line :
  Str.includes line "-" = false ->
  Forall (fun c => c <> EmptyString /\ plain c) (cellsOf line).
Proof.
  intros Hd. apply not_includes_char in Hd. unfold cellsOf.
  apply List.Forall_forall. intros c Hc. apply filter_In in Hc as [Hc Hne].
  split; [by destruct c|].
  apply in_map_iff in Hc as (piece & <- & Hp). apply trim_Forall.
  destruct (split_pieces line "|"%char) as [_ Hbar].
  pose proof (split_on_Forall (fun c => c <> "-"%char) "|"%char [] (chars_of line)
                (List.Forall_nil _)) as Hdash.
  fold (Str.split line "|") in Hdash.
  assert (Hall : Forall (fun c => c <> "-"%char) (chars_of line)).
  { apply List.Forall_forall. by intros y Hy ->. }
  specialize (Hdash Hall).
  rewrite List.Forall_forall in Hbar, Hdash. apply List.Forall_forall. intros x Hx. split.
  - intros ->. by apply (Hbar piece Hp).
  - specialize (Hdash piece Hp). rewrite List.Forall_forall in Hdash. by apply Hdash.
Qed.

Lemma underscored_plain c : plain c -> plain (Extract.underscored c).
Proof.
  intros H. unfold Extract.underscored. apply replace_all_Forall.
  - repeat constructor; done.
  - unfold Str.toLowerCase. rewrite chars_of_str_of. apply List.Forall_forall.
    intros x Hx. apply in_map_iff in Hx as (y & <- & Hy).
    unfold plain in H. rewrite List.Forall_forall in H. specialize (H y Hy).
    revert H. clear. destruct y as [[] [] [] [] [] [] [] []]; vm_compute; intuition congruence.
Qed.

Lemma rowOf_plain header cells :
  Forall (fun c => c <> EmptyString /\ plain c) cells ->
  map_Forall (fun _ v => v <> EmptyString /\ plain v) (rowOf header cells).
Proof.
  intros Hc. unfold rowOf.
  assert (Hpairs : Forall (fun ic => ic.2 <> EmptyString /\ plain ic.2)
                     (imap (fun idx cell => (idx, cell)) cells)).
  { apply Forall_lookup. intros i [j c] Hi.
    apply list_lookup_imap_Some in Hi as (c' & Hc' & [= -> ->]). simpl.
    by eapply (proj1 (Forall_lookup _ _) Hc). }
  revert Hpairs. generalize (imap (fun idx cell => (idx, cell)) cells).
  assert (H0 : map_Forall (fun _ v => v <> EmptyString /\ plain v)
                 (∅ : gmap string string)) by apply map_Forall_empty.
  revert H0. generalize (∅ : gmap string string).
  intros row Hrow l. revert row Hrow. induction l as [|[i c] l IH]; intros row Hrow Hl; [done|].
  simpl. inversion Hl; subst. apply IH; [|done].
  destruct (header !! i) as [h|]; [|done].
  destruct (Str.is_empty h); [done|]. unfold assign.
  destruct (Str.eqb _ _); [done|]. by apply map_Forall_insert_2.
Qed.

Lemma plain_docLine st line : plainInv st -> plainInv (docLine st line).
Proof.
  intros H. pose proof H as (Ht & Hc & Hh). unfold docLine.
  destruct (Str.includes (Str.trim line) "|" && Str.includes (Str.trim line) "-") eqn:E1.
  - destruct (currentTable st) as [ct|] eqn:Ect; [|exact H].
    destruct (0 <? length (headerRow st)); [|exact H].
    destruct (Hc ct eq_refl) as [_ Hrows].
    split; simpl; [|by split]. apply Forall_app. split; [done|].
    constructor; [|done]. split; simpl; [|done].
    apply List.Forall_forall. intros c Hin. apply in_map_iff in Hin as (h & <- & Hin).
    simpl. apply trim_Forall. rewrite List.Forall_forall in Hh. by apply Hh.
  - destruct (Str.includes (Str.trim line) "|") eqn:E2; [|exact H].
    simpl in E1. pose proof (cellsOf_plain _ E1) as Hcells.
    destruct ((length (headerRow st) =? 0) && (0 <? length (cellsOf (Str.trim line)))).
    + split; simpl; [done|]. split.
      * intros ct [= <-]. split; simpl; [|done].
        apply List.Forall_forall. intros c Hin.
        apply in_map_iff in Hin as (h & <- & Hin). simpl. apply underscored_plain.
        rewrite List.Forall_forall in Hcells. by apply Hcells.
      * eapply Forall_impl; [exact Hcells|]. by intros c [_ ?].
    + destruct (currentTable st) as [ct|] eqn:Ect; [|exact H].
      destruct (0 <? length (cellsOf (Str.trim line))); [|exact H].
      destruct (Hc ct eq_refl) as [Hcols Hrows].
      split; simpl; [done|]. split; [|done]. intros ct' [= <-]. split; simpl; [done|].
      apply Forall_app. split; [done|]. constructor; [|done]. by apply rowOf_plain.
Qed.

Lemma plain_fold lines st : plainInv st -> plainInv (fold_left docLine lines st).
Proof.
  revert st. induction lines as [|l lines IH]; intros st H; [done|].
  simpl. by apply IH, plain_docLine.
Qed.

End DocumentFacts.

Section DocumentShape.
Import Document.

Lemma split_on_app sep cur a b :
  ~ In sep a ->
  Str.split_on sep cur (a ++ sep :: b) = str_of (rev cur ++ a) :: Str.split_on sep [] b.
Proof.
  revert cur. induction a as [|c a IH]; intros cur Ha; simpl.
  - unfold Chars.eqb. rewrite Ascii.eqb_refl. by rewrite app_nil_r.
  - destruct (Chars.eqb c sep) eqn:E.
    + unfold Chars.eqb in E. apply Ascii.eqb_eq in E. exfalso. apply Ha. by left.
    + rewrite IH by (intros H; apply Ha; by right). simpl. by rewrite <- app_assoc.
Qed.

(** The lines of a text that starts with a line. *)
Lemma split_line a b :
  ~ In (ascii_of_nat 10) (chars_of a) ->
  Str.split (a +:+ Str.LF +:+ b) (ascii_of_nat 10) = a :: Str.split b (ascii_of_nat 10).
Proof.
  intros Ha. unfold Str.split. rewrite !chars_of_app.
  change (chars_of Str.LF) with [ascii_of_nat 10]. simpl.
  rewrite split_on_app by done. simpl. by rewrite str_of_chars_of.
Qed.

Lemma cellsOf_trimmed line c : In c (cellsOf line) -> Str.trim c = c.
Proof.
  unfold cellsOf. intros H. apply filter_In in H as [H _].
  apply in_map_iff in H as (piece & <- & _). apply trim_idem.
Qed.

Lemma fold_no_bar lines st :
  Forall (fun l => ~ In "|"%char (chars_of l)) lines -> fold_left docLine lines st = st.
Proof.
  revert st. induction lines as [|l lines IH]; intros st H; [done|].
  inversion H; subst. simpl. rewrite docLine_no_bar by done. by apply IH.
Qed.

End DocumentShape.

(** X6. The tables found in a text document are numbered in the order they
    are found: the [i]-th (from 0) is named [table_<i+1>], and each has a
    column at least. A text without a vertical bar gives no table. *)
Theorem document_tables_numbered (text : string) :
  (forall i t,
     Document.extractTablesFromDocument text !! i = Some t ->
     Document.name t = "table_" +:+ pretty (i + 1) /\ Document.columns t <> []) /\
  (~ In "|"%char (chars_of text) -> Document.extractTablesFromDocument text = []).
Proof.
  unfold Document.extractTablesFromDocument. split.
  - intros i t.
    pose proof (docFold_inv (Str.split text (ascii_of_nat 10)) (Document.State [] None []))
      as [Ht Hc].
    { split; [by intros ? ? [=]|by intros ? [=]]. }
    destruct (fold_left Document.docLine _ _) as [ts ct hr]. simpl in *.
    destruct ct as [ct|]; [|apply Ht].
    intros Hi. apply lookup_app_Some in Hi as [Hi | [Hlen Hi]]; [by apply Ht|].
    apply list_lookup_singleton_Some in Hi as [Hi <-].
    assert (i = length ts) as -> by lia. by apply Hc.
  - intros Hbar. rewrite fold_no_bar; [done|].
    pose proof (split_on_Forall (fun c => c <> "|"%char) (ascii_of_nat 10) []
                  (chars_of text) (List.Forall_nil _)) as H.
    fold (Str.split text (ascii_of_nat 10)) in H.
    eapply Forall_impl; [apply H|].
    + apply List.Forall_forall. by intros c Hc ->.
    + intros l Hl Hin. rewrite List.Forall_forall in Hl. by apply (Hl _ Hin).
Qed.

(** X7. No column name and no cell of a table found in a text document holds
    a vertical bar or a hyphen, and no cell is empty: a line that holds a
    hyphen (a date, a negative number) is never stored as a row. *)
Theorem document_cells_plain (text : string) :
  Forall plainTable (Document.extractTablesFromDocument text).
Proof.
  unfold Document.extractTablesFromDocument.
  pose proof (plain_fold (Str.split text (ascii_of_nat 10)) (Document.State [] None []))
    as (Ht & Hc & _).
  { split; [constructor|]. split; [by intros ? [=]|constructor]. }
  destruct (fold_left Document.docLine _ _) as [ts ct hr]. simpl in *.
  destruct ct as [ct|]; [|done]. apply Forall_app. split; [done|].
  constructor; [by apply Hc|done].
Qed.

(** X8. In a Markdown table, the rows never reach the table of the header.
    When a header line (it holds a bar, no hyphen, and a cell at least) is
    followed by a separator line (it holds a bar and a hyphen), the first
    table found is [table_1] with the cells of the header, as they are
    written, as its columns, and with no row, whatever follows. *)
Theorem markdown_header_table_has_no_rows (header separator rest : string) :
  ~ In (ascii_of_nat 10) (chars_of header) ->
  ~ In (ascii_of_nat 10) (chars_of separator) ->
  Str.includes (Str.trim header) "|" = true ->
  Str.includes (Str.trim header) "-" = false ->
  Document.cellsOf (Str.trim header) <> [] ->
  Str.includes (Str.trim separator) "|" = true ->
  Str.includes (Str.trim separator) "-" = true ->
  Document.extractTablesFromDocument
    (header +:+ Str.LF +:+ separator +:+ Str.LF +:+ rest) !! 0 =
  Some (Document.Table "table_1"
          (map (fun c => Column c "text") (Document.cellsOf (Str.trim header))) []).
Proof.
  intros Hh Hs Hbar Hdash Hcells Hsbar Hsdash.
  unfold Document.extractTablesFromDocument.
  rewrite split_line by done. rewrite split_line by done. cbn [fold_left].
  set (st1 := Document.docLine (Document.State [] None []) header).
  assert (E1 : st1 = Document.State [] 
                 (Some (Document.Table "table_1"
                          (map (fun c => Column (Extract.underscored c) "text")
                             (Document.cellsOf (Str.trim header))) []))
                 (Document.cellsOf (Str.trim header))).
  { unfold st1, Document.docLine. rewrite Hbar, Hdash. simpl.
    destruct (Document.cellsOf (Str.trim header)); [done|]. reflexivity. }
  set (st2 := Document.docLine st1 separator).
  assert (E2 : st2 = Document.State
                 [Document.Table "table_1"
                    (map (fun c => Column c "text") (Document.cellsOf (Str.trim header))) []]
                 None []).
  { unfold st2. rewrite E1. unfold Document.docLine. rewrite Hsbar, Hsdash. simpl.
    assert (Hlen : (0 <? length (Document.cellsOf (Str.trim header))) = true).
    { apply Nat.ltb_lt. destruct (Document.cellsOf (Str.trim header)); [done|simpl; lia]. }
    rewrite Hlen. do 2 f_equal. f_equal. apply map_ext_in. intros c Hc. f_equal.
    by eapply cellsOf_trimmed. }
  destruct (tables_fold (Str.split rest (ascii_of_nat 10)) st2) as (more & Hm).
  destruct (fold_left Document.docLine _ st2) as [ts ct hr]. simpl in Hm.
  rewrite E2 in Hm. simpl in Hm. subst ts. simpl. by destruct ct.
Qed.

(** X8 at a table with one row. *)
Lemma markdown_header_table_has_no_rows_witness :
  Document.extractTablesFromDocument
    ("| Name | Age |" +:+ Str.LF +:+ "|------|-----|" +:+ Str.LF +:+ "| Bob | 12 |") !! 0 =
  Some (Document.Table "table_1" [Column "Name" "text"; Column "Age" "text"] []).
Proof.
  apply (markdown_header_table_has_no_rows "| Name | Age |" "|------|-----|" "| Bob | 12 |");
    try (by vm_compute); vm_compute; intuition discriminate.
Defined.

(* ===================================================================== *)
(** * Joining and splitting back *)
(* ===================================================================== *)

Section JoinSplitFacts.

Lemma chars_of_join sep x y l :
  chars_of (Str.join sep (x :: y :: l)) =
  chars_of x ++ chars_of sep ++ chars_of (Str.join sep (y :: l)).
Proof. cbn [Str.join]. by rewrite !chars_of_app. Qed.

Lemma join_Forall (P : ascii -> Prop) sep l :
  Forall P (chars_of sep) -> Forall (fun x => Forall P (chars_of x)) l ->
  Forall P (chars_of (Str.join sep l)).
Proof.
  intros Hsep. induction l as [|x l IH]; intros Hl; [constructor|].
  inversion Hl; subst. destruct l as [|y l]; [done|].
  rewrite chars_of_join. apply Forall_app. split; [done|]. apply Forall_app. split; [done|].
  by apply IH.
Qed.

Lemma split_on_whole sep cur a :
  ~ In sep a -> Str.split_on sep cur a = [str_of (rev cur ++ a)].
Proof.
  revert cur. induction a as [|c a IH]; intros cur Ha; simpl.
  - by rewrite app_nil_r.
  - destruct (Chars.eqb c sep) eqn:E.
    + unfold Chars.eqb in E. apply Ascii.eqb_eq in E. exfalso. apply Ha. by left.
    + rewrite IH by (intros H; apply Ha; by right). simpl. by rewrite <- app_assoc.
Qed.

(** Splitting at a character what was joined with it gives the pieces
    back, when no piece holds the character. *)
Lemma split_join c l :
  l <> [] -> Forall (fun x => ~ In c (chars_of x)) l ->
  Str.split (Str.join (String c EmptyString) l) c = l.
Proof.
  unfold Str.split. induction l as [|x l IH]; [done|]. intros _ Hl.
  inversion Hl; subst. destruct l as [|y l].
  - simpl. rewrite split_on_whole by done. simpl. by rewrite str_of_chars_of.
  - rewrite chars_of_join. simpl. rewrite split_on_app by done. simpl.
    rewrite str_of_chars_of. f_equal. by apply IH.
Qed.

Lemma drop_space_spaces sp l :
  Forall (fun c => Chars.is_space c = true) sp ->
  Str.drop_space (sp ++ l) = Str.drop_space l.
Proof.
  induction sp as [|c sp IH]; intros H; [done|]. inversion H; subst. simpl.
  rewrite H2. by apply IH.
Qed.

Lemma drop_space_snoc l c :
  Chars.is_space c = true ->
  Str.drop_space (l ++ [c]) =
  match Str.drop_space l with
  | [] => []
  | d => d ++ [c]
  end.
Proof.
  intros Hc. induction l as [|a l IH]; simpl; [by rewrite Hc|].
  destruct (Chars.is_space a); [done|done].
Qed.

(** White space around a text does not change what trimming leaves. *)
Lemma trim_padded sp l c :
  Forall (fun c => Chars.is_space c = true) sp -> Chars.is_space c = true ->
  Str.trim (str_of (sp ++ l ++ [c])) = Str.trim (str_of l).
Proof.
  intros Hsp Hc. unfold Str.trim. rewrite !chars_of_str_of. f_equal. f_equal.
  rewrite drop_space_spaces by done. rewrite drop_space_snoc by done.
  destruct (Str.drop_space l) as [|d t] eqn:E; [done|].
  rewrite rev_app_distr. simpl. by rewrite Hc.
Qed.

Lemma trim_led sp l :
  Forall (fun c => Chars.is_space c = true) sp ->
  Str.trim (str_of (sp ++ l)) = Str.trim (str_of l).
Proof.
  intros Hsp. unfold Str.trim. rewrite !chars_of_str_of.
  by rewrite drop_space_spaces.
Qed.

Lemma split_bar_join_led sp l :
  l <> [] -> Forall (fun x => ~ In "|"%char (chars_of x)) l ->
  Forall (fun c => Chars.is_space c = true) sp ->
  map Str.trim (Str.split_on "|" [] (sp ++ chars_of (Str.join " | " l))) = map Str.trim l.
Proof.
  revert sp. induction l as [|x l IH]; [done|]. intros sp _ Hl Hsp.
  inversion Hl; subst.
  assert (Hbar : ~ In "|"%char sp).
  { intros Hin. rewrite List.Forall_forall in Hsp. by specialize (Hsp _ Hin). }
  destruct l as [|y l].
  - simpl. rewrite split_on_whole.
    + simpl. by rewrite trim_led, str_of_chars_of.
    + intros Hin. apply in_app_or in Hin as [?|?]; done.
  - rewrite chars_of_join.
    change (chars_of " | ") with ([" "%char] ++ "|"%char :: [" "%char]).
    replace (sp ++ chars_of x ++ ([" "%char] ++ "|"%char :: [" "%char])
               ++ chars_of (Str.join " | " (y :: l)))
      with ((sp ++ chars_of x ++ [" "%char]) ++ "|"%char
              :: ([" "%char] ++ chars_of (Str.join " | " (y :: l))))
      by (by rewrite <- !app_assoc).
    rewrite split_on_app.
    + cbn [map rev app]. rewrite trim_padded by done. rewrite str_of_chars_of. f_equal.
      apply (IH [" "%char]); [done|done|by repeat constructor].
    + intros Hin. apply in_app_or in Hin as [?|Hin]; [done|].
      apply in_app_or in Hin as [?|[?|[]]]; done.
Qed.

(** The cells of a line of a rendered table, read back and trimmed. *)
Lemma split_bar_join l :
  l <> [] -> Forall (fun x => ~ In "|"%char (chars_of x)) l ->
  map Str.trim (Str.split (Str.join " | " l) "|") = map Str.trim l.
Proof. intros Hne Hl. by apply (split_bar_join_led [] l). Qed.

End JoinSplitFacts.

(* ===================================================================== *)
(** * The chat page against the formatter *)
(* ===================================================================== *)

Section ChatFacts.
Import Chat.

Lemma show_table_lines d tbl rws :
  format "show_table" d (Some (ExecResult (Some tbl) (Some rws))) =
  Str.join (String (ascii_of_nat 10) EmptyString) (renderedLines tbl rws).
Proof.
  unfold format, generateChatResponse, renderedLines. simpl.
  destruct rws as [|r rest]; cbn [length Nat.eqb app map];
    rewrite !append_assoc; reflexivity.
Qed.

Lemma noLF_join sep l :
  ~ In (ascii_of_nat 10) (chars_of sep) ->
  Forall (fun x => ~ In (ascii_of_nat 10) (chars_of x)) l ->
  ~ In (ascii_of_nat 10) (chars_of (Str.join sep l)).
Proof.
  intros Hsep Hl Hin.
  assert (H : Forall (fun c => c <> ascii_of_nat 10) (chars_of (Str.join sep l))).
  { apply join_Forall.
    - apply List.Forall_forall. by intros c Hc ->.
    - eapply Forall_impl; [exact Hl|]. intros x Hx. apply List.Forall_forall.
      by intros c Hc ->. }
  rewrite List.Forall_forall in H. by apply (H _ Hin).
Qed.

Lemma cellSafe_noLF s : cellSafe s -> ~ In (ascii_of_nat 10) (chars_of s).
Proof.
  unfold cellSafe. rewrite List.Forall_forall. intros H Hin. by destruct (H _ Hin).
Qed.

Lemma cellSafe_noBar s : cellSafe s -> ~ In "|"%char (chars_of s).
Proof.
  unfold cellSafe. rewrite List.Forall_forall. intros H Hin. by destruct (H _ Hin).
Qed.

Lemma remove_first_prefix p l : remove_first p (p ++ l) = l.
Proof.
  destruct (p ++ l) as [|c t] eqn:E; simpl.
  - apply app_eq_nil in E as [-> ->]. done.
  - rewrite <- E.
    assert (Hs : Str.starts_with p (p ++ l) = true) by (apply starts_with_spec; eauto).
    rewrite Hs. by rewrite drop_app_length.
Qed.

Lemma title_read name :
  Str.trim (replace_first (TABLE_TITLE +:+ name) MARK) = Str.trim name.
Proof.
  unfold replace_first. rewrite chars_of_app.
  change (chars_of TABLE_TITLE) with (chars_of MARK ++ [" "%char]).
  rewrite <- app_assoc, remove_first_prefix. simpl.
  rewrite <- (str_of_chars_of name) at 2.
  by apply (trim_led [" "%char]); repeat constructor.
Qed.

Lemma title_marked name : Str.includes (TABLE_TITLE +:+ name) MARK = true.
Proof.
  apply includes_spec. exists [], (" "%char :: chars_of name).
  rewrite chars_of_app. change (chars_of TABLE_TITLE) with (chars_of MARK ++ [" "%char]).
  by rewrite <- app_assoc.
Qed.

Lemma map_filter_map {A B C} (f : B -> C) (p : B -> bool) (g : A -> B) (l : list A) :
  map f (List.filter p (map g l)) = map (fun x => f (g x)) (List.filter (fun x => p (g x)) l).
Proof.
  induction l as [|x l IH]; [done|]. simpl. destruct (p (g x)); simpl; by rewrite IH.
Qed.

End ChatFacts.

(** X9. The chat page reads back what the formatter rendered. For a table
    with a column at least, when neither the table name nor a column name
    nor a cell holds a line feed or a vertical bar, [parseTableContent]
    returns the trimmed table name as title, the trimmed column names as
    headers, and the trimmed cells of each row; a row whose line is blank or
    holds three hyphens in a row is left out; a table without rows comes back
    with the single row [(no rows)]. *)
Theorem chat_page_reads_rendered_table
    (d : Details) (tbl : table_info) (cols : list column) (rws : list row) :
  t_columns tbl = Some cols -> cols <> [] ->
  ~ In (ascii_of_nat 10) (chars_of (t_name tbl)) ->
  Forall (fun c => cellSafe (c_name c)) cols ->
  Forall (fun r => Forall (fun c => cellSafe (cellText r c)) cols) rws ->
  Chat.parseTableContent (format "show_table" d (Some (ExecResult (Some tbl) (Some rws)))) =
  Some (Chat.Content (Str.trim (t_name tbl))
          (map (fun c => Str.trim (c_name c)) cols)
          (match rws with
           | [] => [["(no rows)"]]
           | _ => map (fun r => map (fun c => Str.trim (cellText r c)) cols)
                    (List.filter (fun r => Chat.isDataLine (rowLine cols r)) rws)
           end)).
Proof.
  intros Hcols Hne Hname Hsafe Hcells.
  rewrite show_table_lines. unfold renderedLines. rewrite Hcols. simpl default.
  set (header := Str.join " | " (map c_name cols)).
  set (separator := Str.join "-+-" (map (fun _ => "---") cols)).
  set (body := match rws with [] => ["(no rows)"] | _ => map (rowLine cols) rws end).
  assert (Hheader : ~ In (ascii_of_nat 10) (chars_of header)).
  { apply noLF_join; [vm_compute; intuition discriminate|].
    apply List.Forall_forall. intros x Hx. apply in_map_iff in Hx as (c & <- & Hc).
    rewrite List.Forall_forall in Hsafe. by apply cellSafe_noLF, Hsafe. }
  assert (Hsep : ~ In (ascii_of_nat 10) (chars_of separator)).
  { apply noLF_join; [vm_compute; intuition discriminate|].
    apply List.Forall_forall. intros x Hx. apply in_map_iff in Hx as (c & <- & Hc).
    vm_compute; intuition discriminate. }
  assert (Hbody : Forall (fun x => ~ In (ascii_of_nat 10) (chars_of x)) body).
  { unfold body. destruct rws as [|r rest].
    - constructor; [vm_compute; intuition discriminate|constructor].
    - apply List.Forall_forall. intros x Hx. apply in_map_iff in Hx as (r' & <- & Hr).
      apply noLF_join; [vm_compute; intuition discriminate|].
      apply List.Forall_forall. intros y Hy. apply in_map_iff in Hy as (c & <- & Hc).
      rewrite List.Forall_forall in Hcells. specialize (Hcells _ Hr).
      rewrite List.Forall_forall in Hcells. by apply cellSafe_noLF, Hcells. }
  assert (Htitle : ~ In (ascii_of_nat 10) (chars_of (TABLE_TITLE +:+ t_name tbl))).
  { rewrite chars_of_app. intros Hin. apply in_app_or in Hin as [Hin|Hin]; [|done].
    revert Hin. vm_compute. intuition discriminate. }
  assert (Hbody_ne : exists b0 brest, body = b0 :: brest).
  { unfold body. destruct rws; simpl; eauto. }
  destruct Hbody_ne as (b0 & brest & Eb).
  unfold Chat.parseTableContent.
  assert (Hsplit :
    Str.split
      (Str.join (String (ascii_of_nat 10) EmptyString)
         ([TABLE_TITLE +:+ t_name tbl; EmptyString; header; separator] ++ body))
      (ascii_of_nat 10)
    = [TABLE_TITLE +:+ t_name tbl; EmptyString; header; separator] ++ body).
  { apply split_join; [done|]. constructor; [done|]. constructor; [by intros []|].
    constructor; [done|]. constructor; [done|]. exact Hbody. }
  assert (Hinc : Str.includes
            (Str.join (String (ascii_of_nat 10) EmptyString)
               ([TABLE_TITLE +:+ t_name tbl; EmptyString; header; separator] ++ body))
            Chat.MARK = true).
  { apply includes_spec.
    pose proof (title_marked (t_name tbl)) as Hm. apply includes_spec in Hm.
    destruct Hm as (pre & post & Hm). cbn [app].
    exists pre, (post ++ [ascii_of_nat 10]
                   ++ chars_of (Str.join (String (ascii_of_nat 10) EmptyString)
                                  (EmptyString :: header :: separator :: body))).
    rewrite chars_of_join, Hm. by rewrite <- !app_assoc. }
  rewrite Hinc, Hsplit. cbn [app Chat.findIndex]. rewrite title_marked.
  cbn [lookup list_lookup default from_option id Nat.add]. rewrite title_read.
  rewrite Eb. cbn [length Nat.leb]. cbn [drop].
  unfold Chat.cellsOfLine at 1. unfold header.
  rewrite split_bar_join.
  - rewrite map_map. do 2 f_equal.
    rewrite <- Eb. unfold body. destruct rws as [|r rest]; [by vm_compute|].
    rewrite map_filter_map. apply map_ext_in. intros r' Hr'.
    apply filter_In in Hr' as [Hr' _]. unfold Chat.cellsOfLine, rowLine.
    rewrite split_bar_join.
    + by rewrite map_map.
    + by destruct cols.
    + apply List.Forall_forall. intros y Hy. apply in_map_iff in Hy as (c & <- & Hc).
      rewrite List.Forall_forall in Hcells. specialize (Hcells _ Hr').
      rewrite List.Forall_forall in Hcells. by apply cellSafe_noBar, Hcells.
  - by destruct cols.
  - apply List.Forall_forall. intros y Hy. apply in_map_iff in Hy as (c & <- & Hc).
    rewrite List.Forall_forall in Hsafe. by apply cellSafe_noBar, Hsafe.
Qed.

(** X9 at a table with two columns and two rows. *)
Lemma chat_page_reads_rendered_table_witness :
  Chat.parseTableContent
    (format "show_table" (DTableName "student")
       (Some (ExecResult
                (Some (TableInfo "student" (Some [Column "id" "integer"; Column "name" "text"])))
                (Some [Row (Some (Js.Obj (<["id" := VStr "101"]> (<["name" := VStr "Asha"]> ∅)) Js.ObjectPrototype));
                       Row (Some (Js.Obj (<["id" := VStr "102"]> ∅) Js.ObjectPrototype))])))) =
  Some (Chat.Content "student" ["id"; "name"] [["101"; "Asha"]; ["102"; ""]]).
Proof.
  rewrite (chat_page_reads_rendered_table (DTableName "student")
             (TableInfo "student" (Some [Column "id" "integer"; Column "name" "text"]))
             [Column "id" "integer"; Column "name" "text"]
             [Row (Some (Js.Obj (<["id" := VStr "101"]> (<["name" := VStr "Asha"]> ∅)) Js.ObjectPrototype));
              Row (Some (Js.Obj (<["id" := VStr "102"]> ∅) Js.ObjectPrototype))]).
  - by vm_compute.
  - reflexivity.
  - discriminate.
  - vm_compute. intuition discriminate.
  - repeat constructor; vm_compute; intuition discriminate.
  - repeat constructor; vm_compute; intuition discriminate.
Defined.

(* ===================================================================== *)
(** * The store *)
(* ===================================================================== *)

Section MapFacts.
Import Server.

Context {V : Type}.
Implicit Types (m : jsmap V) (k : string) (v : V).

Lemma In_values m v : In v (values m) <-> exists k, In (k, v) m.
Proof.
  unfold values. rewrite in_map_iff. split.
  - intros ([k v'] & <- & H). by exists k.
  - intros (k & H). by exists (k, v).
Qed.

Lemma In_set m k v k' v' :
  In (k', v') (set m k v) -> (k' = k /\ v' = v) \/ In (k', v') m.
Proof.
  induction m as [|[k0 v0] m IH]; simpl.
  - intros [[= <- <-] | []]. by left.
  - destruct (String.eqb k0 k) eqn:E.
    + intros [[= <- <-] | H]; [by left|]. right. by right.
    + intros [[= <- <-] | H]; [right; by left|].
      destruct (IH H) as [? | ?]; [by left|]. right. by right.
Qed.

Lemma In_set_new m k v : In (k, v) (set m k v).
Proof.
  induction m as [|[k0 v0] m IH]; simpl; [by left|].
  destruct (String.eqb k0 k); [by left|by right].
Qed.

Lemma In_set_other m k v k' v' : In (k', v') m -> k' <> k -> In (k', v') (set m k v).
Proof.
  intros H Hne. induction m as [|[k0 v0] m IH]; simpl in *; [done|].
  destruct H as [[= -> ->] | H].
  - apply String.eqb_neq in Hne. rewrite Hne. by left.
  - destruct (String.eqb k0 k); right; [done|by apply IH].
Qed.

Lemma In_delete m k k' v' : In (k', v') (delete m k) <-> In (k', v') m /\ k' <> k.
Proof.
  unfold delete. rewrite filter_In. simpl. rewrite negb_true_iff, String.eqb_neq. tauto.
Qed.

Lemma get_In m k v : get m k = Some v -> In (k, v) m.
Proof.
  unfold get. destruct (List.find _ m) as [[k' v']|] eqn:E; [|done]. intros [= <-].
  apply find_some in E as [H E]. simpl in E. by apply String.eqb_eq in E as ->.
Qed.

(** Deleting the keys of a list of entries, one after the other. *)
Lemma In_deletes {A} (key : A -> string) (l : list A) m k' v' :
  In (k', v') (fold_left (fun m' x => delete m' (key x)) l m) <->
  In (k', v') m /\ ~ In k' (map key l).
Proof.
  revert m. induction l as [|x l IH]; intros m; simpl; [tauto|].
  rewrite IH, In_delete. intuition congruence.
Qed.

Lemma NoDup_map_filter {A B} (f : A -> B) (p : A -> bool) (l : list A) :
  List.NoDup (map f l) -> List.NoDup (map f (List.filter p l)).
Proof.
  induction l as [|x l IH]; simpl; [done|]. intros H. apply List.NoDup_cons_iff in H as [Hx Hl].
  destruct (p x); simpl; [|by apply IH]. apply List.NoDup_cons_iff. split; [|by apply IH].
  intros Hin. apply Hx. apply in_map_iff in Hin as (y & Hy & Hin).
  apply in_map_iff. exists y. split; [done|]. by apply filter_In in Hin as [? _].
Qed.

Lemma NoDup_values_delete {B} (f : V -> B) m k :
  List.NoDup (map f (values m)) -> List.NoDup (map f (values (delete m k))).
Proof.
  unfold values, delete. induction m as [|[k0 v0] m IH]; simpl; [done|].
  intros H. apply List.NoDup_cons_iff in H as [Hx Hl].
  destruct (negb (String.eqb k0 k)); simpl; [|by apply IH].
  apply List.NoDup_cons_iff. split; [|by apply IH].
  intros Hin. apply Hx. apply in_map_iff in Hin as (y & Hy & Hin).
  apply in_map_iff. exists y. split; [done|].
  apply in_map_iff in Hin as (kv & <- & Hin). apply filter_In in Hin as [Hin _].
  apply in_map_iff. by exists kv.
Qed.

Lemma NoDup_values_set {B} (f : V -> B) m k v :
  List.NoDup (map f (values m)) -> ~ In (f v) (map f (values m)) ->
  List.NoDup (map f (values (set m k v))).
Proof.
  unfold values. induction m as [|[k0 v0] m IH]; simpl.
  - intros _ _. apply List.NoDup_cons_iff. split; [by intros []|constructor].
  - intros H Hv. apply List.NoDup_cons_iff in H as [Hx Hl].
    destruct (String.eqb k0 k); simpl.
    + apply List.NoDup_cons_iff. split; [|done]. intros Hin. apply Hv. by right.
    + apply List.NoDup_cons_iff. split.
      * intros Hin. apply in_map_iff in Hin as (y & Hy & Hin).
        apply in_map_iff in Hin as ([k1 v1] & <- & Hin). simpl in Hy.
        apply In_set in Hin as [[_ ->] | Hin].
        -- apply Hv. left. done.
        -- apply Hx. apply in_map_iff. exists v1. split; [done|].
           apply in_map_iff. by exists (k1, v1).
      * apply IH; [done|]. intros Hin. apply Hv. by right.
Qed.

End MapFacts.

Section TripleFacts.
Import Server.

Lemma triple_ret {A} (P : world -> Prop) (a : A) (Q : A -> world -> Prop) E :
  (forall w, P w -> Q a w) -> triple P (mret a) Q E.
Proof. intros H w Hw. by apply H. Qed.

Lemma triple_throw {A} (P : world -> Prop) e (Q : A -> world -> Prop) (E : world -> Prop) :
  (forall w, P w -> E w) -> triple P (throw e) Q E.
Proof. intros H w Hw. by apply H. Qed.

Lemma triple_bind {A B} (P : world -> Prop) (m : Rt A) (f : A -> Rt B) Q' Q E :
  triple P m Q' E -> (forall a, triple (Q' a) (f a) Q E) -> triple P (m ≫= f) Q E.
Proof.
  intros Hm Hf w Hw. specialize (Hm w Hw).
  unfold mbind, Rt_bind, bind. destruct (m w) as [[a|e] w']; [by apply Hf|done].
Qed.

Lemma triple_try_catch {A} (P : world -> Prop) (m : Rt A) h Q E' E :
  triple P m Q E' -> (forall e, triple E' (h e) Q E) -> triple P (try_catch m h) Q E.
Proof.
  intros Hm Hh w Hw. specialize (Hm w Hw).
  unfold try_catch. destruct (m w) as [[a|e] w']; [done|by apply Hh].
Qed.

Lemma triple_weaken {A} (P P' : world -> Prop) (m : Rt A) (Q Q' : A -> world -> Prop)
    (E E' : world -> Prop) :
  triple P m Q E -> (forall w, P' w -> P w) -> (forall a w, Q a w -> Q' a w) ->
  (forall w, E w -> E' w) -> triple P' m Q' E'.
Proof.
  intros Hm HP HQ HE w Hw. specialize (Hm w (HP w Hw)).
  destruct (m w) as [[a|e] w']; auto.
Qed.

Lemma triple_reads {A} (P : world -> Prop) (f : maps -> A) E :
  triple P (reads f) (fun a w => P w /\ a = f (mem w)) E.
Proof. by intros w Hw. Qed.

Lemma keeps_bind {A B} (I : world -> Prop) (m : Rt A) (f : A -> Rt B) :
  keeps I m -> (forall a, keeps I (f a)) -> keeps I (m ≫= f).
Proof. intros Hm Hf. eapply triple_bind; [exact Hm|exact Hf]. Qed.

Lemma keeps_ret {A} (I : world -> Prop) (a : A) : keeps I (mret a).
Proof. by apply triple_ret. Qed.

Lemma keeps_throw {A} (I : world -> Prop) e : keeps I (throw (A := A) e).
Proof. by apply triple_throw. Qed.

Lemma keeps_try_catch {A} (I : world -> Prop) (m : Rt A) h :
  keeps I m -> (forall e, keeps I (h e)) -> keeps I (try_catch m h).
Proof. intros Hm Hh. eapply triple_try_catch; [exact Hm|exact Hh]. Qed.

Lemma keeps_reads {A} (I : world -> Prop) (f : maps -> A) : keeps I (reads f).
Proof. by intros w Hw. Qed.

Lemma keeps_for_each {A} (I : world -> Prop) (l : list A) body :
  (forall x, keeps I (body x)) -> keeps I (for_each l body).
Proof.
  intros Hb. induction l as [|x l IH]; simpl; [apply keeps_ret|].
  apply (keeps_bind I (body x) (fun _ => for_each l body)); [apply Hb|by intros _].
Qed.

(** A triple from what a computation keeps and from what it returns. *)
Lemma keeps_triple {A} (I : world -> Prop) (m : Rt A) : keeps I m -> triple I m (fun _ => I) I.
Proof. done. Qed.

End TripleFacts.

Section StoreRuns.
Import Js Server.

Variable uuid : nat -> string.
Variable clock : nat -> Z.

Lemma createDatabase_run database w :
  createDatabase uuid clock database w =
  match List.find (fun d => same_name (db_name d) (idb_name database))
          (values (databases (mem w))) with
  | Some _ =>
      (Throw ("Database " +:+ Q +:+ idb_name database +:+ Q +:+ " already exists"), w)
  | None =>
      let db := Db (uuid (uuids w)) (idb_name database)
                  (or_null (idb_description database)) (clock (dates w)) in
      (Ok db,
       World (with_databases (fun m => set m (uuid (uuids w)) db) (mem w))
         (with_databases (fun _ => set (databases (mem w)) (uuid (uuids w)) db) (disk w))
         (S (uuids w)) (S (dates w)) (sent w) (logged w))
  end.
Proof.
  unfold createDatabase. cbv [mbind mret Rt_bind Rt_ret bind ret reads].
  by destruct (List.find _ _).
Qed.

Lemma deleteDatabase_run id w :
  deleteDatabase id w =
  let m' :=
    fold_left dropTable
      (List.filter (fun t => match tb_databaseId t with
                             | Some d => Str.eqb d id
                             | None => false
                             end) (values (tables (mem w))))
      (with_databases (fun m => delete m id) (mem w)) in
  (Ok tt,
   World m' (Maps (sessions (disk w)) (messages (disk w)) (databases m') (tables m') (rows m'))
     (uuids w) (dates w) (sent w) (logged w)).
Proof. reflexivity. Qed.

Lemma deleteTable_run id w :
  deleteTable id w =
  let m' :=
    with_rows (fun rs =>
      fold_left (fun rs' r => delete rs' (tr_id r))
        (List.filter (fun r => Str.eqb (tr_tableId r) id) (values rs)) rs)
      (with_tables (fun m => delete m id) (mem w)) in
  (Ok tt,
   World m' (Maps (sessions (disk w)) (messages (disk w)) (databases (disk w)) (tables m')
               (rows m'))
     (uuids w) (dates w) (sent w) (logged w)).
Proof. reflexivity. Qed.

Lemma createTable_run table w :
  createTable uuid clock table w =
  match List.find (fun t => same_name (tb_name t) (it_name table)
                            && same_database (tb_databaseId t) (it_databaseId table))
          (values (tables (mem w))) with
  | Some _ =>
      (Throw ("Table " +:+ Q +:+ it_name table +:+ Q +:+ " already exists in this database"),
       w)
  | None =>
      let t := DbTable (uuid (uuids w)) (or_null (it_databaseId table)) (it_name table)
                 (it_columns table) (JObj []) (clock (dates w)) in
      (Ok t,
       World (with_tables (fun m => set m (uuid (uuids w)) t) (mem w))
         (with_tables (fun _ => set (tables (mem w)) (uuid (uuids w)) t) (disk w))
         (S (uuids w)) (S (dates w)) (sent w) (logged w))
  end.
Proof.
  unfold createTable. cbv [mbind mret Rt_bind Rt_ret bind ret reads].
  by destruct (List.find _ _).
Qed.

Lemma insertRow_run row w :
  insertRow uuid clock row w =
  match violation row (mem w) with
  | Some message => (Throw message, w)
  | None =>
      let r := TRow (uuid (uuids w)) (ir_tableId row) (ir_data row) (clock (dates w)) in
      (Ok r,
       World (with_rows (fun m => set m (uuid (uuids w)) r) (mem w))
         (with_rows (fun _ => set (rows (mem w)) (uuid (uuids w)) r) (disk w))
         (S (uuids w)) (S (dates w)) (sent w) (logged w))
  end.
Proof.
  unfold insertRow, violation, getRows.
  cbv [mbind mret Rt_bind Rt_ret bind ret reads].
  destruct (get _ _) as [t|]; [|done].
  destruct (List.find sc_isPrimaryKey _) as [pk|]; [|done].
  by destruct (List.find _ (List.filter _ _)).
Qed.

Lemma updateRow_run id data w :
  updateRow id data w =
  match get (rows (mem w)) id with
  | None => (Throw "Row not found", w)
  | Some r =>
      let row := TRow (tr_id r) (tr_tableId r) (Obj (data ∪ own (tr_data r)) ObjectPrototype) (tr_createdAt r) in
      (Ok row,
       World (with_rows (fun m => set m id row) (mem w))
         (with_rows (fun _ => set (rows (mem w)) id row) (disk w))
         (uuids w) (dates w) (sent w) (logged w))
  end.
Proof.
  unfold updateRow. cbv [mbind mret Rt_bind Rt_ret bind ret reads].
  by destruct (get _ _).
Qed.

Lemma deleteRow_run id w :
  deleteRow id w =
  (Ok tt,
   World (with_rows (fun m => delete m id) (mem w))
     (with_rows (fun _ => delete (rows (mem w)) id) (disk w))
     (uuids w) (dates w) (sent w) (logged w)).
Proof. reflexivity. Qed.

Lemma updateTable_run id columns w :
  updateTable id columns w =
  match get (tables (mem w)) id with
  | None => (Throw "Table not found", w)
  | Some t =>
      let table := DbTable (tb_id t) (tb_databaseId t) (tb_name t) columns (tb_positions t)
                     (tb_createdAt t) in
      (Ok table,
       World (with_tables (fun m => set m id table) (mem w))
         (with_tables (fun _ => set (tables (mem w)) id table) (disk w))
         (uuids w) (dates w) (sent w) (logged w))
  end.
Proof.
  unfold updateTable. cbv [mbind mret Rt_bind Rt_ret bind ret reads].
  by destruct (get _ _).
Qed.

Lemma addChatMessage_run message w :
  addChatMessage uuid clock message w =
  (Ok (newMessage uuid clock message w), afterMessage uuid clock message w).
Proof.
  unfold addChatMessage, afterMessage, newMessage.
  cbv [mbind mret Rt_bind Rt_ret bind ret reads randomUUID newDate modify saveMessages
       saveSessions save].
  destruct w as [m d u dt s l]. cbn [mem disk uuids dates sent logged].
  destruct (given (icm_sessionId message)) as [sid|]; [|done].
  simpl. by destruct (get (sessions m) sid).
Qed.

End StoreRuns.

Section Consistency.
Import Js Server.

Variable uuid : nat -> string.
Variable clock : nat -> Z.

Lemma consistent_data w w' :
  databases (mem w') = databases (mem w) -> tables (mem w') = tables (mem w) ->
  rows (mem w') = rows (mem w) -> consistent w -> consistent w'.
Proof.
  unfold consistent, keysAreIds, namesDiffer, tablesBelong, rowsBelong.
  by intros -> -> ->.
Qed.

Lemma find_none_name (dbs : list Database) name :
  List.find (fun d => same_name (db_name d) name) dbs = None ->
  ~ In (Str.toLowerCase name) (map (fun d => Str.toLowerCase (db_name d)) dbs).
Proof.
  intros E Hin. apply in_map_iff in Hin as (d & Hd & Hin).
  pose proof (find_none _ _ E d Hin) as Hn. unfold same_name, Str.eqb in Hn.
  apply String.eqb_neq in Hn. by apply Hn.
Qed.

Lemma createDatabase_consistent database :
  triple consistent (createDatabase uuid clock database)
    (fun db w => consistent w /\ In db (values (databases (mem w)))) consistent.
Proof.
  intros w H. rewrite createDatabase_run.
  destruct (List.find _ _) eqn:E; [done|]. cbv zeta.
  set (id := uuid (uuids w)). set (db := Db id _ _ _).
  destruct H as ((Kd & Kt & Kr) & Hn & Ht & Hr). cbn [mem].
  destruct (mem w) as [ss ms ds ts rs] eqn:Em. cbn in *.
  split; [|apply In_values; exists id; apply In_set_new].
  split; [|split; [|split]]; cbn.
  - split; [|done]. intros k d Hin. apply In_set in Hin as [[-> ->] | Hin]; [done|by apply Kd].
  - apply (NoDup_values_set (fun d => Str.toLowerCase (db_name d))); [done|].
    by apply find_none_name.
  - intros t d Hin Hd. destruct (Ht t d Hin Hd) as (db' & Hdb & Hid).
    apply In_values in Hdb as (k & Hk). pose proof (Kd _ _ Hk) as Hkey.
    destruct (String.eqb_spec k id) as [-> | Hne].
    + exists db. split; [apply In_values; exists id; apply In_set_new|]. cbn. congruence.
    + exists db'. split; [|done]. apply In_values. exists k. by apply In_set_other.
  - done.
Qed.

Lemma getOrCreateDefaultDatabase_consistent :
  triple consistent (getOrCreateDefaultDatabase uuid clock)
    (fun db w => consistent w /\ In db (values (databases (mem w)))) consistent.
Proof.
  unfold getOrCreateDefaultDatabase.
  eapply triple_bind; [apply triple_reads|]. intros [d|].
  - apply triple_ret. intros w [H E]. split; [done|]. symmetry in E.
    by apply find_some in E as [? _].
  - eapply triple_weaken; [apply createDatabase_consistent| |done|done]. by intros w [H _].
Qed.

(** What is left of the tables and of the rows when tables go with their rows. *)
Lemma dropTables_spec (l : list DatabaseTable) m :
  (forall k r, In (k, r) (rows m) -> tr_id r = k) ->
  let m' := fold_left dropTable l m in
  sessions m' = sessions m /\ messages m' = messages m /\ databases m' = databases m /\
  (forall k t, In (k, t) (tables m') <-> In (k, t) (tables m) /\ ~ In k (map tb_id l)) /\
  (forall k r, In (k, r) (rows m') ->
     In (k, r) (rows m) /\ ~ In (tr_tableId r) (map tb_id l)).
Proof.
  revert m. induction l as [|t l IH]; intros m Kr; cbn [fold_left].
  - repeat split; try done; tauto.
  - assert (Kr' : forall k r, In (k, r) (rows (dropTable m t)) -> tr_id r = k).
    { intros k r Hin. destruct m; cbn [rows dropTable with_tables with_rows] in Hin.
      apply In_deletes in Hin as [Hin _]. by apply Kr. }
    destruct (IH (dropTable m t) Kr') as (Hs & Hm & Hd & Ht & Hr).
    split; [by rewrite Hs; destruct m|]. split; [by rewrite Hm; destruct m|].
    split; [by rewrite Hd; destruct m|]. split.
    + intros k t'. rewrite Ht. destruct m; cbn [tables dropTable with_tables with_rows].
      rewrite In_delete. cbn [map]. cbn [In]. intuition congruence.
    + intros k r Hin. apply Hr in Hin as [Hin Hl]. destruct m as [ss ms ds ts rs].
      cbn [rows dropTable with_tables with_rows] in *.
      apply In_deletes in Hin as [Hin Hdel]. split; [done|].
      intros [Heq | Hin']; [|done]. apply Hdel. apply in_map_iff. exists r.
      split; [by apply Kr|]. apply filter_In. split; [apply In_values; by exists k|].
      unfold Str.eqb. by apply String.eqb_eq.
Qed.

Lemma deleteDatabase_consistent id : keeps consistent (deleteDatabase id).
Proof.
  intros w H. rewrite deleteDatabase_run. cbv zeta.
  destruct H as ((Kd & Kt & Kr) & Hn & Ht & Hr).
  set (l := List.filter _ (values (tables (mem w)))).
  destruct (dropTables_spec l (with_databases (fun m => delete m id) (mem w)))
    as (_ & _ & Hd' & Ht' & Hr').
  { intros k r. destruct (mem w). apply Kr. }
  set (m' := fold_left dropTable l _) in *.
  assert (Hd : databases m' = delete (databases (mem w)) id)
    by (rewrite Hd'; by destruct (mem w)).
  assert (Htb : forall k t, In (k, t) (tables m') <->
                            In (k, t) (tables (mem w)) /\ ~ In k (map tb_id l)).
  { intros k t. rewrite Ht'. by destruct (mem w). }
  assert (Hrw : forall k r, In (k, r) (rows m') ->
                            In (k, r) (rows (mem w)) /\ ~ In (tr_tableId r) (map tb_id l)).
  { intros k r Hin. apply Hr' in Hin. by destruct (mem w). }
  clear Hd' Ht' Hr'. unfold consistent. cbn [mem].
  split; [|split; [|split]].
  - split; [|split].
    + intros k d. rewrite Hd. intros Hin. apply In_delete in Hin as [Hin _]. by apply Kd.
    + intros k t Hin. apply Htb in Hin as [Hin _]. by apply Kt.
    + intros k r Hin. apply Hrw in Hin as [Hin _]. by apply Kr.
  - unfold namesDiffer. rewrite Hd. by apply NoDup_values_delete.
  - intros t d Hin Hdb. apply In_values in Hin as (k & Hin). apply Htb in Hin as [Hin Hl].
    destruct (Ht t d) as (db & Hdb' & Hid); [apply In_values; by exists k|done|].
    exists db. split; [|done]. rewrite Hd. apply In_values in Hdb' as (k' & Hk').
    apply In_values. exists k'. apply In_delete. split; [done|].
    intros ->. apply Hl. apply in_map_iff. exists t. split; [by apply Kt|].
    apply filter_In. split; [apply In_values; by exists k|]. rewrite Hdb.
    unfold Str.eqb. apply String.eqb_eq. rewrite <- Hid. by apply Kd.
  - intros r Hin. apply In_values in Hin as (k & Hin). apply Hrw in Hin as [Hin Hl].
    destruct (Hr r) as (t & Ht0 & Hid); [apply In_values; by exists k|].
    exists t. split; [|done]. apply In_values in Ht0 as (k' & Hk').
    apply In_values. exists k'. apply Htb. split; [done|].
    rewrite <- (Kt _ _ Hk'), Hid. done.
Qed.

Lemma deleteTable_consistent id : keeps consistent (deleteTable id).
Proof.
  intros w H. rewrite deleteTable_run. cbv zeta.
  destruct H as ((Kd & Kt & Kr) & Hn & Ht & Hr).
  unfold consistent, keysAreIds, namesDiffer, tablesBelong, rowsBelong in *.
  destruct (mem w) as [ss ms ds ts rs] eqn:Em.
  cbn [mem databases tables rows with_tables with_rows with_databases] in *.
  split; [|split; [|split]].
  - split; [done|]. split.
    + intros k t Hin. apply In_delete in Hin as [Hin _]. by apply Kt.
    + intros k r Hin. apply In_deletes in Hin as [Hin _]. by apply Kr.
  - done.
  - intros t d Hin Hdb. apply In_values in Hin as (k & Hin).
    apply In_delete in Hin as [Hin _]. apply (Ht t d); [|done]. apply In_values. by exists k.
  - intros r Hin. apply In_values in Hin as (k & Hin). apply In_deletes in Hin as [Hin Hdel].
    destruct (Hr r) as (t & Ht0 & Hid); [apply In_values; by exists k|].
    exists t. split; [|done]. apply In_values in Ht0 as (k' & Hk').
    apply In_values. exists k'. apply In_delete. split; [done|].
    intros ->. apply Hdel. apply in_map_iff. exists r. split; [by apply Kr|].
    apply filter_In. split; [apply In_values; by exists k|].
    unfold Str.eqb. apply String.eqb_eq. rewrite <- Hid. by apply Kt.
Qed.

Lemma createTable_consistent d name columns :
  triple (fun w => consistent w /\
                   exists db, In db (values (databases (mem w))) /\ db_id db = d)
    (createTable uuid clock (NewTable (Given d) name columns))
    (fun _ => consistent) consistent.
Proof.
  intros w [H Hdb]. rewrite createTable_run.
  destruct (List.find _ _) eqn:E; [done|]. cbv zeta.
  set (id := uuid (uuids w)). set (t := DbTable id _ _ _ _ _).
  destruct H as ((Kd & Kt & Kr) & Hn & Ht & Hr).
  unfold consistent, keysAreIds, namesDiffer, tablesBelong, rowsBelong in *.
  destruct (mem w) as [ss ms ds ts rs] eqn:Em.
  cbn [mem databases tables rows with_tables with_rows with_databases] in *.
  split; [|split; [|split]].
  - split; [done|]. split; [|done].
    intros k t' Hin. apply In_set in Hin as [[-> ->] | Hin]; [done|by apply Kt].
  - done.
  - intros t' d' Hin Hd'. apply In_values in Hin as (k & Hin).
    apply In_set in Hin as [[-> ->] | Hin].
    + cbn in Hd'. destruct (Str.is_empty d); [done|]. by injection Hd' as <-.
    + apply (Ht t' d'); [|done]. apply In_values. by exists k.
  - intros r Hin. destruct (Hr r Hin) as (t' & Ht' & Hid).
    apply In_values in Ht' as (k & Hk). pose proof (Kt _ _ Hk) as Hkey.
    destruct (String.eqb_spec k id) as [-> | Hne].
    + exists t. split; [apply In_values; exists id; apply In_set_new|]. cbn. congruence.
    + exists t'. split; [|done]. apply In_values. exists k. by apply In_set_other.
Qed.

Lemma insertRow_consistent tableId data :
  triple (fun w => consistent w /\
                   exists t, In t (values (tables (mem w))) /\ tb_id t = tableId)
    (insertRow uuid clock (NewRow tableId data))
    (fun _ => consistent) consistent.
Proof.
  intros w [H Htb]. rewrite insertRow_run.
  destruct (violation _ _); [done|]. cbv zeta.
  set (id := uuid (uuids w)). set (r := TRow id _ _ _).
  destruct H as ((Kd & Kt & Kr) & Hn & Ht & Hr).
  unfold consistent, keysAreIds, namesDiffer, tablesBelong, rowsBelong in *.
  destruct (mem w) as [ss ms ds ts rs] eqn:Em.
  cbn [mem databases tables rows with_tables with_rows with_databases] in *.
  split; [|split; [|split]]; try done.
  - split; [done|]. split; [done|].
    intros k r' Hin. apply In_set in Hin as [[-> ->] | Hin]; [done|by apply Kr].
  - intros r' Hin. apply In_values in Hin as (k & Hin).
    apply In_set in Hin as [[-> ->] | Hin]; [done|]. apply Hr. apply In_values. by exists k.
Qed.

Lemma updateRow_consistent id data : keeps consistent (updateRow id data).
Proof.
  intros w H. rewrite updateRow_run.
  destruct (get _ _) as [r|] eqn:E; [|done]. cbv zeta.
  destruct H as ((Kd & Kt & Kr) & Hn & Ht & Hr).
  unfold consistent, keysAreIds, namesDiffer, tablesBelong, rowsBelong in *.
  destruct (mem w) as [ss ms ds ts rs] eqn:Em.
  cbn [mem databases tables rows with_tables with_rows with_databases] in *.
  apply get_In in E. pose proof (Kr _ _ E) as Hid.
  split; [|split; [|split]]; try done.
  - split; [done|]. split; [done|].
    intros k r' Hin. apply In_set in Hin as [[-> ->] | Hin]; [done|by apply Kr].
  - intros r' Hin. apply In_values in Hin as (k & Hin).
    apply In_set in Hin as [[-> ->] | Hin].
    + cbn. apply Hr. apply In_values. by exists id.
    + apply Hr. apply In_values. by exists k.
Qed.

Lemma deleteRow_consistent id : keeps consistent (deleteRow id).
Proof.
  intros w H. rewrite deleteRow_run.
  destruct H as ((Kd & Kt & Kr) & Hn & Ht & Hr).
  unfold consistent, keysAreIds, namesDiffer, tablesBelong, rowsBelong in *.
  destruct (mem w) as [ss ms ds ts rs] eqn:Em.
  cbn [mem databases tables rows with_tables with_rows with_databases] in *.
  split; [|split; [|split]]; try done.
  - split; [done|]. split; [done|].
    intros k r' Hin. apply In_delete in Hin as [Hin _]. by apply Kr.
  - intros r' Hin. apply In_values in Hin as (k & Hin). apply In_delete in Hin as [Hin _].
    apply Hr. apply In_values. by exists k.
Qed.

Lemma updateTable_consistent id columns : keeps consistent (updateTable id columns).
Proof.
  intros w H. rewrite updateTable_run.
  destruct (get _ _) as [t|] eqn:E; [|done]. cbv zeta.
  destruct H as ((Kd & Kt & Kr) & Hn & Ht & Hr).
  unfold consistent, keysAreIds, namesDiffer, tablesBelong, rowsBelong in *.
  destruct (mem w) as [ss ms ds ts rs] eqn:Em.
  cbn [mem databases tables rows with_tables with_rows with_databases] in *.
  apply get_In in E. pose proof (Kt _ _ E) as Hid.
  split; [|split; [|split]]; try done.
  - split; [done|]. split; [|done].
    intros k t' Hin. apply In_set in Hin as [[-> ->] | Hin]; [done|by apply Kt].
  - intros t' d Hin Hd. apply In_values in Hin as (k & Hin).
    apply In_set in Hin as [[-> ->] | Hin].
    + cbn in Hd. apply (Ht t d); [|done]. apply In_values. by exists id.
    + apply (Ht t' d); [|done]. apply In_values. by exists k.
  - intros r Hin. destruct (Hr r Hin) as (t' & Ht' & Hid').
    apply In_values in Ht' as (k & Hk). pose proof (Kt _ _ Hk) as Hkey.
    destruct (String.eqb_spec k id) as [-> | Hne].
    + eexists. split; [apply In_values; exists id; apply In_set_new|]. cbn. congruence.
    + exists t'. split; [|done]. apply In_values. exists k. by apply In_set_other.
Qed.

Lemma addChatMessage_consistent message : keeps consistent (addChatMessage uuid clock message).
Proof.
  intros w H. rewrite addChatMessage_run. revert H. apply consistent_data;
    unfold afterMessage; destruct (given _) as [sid|]; try done;
    by destruct (get _ _).
Qed.

Lemma broadcast_consistent e : keeps consistent (broadcast e).
Proof. intros w H. revert H. by apply consistent_data. Qed.

Lemma console_consistent line : keeps consistent (console line).
Proof. intros w H. revert H. by apply consistent_data. Qed.

End Consistency.

Section RouteConsistency.
Import Js Server.

Variable uuid : nat -> string.
Variable clock : nat -> Z.

Ltac keeps_step :=
  match goal with
  | |- forall _, _ => intros
  | |- keeps _ (mret _) => apply keeps_ret
  | |- keeps _ (say _) => apply keeps_ret
  | |- keeps _ (throw _) => apply keeps_throw
  | |- keeps _ (reads _) => apply keeps_reads
  | |- keeps _ getDatabases => apply keeps_reads
  | |- keeps _ (getTables _) => apply keeps_reads
  | |- keeps _ (getRows _) => apply keeps_reads
  | |- keeps _ (getTableByName _ _) => apply keeps_reads
  | |- keeps _ (addChatMessage _ _ _) => apply addChatMessage_consistent
  | |- keeps _ (broadcast _) => apply broadcast_consistent
  | |- keeps _ (console _) => apply console_consistent
  | |- keeps _ (deleteDatabase _) => apply deleteDatabase_consistent
  | |- keeps _ (deleteTable _) => apply deleteTable_consistent
  | |- keeps _ (updateRow _ _) => apply updateRow_consistent
  | |- keeps _ (deleteRow _) => apply deleteRow_consistent
  | |- keeps _ (updateTable _ _) => apply updateTable_consistent
  | |- keeps _ (for_each _ _) => apply keeps_for_each
  | |- keeps _ (try_catch _ _) => apply keeps_try_catch
  | |- keeps _ (mbind _ _) => apply keeps_bind
  | |- keeps _ (match ?x with _ => _ end) => destruct x
  | |- keeps _ (if ?b then _ else _) => destruct b
  end.

Lemma createDatabase_keeps database : keeps consistent (createDatabase uuid clock database).
Proof.
  eapply triple_weaken; [apply createDatabase_consistent|done| |done]. by intros db w [H _].
Qed.

Lemma say_keeps text : keeps consistent (say text).
Proof. apply keeps_ret. Qed.

Lemma answer_keeps validated userMessage text :
  keeps consistent (answer uuid clock validated userMessage text).
Proof. unfold answer. repeat keeps_step. Qed.

Lemma createDatabaseBranch_keeps details :
  keeps consistent (createDatabaseBranch uuid clock details).
Proof.
  unfold createDatabaseBranch, say. apply keeps_try_catch; [|repeat keeps_step].
  apply keeps_bind; [apply createDatabase_keeps|]. repeat keeps_step.
Qed.

Lemma deleteDatabaseBranch_keeps details : keeps consistent (deleteDatabaseBranch details).
Proof. unfold deleteDatabaseBranch. repeat keeps_step. Qed.

Lemma databaseLines_keeps dbs : keeps consistent (databaseLines dbs).
Proof.
  induction dbs as [|db dbs IH]; simpl; [apply keeps_ret|].
  unfold getTables. apply keeps_bind; [apply keeps_reads|]. intros ts.
  apply keeps_bind; [exact IH|]. intros lines. apply keeps_ret.
Qed.

Lemma showDatabasesBranch_keeps : keeps consistent showDatabasesBranch.
Proof.
  unfold showDatabasesBranch, say, getDatabases. apply keeps_bind; [apply keeps_reads|].
  intros dbs. destruct (length dbs =? 0); [apply keeps_ret|].
  apply keeps_bind; [apply databaseLines_keeps|]. intros. apply keeps_ret.
Qed.

Lemma createTableBranch_keeps validated userMessage details :
  keeps consistent (createTableBranch uuid clock validated userMessage details).
Proof.
  unfold createTableBranch, say. apply keeps_try_catch; [|repeat keeps_step].
  eapply (triple_bind _ _ _
            (fun target w =>
               consistent w /\
               match target with
               | inl _ => True
               | inr (databaseId, _) =>
                   exists db, In db (values (databases (mem w))) /\ db_id db = databaseId
               end)).
  - destruct (present (d_databaseName details)).
    + unfold getDatabases. eapply triple_bind; [apply triple_reads|]. intros dbs.
      destruct (findDatabase dbs _) as [db|] eqn:E.
      * apply triple_ret. intros w [H ->]. split; [done|]. exists db. split; [|done].
        unfold findDatabase in E. by apply find_some in E as [? _].
      * eapply (triple_bind _ _ _ (fun _ => consistent)).
        -- eapply triple_weaken with (P := consistent) (Q := fun _ => consistent)
                                     (E := consistent); [|by intros w [? _]|done|done].
           apply keeps_bind; [apply answer_keeps|]. intros r. apply keeps_ret.
        -- intros r. apply triple_ret. by intros w H.
    + eapply triple_bind; [apply getOrCreateDefaultDatabase_consistent|]. intros db.
      eapply (triple_bind _ _ _
                (fun _ w => consistent w /\ In db (values (databases (mem w))))).
      * intros w [H Hin]. split; [by revert H; apply consistent_data|done].
      * intros _. apply triple_ret. intros w [H Hin]. split; [done|]. by exists db.
  - intros [returned | [databaseId dbName]].
    + apply triple_ret. by intros w [H _].
    + unfold getTableByName. eapply triple_bind; [apply triple_reads|]. intros [existing|].
      * eapply triple_weaken with (P := consistent) (Q := fun _ => consistent)
                                  (E := consistent); [|by intros w [[? _] _]|done|done].
        apply keeps_bind; [apply answer_keeps|]. intros r. apply keeps_ret.
      * eapply triple_bind.
        -- eapply triple_weaken; [apply createTable_consistent| |done|done].
           intros w [[H Hdb] _]. by split.
        -- intros t. apply keeps_bind; [apply broadcast_consistent|]. intros. apply keeps_ret.
Qed.


Lemma findTable_In ts name t : findTable ts name = Some t -> In t ts.
Proof. unfold findTable. intros E. by apply find_some in E as [? _]. Qed.

Lemma deleteTableBranch_keeps action details :
  keeps consistent (deleteTableBranch action details).
Proof. unfold deleteTableBranch. repeat keeps_step. Qed.

Lemma addColumnBranch_keeps action details :
  keeps consistent (addColumnBranch action details).
Proof. unfold addColumnBranch. repeat keeps_step. Qed.

Lemma insertRowBranch_keeps action details :
  keeps consistent (insertRowBranch uuid clock action details).
Proof.
  unfold insertRowBranch. apply keeps_try_catch; [|repeat keeps_step].
  unfold getTables. eapply triple_bind; [apply triple_reads|]. intros ts.
  destruct (findTable ts _) as [t|] eqn:E.
  - eapply triple_bind.
    + eapply triple_weaken; [apply insertRow_consistent| |done|done].
      intros w [H ->]. split; [done|]. exists t. split; [|done]. by eapply findTable_In.
    + intros r. cbv beta. apply keeps_bind; [apply broadcast_consistent|].
      intros. apply keeps_ret.
  - apply triple_ret. by intros w [H _].
Qed.

Lemma findRowsByCondition_keeps tableId column v :
  keeps consistent (findRowsByCondition tableId column v).
Proof. unfold findRowsByCondition. repeat keeps_step. Qed.

Lemma updateRowBranch_keeps details : keeps consistent (updateRowBranch details).
Proof.
  unfold updateRowBranch. apply keeps_try_catch; [|repeat keeps_step].
  apply keeps_bind; [apply keeps_reads|]. intros ts.
  destruct (findTable ts _) as [t|]; [|apply keeps_ret].
  destruct (match_member _ wherePattern) as [wm|]; [|apply keeps_ret].
  destruct (match_member _ setPattern) as [sm|]; [|apply keeps_ret].
  apply keeps_bind; [apply findRowsByCondition_keeps|]. intros rs.
  destruct (0 <? length rs); [|apply keeps_ret].
  apply keeps_bind.
  - apply keeps_for_each. intros r. apply keeps_bind; [apply updateRow_consistent|].
    intros. apply keeps_ret.
  - intros. apply keeps_bind; [apply broadcast_consistent|]. intros. apply keeps_ret.
Qed.

Lemma deleteRowBranch_keeps details : keeps consistent (deleteRowBranch details).
Proof.
  unfold deleteRowBranch. apply keeps_try_catch; [|repeat keeps_step].
  apply keeps_bind; [apply keeps_reads|]. intros ts.
  destruct (findTable ts _) as [t|]; [|apply keeps_ret].
  destruct (match_member _ wherePattern) as [wm|]; [|apply keeps_ret].
  apply keeps_bind; [apply findRowsByCondition_keeps|]. intros rs.
  destruct (0 <? length rs); [|apply keeps_ret].
  apply keeps_bind.
  - apply keeps_for_each. intros r. apply deleteRow_consistent.
  - intros. apply keeps_bind; [apply broadcast_consistent|]. intros. apply keeps_ret.
Qed.

Lemma showTableBranch_keeps action details : keeps consistent (showTableBranch action details).
Proof. unfold showTableBranch. repeat keeps_step. Qed.

Lemma showTablesBranch_keeps : keeps consistent showTablesBranch.
Proof. unfold showTablesBranch. repeat keeps_step. Qed.

Lemma execute_keeps validated userMessage action details :
  keeps consistent (execute uuid clock validated userMessage action details).
Proof.
  unfold execute.
  repeat match goal with
         | |- keeps _ (if ?b then _ else _) => destruct b
         end;
    first [ apply createDatabaseBranch_keeps | apply deleteDatabaseBranch_keeps
          | apply showDatabasesBranch_keeps | apply createTableBranch_keeps
          | apply deleteTableBranch_keeps | apply addColumnBranch_keeps
          | apply insertRowBranch_keeps | apply updateRowBranch_keeps
          | apply deleteRowBranch_keeps | apply showTableBranch_keeps
          | apply showTablesBranch_keeps | apply keeps_ret ].
Qed.

End RouteConsistency.

(** The branches of the handler, for any property of the state that the
    operations of the store keep. *)
Section RouteGeneric.
Import Js Server.

Variable uuid : nat -> string.
Variable clock : nat -> Z.
Variable I : world -> Prop.
Variable validated : InsertChatMessage.
Variable userMessage : ChatMessage.
Variable Q : branch -> world -> Prop.

Hypothesis K_broadcast : forall e E, triple I (broadcast e) (fun _ => I) E.
Hypothesis K_deleteDatabase : forall id E, triple I (deleteDatabase id) (fun _ => I) E.
Hypothesis K_deleteTable : forall id E, triple I (deleteTable id) (fun _ => I) E.
Hypothesis K_deleteRow : forall id E, triple I (deleteRow id) (fun _ => I) E.
Hypothesis K_createDatabase : forall d, keeps I (createDatabase uuid clock d).
Hypothesis K_createTable : forall t, keeps I (createTable uuid clock t).
Hypothesis K_insertRow : forall r, keeps I (insertRow uuid clock r).
Hypothesis K_updateRow : forall id data, keeps I (updateRow id data).
Hypothesis K_updateTable : forall id columns, keeps I (updateTable id columns).
Hypothesis Q_say : forall text w, I w -> Q (inr text) w.
Hypothesis Q_answer :
  forall text E, triple I (answer uuid clock validated userMessage text)
                   (fun r => Q (inl r)) E.

Lemma reads_triple {A} (f : maps -> A) E : triple I (reads f) (fun _ => I) E.
Proof. by intros w Hw. Qed.

Lemma say_triple text E : triple I (say text) Q E.
Proof. apply triple_ret. intros w Hw. by apply Q_say. Qed.

Ltac spec_step :=
  match goal with
  | |- forall _, _ => intros
  | |- triple _ (say _) _ _ => apply say_triple
  | |- triple _ (try_catch _ _) _ _ => eapply (triple_try_catch _ _ _ _ I)
  | |- triple _ (mbind _ (reads _)) _ _ => eapply triple_bind; [apply reads_triple|]
  | |- triple _ (mbind _ getDatabases) _ _ => eapply triple_bind; [apply reads_triple|]
  | |- triple _ (mbind _ (getTables _)) _ _ => eapply triple_bind; [apply reads_triple|]
  | |- triple _ (mbind _ (getRows _)) _ _ => eapply triple_bind; [apply reads_triple|]
  | |- triple _ (mbind _ (getTableByName _ _)) _ _ =>
      eapply triple_bind; [apply reads_triple|]
  | |- triple _ (mbind _ (broadcast _)) _ _ => eapply triple_bind; [apply K_broadcast|]
  | |- triple _ (mbind _ (deleteDatabase _)) _ _ =>
      eapply triple_bind; [apply K_deleteDatabase|]
  | |- triple _ (mbind _ (deleteTable _)) _ _ => eapply triple_bind; [apply K_deleteTable|]
  | |- triple _ (mbind _ (createDatabase _ _ _)) _ _ =>
      eapply triple_bind; [apply K_createDatabase|]
  | |- triple _ (mbind _ (createTable _ _ _)) _ _ =>
      eapply triple_bind; [apply K_createTable|]
  | |- triple _ (mbind _ (insertRow _ _ _)) _ _ => eapply triple_bind; [apply K_insertRow|]
  | |- triple _ (mbind _ (updateTable _ _)) _ _ => eapply triple_bind; [apply K_updateTable|]
  | |- triple _ (match ?x with _ => _ end) _ _ => destruct x
  | |- triple _ (if ?b then _ else _) _ _ => destruct b
  end.

Lemma createDatabaseBranch_spec details E :
  triple I (createDatabaseBranch uuid clock details) Q E.
Proof. unfold createDatabaseBranch. repeat spec_step. Qed.

Lemma deleteDatabaseBranch_spec details E : triple I (deleteDatabaseBranch details) Q E.
Proof. unfold deleteDatabaseBranch. repeat spec_step. Qed.

Lemma databaseLines_spec dbs E : triple I (databaseLines dbs) (fun _ => I) E.
Proof.
  induction dbs as [|db dbs IH]; simpl; [by apply triple_ret|].
  eapply triple_bind; [apply reads_triple|]. intros ts.
  eapply triple_bind; [exact IH|]. intros lines. by apply triple_ret.
Qed.

Lemma showDatabasesBranch_spec E : triple I showDatabasesBranch Q E.
Proof.
  unfold showDatabasesBranch. repeat spec_step.
  eapply triple_bind; [apply databaseLines_spec|]. repeat spec_step.
Qed.

Lemma getOrCreateDefaultDatabase_keeps : keeps I (getOrCreateDefaultDatabase uuid clock).
Proof.
  unfold getOrCreateDefaultDatabase. eapply triple_bind; [apply reads_triple|].
  intros [d|]; [by apply triple_ret|apply K_createDatabase].
Qed.

Lemma early_spec text E :
  triple I (r ← answer uuid clock validated userMessage text; mret (inl r)) Q E.
Proof.
  eapply triple_bind; [apply Q_answer|]. intros r. by apply triple_ret.
Qed.

Lemma createTableBranch_spec details E :
  triple I (createTableBranch uuid clock validated userMessage details) Q E.
Proof.
  unfold createTableBranch. eapply (triple_try_catch _ _ _ _ I); [|repeat spec_step].
  eapply (triple_bind _ _ _
            (fun target w => match target with inl r => Q r w | inr _ => I w end)).
  - destruct (present (d_databaseName details)).
    + eapply triple_bind; [apply reads_triple|]. intros dbs.
      destruct (findDatabase dbs _) as [db|]; [by apply triple_ret|].
      eapply triple_bind; [apply early_spec|]. intros r. by apply triple_ret.
    + eapply triple_bind; [apply getOrCreateDefaultDatabase_keeps|]. intros db.
      eapply triple_bind; [apply K_broadcast|]. intros u0. by apply triple_ret.
  - intros [returned | [databaseId dbName]]; [by apply triple_ret|].
    eapply triple_bind; [apply reads_triple|]. intros [existing|]; [apply early_spec|].
    repeat spec_step.
Qed.

Lemma deleteTableBranch_spec action details E :
  triple I (deleteTableBranch action details) Q E.
Proof. unfold deleteTableBranch. repeat spec_step. Qed.

Lemma addColumnBranch_spec action details E :
  triple I (addColumnBranch action details) Q E.
Proof. unfold addColumnBranch. repeat spec_step. Qed.

Lemma insertRowBranch_spec action details E :
  triple I (insertRowBranch uuid clock action details) Q E.
Proof. unfold insertRowBranch. repeat spec_step. Qed.

Lemma findRowsByCondition_spec tableId column v E :
  triple I (findRowsByCondition tableId column v) (fun _ => I) E.
Proof.
  unfold findRowsByCondition. eapply triple_bind; [apply reads_triple|].
  intros rs. by apply triple_ret.
Qed.

Lemma for_each_spec {A} (l : list A) body E :
  (forall x, triple I (body x) (fun _ => I) E) -> triple I (for_each l body) (fun _ => I) E.
Proof.
  intros Hb. induction l as [|x l IH]; simpl; [by apply triple_ret|].
  eapply (triple_bind _ (body x) (fun _ => for_each l body)); [apply Hb|by intros u0].
Qed.

Lemma updateRowBranch_spec details E : triple I (updateRowBranch details) Q E.
Proof.
  unfold updateRowBranch. eapply (triple_try_catch _ _ _ _ I); [|repeat spec_step].
  eapply triple_bind; [apply reads_triple|]. intros ts.
  destruct (findTable ts _) as [t|]; [|apply say_triple].
  destruct (match_member _ wherePattern) as [wm|]; [|apply say_triple].
  destruct (match_member _ setPattern) as [sm|]; [|apply say_triple].
  eapply triple_bind; [apply findRowsByCondition_spec|]. intros rs.
  destruct (0 <? length rs); [|apply say_triple].
  eapply triple_bind.
  - apply for_each_spec. intros r. eapply triple_bind; [apply K_updateRow|].
    intros. by apply triple_ret.
  - intros. repeat spec_step.
Qed.

Lemma deleteRowBranch_spec details E : triple I (deleteRowBranch details) Q E.
Proof.
  unfold deleteRowBranch. eapply (triple_try_catch _ _ _ _ I); [|repeat spec_step].
  eapply triple_bind; [apply reads_triple|]. intros ts.
  destruct (findTable ts _) as [t|]; [|apply say_triple].
  destruct (match_member _ wherePattern) as [wm|]; [|apply say_triple].
  eapply triple_bind; [apply findRowsByCondition_spec|]. intros rs.
  destruct (0 <? length rs); [|apply say_triple].
  eapply triple_bind.
  - apply for_each_spec. intros r. apply K_deleteRow.
  - intros. repeat spec_step.
Qed.

Lemma showTableBranch_spec action details E : triple I (showTableBranch action details) Q E.
Proof. unfold showTableBranch. repeat spec_step. Qed.

Lemma showTablesBranch_spec E : triple I showTablesBranch Q E.
Proof. unfold showTablesBranch. repeat spec_step. Qed.

(** Executing an action never throws. *)
Lemma execute_spec action details E :
  triple I (execute uuid clock validated userMessage action details) Q E.
Proof.
  unfold execute.
  repeat match goal with
         | |- triple _ (if ?b then _ else _) _ _ => destruct b
         end;
    first [ apply createDatabaseBranch_spec | apply deleteDatabaseBranch_spec
          | apply showDatabasesBranch_spec | apply createTableBranch_spec
          | apply deleteTableBranch_spec | apply addColumnBranch_spec
          | apply insertRowBranch_spec | apply updateRowBranch_spec
          | apply deleteRowBranch_spec | apply showTableBranch_spec
          | apply showTablesBranch_spec | apply say_triple ].
Qed.

End RouteGeneric.

Section RouteFrames.
Import Js Server.

Variable uuid : nat -> string.
Variable clock : nat -> Z.

Lemma dropTables_frame l m :
  sessions (fold_left dropTable l m) = sessions m /\
  messages (fold_left dropTable l m) = messages m /\
  databases (fold_left dropTable l m) = databases m.
Proof.
  revert m. induction l as [|t l IH]; intros m; simpl; [done|].
  destruct (IH (dropTable m t)) as (-> & -> & ->). by destruct m.
Qed.

Lemma maps_eta m : Maps (sessions m) (messages m) (databases m) (tables m) (rows m) = m.
Proof. by destruct m. Qed.

Ltac frame_run :=
  intros w H;
  rewrite ?createDatabase_run, ?createTable_run, ?insertRow_run, ?updateRow_run,
    ?updateTable_run, ?deleteRow_run, ?deleteTable_run, ?deleteDatabase_run;
  cbv zeta;
  repeat match goal with
         | |- context [List.find ?f ?l] => destruct (List.find f l)
         | |- context [get ?m ?k] => destruct (get m k)
         | |- context [violation ?r ?m] => destruct (violation r m)
         end.

Lemma messages_broadcast M e E : triple (messagesAre M) (broadcast e) (fun _ => messagesAre M) E.
Proof. by intros w H. Qed.

Lemma messages_console M l E : triple (messagesAre M) (console l) (fun _ => messagesAre M) E.
Proof. by intros w H. Qed.

Lemma messages_deleteDatabase M id E :
  triple (messagesAre M) (deleteDatabase id) (fun _ => messagesAre M) E.
Proof.
  intros w H. rewrite deleteDatabase_run. cbv zeta. unfold messagesAre in *. cbn [mem].
  destruct (dropTables_frame
              (List.filter (fun t => match tb_databaseId t with
                                     | Some d => Str.eqb d id
                                     | None => false
                                     end) (values (tables (mem w))))
              (with_databases (fun m => delete m id) (mem w))) as (_ & -> & _).
  by destruct (mem w).
Qed.

Lemma messages_deleteTable M id E :
  triple (messagesAre M) (deleteTable id) (fun _ => messagesAre M) E.
Proof. intros w H. unfold messagesAre in *. rewrite deleteTable_run. by destruct (mem w). Qed.

Lemma messages_deleteRow M id E :
  triple (messagesAre M) (deleteRow id) (fun _ => messagesAre M) E.
Proof. intros w H. unfold messagesAre in *. rewrite deleteRow_run. by destruct (mem w). Qed.

Lemma messages_createDatabase M d : keeps (messagesAre M) (createDatabase uuid clock d).
Proof. frame_run; unfold messagesAre in *; try done; by destruct (mem w). Qed.

Lemma messages_createTable M t : keeps (messagesAre M) (createTable uuid clock t).
Proof. frame_run; unfold messagesAre in *; try done; by destruct (mem w). Qed.

Lemma messages_insertRow M r : keeps (messagesAre M) (insertRow uuid clock r).
Proof. frame_run; unfold messagesAre in *; try done; by destruct (mem w). Qed.

Lemma messages_updateRow M id data : keeps (messagesAre M) (updateRow id data).
Proof. frame_run; unfold messagesAre in *; try done; by destruct (mem w). Qed.

Lemma messages_updateTable M id columns : keeps (messagesAre M) (updateTable id columns).
Proof. frame_run; unfold messagesAre in *; try done; by destruct (mem w). Qed.

Lemma messages_afterMessage message w :
  messages (mem (afterMessage uuid clock message w)) =
  set (messages (mem w)) (uuid (uuids w)) (newMessage uuid clock message w).
Proof.
  unfold afterMessage. destruct (given _) as [sid|]; [|by destruct (mem w)].
  destruct (get _ _); by destruct (mem w).
Qed.

Lemma answer_answered validated userMessage M text E :
  triple (messagesAre M) (answer uuid clock validated userMessage text)
    (answered validated userMessage M) E.
Proof.
  intros w H. unfold answer. cbv [mbind Rt_bind bind]. rewrite addChatMessage_run.
  cbv [broadcast mret Rt_ret ret]. cbv beta iota. unfold answered. cbn [mem].
  eexists. split; [reflexivity|]. split; [done|]. split; [done|].
  rewrite messages_afterMessage. unfold messagesAre in H. by rewrite H.
Qed.

End RouteFrames.

Section RoutePersisted.
Import Js Server.

Variable uuid : nat -> string.
Variable clock : nat -> Z.

Ltac persisted_run :=
  intros w H;
  rewrite ?createDatabase_run, ?createTable_run, ?insertRow_run, ?updateRow_run,
    ?updateTable_run, ?deleteRow_run, ?deleteTable_run;
  cbv zeta;
  repeat match goal with
         | |- context [List.find ?f ?l] => destruct (List.find f l)
         | |- context [get ?m ?k] => destruct (get m k)
         | |- context [violation ?r ?m] => destruct (violation r m)
         end;
  unfold persisted in *; try done; cbn [mem disk]; rewrite H; by destruct (mem w).

Lemma persisted_broadcast e E : triple persisted (broadcast e) (fun _ => persisted) E.
Proof. by intros w H. Qed.

Lemma persisted_console l E : triple persisted (console l) (fun _ => persisted) E.
Proof. by intros w H. Qed.

Lemma persisted_deleteDatabase id E :
  triple persisted (deleteDatabase id) (fun _ => persisted) E.
Proof.
  intros w H. rewrite deleteDatabase_run. cbv zeta. unfold persisted in *. cbn [mem disk].
  rewrite H.
  destruct (dropTables_frame
              (List.filter (fun t => match tb_databaseId t with
                                     | Some d => Str.eqb d id
                                     | None => false
                                     end) (values (tables (mem w))))
              (with_databases (fun m => delete m id) (mem w))) as (Hs & Hm & _).
  rewrite <- (maps_eta (fold_left _ _ _)) at 4. rewrite Hs, Hm. by destruct (mem w).
Qed.

Lemma persisted_deleteTable id E : triple persisted (deleteTable id) (fun _ => persisted) E.
Proof. persisted_run. Qed.

Lemma persisted_deleteRow id E : triple persisted (deleteRow id) (fun _ => persisted) E.
Proof. persisted_run. Qed.

Lemma persisted_createDatabase d : keeps persisted (createDatabase uuid clock d).
Proof. persisted_run. Qed.

Lemma persisted_createTable t : keeps persisted (createTable uuid clock t).
Proof. persisted_run. Qed.

Lemma persisted_insertRow r : keeps persisted (insertRow uuid clock r).
Proof. persisted_run. Qed.

Lemma persisted_updateRow id data : keeps persisted (updateRow id data).
Proof. persisted_run. Qed.

Lemma persisted_updateTable id columns : keeps persisted (updateTable id columns).
Proof. persisted_run. Qed.

Lemma persisted_afterMessage message w :
  persisted w -> persisted (afterMessage uuid clock message w).
Proof.
  unfold persisted, afterMessage. intros H.
  destruct (given _) as [sid|]; [|cbn [mem disk]; rewrite H; by destruct (mem w)].
  destruct (get _ _); cbn [mem disk]; rewrite H; by destruct (mem w).
Qed.

Lemma persisted_addChatMessage message E :
  triple persisted (addChatMessage uuid clock message) (fun _ => persisted) E.
Proof. intros w H. rewrite addChatMessage_run. by apply persisted_afterMessage. Qed.

Lemma persisted_answer validated userMessage text E :
  triple persisted (answer uuid clock validated userMessage text) (fun _ => persisted) E.
Proof.
  unfold answer. eapply triple_bind; [apply persisted_addChatMessage|]. intros a.
  eapply triple_bind; [apply persisted_broadcast|]. intros u0. by apply triple_ret.
Qed.

Lemma chatMessage_persisted validated : keeps persisted (chatMessage uuid clock validated).
Proof.
  unfold chatMessage. eapply (triple_try_catch _ _ _ _ persisted).
  - eapply triple_bind; [apply persisted_addChatMessage|]. intros userMessage.
    eapply triple_bind; [apply persisted_broadcast|]. intros u0.
    eapply triple_bind; [apply persisted_console|]. intros u1.
    eapply triple_bind.
    + apply (execute_spec uuid clock persisted validated userMessage (fun _ => persisted));
        first [ done | apply persisted_broadcast | apply persisted_deleteDatabase
              | apply persisted_deleteTable | apply persisted_deleteRow
              | apply persisted_createDatabase | apply persisted_createTable
              | apply persisted_insertRow | apply persisted_updateRow
              | apply persisted_updateTable | intros; apply persisted_answer ].
    + intros [returned | text]; [by apply triple_ret|apply persisted_answer].
  - intros e. eapply triple_bind; [apply persisted_console|]. intros u0. by apply triple_ret.
Qed.

Lemma chatMessage_consistent validated : keeps consistent (chatMessage uuid clock validated).
Proof.
  unfold chatMessage. apply keeps_try_catch.
  - apply keeps_bind; [apply addChatMessage_consistent|]. intros userMessage.
    apply keeps_bind; [apply broadcast_consistent|]. intros u0.
    apply keeps_bind; [apply console_consistent|]. intros u1.
    apply keeps_bind; [apply execute_keeps|].
    intros [returned | text]; [apply keeps_ret|apply answer_keeps].
  - intros e. apply keeps_bind; [apply console_consistent|]. intros u0. apply keeps_ret.
Qed.

Lemma keeps_snd {A} (I : world -> Prop) (m : Rt A) w : keeps I m -> I w -> I (m w).2.
Proof. intros Hk H. specialize (Hk w H). by destruct (m w) as [[a|e] w']. Qed.

End RoutePersisted.

(** X10. Every validated chat message is answered exactly once. As long
    as the files can be written, the handler never takes its [catch]: it
    stores the user's message, executes the command, stores one message of
    the assistant in the same session, and replies with the two; the stored
    messages are the earlier ones with these two set. *)
Theorem chat_message_answered_once
    (uuid : nat -> string) (clock : nat -> Z)
    (validated : Server.InsertChatMessage) (w : Server.world) :
  exists a w',
    Server.chatMessage uuid clock validated w =
      (Extract.Ok (Server.Json [newMessage uuid clock validated w; a]), w') /\
    Server.cm_role a = "assistant" /\
    Server.cm_sessionId a = Server.or_null (Server.icm_sessionId validated) /\
    Server.messages (Server.mem w') =
      Server.set
        (Server.set (Server.messages (Server.mem w)) (uuid (Server.uuids w))
           (newMessage uuid clock validated w))
        (Server.cm_id a) a.
Proof.
  set (u := newMessage uuid clock validated w).
  set (M1 := Server.set (Server.messages (Server.mem w)) (uuid (Server.uuids w)) u).
  unfold Server.chatMessage, Server.try_catch. cbv [mbind Server.Rt_bind Server.bind].
  rewrite addChatMessage_run. fold u.
  cbv [Server.broadcast Server.console]. cbv beta iota.
  match goal with
  | |- context [Server.execute _ _ _ _ ?act ?det ?w2] =>
      pose proof (execute_spec uuid clock (messagesAre M1) validated u
                    (fun r w' => match r with
                                 | inl rep => answered validated u M1 rep w'
                                 | inr _ => messagesAre M1 w'
                                 end)
                    (messages_broadcast M1) (messages_deleteDatabase M1)
                    (messages_deleteTable M1) (messages_deleteRow M1)
                    (messages_createDatabase uuid clock M1)
                    (messages_createTable uuid clock M1)
                    (messages_insertRow uuid clock M1) (messages_updateRow M1)
                    (messages_updateTable M1) (fun _ _ H => H)
                    (answer_answered uuid clock validated u M1)
                    act det (fun _ => False) w2) as Hx;
      destruct (Server.execute uuid clock validated u act det w2) as [[r|e] w3]
  end.
  - specialize (Hx (messages_afterMessage uuid clock validated w)).
    destruct r as [rep | text].
    + destruct Hx as (a & -> & Hrole & Hsid & Hm). by exists a, w3.
    + pose proof (answer_answered uuid clock validated u M1 text (fun _ => False) w3 Hx) as Ha.
      destruct (Server.answer uuid clock validated u text w3) as [[rep|e] w4]; [|done].
      destruct Ha as (a & -> & Hrole & Hsid & Hm). by exists a, w4.
  - exfalso. by apply Hx, messages_afterMessage.
Qed.

(** X11. The chat route keeps the store consistent, whatever the message:
    if every database, table and row is stored under its own id, no two
    databases have the same name (letter case set aside), every table that
    names a database names a stored one and every row belongs to a stored
    table, then the same holds after the request. Deleting a database takes
    its tables and their rows with it, deleting a table takes its rows, and
    nothing is created under a parent that is not stored. *)
Theorem chat_route_keeps_store_consistent
    (uuid : nat -> string) (clock : nat -> Z)
    (validated : Server.InsertChatMessage) (w : Server.world) :
  consistent w -> consistent (Server.chatMessage uuid clock validated w).2.
Proof. intros H. by apply keeps_snd; [apply chatMessage_consistent|]. Qed.

(** X11 at the empty store and a command that creates a table. *)
Lemma chat_route_keeps_store_consistent_witness :
  consistent
    (Server.chatMessage uuid0 clock0
       (Server.NewMessage Server.Null "create table student with id, name" "user")
       emptyWorld).2.
Proof.
  apply (chat_route_keeps_store_consistent uuid0 clock0
           (Server.NewMessage Server.Null "create table student with id, name" "user")
           emptyWorld).
  repeat split; try (by intros ? ? []); try (by intros ? []); try (by intros ? ? ? []).
  apply List.NoDup_nil.
Defined.

(** X12. The chat route leaves nothing unsaved: if each JSON file holds what
    its map holds in memory before the request, it does after it. *)
Theorem chat_route_saves_what_it_changes
    (uuid : nat -> string) (clock : nat -> Z)
    (validated : Server.InsertChatMessage) (w : Server.world) :
  persisted w -> persisted (Server.chatMessage uuid clock validated w).2.
Proof. intros H. by apply keeps_snd; [apply chatMessage_persisted|]. Qed.

(** X12 at the store of the school and a command that inserts a row into
    its table [student]. *)
Lemma chat_route_saves_what_it_changes_witness :
  persisted
    (Server.chatMessage uuid0 clock0
       (Server.NewMessage Server.Null "insert into student values 2, Ravi" "user")
       studentWorld).2.
Proof.
  apply (chat_route_saves_what_it_changes uuid0 clock0
           (Server.NewMessage Server.Null "insert into student values 2, Ravi" "user")
           studentWorld).
  reflexivity.
Defined.

Section RowFacts.
Import Js Server.

Lemma values_set_new {V} (m : jsmap V) k v :
  get m k = None -> values (set m k v) = values m ++ [v].
Proof.
  unfold get, values. induction m as [|[k0 v0] m IH]; simpl; [done|].
  destruct (String.eqb k0 k); simpl; [done|]. intros H. by rewrite IH.
Qed.

Lemma present_text (s : string) : s <> "" -> present (Some s) = true.
Proof. by destruct s. Qed.

Lemma tables_with_rows f m : tables (with_rows f m) = tables m.
Proof. by destruct m. Qed.

Lemma rows_with_rows f m : rows (with_rows f m) = f (rows m).
Proof. by destruct m. Qed.

End RowFacts.

(** X13. A row that has been inserted is shown. When the table named is
    found, the test of the primary key passes and the identifier drawn is
    new, the action [insert_row] answers with the text of the formatter, and
    [show_table] on the same name then answers with the table formatted
    with the rows it had, in their order, followed by the new row: the
    object built from the columns of the table and the values given. *)
Theorem inserted_row_is_shown
    (uuid : nat -> string) (clock : nat -> Z)
    (validated validated' : Server.InsertChatMessage)
    (userMessage userMessage' : Server.ChatMessage)
    (tableName : string) (values_ : list string) (t : Server.DatabaseTable)
    (w : Server.world) :
  tableName <> "" ->
  Server.findTable (Server.values (Server.tables (Server.mem w))) tableName = Some t ->
  violation (Server.NewRow (Server.tb_id t) (Server.rowData (Server.tb_columns t) values_))
    (Server.mem w) = None ->
  Server.get (Server.rows (Server.mem w)) (uuid (Server.uuids w)) = None ->
  exists w1 w2,
    Server.execute uuid clock validated userMessage "insert_row"
      (DValues tableName values_) w =
      (Extract.Ok (inr (generateChatResponse "insert_row" (DValues tableName values_) None)),
       w1) /\
    Server.execute uuid clock validated' userMessage' "show_table" (DTableName tableName) w1 =
      (Extract.Ok
         (inr (generateChatResponse "show_table" (DTableName tableName)
                 (Some (ExecResult (Some (Server.shownTable t))
                          (Some (map Server.shownRow
                                   (List.filter
                                      (fun r => Str.eqb (Server.tr_tableId r) (Server.tb_id t))
                                      (Server.values (Server.rows (Server.mem w)))
                                    ++ [Server.TRow (uuid (Server.uuids w)) (Server.tb_id t)
                                          (Server.rowData (Server.tb_columns t) values_)
                                          (clock (Server.dates w))]))))))),
       w2).
Proof.
  intros Hn Hf Hv Hg.
  unfold Server.execute.
  change (Str.eqb "insert_row" "create_database") with false.
  change (Str.eqb "insert_row" "delete_database") with false.
  change (Str.eqb "insert_row" "show_databases") with false.
  change (Str.eqb "insert_row" "create_table") with false.
  change (Str.eqb "insert_row" "delete_table") with false.
  change (Str.eqb "insert_row" "add_column") with false.
  change (Str.eqb "insert_row" "insert_row") with true.
  change (Str.eqb "show_table" "create_database") with false.
  change (Str.eqb "show_table" "delete_database") with false.
  change (Str.eqb "show_table" "show_databases") with false.
  change (Str.eqb "show_table" "create_table") with false.
  change (Str.eqb "show_table" "delete_table") with false.
  change (Str.eqb "show_table" "add_column") with false.
  change (Str.eqb "show_table" "insert_row") with false.
  change (Str.eqb "show_table" "update_row") with false.
  change (Str.eqb "show_table" "delete_row") with false.
  change (Str.eqb "show_table" "show_table") with true.
  cbn [andb d_tableName d_values].
  rewrite (present_text tableName Hn).
  unfold Server.insertRowBranch, Server.showTableBranch, Server.try_catch.
  cbv [mbind Server.Rt_bind Server.bind Server.getTables Server.reads].
  cbn [d_tableName d_values Server.text_of default from_option id].
  cbn [andb]. cbv beta iota. rewrite Hf. rewrite insertRow_run. cbn [Server.ir_tableId Server.ir_data]. rewrite Hv.
  cbv [Server.broadcast Server.say mret Server.Rt_ret Server.ret Server.getRows Server.reads].
  cbv beta iota zeta. cbn [Server.mem].
  eexists _, _. split; [reflexivity|].
  cbn [Server.mem]. rewrite tables_with_rows, Hf.
  cbv beta iota. cbn [Server.mem]. rewrite rows_with_rows, (values_set_new _ _ _ Hg), List.filter_app.
  cbn [List.filter Server.tr_tableId].
  unfold Str.eqb at 2. rewrite String.eqb_refl. reflexivity.
Qed.

(** X13 at a store with the table [student(id, name)] and one row. *)
Lemma inserted_row_is_shown_witness :
  exists w1 w2,
    Server.execute uuid0 clock0 (Server.NewMessage Server.Null "insert" "user")
      (Server.Message "m0" None "insert" "user" 0) "insert_row"
      (DValues "Student" ["2"; "Ravi"]) studentWorld =
      (Extract.Ok (inr (generateChatResponse "insert_row" (DValues "Student" ["2"; "Ravi"]) None)),
       w1) /\
    Server.execute uuid0 clock0 (Server.NewMessage Server.Null "show" "user")
      (Server.Message "m1" None "show" "user" 1) "show_table" (DTableName "Student") w1 =
      (Extract.Ok
         (inr (generateChatResponse "show_table" (DTableName "Student")
                 (Some (ExecResult (Some (Server.shownTable studentTable))
                          (Some (map Server.shownRow
                                   (List.filter
                                      (fun r => Str.eqb (Server.tr_tableId r)
                                                  (Server.tb_id studentTable))
                                      (Server.values (Server.rows (Server.mem studentWorld)))
                                    ++ [Server.TRow (uuid0 (Server.uuids studentWorld))
                                          (Server.tb_id studentTable)
                                          (Server.rowData (Server.tb_columns studentTable)
                                             ["2"; "Ravi"])
                                          (clock0 (Server.dates studentWorld))]))))))),
       w2).
Proof.
  apply (inserted_row_is_shown uuid0 clock0 (Server.NewMessage Server.Null "insert" "user")
           (Server.NewMessage Server.Null "show" "user")
           (Server.Message "m0" None "insert" "user" 0)
           (Server.Message "m1" None "show" "user" 1)
           "Student" ["2"; "Ravi"] studentTable studentWorld);
    [done | reflexivity | reflexivity | reflexivity].
Defined.

Section RowDataFacts.
Import Js Server.

Implicit Types (columns : list StoredColumn).

Lemma write_ordinary key v o :
  key <> "__proto__" -> write key v o = Obj (<[key := v]> (own o)) (proto o).
Proof.
  intros H. unfold write. apply String.eqb_neq in H. unfold Str.eqb. by rewrite H.
Qed.

(** The loop of [insert_row] over the columns, from the index [g 0] on. *)
Lemma rowData_other columns (values_ : list string) (g : nat -> nat) data k :
  Forall (fun c => c_name (sc_column c) <> "__proto__") columns ->
  ~ In k (map (fun c => c_name (sc_column c)) columns) ->
  own (fold_left
         (fun data ic =>
            write (c_name (sc_column ic.2))
              (match values_ !! ic.1 with
               | Some v => if Str.is_empty v then VNull else VStr v
               | None => VNull
               end) data)
         (imap (fun idx col => (g idx, col)) columns) data) !! k = own data !! k.
Proof.
  revert g data. induction columns as [|c columns IH]; intros g data Hp Hk; [done|].
  cbn [imap fold_left]. simpl in Hk. inversion Hp as [|? ? Hc Hp']; subst.
  rewrite (IH (fun idx => g (S idx))) by tauto.
  cbn [fst snd]. rewrite write_ordinary by done. cbn [own].
  apply lookup_insert_ne. tauto.
Qed.

Lemma rowData_at columns (values_ : list string) (g : nat -> nat) data i c :
  List.NoDup (map (fun c => c_name (sc_column c)) columns) ->
  Forall (fun c => c_name (sc_column c) <> "__proto__") columns ->
  columns !! i = Some c ->
  own (fold_left
         (fun data ic =>
            write (c_name (sc_column ic.2))
              (match values_ !! ic.1 with
               | Some v => if Str.is_empty v then VNull else VStr v
               | None => VNull
               end) data)
         (imap (fun idx col => (g idx, col)) columns) data) !! c_name (sc_column c) =
  Some (match values_ !! g i with
        | Some v => if Str.is_empty v then VNull else VStr v
        | None => VNull
        end).
Proof.
  revert g data i. induction columns as [|c0 columns IH]; intros g data i Hnd Hp Hi; [done|].
  cbn [imap fold_left]. simpl in Hnd. apply List.NoDup_cons_iff in Hnd as [Hc0 Hnd].
  inversion Hp as [|? ? Hc Hp']; subst.
  destruct i as [|i]; simpl in Hi.
  - injection Hi as ->.
    rewrite (rowData_other columns values_ (fun idx => g (S idx))) by done.
    cbn [fst snd]. rewrite write_ordinary by done. cbn [own].
    apply lookup_insert_eq.
  - by apply (IH (fun idx => g (S idx))).
Qed.

End RowDataFacts.

(** X14. What is inserted is what is shown. For a table whose column names
    differ from one another and from [__proto__], the cells the formatter
    writes for the row that [insert_row] builds are the values given, by
    position: the cell of the i-th column reads the i-th value, a missing
    value reads as the empty text, and the values beyond the last column are
    dropped. *)
Theorem inserted_cells_read_by_position
    (columns : list Server.StoredColumn) (values_ : list string)
    (id tableId : string) (createdAt : Z) :
  List.NoDup (map (fun c => c_name (Server.sc_column c)) columns) ->
  Forall (fun c => c_name (Server.sc_column c) <> "__proto__") columns ->
  map (cellText (Server.shownRow
                   (Server.TRow id tableId (Server.rowData columns values_) createdAt)))
    (map Server.sc_column columns) =
  map (fun i => default "" (values_ !! i)) (seq 0 (length columns)).
Proof.
  intros Hnd Hp. apply list_eq. intros i.
  change (map ?f ?l) with (f <$> l). rewrite !list_lookup_fmap.
  destruct (columns !! i) as [c|] eqn:Hi; simpl.
  - rewrite lookup_seq_lt by (by apply lookup_lt_Some in Hi). simpl.
    f_equal. unfold cellText, Server.shownRow. cbn [data Server.tr_data].
    unfold Server.rowData, Js.read.
    rewrite (rowData_at columns values_ (fun idx => idx) Js.empty_object i c Hnd Hp Hi).
    unfold Js.any_or. simpl. destruct (values_ !! i) as [v|]; [|done]. simpl.
    by destruct v.
  - rewrite lookup_seq_ge by (by apply lookup_ge_None in Hi). done.
Qed.

(** X14 at the table [student(id, name)], with a value too few. *)
Lemma inserted_cells_read_by_position_witness :
  map (cellText (Server.shownRow
                   (Server.TRow "r2" "t1"
                      (Server.rowData (Server.tb_columns studentTable) ["2"]) 0)))
    (map Server.sc_column (Server.tb_columns studentTable)) =
  map (fun i => default "" (["2"] !! i)) (seq 0 (length (Server.tb_columns studentTable))).
Proof.
  apply (inserted_cells_read_by_position (Server.tb_columns studentTable) ["2"] "r2" "t1" 0).
  - repeat (apply List.NoDup_cons; [vm_compute; intuition discriminate|]). apply List.NoDup_nil.
  - repeat (apply List.Forall_cons; [discriminate|]). apply List.Forall_nil.
Defined.

Section CascadeFacts.
Import Js Server.

Lemma NoDup_map_eq {A B} (f : A -> B) (l : list A) x y :
  List.NoDup (map f l) -> In x l -> In y l -> f x = f y -> x = y.
Proof.
  induction l as [|a l IH]; simpl; [done|]. intros H Hx Hy E.
  apply List.NoDup_cons_iff in H as [Ha Hl].
  destruct Hx as [-> | Hx], Hy as [-> | Hy]; [done| | |by apply IH].
  - exfalso. apply Ha. rewrite E. by apply in_map.
  - exfalso. apply Ha. rewrite <- E. by apply in_map.
Qed.

Lemma NoDup_values_deletes {V A B} (f : V -> B) (key : A -> string) (l : list A)
    (m : jsmap V) :
  List.NoDup (map f (values m)) ->
  List.NoDup (map f (values (fold_left (fun m' x => delete m' (key x)) l m))).
Proof.
  revert m. induction l as [|x l IH]; intros m H; simpl; [done|].
  by apply IH, NoDup_values_delete.
Qed.

Lemma of_database (t : DatabaseTable) id :
  match tb_databaseId t with
  | Some d => Str.eqb d id
  | None => false
  end = true <-> tb_databaseId t = Some id.
Proof.
  destruct (tb_databaseId t) as [d|]; [|by split].
  unfold Str.eqb. rewrite String.eqb_eq. split; [by intros ->|by intros [= ->]].
Qed.

(** The rows that are left when the rows of one table go. *)
Lemma rows_of_table_deleted (rs : jsmap TableRow) tableId k r :
  (forall k r, In (k, r) rs -> tr_id r = k) ->
  List.NoDup (map tr_id (values rs)) ->
  In (k, r)
    (fold_left (fun rs' r => delete rs' (tr_id r))
       (List.filter (fun r => Str.eqb (tr_tableId r) tableId) (values rs)) rs) <->
  In (k, r) rs /\ tr_tableId r <> tableId.
Proof.
  intros Kr Hnd. rewrite In_deletes.
  split; intros [Hin H]; (split; [done|]).
  - intros E. apply H. apply in_map_iff. exists r. split; [by apply Kr|].
    apply filter_In. split; [apply In_values; by exists k|].
    unfold Str.eqb. by apply String.eqb_eq.
  - intros Hk. apply in_map_iff in Hk as (r' & Hid & Hr').
    apply filter_In in Hr' as [Hr' E]. unfold Str.eqb in E. apply String.eqb_eq in E.
    apply H. rewrite <- E. f_equal.
    apply (NoDup_map_eq tr_id (values rs)); [done| |done|].
    + apply In_values. by exists k.
    + rewrite Hid. by apply Kr.
Qed.

Lemma dropTable_rows m t k r :
  (forall k r, In (k, r) (rows m) -> tr_id r = k) ->
  List.NoDup (map tr_id (values (rows m))) ->
  In (k, r) (rows (dropTable m t)) <-> In (k, r) (rows m) /\ tr_tableId r <> tb_id t.
Proof.
  intros Kr Hnd. destruct m as [ss ms ds ts rs].
  cbn [rows dropTable with_tables with_rows] in *. by apply rows_of_table_deleted.
Qed.

Lemma dropTables_rows (l : list DatabaseTable) m k r :
  (forall k r, In (k, r) (rows m) -> tr_id r = k) ->
  List.NoDup (map tr_id (values (rows m))) ->
  In (k, r) (rows (fold_left dropTable l m)) <->
  In (k, r) (rows m) /\ ~ In (tr_tableId r) (map tb_id l).
Proof.
  revert m. induction l as [|t l IH]; intros m Kr Hnd; cbn [fold_left map].
  - simpl. tauto.
  - rewrite IH.
    + rewrite dropTable_rows by done. simpl. intuition congruence.
    + intros k' r' Hin. apply dropTable_rows in Hin as [Hin _]; [by apply Kr|done|done].
    + destruct m as [ss ms ds ts rs]. cbn [rows dropTable with_tables with_rows] in *.
      by apply NoDup_values_deletes.
Qed.

End CascadeFacts.

(** X15. Deleting a database deletes the database, its tables and the rows
    of its tables, and nothing else. In a store where every entry is kept
    under its own id and no two tables and no two rows share an id,
    [deleteDatabase] returns, and afterwards the databases are the others,
    the tables are those of the other databases (and those of none), the rows
    are those of the tables that are left, and the sessions and the messages
    are as they were. A row of a table that is not stored stays. *)
Theorem delete_database_cascades (id : string) (w : Server.world) :
  keysAreIds (Server.mem w) ->
  idsDiffer (Server.mem w) ->
  exists w',
    Server.deleteDatabase id w = (Extract.Ok tt, w') /\
    Server.sessions (Server.mem w') = Server.sessions (Server.mem w) /\
    Server.messages (Server.mem w') = Server.messages (Server.mem w) /\
    (forall d, In d (Server.values (Server.databases (Server.mem w'))) <->
               In d (Server.values (Server.databases (Server.mem w))) /\
               Server.db_id d <> id) /\
    (forall t, In t (Server.values (Server.tables (Server.mem w'))) <->
               In t (Server.values (Server.tables (Server.mem w))) /\
               Server.tb_databaseId t <> Some id) /\
    (forall r, In r (Server.values (Server.rows (Server.mem w'))) <->
               In r (Server.values (Server.rows (Server.mem w))) /\
               forall t, In t (Server.values (Server.tables (Server.mem w))) ->
                         Server.tb_id t = Server.tr_tableId r ->
                         Server.tb_databaseId t <> Some id).
Proof.
  intros (Kd & Kt & Kr) (Nt & Nr). rewrite deleteDatabase_run. cbv zeta.
  eexists. split; [reflexivity|]. cbn [Server.mem].
  set (l := List.filter _ (Server.values (Server.tables (Server.mem w)))).
  set (m0 := Server.with_databases _ (Server.mem w)).
  assert (Kr0 : forall k r, In (k, r) (Server.rows m0) -> Server.tr_id r = k).
  { subst m0. by destruct (Server.mem w). }
  assert (Nr0 : List.NoDup (map Server.tr_id (Server.values (Server.rows m0)))).
  { subst m0. by destruct (Server.mem w). }
  destruct (dropTables_spec l m0 Kr0) as (Hs & Hm & Hd & Ht & _).
  assert (Hl : forall t, In t l <->
                 In t (Server.values (Server.tables (Server.mem w))) /\
                 Server.tb_databaseId t = Some id).
  { intros t. subst l. by rewrite filter_In, of_database. }
  split; [by rewrite Hs; subst m0; destruct (Server.mem w)|].
  split; [by rewrite Hm; subst m0; destruct (Server.mem w)|].
  split; [|split].
  - intros d. rewrite Hd. subst m0. rewrite !In_values.
    replace (Server.databases (Server.with_databases _ (Server.mem w)))
      with (Server.delete (Server.databases (Server.mem w)) id) by by destruct (Server.mem w).
    split.
    + intros (k & Hin). apply In_delete in Hin as [Hin Hne].
      split; [by exists k|]. by rewrite (Kd _ _ Hin).
    + intros ((k & Hin) & Hne). exists k. apply In_delete. split; [done|].
      by rewrite <- (Kd _ _ Hin).
  - intros t. rewrite !In_values. split.
    + intros (k & Hin). apply Ht in Hin as [Hin Hk].
      replace (Server.tables m0) with (Server.tables (Server.mem w)) in Hin
        by (subst m0; by destruct (Server.mem w)).
      split; [by exists k|]. intros E. apply Hk. apply in_map_iff. exists t.
      split; [by apply Kt|]. apply Hl. split; [|done]. apply In_values. by exists k.
    + intros ((k & Hin) & Hne). exists k. apply Ht.
      replace (Server.tables m0) with (Server.tables (Server.mem w))
        by (subst m0; by destruct (Server.mem w)).
      split; [done|]. intros Hk. apply in_map_iff in Hk as (t' & Hid & Ht').
      apply Hl in Ht' as [Ht' E]. apply Hne.
      replace t with t'; [done|].
      apply (NoDup_map_eq Server.tb_id (Server.values (Server.tables (Server.mem w))));
        [done|done| |].
      * apply In_values. by exists k.
      * rewrite Hid. symmetry. by apply Kt.
  - intros r. rewrite !In_values.
    assert (Hrows : Server.rows m0 = Server.rows (Server.mem w)).
    { subst m0. by destruct (Server.mem w). }
    split.
    + intros (k & Hin). apply dropTables_rows in Hin as [Hin Hk]; [|done|done].
      rewrite Hrows in Hin. split; [by exists k|].
      intros t Ht' Hid E. apply Hk. apply in_map_iff. exists t. split; [done|].
      by apply Hl.
    + intros ((k & Hin) & Hnone). exists k. apply dropTables_rows; [done|done|].
      rewrite Hrows. split; [done|]. intros Hk. apply in_map_iff in Hk as (t & Hid & Ht').
      apply Hl in Ht' as [Ht' E]. by apply (Hnone t).
Qed.

(** X15 at the store of the school. *)
Lemma delete_database_cascades_witness :
  exists w',
    Server.deleteDatabase "d1" studentWorld = (Extract.Ok tt, w') /\
    Server.sessions (Server.mem w') = Server.sessions (Server.mem studentWorld) /\
    Server.messages (Server.mem w') = Server.messages (Server.mem studentWorld) /\
    (forall d, In d (Server.values (Server.databases (Server.mem w'))) <->
               In d (Server.values (Server.databases (Server.mem studentWorld))) /\
               Server.db_id d <> "d1") /\
    (forall t, In t (Server.values (Server.tables (Server.mem w'))) <->
               In t (Server.values (Server.tables (Server.mem studentWorld))) /\
               Server.tb_databaseId t <> Some "d1") /\
    (forall r, In r (Server.values (Server.rows (Server.mem w'))) <->
               In r (Server.values (Server.rows (Server.mem studentWorld))) /\
               forall t, In t (Server.values (Server.tables (Server.mem studentWorld))) ->
                         Server.tb_id t = Server.tr_tableId r ->
                         Server.tb_databaseId t <> Some "d1").
Proof.
  apply (delete_database_cascades "d1" studentWorld).
  - repeat split; by intros ? ? [[= <- <-] | []].
  - split; (apply List.NoDup_cons; [by intros []|apply List.NoDup_nil]).
Defined.

Ltac decide_action :=
  repeat match goal with
         | |- context [Str.eqb ?a ?b] =>
             let v := eval vm_compute in (Str.eqb a b) in
             lazymatch v with
             | true => change (Str.eqb a b) with true
             | false => change (Str.eqb a b) with false
             end
         end.

(** X16. The command that deletes a table deletes the table of that name
    and its rows, and nothing else. In a store where every entry is kept
    under its own id and no two tables and no two rows share an id, when the
    first table whose name is the name given, letter case set aside, is [t],
    the action [delete_table] answers with the text of the formatter and
    leaves the tables but [t], the rows but those of [t], and the databases
    as they were. *)
Theorem delete_table_takes_its_rows
    (uuid : nat -> string) (clock : nat -> Z)
    (validated : Server.InsertChatMessage) (userMessage : Server.ChatMessage)
    (tableName : string) (t : Server.DatabaseTable) (w : Server.world) :
  tableName <> "" ->
  keysAreIds (Server.mem w) ->
  idsDiffer (Server.mem w) ->
  Server.findTable (Server.values (Server.tables (Server.mem w))) tableName = Some t ->
  exists w',
    Server.execute uuid clock validated userMessage "delete_table" (DTableName tableName) w =
      (Extract.Ok (inr (generateChatResponse "delete_table" (DTableName tableName) None)),
       w') /\
    Server.databases (Server.mem w') = Server.databases (Server.mem w) /\
    (forall t', In t' (Server.values (Server.tables (Server.mem w'))) <->
                In t' (Server.values (Server.tables (Server.mem w))) /\ t' <> t) /\
    (forall r, In r (Server.values (Server.rows (Server.mem w'))) <->
               In r (Server.values (Server.rows (Server.mem w))) /\
               Server.tr_tableId r <> Server.tb_id t).
Proof.
  intros Hn (Kd & Kt & Kr) (Nt & Nr) Hf.
  unfold Server.execute. decide_action. cbn [andb d_tableName d_name].
  rewrite (present_text tableName Hn).
  unfold Server.deleteTableBranch, Server.try_catch.
  cbv [mbind Server.Rt_bind Server.bind Server.getTables Server.reads].
  cbn [d_tableName Server.text_of default from_option id andb]. cbv beta iota.
  rewrite Hf. rewrite deleteTable_run. cbv zeta.
  cbv [Server.broadcast Server.say mret Server.Rt_ret Server.ret]. cbv beta iota.
  eexists. split; [reflexivity|]. cbn [Server.mem].
  apply find_some in Hf as [Hin _].
  destruct (Server.mem w) as [ss ms ds ts rs].
  cbn [Server.databases Server.tables Server.rows Server.with_rows Server.with_tables] in *.
  split; [done|]. split.
  - intros t'. rewrite !In_values. split.
    + intros (k & Hk). apply In_delete in Hk as [Hk Hne]. split; [by exists k|].
      intros ->. apply Hne. symmetry. by apply Kt.
    + intros ((k & Hk) & Hne). exists k. apply In_delete. split; [done|].
      intros ->. apply Hne. apply (NoDup_map_eq Server.tb_id (Server.values ts)); [done| |done|].
      * apply In_values. by exists (Server.tb_id t).
      * by apply Kt.
  - intros r. rewrite !In_values. split.
    + intros (k & Hk). apply rows_of_table_deleted in Hk as [Hk Hne]; [|done|done].
      split; [by exists k|done].
    + intros ((k & Hk) & Hne). exists k. by apply rows_of_table_deleted.
Qed.

(** X16 at the store of the school; the name is given in capitals. *)
Lemma delete_table_takes_its_rows_witness :
  exists w',
    Server.execute uuid0 clock0 (Server.NewMessage Server.Null "delete table STUDENT" "user")
      (Server.Message "m0" None "delete table STUDENT" "user" 0)
      "delete_table" (DTableName "STUDENT") studentWorld =
      (Extract.Ok (inr (generateChatResponse "delete_table" (DTableName "STUDENT") None)),
       w') /\
    Server.databases (Server.mem w') = Server.databases (Server.mem studentWorld) /\
    (forall t', In t' (Server.values (Server.tables (Server.mem w'))) <->
                In t' (Server.values (Server.tables (Server.mem studentWorld))) /\
                t' <> studentTable) /\
    (forall r, In r (Server.values (Server.rows (Server.mem w'))) <->
               In r (Server.values (Server.rows (Server.mem studentWorld))) /\
               Server.tr_tableId r <> Server.tb_id studentTable).
Proof.
  apply (delete_table_takes_its_rows uuid0 clock0
           (Server.NewMessage Server.Null "delete table STUDENT" "user")
           (Server.Message "m0" None "delete table STUDENT" "user" 0)
           "STUDENT" studentTable studentWorld).
  - done.
  - repeat split; by intros ? ? [[= <- <-] | []].
  - split; (apply List.NoDup_cons; [by intros []|apply List.NoDup_nil]).
  - reflexivity.
Defined.

(** The execution of a command on a table that is not stored: no change,
    and the reply says so. *)
Lemma execute_unknown_table
    (uuid : nat -> string) (clock : nat -> Z)
    (validated : Server.InsertChatMessage) (userMessage : Server.ChatMessage)
    (action tableName : string) (details : Details) (w : Server.world) :
  In action ["delete_table"; "insert_row"; "update_row"; "delete_row"; "show_table"] ->
  d_tableName details = Some tableName ->
  tableName <> "" ->
  (action = "insert_row" -> d_values details <> None) ->
  Server.findTable (Server.values (Server.tables (Server.mem w))) tableName = None ->
  Server.execute uuid clock validated userMessage action details w =
    (Extract.Ok (inr (Server.CROSS +:+ " Table " +:+ Server.Q +:+ tableName +:+ Server.Q
                      +:+ " not found")), w).
Proof.
  intros Ha Ht Hn Hv Hf. unfold Server.execute.
  assert (Hp : Server.present (d_tableName details) = true)
    by (rewrite Ht; by apply present_text).
  assert (Hnot : Server.tableNotFound details =
                 Server.CROSS +:+ " Table " +:+ Server.Q +:+ tableName +:+ Server.Q
                 +:+ " not found").
  { unfold Server.tableNotFound. by rewrite Ht. }
  rewrite <- Hnot.
  assert (Hd : d_name details = None) by (by destruct details).
  assert (Hdb : Server.d_databaseName details = None) by (by destruct details).
  simpl in Ha.
  destruct Ha as [<- | [<- | [<- | [<- | [<- | []]]]]]; decide_action;
    rewrite ?Hp, ?Hd, ?Hdb; cbn [andb Server.present]; cbv beta iota.
  - unfold Server.deleteTableBranch, Server.try_catch.
    cbv [mbind Server.Rt_bind Server.bind Server.getTables Server.reads].
    rewrite Ht. cbn [Server.text_of default from_option id]. by rewrite Hf.
  - destruct (d_values details) as [vs|] eqn:E; [|by destruct Hv].
    unfold Server.insertRowBranch, Server.try_catch.
    cbv [mbind Server.Rt_bind Server.bind Server.getTables Server.reads].
    rewrite Ht. cbn [Server.text_of default from_option id]. by rewrite Hf.
  - unfold Server.updateRowBranch, Server.try_catch.
    cbv [mbind Server.Rt_bind Server.bind Server.getTables Server.reads].
    rewrite Ht. cbn [Server.text_of default from_option id]. by rewrite Hf.
  - unfold Server.deleteRowBranch, Server.try_catch.
    cbv [mbind Server.Rt_bind Server.bind Server.getTables Server.reads].
    rewrite Ht. cbn [Server.text_of default from_option id]. by rewrite Hf.
  - unfold Server.showTableBranch, Server.try_catch.
    cbv [mbind Server.Rt_bind Server.bind Server.getTables Server.reads].
    rewrite Ht. cbn [Server.text_of default from_option id]. by rewrite Hf.
Qed.

(** A stored message leaves the data, the broadcasts and the log as they
    are. *)
Lemma afterMessage_data uuid clock message w :
  let w' := afterMessage uuid clock message w in
  Server.databases (Server.mem w') = Server.databases (Server.mem w) /\
  Server.tables (Server.mem w') = Server.tables (Server.mem w) /\
  Server.rows (Server.mem w') = Server.rows (Server.mem w) /\
  Server.databases (Server.disk w') = Server.databases (Server.disk w) /\
  Server.tables (Server.disk w') = Server.tables (Server.disk w) /\
  Server.rows (Server.disk w') = Server.rows (Server.disk w) /\
  Server.sent w' = Server.sent w /\ Server.logged w' = Server.logged w.
Proof.
  unfold afterMessage. destruct w as [m d u dt s l]. cbn [Server.mem Server.disk].
  destruct (Server.given _) as [sid|]; [|by destruct m, d].
  destruct (Server.get _ _); by destruct m, d.
Qed.

(** X17. A command on a table that is not stored changes no data and says
    so. When the message is read as [delete_table], [insert_row],
    [update_row], [delete_row] or [show_table] on a name that no stored
    table has, letter case set aside, the route stores the message and its
    reply, as it does for every message, and replies with the two; the text
    of the reply is the cross, [Table], the name in quotes and [not found];
    the databases, the tables and the rows are left as they are, in memory
    and in their files; the only broadcasts are the two chat messages and the
    only line logged is [Action:]. *)
Theorem unknown_table_changes_nothing
    (uuid : nat -> string) (clock : nat -> Z)
    (validated : Server.InsertChatMessage)
    (action tableName : string) (details : Details) (w : Server.world) :
  processNaturalLanguageCommand (Server.icm_content validated) = Act action details ->
  In action ["delete_table"; "insert_row"; "update_row"; "delete_row"; "show_table"] ->
  d_tableName details = Some tableName ->
  tableName <> "" ->
  (action = "insert_row" -> d_values details <> None) ->
  Server.findTable (Server.values (Server.tables (Server.mem w))) tableName = None ->
  exists a w',
    Server.chatMessage uuid clock validated w =
      (Extract.Ok (Server.Json [newMessage uuid clock validated w; a]), w') /\
    Server.cm_role a = "assistant" /\
    Server.cm_content a =
      Server.CROSS +:+ " Table " +:+ Server.Q +:+ tableName +:+ Server.Q +:+ " not found" /\
    Server.databases (Server.mem w') = Server.databases (Server.mem w) /\
    Server.tables (Server.mem w') = Server.tables (Server.mem w) /\
    Server.rows (Server.mem w') = Server.rows (Server.mem w) /\
    Server.databases (Server.disk w') = Server.databases (Server.disk w) /\
    Server.tables (Server.disk w') = Server.tables (Server.disk w) /\
    Server.rows (Server.disk w') = Server.rows (Server.disk w) /\
    Server.sent w' =
      Server.sent w ++ [Server.Chat (newMessage uuid clock validated w); Server.Chat a] /\
    Server.logged w' = Server.logged w ++ ["Action:"].
Proof.
  intros Hcmd Ha Ht Hn Hv Hf.
  set (u := newMessage uuid clock validated w).
  unfold Server.chatMessage, Server.try_catch. cbv [mbind Server.Rt_bind Server.bind].
  rewrite addChatMessage_run. fold u.
  cbv [Server.broadcast Server.console]. cbv beta iota. rewrite Hcmd.
  cbn [Interpret.action Interpret.details].
  destruct (afterMessage_data uuid clock validated w)
    as (Md & Mt & Mr & Dd & Dt & Dr & Hs & Hl).
  rewrite (execute_unknown_table uuid clock validated u action tableName details _ Ha Ht Hn Hv)
    by (cbn [Server.mem]; by rewrite Mt).
  unfold Server.answer. cbv [mbind Server.Rt_bind Server.bind].
  rewrite addChatMessage_run.
  cbv [Server.broadcast mret Server.Rt_ret Server.ret]. cbv beta iota.
  eexists _, _. split; [reflexivity|].
  split; [reflexivity|]. split; [reflexivity|].
  match goal with
  | |- context [afterMessage uuid clock ?msg ?w2] =>
      destruct (afterMessage_data uuid clock msg w2)
        as (Md' & Mt' & Mr' & Dd' & Dt' & Dr' & Hs' & Hl')
  end.
  cbn [Server.mem Server.disk Server.sent Server.logged] in *.
  rewrite Md', Mt', Mr', Dd', Dt', Dr', Hs', Hl', Md, Mt, Mr, Dd, Dt, Dr, Hs, Hl.
  repeat split; try done. by rewrite <- app_assoc.
Qed.

(** X17 at the store of the school and a table [teacher]. *)
Lemma unknown_table_changes_nothing_witness :
  exists a w',
    Server.chatMessage uuid0 clock0 (Server.NewMessage Server.Null "show teacher" "user")
      studentWorld =
      (Extract.Ok
         (Server.Json
            [newMessage uuid0 clock0 (Server.NewMessage Server.Null "show teacher" "user")
               studentWorld; a]), w') /\
    Server.cm_role a = "assistant" /\
    Server.cm_content a =
      Server.CROSS +:+ " Table " +:+ Server.Q +:+ "teacher" +:+ Server.Q +:+ " not found" /\
    Server.databases (Server.mem w') = Server.databases (Server.mem studentWorld) /\
    Server.tables (Server.mem w') = Server.tables (Server.mem studentWorld) /\
    Server.rows (Server.mem w') = Server.rows (Server.mem studentWorld) /\
    Server.databases (Server.disk w') = Server.databases (Server.disk studentWorld) /\
    Server.tables (Server.disk w') = Server.tables (Server.disk studentWorld) /\
    Server.rows (Server.disk w') = Server.rows (Server.disk studentWorld) /\
    Server.sent w' =
      Server.sent studentWorld ++
        [Server.Chat
           (newMessage uuid0 clock0 (Server.NewMessage Server.Null "show teacher" "user")
              studentWorld);
         Server.Chat a] /\
    Server.logged w' = Server.logged studentWorld ++ ["Action:"].
Proof.
  apply (unknown_table_changes_nothing uuid0 clock0
           (Server.NewMessage Server.Null "show teacher" "user")
           "show_table" "teacher" (DTableName "teacher") studentWorld).
  - by vm_compute.
  - simpl. tauto.
  - reflexivity.
  - done.
  - discriminate.
  - reflexivity.
Defined.

Section RowCommands.
Import Js Server.

Lemma keys_NoDup (rs : jsmap TableRow) :
  (forall k r, In (k, r) rs -> tr_id r = k) ->
  List.NoDup (map tr_id (values rs)) -> List.NoDup (map fst rs).
Proof.
  intros Kr H. replace (map fst rs) with (map tr_id (values rs)); [done|].
  unfold values. rewrite map_map. apply map_ext_in. intros [k r] Hin. by apply Kr.
Qed.

Lemma filter_all {A} (f : A -> bool) (l : list A) :
  (forall x, In x l -> f x = true) -> List.filter f l = l.
Proof.
  induction l as [|x l IH]; simpl; [done|]. intros H.
  rewrite (H x) by by left. f_equal. apply IH. intros y Hy. apply H. by right.
Qed.

Lemma filter_twice {A} (f g : A -> bool) (l : list A) :
  List.filter f (List.filter g l) = List.filter (fun x => g x && f x) l.
Proof.
  induction l as [|x l IH]; simpl; [done|].
  destruct (g x); simpl; [|done]. destruct (f x); by rewrite IH.
Qed.

(** Deleting the keys of a list, one after the other, filters the map. *)
Lemma deletes_filter {V A} (key : A -> string) (l : list A) (m : jsmap V) :
  fold_left (fun m' x => delete m' (key x)) l m =
  List.filter (fun kv => negb (existsb (fun x => String.eqb (key x) kv.1) l)) m.
Proof.
  revert m. induction l as [|x l IH]; intros m; simpl.
  - symmetry. by apply filter_all.
  - rewrite IH. unfold delete. rewrite filter_twice. apply filter_ext. intros [k v]. simpl.
    rewrite (String.eqb_sym k). by destruct (String.eqb (key x) k).
Qed.

Lemma values_filter {V} (f : string * V -> bool) (g : V -> bool) (m : jsmap V) :
  (forall kv, In kv m -> f kv = g kv.2) ->
  values (List.filter f m) = List.filter g (values m).
Proof.
  unfold values. induction m as [|kv m IH]; simpl; [done|]. intros H.
  rewrite (H kv) by by left. destruct (g kv.2); simpl; (rewrite IH; [done|]);
    intros kv' Hin; apply H; by right.
Qed.

(** Among the rows that satisfy [p], the id of a stored row is found when
    the row satisfies [p], and only then. *)
Lemma matching_key (rs : jsmap TableRow) (p : TableRow -> bool) k r :
  (forall k r, In (k, r) rs -> tr_id r = k) ->
  List.NoDup (map tr_id (values rs)) ->
  In (k, r) rs ->
  existsb (fun x => String.eqb (tr_id x) k) (List.filter p (values rs)) = p r.
Proof.
  intros Kr Hnd Hin. destruct (p r) eqn:E.
  - apply existsb_exists. exists r. split.
    + apply filter_In. split; [apply In_values; by exists k|done].
    + apply String.eqb_eq. by apply Kr.
  - apply not_true_is_false. intros H. apply existsb_exists in H as (x & Hx & Hk).
    apply filter_In in Hx as [Hx Hp]. apply String.eqb_eq in Hk.
    assert (x = r); [|congruence].
    apply (NoDup_map_eq tr_id (values rs)); [done|done| |].
    + apply In_values. by exists k.
    + rewrite Hk. symmetry. by apply Kr.
Qed.

Lemma deleteRows_run (l : list TableRow) w :
  exists d,
    for_each l (fun row => deleteRow (tr_id row)) w =
    (Ok tt,
     World (with_rows (fun rs => fold_left (fun rs' r => delete rs' (tr_id r)) l rs) (mem w))
       d (uuids w) (dates w) (sent w) (logged w)).
Proof.
  revert w. induction l as [|x l IH]; intros w.
  - exists (disk w). simpl. unfold ret. f_equal. destruct w as [[] ? ? ? ? ?]. done.
  - cbn [for_each]. unfold bind. rewrite deleteRow_run.
    destruct (IH (World (with_rows (fun m => delete m (tr_id x)) (mem w))
                    (with_rows (fun _ => delete (rows (mem w)) (tr_id x)) (disk w))
                    (uuids w) (dates w) (sent w) (logged w))) as (d & ->).
    exists d. cbn [mem uuids dates sent logged fold_left]. by destruct (mem w).
Qed.

End RowCommands.



(** A condition on a member that every row inherits: under [constructor]
    the row of the school reads as a function, not as [undefined], so no row
    is found and the store stays as it is. *)
Lemma delete_where_inherited_member :
  Server.execute uuid0 clock0 (Server.NewMessage Server.Null "delete" "user")
    (Server.Message "m0" None "delete" "user" 0) "delete_row"
    (DWhere "student" "constructor = undefined") studentWorld =
  (Extract.Ok
     (inr (Server.CROSS +:+ " No rows found in " +:+ Server.Q +:+ "student" +:+ Server.Q
           +:+ " where constructor = undefined")),
   studentWorld).
Proof. by vm_compute. Qed.

Section UpdateFacts.
Import Js Server.

Lemma get_key {V} (m : jsmap V) k : In k (map fst m) -> exists v, get m k = Some v.
Proof.
  unfold get. induction m as [|[k0 v0] m IH]; simpl; [done|].
  destruct (String.eqb k0 k) eqn:E; [by exists v0|].
  intros [-> | H]; [by rewrite String.eqb_refl in E|by apply IH].
Qed.

(** Setting a key that is there changes its entry where it stands. *)
Lemma set_there {V} (f : V -> V) (m : jsmap V) k v :
  List.NoDup (map fst m) -> get m k = Some v ->
  set m k (f v) = map (fun kv => if String.eqb kv.1 k then (kv.1, f kv.2) else kv) m.
Proof.
  unfold get. induction m as [|[k0 v0] m IH]; simpl; [done|].
  intros Hnd Hg. apply List.NoDup_cons_iff in Hnd as [Hk0 Hnd].
  destruct (String.eqb k0 k) eqn:E.
  - simpl in Hg. injection Hg as ->. apply String.eqb_eq in E as ->. f_equal.
    symmetry. rewrite <- (map_id m) at 2. apply map_ext_in. intros [k' v'] Hin. simpl.
    destruct (String.eqb k' k) eqn:E'; [|done]. apply String.eqb_eq in E' as ->.
    exfalso. apply Hk0. apply in_map_iff. by exists (k, v').
  - f_equal. by apply IH.
Qed.

Lemma updated_twice data r : updated data (updated data r) = updated data r.
Proof.
  unfold updated. cbn [tr_id tr_tableId tr_data tr_createdAt]. f_equal.
  cbn [Js.own]. by rewrite (assoc_L (∪)), (idemp_L (∪)).
Qed.

Lemma with_rows_twice f g m : with_rows f (with_rows g m) = with_rows (fun rs => f (g rs)) m.
Proof. by destruct m. Qed.

Lemma with_rows_ext f g m : f (rows m) = g (rows m) -> with_rows f m = with_rows g m.
Proof. destruct m. simpl. unfold with_rows. simpl. by intros ->. Qed.

Lemma updateRow_unit_run id data w :
  (_ ← updateRow id data; mret tt) w =
  match get (rows (mem w)) id with
  | None => (Throw "Row not found", w)
  | Some r =>
      (Ok tt,
       World (with_rows (fun m => set m id (updated data r)) (mem w))
         (with_rows (fun _ => set (rows (mem w)) id (updated data r)) (disk w))
         (uuids w) (dates w) (sent w) (logged w))
  end.
Proof.
  cbv [mbind Rt_bind bind]. rewrite updateRow_run. by destruct (get _ _).
Qed.

Lemma updateRows_run data (l : list TableRow) w :
  List.NoDup (map fst (rows (mem w))) ->
  (forall x, In x l -> In (tr_id x) (map fst (rows (mem w)))) ->
  exists d,
    for_each l (fun row => _ ← updateRow (tr_id row) data; mret tt) w =
    (Ok tt,
     World (with_rows
              (map (fun kv => if existsb (fun x => String.eqb (tr_id x) kv.1) l
                              then (kv.1, updated data kv.2) else kv))
              (mem w))
       d (uuids w) (dates w) (sent w) (logged w)).
Proof.
  revert w. induction l as [|x l IH]; intros w Hnd Hl.
  - exists (disk w). simpl. unfold ret. f_equal. destruct w as [[] ? ? ? ? ?].
    unfold with_rows. cbn [mem sessions messages databases tables rows]. by rewrite map_id.
  - cbn [for_each]. unfold bind. rewrite updateRow_unit_run.
    destruct (get_key (rows (mem w)) (tr_id x)) as (r & Hg); [apply Hl; by left|].
    rewrite Hg. cbv zeta.
    set (w1 := World _ _ _ _ _ _).
    assert (Hrows : rows (mem w1) =
                    map (fun kv => if String.eqb kv.1 (tr_id x)
                                   then (kv.1, updated data kv.2) else kv) (rows (mem w))).
    { subst w1. cbn [mem]. rewrite rows_with_rows.
      by rewrite <- (set_there (updated data) (rows (mem w)) (tr_id x) r). }
    assert (Hkeys : map fst (rows (mem w1)) = map fst (rows (mem w))).
    { rewrite Hrows, map_map. apply map_ext. intros [k v]. simpl.
      by destruct (String.eqb k (tr_id x)). }
    destruct (IH w1) as (d & ->).
    { by rewrite Hkeys. }
    { intros y Hy. rewrite Hkeys. apply Hl. by right. }
    exists d. subst w1. cbn [mem uuids dates sent logged].
    rewrite with_rows_twice.
    rewrite (with_rows_ext _
               (map (fun kv => if existsb (fun x0 => String.eqb (tr_id x0) kv.1) (x :: l)
                               then (kv.1, updated data kv.2) else kv)) (mem w)); [done|].
    rewrite (set_there (updated data) (rows (mem w)) (tr_id x) r) by done.
    rewrite map_map. apply map_ext. intros [k v]. cbn [existsb fst snd].
    rewrite (String.eqb_sym (tr_id x) k).
    destruct (String.eqb k (tr_id x)); cbn [fst snd orb]; [|done].
    destruct (existsb _ l); [|done]. by rewrite updated_twice.
Qed.

End UpdateFacts.



(** The handler, for any property of the state that the operations of the
    store keep. *)
Section RouteInvariant.
Import Js Server.

Variable uuid : nat -> string.
Variable clock : nat -> Z.
Variable I : world -> Prop.

Hypothesis K_broadcast : forall e E, triple I (broadcast e) (fun _ => I) E.
Hypothesis K_console : forall l E, triple I (console l) (fun _ => I) E.
Hypothesis K_addChatMessage :
  forall m E, triple I (addChatMessage uuid clock m) (fun _ => I) E.
Hypothesis K_deleteDatabase : forall id E, triple I (deleteDatabase id) (fun _ => I) E.
Hypothesis K_deleteTable : forall id E, triple I (deleteTable id) (fun _ => I) E.
Hypothesis K_deleteRow : forall id E, triple I (deleteRow id) (fun _ => I) E.
Hypothesis K_createDatabase : forall d, keeps I (createDatabase uuid clock d).
Hypothesis K_createTable : forall t, keeps I (createTable uuid clock t).
Hypothesis K_insertRow : forall r, keeps I (insertRow uuid clock r).
Hypothesis K_updateRow : forall id data, keeps I (updateRow id data).
Hypothesis K_updateTable : forall id columns, keeps I (updateTable id columns).

Lemma answer_invariant validated userMessage text E :
  triple I (answer uuid clock validated userMessage text) (fun _ => I) E.
Proof.
  unfold answer. eapply triple_bind; [apply K_addChatMessage|]. intros a.
  eapply triple_bind; [apply K_broadcast|]. intros u0. by apply triple_ret.
Qed.

Lemma chatMessage_invariant validated w :
  I w -> I (chatMessage uuid clock validated w).2.
Proof.
  apply keeps_snd.
  unfold chatMessage. eapply (triple_try_catch _ _ _ _ I).
  - eapply triple_bind; [apply K_addChatMessage|]. intros userMessage.
    eapply triple_bind; [apply K_broadcast|]. intros u0.
    eapply triple_bind; [apply K_console|]. intros u1.
    eapply triple_bind.
    + apply (execute_spec uuid clock I validated userMessage (fun _ => I));
        first [ done | intros; apply answer_invariant ].
    + intros [returned | text]; [by apply triple_ret|apply answer_invariant].
  - intros e. eapply triple_bind; [apply K_console|]. intros u0. by apply triple_ret.
Qed.

End RouteInvariant.

Section KeyFacts.
Import Js Server.

Context {V : Type}.
Variable id : V -> string.

(** An entry set under its own id leaves the ids distinct. *)
Lemma ids_set (m : jsmap V) k v :
  (forall k' v', In (k', v') m -> id v' = k') ->
  id v = k ->
  List.NoDup (map id (values m)) ->
  (forall k' v', In (k', v') (set m k v) -> id v' = k') /\
  List.NoDup (map id (values (set m k v))).
Proof.
  intros K Hv Hnd. split.
  { intros k' v' Hin. apply In_set in Hin as [[-> ->] | Hin]; [done|by apply K]. }
  induction m as [|[k0 v0] m IH]; simpl.
  - apply List.NoDup_cons; [by intros []|apply List.NoDup_nil].
  - simpl in Hnd. apply List.NoDup_cons_iff in Hnd as [H0 Hnd].
    assert (K0 : id v0 = k0) by (apply K; by left).
    assert (Km : forall k' v', In (k', v') m -> id v' = k')
      by (intros k' v' Hin; apply K; by right).
    destruct (String.eqb k0 k) eqn:E; simpl.
    + apply String.eqb_eq in E. apply List.NoDup_cons; [|done]. by rewrite Hv, <- E, <- K0.
    + apply String.eqb_neq in E. apply List.NoDup_cons; [|by apply IH].
      intros Hin. apply in_map_iff in Hin as (v' & Hid & Hin).
      apply In_values in Hin as (k' & Hin). apply In_set in Hin as [[-> ->] | Hin].
      * congruence.
      * apply H0. apply in_map_iff. exists v'. split; [done|]. apply In_values. by exists k'.
Qed.

Lemma ids_delete (m : jsmap V) k :
  (forall k' v', In (k', v') m -> id v' = k') ->
  List.NoDup (map id (values m)) ->
  (forall k' v', In (k', v') (delete m k) -> id v' = k') /\
  List.NoDup (map id (values (delete m k))).
Proof.
  intros K Hnd. split; [|by apply NoDup_values_delete].
  intros k' v' Hin. apply In_delete in Hin as [Hin _]. by apply K.
Qed.

Lemma ids_deletes {A} (key : A -> string) (l : list A) (m : jsmap V) :
  (forall k' v', In (k', v') m -> id v' = k') ->
  List.NoDup (map id (values m)) ->
  (forall k' v', In (k', v') (fold_left (fun m' x => delete m' (key x)) l m) -> id v' = k') /\
  List.NoDup (map id (values (fold_left (fun m' x => delete m' (key x)) l m))).
Proof.
  intros K Hnd. split; [|by apply NoDup_values_deletes].
  intros k' v' Hin. apply In_deletes in Hin as [Hin _]. by apply K.
Qed.

End KeyFacts.

Section IdsKept.
Import Js Server.

Variable uuid : nat -> string.
Variable clock : nat -> Z.

Ltac keyed_start :=
  intros w ((Kd & Kt & Kr) & (Nt & Nr));
  rewrite ?createDatabase_run, ?createTable_run, ?insertRow_run, ?updateRow_run,
    ?updateTable_run, ?deleteRow_run, ?deleteTable_run;
  cbv zeta.

Ltac keyed_open w :=
  unfold keyed, keysAreIds, idsDiffer; cbn [mem];
  destruct (mem w) as [ss ms ds ts rs];
  cbn [databases tables rows with_databases with_tables with_rows] in *.

Lemma keyed_broadcast e E : triple keyed (broadcast e) (fun _ => keyed) E.
Proof. by intros w H. Qed.

Lemma keyed_console l E : triple keyed (console l) (fun _ => keyed) E.
Proof. by intros w H. Qed.

Lemma keyed_data w w' :
  databases (mem w') = databases (mem w) -> tables (mem w') = tables (mem w) ->
  rows (mem w') = rows (mem w) -> keyed w -> keyed w'.
Proof. unfold keyed, keysAreIds, idsDiffer. by intros -> -> ->. Qed.

Lemma keyed_addChatMessage message E :
  triple keyed (addChatMessage uuid clock message) (fun _ => keyed) E.
Proof.
  intros w H. rewrite addChatMessage_run. revert H. apply keyed_data;
    unfold afterMessage; destruct (given _) as [sid|]; try done;
    by destruct (get _ _).
Qed.

Lemma keyed_createDatabase d : keeps keyed (createDatabase uuid clock d).
Proof.
  keyed_start. destruct (List.find _ _); [done|]. keyed_open w.
  repeat split; try done.
  intros k' v' Hin. apply In_set in Hin as [[-> ->] | Hin]; [done|by apply Kd].
Qed.

Lemma keyed_createTable t : keeps keyed (createTable uuid clock t).
Proof.
  keyed_start. destruct (List.find _ _); [done|]. keyed_open w.
  destruct (ids_set tb_id ts (uuid (uuids w))
              (DbTable (uuid (uuids w)) (or_null (it_databaseId t)) (it_name t)
                 (it_columns t) (JObj []) (clock (dates w)))) as [K N]; done.
Qed.

Lemma keyed_insertRow r : keeps keyed (insertRow uuid clock r).
Proof.
  keyed_start. destruct (violation _ _); [done|]. keyed_open w.
  destruct (ids_set tr_id rs (uuid (uuids w))
              (TRow (uuid (uuids w)) (ir_tableId r) (ir_data r) (clock (dates w))))
    as [K N]; done.
Qed.

Lemma keyed_updateRow id data : keeps keyed (updateRow id data).
Proof.
  keyed_start. destruct (get _ _) as [r|] eqn:Hg; [|done]. keyed_open w.
  apply get_In, Kr in Hg.
  destruct (ids_set tr_id rs id
              (TRow (tr_id r) (tr_tableId r) (Obj (data ∪ own (tr_data r)) ObjectPrototype) (tr_createdAt r)))
    as [K N]; done.
Qed.

Lemma keyed_updateTable id columns : keeps keyed (updateTable id columns).
Proof.
  keyed_start. destruct (get _ _) as [t|] eqn:Hg; [|done]. keyed_open w.
  apply get_In, Kt in Hg.
  destruct (ids_set tb_id ts id
              (DbTable (tb_id t) (tb_databaseId t) (tb_name t) columns (tb_positions t)
                 (tb_createdAt t))) as [K N]; done.
Qed.

Lemma keyed_deleteRow id E : triple keyed (deleteRow id) (fun _ => keyed) E.
Proof.
  keyed_start. keyed_open w. destruct (ids_delete tr_id rs id) as [K N]; done.
Qed.

Lemma keyed_deleteTable id E : triple keyed (deleteTable id) (fun _ => keyed) E.
Proof.
  keyed_start. keyed_open w. destruct (ids_delete tb_id ts id) as [K N]; [done|done|].
  destruct (ids_deletes tr_id tr_id
              (List.filter (fun r => Str.eqb (tr_tableId r) id) (values rs)) rs)
    as [K' N']; done.
Qed.

Lemma dropTable_keyed m t :
  keysAreIds m /\ idsDiffer m -> keysAreIds (dropTable m t) /\ idsDiffer (dropTable m t).
Proof.
  intros ((Kd & Kt & Kr) & (Nt & Nr)). unfold keysAreIds, idsDiffer.
  destruct m as [ss ms ds ts rs].
  cbn [databases tables rows dropTable with_databases with_tables with_rows] in *.
  destruct (ids_delete tb_id ts (tb_id t)) as [K N]; [done|done|].
  destruct (ids_deletes tr_id tr_id
              (List.filter (fun r => Str.eqb (tr_tableId r) (tb_id t)) (values rs)) rs)
    as [K' N']; done.
Qed.

Lemma dropTables_keyed l m :
  keysAreIds m /\ idsDiffer m ->
  keysAreIds (fold_left dropTable l m) /\ idsDiffer (fold_left dropTable l m).
Proof.
  revert m. induction l as [|t l IH]; intros m H; simpl; [done|].
  by apply IH, dropTable_keyed.
Qed.

Lemma keyed_deleteDatabase id E : triple keyed (deleteDatabase id) (fun _ => keyed) E.
Proof.
  intros w H. rewrite deleteDatabase_run. cbv zeta. unfold keyed. cbn [mem].
  apply dropTables_keyed. destruct H as ((Kd & Kt & Kr) & (Nt & Nr)).
  unfold keysAreIds, idsDiffer. destruct (mem w) as [ss ms ds ts rs].
  cbn [databases tables rows with_databases] in *. repeat split; try done.
  intros k' v' Hin. apply In_delete in Hin as [Hin _]. by apply Kd.
Qed.

Lemma chatMessage_keyed validated w :
  keyed w -> keyed (chatMessage uuid clock validated w).2.
Proof.
  apply chatMessage_invariant;
    first [ apply keyed_broadcast | apply keyed_console | apply keyed_addChatMessage
          | apply keyed_deleteDatabase | apply keyed_deleteTable | apply keyed_deleteRow
          | apply keyed_createDatabase | apply keyed_createTable | apply keyed_insertRow
          | apply keyed_updateRow | apply keyed_updateTable ].
Qed.

End IdsKept.

(** X20. The chat route keeps every entry under its own id and the ids
    distinct, whatever the message and whatever identifiers are drawn: if
    every database, table and row is stored under its own id, no two tables
    have the same id and no two rows have the same id, then the same holds
    after the request. *)
Theorem chat_route_keeps_ids_distinct
    (uuid : nat -> string) (clock : nat -> Z)
    (validated : Server.InsertChatMessage) (w : Server.world) :
  keysAreIds (Server.mem w) ->
  idsDiffer (Server.mem w) ->
  keysAreIds (Server.mem (Server.chatMessage uuid clock validated w).2) /\
  idsDiffer (Server.mem (Server.chatMessage uuid clock validated w).2).
Proof. intros K N. by apply chatMessage_keyed. Qed.

(** X20 at the store of the school and a command that inserts a row. *)
Lemma chat_route_keeps_ids_distinct_witness :
  keysAreIds
    (Server.mem (Server.chatMessage uuid0 clock0
                   (Server.NewMessage Server.Null "insert into student values 2, Ravi" "user")
                   studentWorld).2) /\
  idsDiffer
    (Server.mem (Server.chatMessage uuid0 clock0
                   (Server.NewMessage Server.Null "insert into student values 2, Ravi" "user")
                   studentWorld).2).
Proof.
  apply (chat_route_keeps_ids_distinct uuid0 clock0
           (Server.NewMessage Server.Null "insert into student values 2, Ravi" "user")
           studentWorld).
  - repeat split; by intros ? ? [[= <- <-] | []].
  - split; (apply List.NoDup_cons; [by intros []|apply List.NoDup_nil]).
Defined.

Section NameFacts.
Import Js Server.

Context {V B : Type}.
Variable f : V -> B.
Variable p : V -> bool.

(** The entries that are left of a map keep distinct what was distinct. *)
Lemma NoDup_filter_entries (q : string * V -> bool) (m : jsmap V) :
  List.NoDup (map f (List.filter p (values m))) ->
  List.NoDup (map f (List.filter p (values (List.filter q m)))).
Proof.
  unfold values. induction m as [|[k v] m IH]; simpl; [done|]. intros H.
  assert (Hm : List.NoDup (map f (List.filter p (map snd m)))).
  { destruct (p v); [|done]. simpl in H. by apply List.NoDup_cons_iff in H as [_ H]. }
  destruct (q (k, v)); simpl; [|by apply IH].
  destruct (p v); simpl; [|by apply IH]. simpl in H.
  apply List.NoDup_cons_iff in H as [Hv _]. apply List.NoDup_cons; [|by apply IH].
  intros Hin. apply Hv. apply in_map_iff in Hin as (y & Hy & Hin).
  apply in_map_iff. exists y. split; [done|]. apply filter_In in Hin as [Hin Hp].
  apply filter_In. split; [|done]. apply in_map_iff in Hin as (kv & <- & Hin).
  apply filter_In in Hin as [Hin _]. apply in_map_iff. by exists kv.
Qed.

(** A new entry that differs from those that count keeps them distinct. *)
Lemma NoDup_filter_set (m : jsmap V) k v :
  List.NoDup (map f (List.filter p (values m))) ->
  (p v = true -> ~ In (f v) (map f (List.filter p (values m)))) ->
  List.NoDup (map f (List.filter p (values (set m k v)))).
Proof.
  unfold values. induction m as [|[k0 v0] m IH]; simpl.
  - intros _ _. destruct (p v); simpl; [|apply List.NoDup_nil].
    apply List.NoDup_cons; [by intros []|apply List.NoDup_nil].
  - intros H Hv.
    assert (Hm : List.NoDup (map f (List.filter p (map snd m)))).
    { destruct (p v0); [|done]. simpl in H. by apply List.NoDup_cons_iff in H as [_ H]. }
    assert (Hv' : p v = true -> ~ In (f v) (map f (List.filter p (map snd m)))).
    { intros Hp Hin. apply (Hv Hp). destruct (p v0); [|done]. by right. }
    destruct (String.eqb k0 k); simpl.
    + destruct (p v) eqn:Hp; simpl; [|done]. apply List.NoDup_cons; [by apply Hv'|done].
    + destruct (p v0) eqn:Hp0; simpl; [|by apply IH]. simpl in H.
      apply List.NoDup_cons_iff in H as [H0 _]. apply List.NoDup_cons; [|by apply IH].
      intros Hin. apply in_map_iff in Hin as (y & Hy & Hin).
      apply filter_In in Hin as [Hin Hpy].
      apply in_map_iff in Hin as ([k1 v1] & <- & Hin). simpl in *.
      apply In_set in Hin as [[_ ->] | Hin].
      * apply (Hv Hpy). left. congruence.
      * apply H0. apply in_map_iff. exists v1. split; [done|]. apply filter_In.
        split; [|done]. apply in_map_iff. by exists (k1, v1).
Qed.

(** An entry set in the place of one that counts alike changes nothing. *)
Lemma filter_set_there (m : jsmap V) k v v' :
  get m k = Some v -> f v' = f v -> p v' = p v ->
  map f (List.filter p (values (set m k v'))) = map f (List.filter p (values m)).
Proof.
  unfold get, values. induction m as [|[k0 v0] m IH]; simpl; [done|].
  intros Hg Hf Hp. destruct (String.eqb k0 k); simpl.
  - simpl in Hg. injection Hg as ->. rewrite Hp. destruct (p v); simpl; by rewrite ?Hf.
  - destruct (p v0); simpl; by rewrite IH.
Qed.

End NameFacts.

Section NamesKept.
Import Js Server.

Variable uuid : nat -> string.
Variable clock : nat -> Z.

Lemma names_data (w w' : world) :
  tables (mem w') = tables (mem w) -> tableNamesDiffer (mem w) -> tableNamesDiffer (mem w').
Proof. unfold tableNamesDiffer. by intros ->. Qed.

Ltac names_frame :=
  intros w H;
  rewrite ?createDatabase_run, ?insertRow_run, ?updateRow_run, ?deleteRow_run;
  cbv zeta;
  repeat match goal with
         | |- context [List.find ?f ?l] => destruct (List.find f l)
         | |- context [get ?m ?k] => destruct (get m k)
         | |- context [violation ?r ?m] => destruct (violation r m)
         end;
  try done; revert H; apply names_data; cbn [mem]; by destruct (mem w).

Lemma names_broadcast e E :
  triple (fun w => tableNamesDiffer (mem w)) (broadcast e) (fun _ w => tableNamesDiffer (mem w)) E.
Proof. by intros w H. Qed.

Lemma names_console l E :
  triple (fun w => tableNamesDiffer (mem w)) (console l) (fun _ w => tableNamesDiffer (mem w)) E.
Proof. by intros w H. Qed.

Lemma names_addChatMessage message E :
  triple (fun w => tableNamesDiffer (mem w)) (addChatMessage uuid clock message)
    (fun _ w => tableNamesDiffer (mem w)) E.
Proof.
  intros w H. rewrite addChatMessage_run. revert H. apply names_data.
  unfold afterMessage. destruct (given _) as [sid|]; [|by destruct (mem w)].
  destruct (get _ _); by destruct (mem w).
Qed.

Lemma names_createDatabase d :
  keeps (fun w => tableNamesDiffer (mem w)) (createDatabase uuid clock d).
Proof. names_frame. Qed.

Lemma names_insertRow r : keeps (fun w => tableNamesDiffer (mem w)) (insertRow uuid clock r).
Proof. names_frame. Qed.

Lemma names_updateRow id data : keeps (fun w => tableNamesDiffer (mem w)) (updateRow id data).
Proof. names_frame. Qed.

Lemma names_deleteRow id E :
  triple (fun w => tableNamesDiffer (mem w)) (deleteRow id)
    (fun _ w => tableNamesDiffer (mem w)) E.
Proof. names_frame. Qed.

Lemma names_deleteTable id E :
  triple (fun w => tableNamesDiffer (mem w)) (deleteTable id)
    (fun _ w => tableNamesDiffer (mem w)) E.
Proof.
  intros w H. rewrite deleteTable_run. cbv zeta. unfold tableNamesDiffer in *. cbn [mem].
  destruct (mem w) as [ss ms ds ts rs]. cbn [tables with_tables with_rows] in *.
  by apply NoDup_filter_entries.
Qed.

Lemma tables_with_databases g m : tables (with_databases g m) = tables m.
Proof. by destruct m. Qed.

Lemma dropTables_tables l m :
  tables (fold_left dropTable l m) =
  fold_left (fun ts t => delete ts (tb_id t)) l (tables m).
Proof.
  revert m. induction l as [|t l IH]; intros m; simpl; [done|].
  rewrite IH. by destruct m.
Qed.

Lemma names_deleteDatabase id E :
  triple (fun w => tableNamesDiffer (mem w)) (deleteDatabase id)
    (fun _ w => tableNamesDiffer (mem w)) E.
Proof.
  intros w H. rewrite deleteDatabase_run. cbv zeta. unfold tableNamesDiffer in *. cbn [mem].
  rewrite dropTables_tables, deletes_filter, tables_with_databases.
  by apply NoDup_filter_entries.
Qed.

Lemma names_updateTable id columns :
  keeps (fun w => tableNamesDiffer (mem w)) (updateTable id columns).
Proof.
  intros w H. rewrite updateTable_run. destruct (get _ _) as [t|] eqn:Hg; [|done].
  cbv zeta. unfold tableNamesDiffer in *. cbn [mem].
  destruct (mem w) as [ss ms ds ts rs]. cbn [tables with_tables] in *.
  by rewrite (filter_set_there _ _ ts id t).
Qed.

Lemma names_createTable t :
  keeps (fun w => tableNamesDiffer (mem w)) (createTable uuid clock t).
Proof.
  intros w H. rewrite createTable_run. destruct (List.find _ _) eqn:Hfind; [done|].
  cbv zeta. unfold tableNamesDiffer in *. cbn [mem].
  destruct (mem w) as [ss ms ds ts rs]. cbn [tables with_tables] in *.
  apply NoDup_filter_set; [done|]. cbn [tb_databaseId tb_name].
  intros Hp Hin. apply in_map_iff in Hin as (t' & Hkey & Hin).
  apply filter_In in Hin as [Hin _].
  apply (find_none _ _ Hfind) in Hin. injection Hkey as Hd Hname.
  unfold same_name in Hin. rewrite Hname in Hin. unfold Str.eqb at 1 in Hin.
  rewrite String.eqb_refl in Hin. rewrite Hd in Hin.
  destruct (it_databaseId t) as [| |d]; simpl in *; try done.
  destruct (Str.is_empty d); [done|]. simpl in Hin. unfold Str.eqb in Hin.
  by rewrite String.eqb_refl in Hin.
Qed.

Lemma chatMessage_names validated w :
  tableNamesDiffer (mem w) -> tableNamesDiffer (mem (chatMessage uuid clock validated w).2).
Proof.
  apply (chatMessage_invariant uuid clock (fun w => tableNamesDiffer (mem w)));
    first [ apply names_broadcast | apply names_console | apply names_addChatMessage
          | apply names_deleteDatabase | apply names_deleteTable | apply names_deleteRow
          | apply names_createDatabase | apply names_createTable | apply names_insertRow
          | apply names_updateRow | apply names_updateTable ].
Qed.

End NamesKept.

(** X21. The chat route never gives two tables of one database the same
    name: if no two stored tables that name the same database have the same
    name, letter case set aside, the same holds after the request, whatever
    the message. *)
Theorem chat_route_keeps_table_names_distinct
    (uuid : nat -> string) (clock : nat -> Z)
    (validated : Server.InsertChatMessage) (w : Server.world) :
  tableNamesDiffer (Server.mem w) ->
  tableNamesDiffer (Server.mem (Server.chatMessage uuid clock validated w).2).
Proof. apply chatMessage_names. Qed.

(** X21 at the store of the school and a command that creates the table
    that is there, in capitals. *)
Lemma chat_route_keeps_table_names_distinct_witness :
  tableNamesDiffer
    (Server.mem (Server.chatMessage uuid0 clock0
                   (Server.NewMessage Server.Null
                      "create table STUDENT with id, name in database school" "user")
                   studentWorld).2).
Proof.
  apply (chat_route_keeps_table_names_distinct uuid0 clock0
           (Server.NewMessage Server.Null
              "create table STUDENT with id, name in database school" "user")
           studentWorld).
  apply List.NoDup_cons; [by intros []|apply List.NoDup_nil].
Defined.

(* ===================================================================== *)
(** * The import of a file *)
(* ===================================================================== *)

Section ImportRuns.
Import Js Server Upload.

Variable uuid : nat -> string.
Variable clock : nat -> Z.

Lemma find_none_impl {A} (p q : A -> bool) (l : list A) :
  (forall x, In x l -> q x = true -> p x = true) ->
  List.find p l = None -> List.find q l = None.
Proof.
  induction l as [|x l IH]; simpl; [done|]. intros H.
  destruct (p x) eqn:Ep; [done|]. intros Hf.
  destruct (q x) eqn:Eq.
  - rewrite (H x) in Ep; [done|by left|done].
  - apply IH; [|done]. intros y Hy. apply H. by right.
Qed.

(** What [getTableByName] does not find, [createTable] does not find. *)
Lemma lookup_then_create name d (ts : list DatabaseTable) :
  List.find (fun t =>
               let nameMatch := same_name (tb_name t) name in
               if Str.is_empty d then nameMatch
               else nameMatch && match tb_databaseId t with
                                 | Some d' => Str.eqb d' d
                                 | None => false
                                 end) ts = None ->
  List.find (fun t => same_name (tb_name t) name
                      && same_database (tb_databaseId t) (Given d)) ts = None.
Proof.
  apply find_none_impl. intros t _. cbv zeta.
  destruct (same_name _ _); [|done]. simpl.
  destruct (tb_databaseId t) as [d'|]; simpl; [|done].
  intros ->. by destruct (Str.is_empty d).
Qed.

Lemma get_set {V} (m : jsmap V) k v : get (set m k v) k = Some v.
Proof.
  unfold get. induction m as [|[k0 v0] m IH]; simpl.
  - by rewrite String.eqb_refl.
  - destruct (String.eqb k0 k) eqn:E; simpl; [by rewrite String.eqb_refl|by rewrite E].
Qed.

Lemma insertRow_unit_run row w :
  (_ ← insertRow uuid clock row; mret tt) w =
  match violation row (mem w) with
  | Some message => (Throw message, w)
  | None =>
      let r := TRow (uuid (uuids w)) (ir_tableId row) (ir_data row) (clock (dates w)) in
      (Ok tt,
       World (with_rows (fun m => set m (uuid (uuids w)) r) (mem w))
         (with_rows (fun _ => set (rows (mem w)) (uuid (uuids w)) r) (disk w))
         (S (uuids w)) (S (dates w)) (sent w) (logged w))
  end.
Proof.
  cbv [mbind Rt_bind bind]. rewrite insertRow_run. by destruct (violation _ _).
Qed.

(** The rows of a table without a primary key go in, one after the other. *)
Lemma insertRows_run tableId t (rws : list object) w :
  get (tables (mem w)) tableId = Some t ->
  List.find sc_isPrimaryKey (tb_columns t) = None ->
  exists d,
    for_each rws (fun row => _ ← insertRow uuid clock (NewRow tableId row); mret tt) w =
    (Ok tt,
     World (with_rows
              (fun rs => fold_left (fun rs' r => set rs' (tr_id r) r)
                           (importedRows uuid clock (uuids w) (dates w) tableId rws) rs)
              (mem w))
       d (uuids w + length rws) (dates w + length rws) (sent w) (logged w)).
Proof.
  revert w. induction rws as [|row rws IH]; intros w Hg Hpk.
  - exists (disk w). simpl. unfold ret. rewrite !Nat.add_0_r. f_equal.
    destruct w as [[] ? ? ? ? ?]. done.
  - cbn [for_each]. unfold bind. rewrite insertRow_unit_run.
    unfold violation. cbn [ir_tableId ir_data]. rewrite Hg, Hpk. cbv zeta.
    set (w1 := World _ _ _ _ _ _).
    destruct (IH w1) as (d & ->); [by subst w1; cbn [mem]; rewrite tables_with_rows|done|].
    exists d. subst w1. cbn [mem uuids dates sent logged length].
    rewrite with_rows_twice, !Nat.add_succ_r. f_equal. f_equal.
    apply with_rows_ext. unfold importedRows. cbn [imap fold_left tr_id].
    rewrite !Nat.add_0_r. f_equal. apply imap_ext. intros i r _. simpl.
    by rewrite !Nat.add_succ_r.
Qed.

(** The body of the loop, from the name on. *)
Lemma importNamed_run (defaultDb : Database) (tableData : Extract.ExtractedTable)
    tableName w :
  exists imported d n,
    (existingTable ← getTableByName tableName (Some (db_id defaultDb));
     match existingTable with
     | Some _ => mret None
     | None =>
         table ← createTable uuid clock
           (NewTable (Given (db_id defaultDb)) tableName
              (map (fun c => SCol c false) (Extract.columns tableData)));
         for_each (Extract.rows tableData) (fun row =>
           _ ← insertRow uuid clock (NewRow (tb_id table) row); mret tt);;
         broadcast (TableCreated table);;
         mret (Some table)
     end) w =
    (Ok imported,
     match imported with
     | None => w
     | Some table =>
         World
           (with_rows
              (fun rs => fold_left (fun rs' r => set rs' (tr_id r) r)
                           (importedRows uuid clock (S (uuids w)) (S (dates w)) (tb_id table)
                              (Extract.rows tableData)) rs)
              (with_tables (fun m => set m (tb_id table) table) (mem w)))
           d (S (uuids w) + n) (S (dates w) + n) (sent w ++ [TableCreated table]) (logged w)
     end) /\
    match imported with
    | None =>
        List.find (fun t => same_name (tb_name t) tableName) (values (tables (mem w))) <> None
    | Some table =>
        n = length (Extract.rows tableData) /\
        table = DbTable (uuid (uuids w)) (or_null (Given (db_id defaultDb))) tableName
                  (map (fun c => SCol c false) (Extract.columns tableData)) (JObj [])
                  (clock (dates w))
    end.
Proof.
  cbv [mbind Rt_bind bind getTableByName reads]. cbv beta iota zeta.
  destruct (List.find _ _) as [t|] eqn:Hf.
  - exists None, (disk w), 0. split; [done|].
    intros Hnone. apply find_some in Hf as [Hin Hp].
    apply (find_none _ _ Hnone) in Hin.
    destruct (Str.is_empty (db_id defaultDb)); [congruence|].
    apply andb_true_iff in Hp as [Hp _]. congruence.
  - rewrite createTable_run. cbn [it_name it_databaseId it_columns].
    rewrite (lookup_then_create _ _ _ Hf). cbv zeta.
    set (table := DbTable _ _ _ _ _ _). set (w1 := World _ _ _ _ _ _).
    destruct (insertRows_run (tb_id table) table (Extract.rows tableData) w1) as (d & Hrun).
    { subst w1 table. cbn [mem tb_id]. destruct (mem w). cbn [tables with_tables].
      apply get_set. }
    { subst table. cbn [tb_columns]. clear.
      induction (Extract.columns tableData) as [|c l IH]; [done|exact IH]. }
    cbv [mbind Rt_bind bind] in Hrun. rewrite Hrun.
    exists (Some table), d, (length (Extract.rows tableData)). split; [|done].
    subst w1. cbn [mem uuids dates sent logged]. done.
Qed.

Lemma bind_run {A B} (m : Rt A) (f : A -> Rt B) w a w1 :
  m w = (Ok a, w1) -> (m ≫= f) w = f a w1.
Proof. cbv [mbind Rt_bind bind]. by intros ->. Qed.

Lemma importTable_returns defaultDb tableData w :
  exists imported w', importTable uuid clock defaultDb tableData w = (Ok imported, w').
Proof.
  unfold importTable.
  destruct (Str.is_empty (Extract.name tableData)).
  - erewrite bind_run; [|reflexivity].
    destruct (importNamed_run defaultDb tableData
                ("imported_" +:+ pretty (clock (dates w)))
                (World (mem w) (disk w) (uuids w) (S (dates w)) (sent w) (logged w)))
      as (imported & d & n & Hrun & _).
    rewrite Hrun. by eexists _, _.
  - erewrite bind_run; [|reflexivity].
    destruct (importNamed_run defaultDb tableData (Extract.name tableData) w)
      as (imported & d & n & Hrun & _).
    rewrite Hrun. by eexists _, _.
Qed.

Lemma importLoop_returns defaultDb tables createdTables w :
  exists created w',
    importLoop uuid clock defaultDb tables createdTables w = (Ok created, w') /\
    length created <= length createdTables + length tables.
Proof.
  revert createdTables w. induction tables as [|tableData tables IH]; intros createdTables w.
  - exists createdTables, w. split; [done|]. simpl. lia.
  - cbn [importLoop]. cbv [mbind Rt_bind bind].
    destruct (importTable_returns defaultDb tableData w) as (imported & w1 & ->).
    destruct (IH (match imported with
                  | Some table => createdTables ++ [table]
                  | None => createdTables
                  end) w1) as (created & w' & -> & Hlen).
    exists created, w'. split; [done|]. destruct imported; simpl in *;
      rewrite ?length_app in Hlen; simpl in *; lia.
Qed.

Lemma getOrCreateDefaultDatabase_returns w :
  exists db w', getOrCreateDefaultDatabase uuid clock w = (Ok db, w').
Proof.
  unfold getOrCreateDefaultDatabase. cbv [mbind Rt_bind bind reads].
  destruct (List.find _ _) as [db|] eqn:Hf; [by eexists _, _|].
  rewrite createDatabase_run. cbn [idb_name].
  unfold same_name. change (Str.toLowerCase "default") with "default".
  rewrite Hf. by eexists _, _.
Qed.

End ImportRuns.

(** X22. The import of the tables of a CSV file or of a text never fails.
    Whatever tables the CSV extractor or the text extractor built and
    whatever the store holds, the loop of the upload route returns: without a
    table it does nothing; otherwise it finds or creates the database
    [default] and goes through the tables, creating at most one table for
    each. No table it creates is refused as a duplicate and no row as a
    primary-key violation: the columns of these tables carry no
    [isPrimaryKey]. *)
Theorem upload_import_never_fails
    (uuid : nat -> string) (clock : nat -> Z) (host : string -> bool)
    (tables : list Extract.ExtractedTable) (w : Server.world) :
  Forall (ofCsvOrText host) tables ->
  match tables with
  | [] => Upload.importTables uuid clock tables w = (Extract.Ok None, w)
  | _ =>
      exists createdTables w',
        Upload.importTables uuid clock tables w = (Extract.Ok (Some createdTables), w') /\
        length createdTables <= length tables
  end.
Proof.
  intros _. destruct tables as [|tableData tables]; [done|].
  unfold Upload.importTables. cbn [length Nat.ltb Nat.leb].
  cbv [mbind Server.Rt_bind Server.bind].
  destruct (getOrCreateDefaultDatabase_returns uuid clock w) as (db & w1 & ->).
  destruct (importLoop_returns uuid clock db (tableData :: tables) [] w1)
    as (created & w' & -> & Hlen).
  by exists created, w'.
Qed.

(** The import, for any property of the state that the operations of the
    store keep. *)
Section ImportInvariant.
Import Js Server Upload.

Variable uuid : nat -> string.
Variable clock : nat -> Z.
Variable I : world -> Prop.

Hypothesis K_broadcast : forall e E, triple I (broadcast e) (fun _ => I) E.
Hypothesis K_newDate : forall E, triple I (newDate clock) (fun _ => I) E.
Hypothesis K_createDatabase : forall d, keeps I (createDatabase uuid clock d).
Hypothesis K_createTable : forall t, keeps I (createTable uuid clock t).
Hypothesis K_insertRow : forall r, keeps I (insertRow uuid clock r).

Lemma importTable_invariant defaultDb tableData :
  keeps I (importTable uuid clock defaultDb tableData).
Proof.
  unfold importTable. apply keeps_bind.
  - destruct (Str.is_empty _); [|apply keeps_ret].
    apply keeps_bind; [apply K_newDate|]. intros now. apply keeps_ret.
  - intros tableName. apply keeps_bind; [apply keeps_reads|].
    intros [t|]; [apply keeps_ret|].
    apply keeps_bind; [apply K_createTable|]. intros table.
    apply keeps_bind.
    + apply keeps_for_each. intros row.
      apply keeps_bind; [apply K_insertRow|]. intros r. apply keeps_ret.
    + intros u0. apply keeps_bind; [apply K_broadcast|]. intros u1. apply keeps_ret.
Qed.

Lemma importLoop_invariant defaultDb tables createdTables :
  keeps I (importLoop uuid clock defaultDb tables createdTables).
Proof.
  revert createdTables. induction tables as [|tableData tables IH]; intros createdTables.
  - apply keeps_ret.
  - cbn [importLoop]. apply keeps_bind; [apply importTable_invariant|].
    intros imported. apply IH.
Qed.

Lemma importTables_invariant tables w :
  I w -> I (importTables uuid clock tables w).2.
Proof.
  apply keeps_snd. unfold importTables. destruct (0 <? length tables); [|apply keeps_ret].
  apply keeps_bind.
  - unfold getOrCreateDefaultDatabase. apply keeps_bind; [apply keeps_reads|].
    intros [d|]; [apply keeps_ret|apply K_createDatabase].
  - intros defaultDb. apply keeps_bind; [apply importLoop_invariant|].
    intros created. apply keeps_ret.
Qed.

End ImportInvariant.

Section ImportConsistent.
Import Js Server Upload.

Variable uuid : nat -> string.
Variable clock : nat -> Z.

Lemma createTable_stored (db : Database) name columns :
  triple (fun w => consistent w /\ In db (values (databases (mem w))))
    (createTable uuid clock (NewTable (Given (db_id db)) name columns))
    (fun t w => (consistent w /\ In db (values (databases (mem w)))) /\
                In t (values (tables (mem w))))
    (fun w => consistent w /\ In db (values (databases (mem w)))).
Proof.
  intros w [Hc Hdb].
  pose proof (createTable_consistent uuid clock (db_id db) name columns w) as H.
  rewrite createTable_run in *. cbn [it_name it_databaseId it_columns] in *.
  destruct (List.find _ _); [done|]. cbv zeta in *. cbn [mem].
  split; [split|].
  - apply H. split; [done|]. by exists db.
  - by destruct (mem w).
  - destruct (mem w). cbn [tables with_tables]. apply In_values.
    eexists. apply In_set_new.
Qed.

Lemma insertRow_stored (db : Database) (t : DatabaseTable) data :
  keeps (fun w => (consistent w /\ In db (values (databases (mem w)))) /\
                  In t (values (tables (mem w))))
    (insertRow uuid clock (NewRow (tb_id t) data)).
Proof.
  intros w [[Hc Hdb] Ht].
  pose proof (insertRow_consistent uuid clock (tb_id t) data w) as H.
  rewrite insertRow_run in *. destruct (violation _ _); [done|]. cbv zeta in *. cbn [mem].
  split; [split|].
  - apply H. split; [done|]. by exists t.
  - by destruct (mem w).
  - by destruct (mem w).
Qed.

Lemma importTable_consistent (db : Database) tableData :
  keeps (fun w => consistent w /\ In db (values (databases (mem w))))
    (importTable uuid clock db tableData).
Proof.
  unfold importTable. apply keeps_bind.
  - destruct (Str.is_empty _); [|apply keeps_ret].
    apply keeps_bind; [by intros w H|]. intros now. apply keeps_ret.
  - intros tableName. apply keeps_bind; [apply keeps_reads|].
    intros [t|]; [apply keeps_ret|].
    eapply triple_bind; [apply createTable_stored|]. intros table.
    eapply (triple_bind _ _ _
              (fun _ w => (consistent w /\ In db (values (databases (mem w)))) /\
                          In table (values (tables (mem w))))).
    + eapply triple_weaken; [apply keeps_for_each| | |]; cycle 1.
      * intros w H. exact H.
      * intros u0 w H. exact H.
      * intros w H. by destruct H.
      * intros row. apply keeps_bind; [apply insertRow_stored|]. intros r. apply keeps_ret.
    + intros u0.
      eapply (triple_bind _ _ _
                (fun _ w => (consistent w /\ In db (values (databases (mem w)))) /\
                            In table (values (tables (mem w))))).
      * by intros w H.
      * intros u1. apply triple_ret. by intros w [H _].
Qed.

Lemma importLoop_consistent (db : Database) tables createdTables :
  keeps (fun w => consistent w /\ In db (values (databases (mem w))))
    (importLoop uuid clock db tables createdTables).
Proof.
  revert createdTables. induction tables as [|tableData tables IH]; intros createdTables.
  - apply keeps_ret.
  - cbn [importLoop]. apply keeps_bind; [apply importTable_consistent|].
    intros imported. apply IH.
Qed.

Lemma importTables_consistent tables : keeps consistent (importTables uuid clock tables).
Proof.
  unfold importTables. destruct (0 <? length tables); [|apply keeps_ret].
  eapply triple_bind; [apply getOrCreateDefaultDatabase_consistent|].
  intros defaultDb. eapply triple_bind.
  - eapply triple_weaken; [apply importLoop_consistent| | |].
    + intros w H. exact H.
    + intros created w H. exact H.
    + by intros w [H _].
  - intros created. apply triple_ret. by intros w [H _].
Qed.

Lemma keyed_newDate E : triple keyed (newDate clock) (fun _ => keyed) E.
Proof. by intros w H. Qed.

Lemma names_newDate E :
  triple (fun w => tableNamesDiffer (mem w)) (newDate clock)
    (fun _ w => tableNamesDiffer (mem w)) E.
Proof. by intros w H. Qed.

Lemma persisted_newDate E : triple persisted (newDate clock) (fun _ => persisted) E.
Proof. by intros w H. Qed.

End ImportConsistent.

(** X23. The import of the tables of a file keeps what the chat route
    keeps. Each of these, when it holds before the import, holds after it:
    the store is consistent (entries under their ids, database names
    distinct, every table in a stored database or in none, every row in a
    stored table); the ids of the tables and of the rows are distinct; no two
    tables of one database have the same name; what was last written to each
    file is what its map holds. *)
Theorem upload_import_keeps_the_store_sound
    (uuid : nat -> string) (clock : nat -> Z)
    (tables : list Extract.ExtractedTable) (w : Server.world) :
  (consistent w -> consistent (Upload.importTables uuid clock tables w).2) /\
  (keyed w -> keyed (Upload.importTables uuid clock tables w).2) /\
  (tableNamesDiffer (Server.mem w) ->
   tableNamesDiffer (Server.mem (Upload.importTables uuid clock tables w).2)) /\
  (persisted w -> persisted (Upload.importTables uuid clock tables w).2).
Proof.
  split; [apply keeps_snd, importTables_consistent|]. split; [|split].
  - apply importTables_invariant;
      first [ apply keyed_broadcast | apply keyed_newDate | apply keyed_createDatabase
            | apply keyed_createTable | apply keyed_insertRow ].
  - apply (importTables_invariant uuid clock (fun w => tableNamesDiffer (Server.mem w)));
      first [ apply names_broadcast | apply names_newDate | apply names_createDatabase
            | apply names_createTable | apply names_insertRow ].
  - apply importTables_invariant;
      first [ apply persisted_broadcast | apply persisted_newDate
            | apply persisted_createDatabase | apply persisted_createTable
            | apply persisted_insertRow ].
Qed.

Section ImportShown.
Import Js Server Upload.

Variable uuid : nat -> string.
Variable clock : nat -> Z.

Lemma get_set_other {V} (m : jsmap V) k v k' : k <> k' -> get (set m k v) k' = get m k'.
Proof.
  intros Hne. unfold get. induction m as [|[k0 v0] m IH]; simpl.
  - apply String.eqb_neq in Hne. by rewrite Hne.
  - destruct (String.eqb k0 k) eqn:E; simpl.
    + apply String.eqb_eq in E as ->. apply String.eqb_neq in Hne. by rewrite Hne.
    + destruct (String.eqb k0 k'); [done|exact IH].
Qed.

Lemma find_app {A} (p : A -> bool) (l1 l2 : list A) :
  List.find p (l1 ++ l2) =
  match List.find p l1 with
  | Some x => Some x
  | None => List.find p l2
  end.
Proof. induction l1 as [|x l1 IH]; simpl; [done|]. by destruct (p x). Qed.

Lemma filter_none {A} (p : A -> bool) (l : list A) :
  (forall x, In x l -> p x = false) -> List.filter p l = [].
Proof.
  induction l as [|x l IH]; simpl; [done|]. intros H.
  rewrite (H x) by by left. apply IH. intros y Hy. apply H. by right.
Qed.

(** New rows under new ids go to the end, in their order. *)
Lemma values_sets_new (new : list TableRow) (m : jsmap TableRow) :
  (forall r, In r new -> get m (tr_id r) = None) ->
  List.NoDup (map tr_id new) ->
  values (fold_left (fun m' r => set m' (tr_id r) r) new m) = values m ++ new.
Proof.
  revert m. induction new as [|r new IH]; intros m Hg Hnd; simpl.
  - by rewrite app_nil_r.
  - simpl in Hnd. apply List.NoDup_cons_iff in Hnd as [Hr Hnd].
    rewrite IH; [| |done].
    + rewrite values_set_new by (apply Hg; by left). by rewrite <- app_assoc.
    + intros r' Hr'. rewrite get_set_other; [apply Hg; by right|].
      intros E. apply Hr. rewrite E. by apply in_map.
Qed.

Lemma importedRows_ids u d tableId (rws : list object) :
  map tr_id (importedRows uuid clock u d tableId rws) = map uuid (seq u (length rws)).
Proof.
  unfold importedRows. revert u d. induction rws as [|row rws IH]; intros u d; [done|].
  cbn [imap map length seq tr_id]. rewrite Nat.add_0_r. f_equal.
  rewrite <- (IH (S u) (S d)). f_equal. apply imap_ext. intros i r _. simpl.
  by rewrite !Nat.add_succ_r.
Qed.

Lemma importedRows_In u d tableId (rws : list object) r :
  In r (importedRows uuid clock u d tableId rws) ->
  tr_tableId r = tableId /\ exists i, i < length rws /\ tr_id r = uuid (u + i).
Proof.
  unfold importedRows. intros Hin. apply list_elem_of_In in Hin.
  apply elem_of_lookup_imap_1 in Hin as (i & row & -> & Hi). split; [done|].
  exists i. split; [by apply lookup_lt_Some in Hi|done].
Qed.

Lemma importedRows_shown u d tableId (rws : list object) :
  map shownRow (importedRows uuid clock u d tableId rws) =
  map (fun r => Format.Row (Some r)) rws.
Proof.
  unfold importedRows. revert u d. induction rws as [|row rws IH]; intros u d; [done|].
  cbn [imap map]. f_equal. rewrite <- (IH (S u) (S d)). f_equal.
  apply imap_ext. intros i r _. simpl. by rewrite !Nat.add_succ_r.
Qed.

End ImportShown.

(** X24. A table that has been imported is shown as it was extracted. For
    a table of a CSV file or of a text, when
    the table has a name that no stored table has, the store is consistent
    and the identifiers drawn for the table and its rows are new and differ
    from one another, the import creates the table, and [show_table] on its
    name then answers with the name, the columns and the rows that the
    extractor returned, in their order, formatted. *)
Theorem imported_table_is_shown
    (uuid : nat -> string) (clock : nat -> Z)
    (validated : Server.InsertChatMessage) (userMessage : Server.ChatMessage)
    (host : string -> bool)
    (defaultDb : Server.Database) (tableData : Extract.ExtractedTable) (w : Server.world) :
  ofCsvOrText host tableData ->
  Extract.name tableData <> "" ->
  Server.findTable (Server.values (Server.tables (Server.mem w))) (Extract.name tableData)
    = None ->
  consistent w ->
  Server.get (Server.tables (Server.mem w)) (uuid (Server.uuids w)) = None ->
  (forall i, i < length (Extract.rows tableData) ->
             Server.get (Server.rows (Server.mem w)) (uuid (S (Server.uuids w) + i)) = None) ->
  List.NoDup (map uuid (seq (S (Server.uuids w)) (length (Extract.rows tableData)))) ->
  exists table w1 w2,
    Upload.importTable uuid clock defaultDb tableData w = (Extract.Ok (Some table), w1) /\
    Server.execute uuid clock validated userMessage "show_table"
      (DTableName (Extract.name tableData)) w1 =
      (Extract.Ok
         (inr (generateChatResponse "show_table" (DTableName (Extract.name tableData))
                 (Some (ExecResult
                          (Some (TableInfo (Extract.name tableData)
                                   (Some (Extract.columns tableData))))
                          (Some (map (fun r => Row (Some r)) (Extract.rows tableData))))))),
       w2).
Proof.
  intros _ Hn Hf Hc Hgt Hgr Hnd.
  destruct (importNamed_run uuid clock defaultDb tableData (Extract.name tableData) w)
    as (imported & d & n & Hrun & Hcase).
  destruct imported as [table|]; [|by destruct Hcase].
  destruct Hcase as [-> Htable].
  exists table. eexists. eexists. split.
  { unfold Upload.importTable.
    replace (Str.is_empty (Extract.name tableData)) with false
      by (by destruct (Extract.name tableData)).
    erewrite bind_run; [|reflexivity]. exact Hrun. }
  assert (Hid : Server.tb_id table = uuid (Server.uuids w)) by (by rewrite Htable).
  assert (Hname : Server.tb_name table = Extract.name tableData) by (by rewrite Htable).
  unfold Server.execute. decide_action. cbn [andb d_tableName d_name Server.d_databaseName].
  rewrite (present_text _ Hn). cbn [Server.present andb]. cbv beta iota.
  unfold Server.showTableBranch, Server.try_catch.
  cbv [mbind Server.Rt_bind Server.bind Server.getTables Server.reads].
  cbn [d_tableName Server.text_of default from_option id Server.mem].
  rewrite tables_with_rows.
  replace (Server.tables (Server.with_tables _ (Server.mem w)))
    with (Server.set (Server.tables (Server.mem w)) (Server.tb_id table) table)
    by (by destruct (Server.mem w)).
  rewrite Hid, (values_set_new _ _ _ Hgt). unfold Server.findTable in *.
  rewrite find_app, Hf. cbn [List.find]. rewrite Hname.
  replace (Server.same_name (Extract.name tableData) (Extract.name tableData)) with true
    by (unfold Server.same_name, Str.eqb; by rewrite String.eqb_refl).
  cbv [Server.getRows Server.reads Server.say mret Server.Rt_ret Server.ret].
  cbv beta iota. cbn [Server.mem]. rewrite rows_with_rows.
  replace (Server.rows (Server.with_tables _ (Server.mem w)))
    with (Server.rows (Server.mem w)) by (by destruct (Server.mem w)).
  rewrite Hid, values_sets_new; cycle 1.
  { intros r Hr. apply importedRows_In in Hr as (_ & i & Hi & ->).
    by apply Hgr. }
  { by rewrite importedRows_ids. }
  rewrite List.filter_app.
  rewrite filter_none; cycle 1.
  { intros r Hr. apply not_true_is_false. intros E. unfold Str.eqb in E. apply String.eqb_eq in E.
    destruct Hc as ((_ & Kt & _) & _ & _ & Hrows).
    destruct (Hrows r Hr) as (t & Ht & Ht').
    apply In_values in Ht as (k & Hk). pose proof (Kt _ _ Hk) as Hkey.
    apply (in_map fst) in Hk. simpl in Hk. apply get_key in Hk as (v & Hv).
    congruence. }
  rewrite filter_all; cycle 1.
  { intros r Hr. apply importedRows_In in Hr as (-> & _).
    unfold Str.eqb. apply String.eqb_refl. }
  cbn [app]. rewrite importedRows_shown. unfold Server.shownTable.
  rewrite Hname, Htable. cbn [Server.tb_columns]. rewrite map_map. cbn [Server.sc_column].
  rewrite map_id. reflexivity.
Qed.

(** X22 at the store of the school and the table of a CSV file of marks. *)
Lemma upload_import_never_fails_witness :
  exists createdTables w',
    Upload.importTables uuid0 clock0 [marksTable] studentWorld =
      (Extract.Ok (Some createdTables), w') /\
    length createdTables <= length [marksTable].
Proof.
  apply (upload_import_never_fails uuid0 clock0 (fun _ => false) [marksTable] studentWorld).
  constructor; [|constructor]. left. exists marksCsv. by vm_compute.
Defined.

(** X24 at the store of the school and the table of a CSV file of marks
    with two rows. *)
Lemma imported_table_is_shown_witness :
  exists table w1 w2,
    Upload.importTable uuid0 clock0 schoolDatabase marksTable studentWorld =
      (Extract.Ok (Some table), w1) /\
    Server.execute uuid0 clock0 (Server.NewMessage Server.Null "show imported_csv" "user")
      (Server.Message "m0" None "show imported_csv" "user" 0) "show_table"
      (DTableName (Extract.name marksTable)) w1 =
      (Extract.Ok
         (inr (generateChatResponse "show_table" (DTableName (Extract.name marksTable))
                 (Some (ExecResult
                          (Some (TableInfo (Extract.name marksTable)
                                   (Some (Extract.columns marksTable))))
                          (Some (map (fun r => Row (Some r)) (Extract.rows marksTable))))))),
       w2).
Proof.
  apply (imported_table_is_shown uuid0 clock0
           (Server.NewMessage Server.Null "show imported_csv" "user")
           (Server.Message "m0" None "show imported_csv" "user" 0)
           (fun _ => false) schoolDatabase marksTable studentWorld).
  - left. exists marksCsv. by vm_compute.
  - done.
  - reflexivity.
  - split; [repeat split; by intros ? ? [[= <- <-] | []]|]. split; [|split].
    + apply List.NoDup_cons; [by intros []|apply List.NoDup_nil].
    + intros t d [<- | []] [= <-]. exists schoolDatabase. split; [by left|done].
    + intros r [<- | []]. exists studentTable. split; [by left|done].
  - reflexivity.
  - intros [|[|i]] Hi; [reflexivity|reflexivity|simpl in Hi; lia].
  - vm_compute. apply List.NoDup_cons; [by intros [? | []]|].
    apply List.NoDup_cons; [by intros []|apply List.NoDup_nil].
Defined.


(** X26. A database whose name is taken is not created. When a stored
    database has the name given, letter case set aside, the action
    [create_database] leaves the state as it is and answers that the
    database already exists. *)
Theorem create_database_refused_on_taken_name
    (uuid : nat -> string) (clock : nat -> Z)
    (validated : Server.InsertChatMessage) (userMessage : Server.ChatMessage)
    (name : string) (db : Server.Database) (w : Server.world) :
  name <> "" ->
  In db (Server.values (Server.databases (Server.mem w))) ->
  Str.toLowerCase (Server.db_name db) = Str.toLowerCase name ->
  Server.execute uuid clock validated userMessage "create_database" (DName name) w =
    (Extract.Ok
       (inr (Server.CROSS +:+ " Error creating database: Database " +:+ Server.Q +:+ name
             +:+ Server.Q +:+ " already exists")),
     w).
Proof.
  intros Hn Hin Hname.
  unfold Server.execute. decide_action. cbn [andb d_name].
  rewrite (present_text name Hn). cbn [andb]. cbv beta iota.
  unfold Server.createDatabaseBranch, Server.try_catch.
  cbv [mbind Server.Rt_bind Server.bind].
  cbn [d_name Server.text_of default from_option id].
  rewrite createDatabase_run. cbn [Server.idb_name].
  destruct (List.find _ _) eqn:Efind; [reflexivity|].
  exfalso. pose proof (find_none _ _ Efind db Hin) as H. simpl in H.
  unfold Server.same_name, Str.eqb in H. rewrite Hname, String.eqb_refl in H. done.
Qed.


(** X26 at the store of the school and the name [School]. *)
Lemma create_database_refused_on_taken_name_witness :
  Server.execute uuid0 clock0 (Server.NewMessage Server.Null "create" "user")
    (Server.Message "m0" None "create" "user" 0) "create_database" (DName "School")
    studentWorld =
    (Extract.Ok
       (inr (Server.CROSS +:+ " Error creating database: Database " +:+ Server.Q +:+ "School"
             +:+ Server.Q +:+ " already exists")),
     studentWorld).
Proof.
  apply (create_database_refused_on_taken_name uuid0 clock0
           (Server.NewMessage Server.Null "create" "user")
           (Server.Message "m0" None "create" "user" 0)
           "School" schoolDatabase studentWorld).
  - done.
  - by left.
  - reflexivity.
Defined.
